(* ===== verification/_CoqProject ===== *)
-Q . S2P
Prelude.v
JsValue.v
JsText.v
Zod.v
IndexerConfig.v
IndexerStore.v
IndexerWorld.v
BackendClient.v
EventHandlers.v
Listener.v
IndexerMirror.v
Scenario.v
ScanSafety.v
ScanInvariant.v
IndexerTypes.v
IndexerHistory.v
IndexerRecovery.v
Webhooks.v
IndexerClients.v
Buffer.v
DerUtils.v
KmsSigner.v
Eip1193.v
SafeConfig.v
SafeOps.v
SafeScripts.v
SafeRuns.v
OracleConfig.v
OracleServer.v
OracleRuns.v
OracleInterleave.v
OracleLedger.v
React.v
FrontendContract.v
FrontendTasks.v
FrontendSession.v
FrontendShell.v
FrontendPages.v
FrontendViews.v
FrontendStatus.v
FrontendEffects.v
FrontendRuns.v
FrontendFiling.v
FrontendTypes.v
FrontendPayments.v
FrontendOverlap.v
EndToEnd.v
Agreement.v
