(* ===== verification/Prelude.v ===== *)
(** * DICS v2, the JavaScript services: a verification library

    DICS v2 is a claims system around two Solidity contracts.  Its JavaScript
    parts, modelled here, meet only through the chain, a backend and a
    database:

    - src/indexer reads the contracts' logs, keeps four PostgreSQL tables
      (checkpoints, raw events, claims, policies) and notifies the backend;
    - src/oracle-service answers [POST /verify]: it decides on a claim, signs
      the decision as EIP-712 typed data and submits it to the adapter;
    - src/safe-ops deploys and operates the underwriters' Safe from the
      command line, with owner keys held in AWS KMS;
    - src/frontend files claims, buys policies, pays premiums and asks for
      verifications from a browser wallet.

    ** How the code is modelled

    A JavaScript function is a Rocq function on the state of its service,
    [Js S A := S → outcome A * S]: a throw keeps the effects made before it,
    as a rejected promise does.  A package, a remote service, the clock and
    every random source are parameters, collected in one record of
    operations per service ([Env], [Services], [OpsEnv], [OracleEnv],
    [WebEnv]); what they answer depends on a tick that every call advances,
    so a theorem quantified over the record covers every schedule of answers
    and failures.  What a theorem needs of them is a named hypothesis or
    class ([ZodLaws], [EcdsaLaws], [ClaimsApi], [PgLaws], [ReactLaws],
    [BackendTypes], ...), and each such
    theorem has a witness on a concrete instance.  Every call that leaves the
    process is recorded in order in the state, and the safety theorems speak
    of these records.

    ** The files

    Shared: [Prelude] (the monad, [moves], [no_fuel] and their automation),
    [JsValue] (values, property access, number and JSON text, 32-bit
    operators), [JsText] ([split], [trim], [parseInt], [Number]), [Buffer]
    (bytes, hex, BigInt text), [Zod] (schemas as data, the parser as a
    class, one reference parser).

    Indexer: [IndexerConfig] is config.js; [IndexerStore] is sql/schema.sql
    and every SQL statement of the sources ([Stmt], [exec]); [IndexerWorld]
    the external services; [BackendClient] is backendClient.js;
    [EventHandlers] is eventHandlers.js and rpcClient.js, one definition per
    handler; [Listener] is checkpoint.js and listener.js ([scan_chunks],
    [scanContract], [runOnePass], [mainLoop]) and the processes that run it
    ([lives]): any number, one after the other, each stopped between two
    iterations or killed at a tick of its own, also between two awaits of a
    handler.  [ScanSafety] and
    [ScanInvariant] prove, for every schedule of failures, kills and
    restarts, that scans terminate, checkpoints never decrease, everything
    below a checkpoint is indexed, an event recorded once is never processed
    again, and which logs a scan can never get past.  [IndexerTypes] proves the
    tables' integrity, whatever happens: every claim and policy row is, column
    by column, the projection of a recorded raw event.  [IndexerMirror] is the
    abstract specification (the effect of a chain event in plain map algebra,
    whole or cut short: its [Fate]), [IndexerHistory] the index as a history
    of such events, and [IndexerRecovery] the refinement: whatever fails,
    tables and notifications are those of a prefix of the chain's events, each
    once, and what was cut short was cut by one failed call or one killed
    process of its own; a pass in which every call is answered processes
    whole what it reaches, up to the safe head or to a log the code cannot
    process.  [Webhooks] describes every request to the
    backend, [IndexerClients] the pool of db.js and the provider of
    rpcClient.js.  [Scenario] is the concrete world of the witnesses.

    Safe operations: [DerUtils] is derUtils.js, proved inverse to a DER
    encoder; [KmsSigner] is kmsSigner.js (what is signed, low-s, recovery to
    the own address); [Eip1193] is eip1193FromKmsSigner.js (its signatures
    recover to the account it reports); [SafeConfig] is
    config.js; [SafeOps] is signAndExecute.js (nothing is executed without a
    quorum); [SafeScripts] has the [main] of the six scripts and [SafeRuns]
    what their runs can create, execute, deploy and grant.

    Oracle: [OracleConfig] is config.js and auth.js (the API key check is
    exact); [OracleServer] is verificationLogic.js, signer.js, chainClient.js
    and server.js, the handler both whole ([verify]) and cut at its awaits
    ([advance]); [OracleRuns] gives its outcome on every branch and
    [OracleInterleave] the invariant of any interleaving of requests.
    [OracleLedger] is the abstract specification, a ledger of the requests that
    arrived, which attests a decision for one of them at most once, only if
    it had the key and a valid body, and relays it at most once; and the
    refinement: every step of interleaved handlers is a step of the ledger, or
    none.

    Frontend: [React] is the interface to what React shows or refuses;
    [FrontendContract] is api/client.js and api/contract.js, with its calls
    checked against its ABIs; [FrontendTasks] the handlers that give way at
    their awaits: a [Task] proved equal to the handler run alone
    ([realizes]), and the pool in which tasks overlap ([pool_step]);
    [FrontendSession] is useWallet.js and AuthContext.jsx, with the context
    and [useAuth]; [FrontendShell] is the route table of App.jsx and the wallet
    button, and proves at every await of a login that a token belongs to the
    address and message that were signed; [FrontendPages] has
    the state and handlers of the pages and badges and [FrontendViews] what a
    state shows (texts, buttons and labels, or a render that throws);
    [FrontendPayments] has the handlers and effects of the catalog, the
    dashboard and the badge as tasks: one payment after the other, each for
    what the pressed button showed, and the badge's error that stays;
    [FrontendTypes] and [FrontendOverlap] prove that with a backend true to its
    response models no overlap of handlers and effects leaves a page that
    throws, and that a validation error of FastAPI does leave one;
    [FrontendStatus] the claim page with overlapping handlers (one idempotency
    key, one claim); [FrontendEffects] the loading effects with answers in any
    order; [FrontendRuns] the payments and the filing of a claim, call by call
    and stopping at the first that is rejected;
    [FrontendFiling] the claim form over the life of its page.

    [EndToEnd] composes frontend, contract and indexer: a filing shown as done
    is accounted for by the index, and unless a failure cut it short it is a
    row and a notification under the merkle root the form posted.  [Agreement] relates the tables that three services keep of the
    contract's status enum.

    ** Loops and fuel

    Where the source loops, the model has fuel and [OutOfFuel] marks its
    exhaustion, never caught by a [try].  A scan gets one unit per block up
    to the safe head ([scan_fuel]), enough because an accepted
    configuration has a positive chunk size ([mainLoop_survives]).  The
    identifier loop of the oracle gets one unit more than there are issued
    identifiers, enough when the random source does not repeat within one
    draw ([generateRequestId_total]).  [toString(16)] gets one unit per
    binary digit ([hex_fuel_enough]).  The main loop of the indexer, endless in the source, runs for an
    arbitrary number of iterations, and the theorems hold for each.

    ** Bounds

    Integers are [Z]; where JavaScript's 32-bit operators or a column's width
    matters they are wrapped or checked as the code and the database do.
    Numbers are integers or binary64 values ([num]); integer sums and
    products of the sources stay in the exact range under the bounds the
    theorems state.  Text is ASCII: lengths and indices count bytes, except
    for UTF-8 encoding in the API-key check.

    ** Not modelled

    Two indexer processes over the same tables at the same time (one runs
    after the other has ended).  A failed statement is taken to have had its
    whole effect or none; statements that the server rejects change nothing.

    The Solidity contracts, the Python backend and the C#, Go and Java
    services (other languages; only their documented answers appear, as
    hypotheses); infrastructure and deployment files; the tags, styles and
    fixed texts of the pages and the printing of dates; process start-up
    (opening sockets, mounting React).  A page may be rendered between two
    setters of one segment; the theorems speak of its states between handlers
    and at every await.  React is
    taken to run handlers and effects on the values of the page they are
    shown on.  The pages are taken to be served in a secure context (https or
    localhost), where [crypto.randomUUID] exists. *)

From Stdlib Require Export ZArith Lia.
From stdpp Require Export base tactics list gmap strings option relations.

#[global] Open Scope Z_scope.

(** ** Exceptions and outcomes

    A JavaScript function either returns or throws.  [OutOfFuel] is not a
    JavaScript exception: it marks a loop whose fuel ran out, and every loop
    of the development comes with a theorem that it is never reached. *)
Inductive exn :=
  | JsError (msg : string)        (** [throw new Error(msg)] *)
  | TypeError (msg : string)      (** raised by the language itself *)
  | ServiceError (who : string)   (** a rejected promise of an external service *)
  | ProcessExit (code : Z)        (** [process.exit(code)] *)
  | OutOfFuel.

#[global] Instance exn_eq_dec : EqDecision exn.
Proof. solve_decision. Defined.

Inductive outcome (A : Type) :=
  | Ok (a : A)
  | Throw (e : exn).
Arguments Ok {A} _.
Arguments Throw {A} _.

(** An [async] function: state passing with exceptions.  A throw keeps the
    state reached so far, as a rejected promise keeps the side effects made
    before it. *)
Definition Js (S A : Type) : Type := S → outcome A * S.

#[global] Instance js_ret {S} : MRet (Js S) := λ A a s, (Ok a, s).
#[global] Instance js_bind {S} : MBind (Js S) := λ A B k m s,
  match m s with
  | (Ok a, s') => k a s'
  | (Throw e, s') => (Throw e, s')
  end.

Definition throw {S A} (e : exn) : Js S A := λ s, (Throw e, s).
Definition get {S} : Js S S := λ s, (Ok s, s).
Definition modify {S} (f : S → S) : Js S unit := λ s, (Ok tt, f s).

(** [try { m } catch (e) { h e }]; fuel exhaustion is not caught. *)
Definition try_catch {S A} (m : Js S A) (h : exn → Js S A) : Js S A := λ s,
  match m s with
  | (Throw OutOfFuel, s') => (Throw OutOfFuel, s')
  | (Throw e, s') => h e s'
  | r => r
  end.

(** [try { m } finally { f }], for an [f] that cannot fail. *)
Definition finally {S A} (m : Js S A) (f : Js S unit) : Js S A := λ s,
  let '(r, s') := m s in (r, (f s').2).

(** [for (const x of l) { f x }] with [await] in the body. *)
Fixpoint for_each {S A} (f : A → Js S unit) (l : list A) : Js S unit :=
  match l with
  | [] => mret tt
  | x :: l' => f x ;; for_each f l'
  end.

(** A pure computation that may throw, run inside a service. *)
Definition lift {S A} (o : outcome A) : Js S A := λ s, (o, s).

#[global] Instance outcome_ret : MRet outcome := λ A a, Ok a.
#[global] Instance outcome_bind : MBind outcome := λ A B k o,
  match o with Ok a => k a | Throw e => Throw e end.

(** The parts of a pure computation that returned. *)
Lemma outcome_bind_ok {A B} (o : outcome A) (k : A → outcome B) b :
  (o ≫= k) = Ok b → ∃ a, o = Ok a ∧ k a = Ok b.
Proof. destruct o as [a|e]; [|done]. intros H. by exists a. Qed.
Ltac outcome_inv H :=
  repeat match type of H with
  | (_ ≫= _) = Ok _ =>
      let a := fresh "a" in let Ha := fresh "Hret" in
      apply outcome_bind_ok in H as (a & Ha & H)
  end.

(** ** Equations of the monad *)
Section monad_laws.
Context {S : Type}.

Lemma bind_ok {A B} (m : Js S A) (k : A → Js S B) s a s' :
  m s = (Ok a, s') → (m ≫= k) s = k a s'.
Proof. unfold mbind, js_bind. by intros ->. Qed.

Lemma bind_throw {A B} (m : Js S A) (k : A → Js S B) s e s' :
  m s = (Throw e, s') → (m ≫= k) s = (Throw e, s').
Proof. unfold mbind, js_bind. by intros ->. Qed.

Lemma bind_run {A B} (m : Js S A) (k : A → Js S B) s :
  (m ≫= k) s = match m s with (Ok a, s') => k a s' | (Throw e, s') => (Throw e, s') end.
Proof. done. Qed.

Lemma bind_ret {A B} (a : A) (k : A → Js S B) s : (mret a ≫= k) s = k a s.
Proof. done. Qed.
Lemma bind_get {B} (k : S → Js S B) s : (get ≫= k) s = k s s.
Proof. done. Qed.
Lemma bind_modify {B} f (k : unit → Js S B) s : (modify f ≫= k) s = k tt (f s).
Proof. done. Qed.
Lemma bind_lift_ok {A B} (a : A) (k : A → Js S B) s : (lift (Ok a) ≫= k) s = k a s.
Proof. done. Qed.
Lemma bind_lift_throw {A B} e (k : A → Js S B) s : (lift (Throw e) ≫= k) s = (Throw e, s).
Proof. done. Qed.
Lemma lift_ok {A} (o : outcome A) (s : S) a s' : lift o s = (Ok a, s') → o = Ok a ∧ s' = s.
Proof. unfold lift. intros H. by injection H as -> <-. Qed.
Lemma bind_bind {A B C} (m : Js S A) (k : A → Js S B) (k' : B → Js S C) s :
  ((m ≫= k) ≫= k') s = (m ≫= λ a, k a ≫= k') s.
Proof. unfold mbind, js_bind. by destruct (m s) as [[]]. Qed.

Lemma bind_ok_inv {A B} (m : Js S A) (k : A → Js S B) s b s' :
  (m ≫= k) s = (Ok b, s') → ∃ a s1, m s = (Ok a, s1) ∧ k a s1 = (Ok b, s').
Proof. unfold mbind, js_bind. destruct (m s) as [[a|e] s1]; naive_solver. Qed.

Lemma bind_throw_inv {A B} (m : Js S A) (k : A → Js S B) s e s' :
  (m ≫= k) s = (Throw e, s') →
  m s = (Throw e, s') ∨ ∃ a s1, m s = (Ok a, s1) ∧ k a s1 = (Throw e, s').
Proof. unfold mbind, js_bind. destruct (m s) as [[a|e'] s1]; naive_solver. Qed.

Lemma try_catch_never_throws {A} (m : Js S A) h s :
  (m s).1 ≠ Throw OutOfFuel →
  (∀ e s', ∃ a s'', h e s' = (Ok a, s'')) →
  ∃ a s', try_catch m h s = (Ok a, s').
Proof.
  unfold try_catch. intros Hf Hh.
  destruct (m s) as [[a|[]] s1]; simpl in *; eauto; done.
Qed.
End monad_laws.

(** A [try] that returned: the block did, or the handler. *)
Lemma try_catch_ok {S A} (m : Js S A) h s a s' :
  try_catch m h s = (Ok a, s') → m s = (Ok a, s') ∨ ∃ e s1, m s = (Throw e, s1) ∧ h e s1 = (Ok a, s').
Proof. unfold try_catch. destruct (m s) as [[b|[]] s1]; eauto. Qed.


(** ** Relations a computation can only move along

    [moves R m]: whatever [m] does, and whether it returns or throws, the
    state it leaves is related by [R] to the one it started from.  With a
    preorder [R] this composes along the monad; the [moves] hint database
    carries the composition rules, so a component only proves its
    primitives. *)
Definition moves {S A} (R : relation S) (m : Js S A) : Prop :=
  ∀ s, R s (m s).2.

Section moves.
Context {S : Type} (R : relation S) `{!PreOrder R}.

Lemma moves_ret {A} (a : A) : moves R (mret a).
Proof. intros s. by simpl. Qed.
Lemma moves_throw {A} e : moves R (throw e : Js S A).
Proof. intros s. by simpl. Qed.
Lemma moves_lift {A} (o : outcome A) : moves R (lift o).
Proof. intros s. by simpl. Qed.
Lemma moves_get : moves R (@get S).
Proof. intros s. by simpl. Qed.
Lemma moves_bind {A B} (m : Js S A) (k : A → Js S B) :
  moves R m → (∀ a, moves R (k a)) → moves R (m ≫= k).
Proof.
  intros Hm Hk s. specialize (Hm s). unfold mbind, js_bind.
  destruct (m s) as [[a|e] s'] eqn:E; simpl in *; [|done].
  etrans; [exact Hm|]. apply Hk.
Qed.
(** With what is known of the first part's result. *)
Lemma moves_bind_ok {A B} (m : Js S A) (k : A → Js S B) :
  moves R m → (∀ a s s', m s = (Ok a, s') → moves R (k a)) → moves R (m ≫= k).
Proof.
  intros Hm Hk s. specialize (Hm s). unfold mbind, js_bind.
  destruct (m s) as [[a|e] s'] eqn:E; simpl in *; [|done].
  etrans; [exact Hm|]. by eapply Hk.
Qed.
Lemma moves_bind_lift {A B} (o : outcome A) (k : A → Js S B) :
  (∀ a, o = Ok a → moves R (k a)) → moves R (lift o ≫= k).
Proof. intros Hk s. destruct o as [a|e]; [by apply (Hk a)|by simpl]. Qed.
Lemma moves_try {A} (m : Js S A) h :
  moves R m → (∀ e, moves R (h e)) → moves R (try_catch m h).
Proof.
  intros Hm Hh s. specialize (Hm s). unfold try_catch.
  destruct (m s) as [[a|[]] s']; simpl in *; try done;
    (etrans; [exact Hm|]; apply Hh).
Qed.
Lemma moves_finally {A} (m : Js S A) f : moves R m → moves R f → moves R (finally m f).
Proof.
  intros Hm Hf s. unfold finally. specialize (Hm s). destruct (m s) as [r s']. etrans; [exact Hm|]. apply Hf.
Qed.
Lemma moves_for_each {A} (f : A → Js S unit) l :
  (∀ x, moves R (f x)) → moves R (for_each f l).
Proof.
  intros Hf. induction l as [|x l IH]; simpl;
    [apply moves_ret | apply moves_bind; [apply Hf | done]].
Qed.
Lemma moves_modify (f : S → S) : (∀ s, R s (f s)) → moves R (modify f).
Proof. intros Hf s. apply Hf. Qed.
End moves.

Lemma moves_weaken {S A} (R R' : relation S) (m : Js S A) :
  (∀ s s', R s s' → R' s s') → moves R m → moves R' m.
Proof. intros HR Hm s. apply HR, Hm. Qed.

Create HintDb moves discriminated.
#[export] Hint Resolve moves_ret moves_throw moves_lift moves_get moves_bind
  moves_try moves_for_each : moves.
#[export] Hint Constants Opaque : moves.

(** Peel one [moves] goal structurally: a bind, a branch, or a known
    primitive. *)
Ltac moves_step :=
  match goal with
  | |- moves _ (if ?b then _ else _) => destruct b
  | |- moves _ (match ?x with _ => _ end) => destruct x
  | |- moves _ (_ ≫= _) => apply moves_bind; [try apply _ | | intros ?]
  | |- moves _ (try_catch _ _) => apply moves_try; [try apply _ | | intros ?]
  | |- moves _ (finally _ _) => apply moves_finally; [try apply _ | | ]
  | |- moves _ (for_each _ _) => apply moves_for_each; [try apply _ | intros ?]
  | |- moves _ _ => solve [eauto with moves typeclass_instances]
  end.
Ltac solve_moves := repeat moves_step.

(** ** Computations that never run out of fuel *)
Definition no_fuel {S A} (m : Js S A) : Prop := ∀ s, (m s).1 ≠ Throw OutOfFuel.

Section no_fuel.
Context {S : Type}.
Lemma no_fuel_ret {A} (a : A) : no_fuel (mret a : Js S A).
Proof. intros s. discriminate. Qed.
Lemma no_fuel_throw {A} e : e ≠ OutOfFuel → no_fuel (throw e : Js S A).
Proof. intros H s. simpl. congruence. Qed.
Lemma no_fuel_lift {A} (o : outcome A) : o ≠ Throw OutOfFuel → no_fuel (lift o : Js S A).
Proof. intros H s. done. Qed.
Lemma no_fuel_get : no_fuel (@get S).
Proof. intros s. discriminate. Qed.
Lemma no_fuel_modify f : no_fuel (@modify S f).
Proof. intros s. discriminate. Qed.
Lemma no_fuel_bind {A B} (m : Js S A) (k : A → Js S B) :
  no_fuel m → (∀ a, no_fuel (k a)) → no_fuel (m ≫= k).
Proof.
  intros Hm Hk s. specialize (Hm s). unfold mbind, js_bind.
  destruct (m s) as [[a|e] s']; simpl in *; [apply Hk|congruence].
Qed.
Lemma no_fuel_try {A} (m : Js S A) h :
  no_fuel m → (∀ e, no_fuel (h e)) → no_fuel (try_catch m h).
Proof.
  intros Hm Hh s. specialize (Hm s). unfold try_catch.
  destruct (m s) as [[a|[]] s']; simpl in *; try discriminate; try apply Hh; done.
Qed.
End no_fuel.

Create HintDb no_fuel discriminated.
#[export] Hint Resolve no_fuel_ret no_fuel_get no_fuel_modify no_fuel_throw no_fuel_lift : no_fuel.
#[export] Hint Extern 1 (_ ≠ OutOfFuel) => discriminate : no_fuel.
#[export] Hint Constants Opaque : no_fuel.
Ltac no_fuel_step :=
  match goal with
  | |- no_fuel (if ?b then _ else _) => destruct b
  | |- no_fuel (match ?x with _ => _ end) => destruct x
  | |- no_fuel (_ ≫= _) => apply no_fuel_bind; [|intros ?]
  | |- no_fuel (try_catch _ _) => apply no_fuel_try; [|intros ?]
  | |- no_fuel _ => solve [eauto with no_fuel]
  end.
Ltac solve_no_fuel := repeat no_fuel_step.

(** ** Inverting and evaluating runs *)

(** Split a hypothesis [(x ← m; k) s = (Ok _, _)] into the runs of its
    parts. *)
Ltac js_inv H :=
  let a := fresh "a" in let s := fresh "s" in
  let H1 := fresh "Hrun" in let H2 := fresh "Hrun" in
  apply bind_ok_inv in H as (a & s & H1 & H2).

(** All of them, the last part's run under the name of the whole. *)
Ltac js_invs H :=
  repeat match type of H with
  | (_ ≫= _) _ = (Ok _, _) =>
      let a := fresh "a" in let s := fresh "s" in let Hr := fresh "Hrun" in
      apply bind_ok_inv in H as (a & s & Hr & H)
  end.

(** Steps of a run that cannot fail. *)
Create HintDb js.
#[export] Hint Rewrite @bind_ret @bind_get @bind_modify @bind_lift_ok @bind_lift_throw
  @bind_bind : js.
Ltac js_simpl := autorewrite with js; cbv beta.
