(* ===== verification/JsValue.v ===== *)
(** * The fragment of JavaScript the services use

    Values, property access, strings, [toString], [JSON.stringify],
    [parseInt] and the 32-bit operators, as ECMAScript defines them.
    Everything here is the language: nothing in this file models code of a
    package. *)

From S2P Require Import Prelude.
From Stdlib Require Import DecimalString DecimalZ DecimalFacts SpecFloat.
From Stdlib Require Import Ascii.

(** ** Numbers and values

    [Int z] is a Number holding the integer [z] with [|z| < 2^53] (exactly
    representable, and every arithmetic step of the modelled code stays in
    that range); [Flt f] is any other Number: a fraction, an infinity,
    [NaN], in IEEE binary64. *)
Inductive num :=
  | Int (z : Z)
  | Flt (f : spec_float).

Definition NaN : num := Flt S754_nan.

Inductive jsval :=
  | VUndef
  | VNull
  | VBool (b : bool)
  | VNum (n : num)
  | VBigInt (z : Z)
  | VStr (s : string)
  | VObj (fields : list (string * jsval))
  | VArr (elems : list jsval).

(** Induction through the members of objects and arrays. *)
Section jsval_nested_ind.
Context (P : jsval → Prop).
Context (HUndef : P VUndef) (HNull : P VNull) (HBool : ∀ b, P (VBool b))
  (HNum : ∀ n, P (VNum n)) (HBig : ∀ z, P (VBigInt z)) (HStr : ∀ s, P (VStr s))
  (HObj : ∀ fs, Forall (λ kv, P kv.2) fs → P (VObj fs))
  (HArr : ∀ l, Forall P l → P (VArr l)).
Fixpoint jsval_nested_ind (v : jsval) : P v :=
  match v with
  | VUndef => HUndef | VNull => HNull | VBool b => HBool b
  | VNum n => HNum n | VBigInt z => HBig z | VStr s => HStr s
  | VObj fs =>
      HObj fs ((fix go (fs : list (string * jsval)) : Forall (λ kv, P kv.2) fs :=
        match fs with
        | [] => Forall_nil_2 _
        | kv :: fs => Forall_cons_2 _ kv fs
            (match kv return P kv.2 with (_, v) => jsval_nested_ind v end) (go fs)
        end) fs)
  | VArr l =>
      HArr l ((fix go (l : list jsval) : Forall P l :=
        match l with
        | [] => Forall_nil_2 _
        | v :: l => Forall_cons_2 _ v l (jsval_nested_ind v) (go l)
        end) l)
  end.
End jsval_nested_ind.

(** First binding of a key in an object literal's fields. *)
Fixpoint assoc {A} (k : string) (l : list (string * A)) : option A :=
  match l with
  | [] => None
  | (k', a) :: l' => if decide (k = k') then Some a else assoc k l'
  end.

(** [v.k] *)
Definition js_get (v : jsval) (k : string) : outcome jsval :=
  match v with
  | VUndef => Throw (TypeError ("Cannot read properties of undefined (reading '" +:+ k +:+ "')"))
  | VNull => Throw (TypeError ("Cannot read properties of null (reading '" +:+ k +:+ "')"))
  | VObj fields => Ok (default VUndef (assoc k fields))
  | _ => Ok VUndef
  end.

(** ** Decimal text of integers *)

Definition dec (z : Z) : string := NilZero.string_of_int (Z.to_int z).
Definition undec (s : string) : option Z := Z.of_int <$> NilZero.int_of_string s.

Lemma undec_dec z : undec (dec z) = Some z.
Proof.
  unfold undec, dec. rewrite NilZero.isi.
  - simpl. by rewrite DecimalZ.of_to.
  - intros H. pose proof (DecimalZ.of_to z) as Hz. rewrite H in Hz. simpl in Hz. by subst.
  - intros H. pose proof (DecimalZ.of_to z) as Hz. rewrite H in Hz. simpl in Hz. by subst.
Qed.

#[global] Instance dec_inj : Inj (=) (=) dec.
Proof. intros x y H. apply (f_equal undec) in H. rewrite !undec_dec in H. by simplify_eq. Qed.

(** ** Number to string (ECMAScript Number::toString)

    The shortest digits that read back as the same binary64 value. *)
Section float_to_string.
(** nearest integers of [num/den] from below and above *)
Definition digits_text (z : Z) : string := dec z.

(** [m * 2^e] as a fraction of integers, after scaling by [10^p]. *)
Definition scaled (m e p : Z) : Z * Z :=
  let '(n, d) := if 0 <=? e then (m * 2 ^ e, 1) else (m, 2 ^ (- e)) in
  if 0 <=? p then (n * 10 ^ p, d) else (n, d * 10 ^ (- p)).

(** Does the decimal [s * 10^q] round to the double [m * 2^e]? *)
Definition reads_back (m e s q : Z) : bool :=
  let '(cn, cd) := if 0 <=? q then (s * 10 ^ q, 1) else (s, 10 ^ (- q)) in
  let lo := if (m =? 2 ^ 52) && (-1074 <? e) then 4 * m - 1 else 4 * m - 2 in
  let hi := 4 * m + 2 in
  let '(un, ud) := if 0 <=? e - 2 then (2 ^ (e - 2), 1) else (1, 2 ^ (2 - e)) in
  (* lo * un/ud  <(=)  cn/cd  <(=)  hi * un/ud *)
  if Z.even m then (lo * un * cd <=? cn * ud) && (cn * ud <=? hi * un * cd)
  else (lo * un * cd <? cn * ud) && (cn * ud <? hi * un * cd).

(** The decimal exponent [n] with [10^(n-1) <= m*2^e < 10^n]. *)
Fixpoint dec_exponent (fuel : nat) (m e n : Z) : Z :=
  match fuel with
  | O => n
  | S fuel =>
      let '(a, b) := scaled m e (- n) in          (* value / 10^n *)
      if b <=? a then dec_exponent fuel m e (n + 1)
      else if a * 10 <? b then dec_exponent fuel m e (n - 1) else n
  end.

(** Smallest [k] and its digit string [s]: [(s, k)]. *)
Fixpoint shortest (fuel : nat) (k : Z) (m e n : Z) : Z * Z :=
  match fuel with
  | O => (0, 1)
  | S fuel =>
      let '(a, b) := scaled m e (k - n) in
      let lo := a / b in
      let hi := lo + 1 in
      let okl := reads_back m e lo (n - k) in
      let okh := reads_back m e hi (n - k) in
      let closer_lo := 2 * (a - lo * b) <? b in
      let tie := 2 * (a - lo * b) =? b in
      let prefer_lo := closer_lo || (tie && Z.even lo) in
      if okl && (prefer_lo || negb okh) then (lo, k)
      else if okh then (hi, k)
      else shortest fuel (k + 1) m e n
  end.

Fixpoint repeat_char (c : ascii) (n : nat) : string :=
  match n with O => "" | S n => String c (repeat_char c n) end.
Definition zeros (n : Z) : string := repeat_char "0"%char (Z.to_nat n).
Definition split_text (s : string) (i : Z) : string * string :=
  (String.substring 0 (Z.to_nat i) s,
   String.substring (Z.to_nat i) (String.length s - Z.to_nat i) s).

Definition format_digits (s k n : Z) : string :=
  let d := digits_text s in
  if (k <=? n) && (n <=? 21) then d +:+ zeros (n - k)
  else if (0 <? n) && (n <=? 21) then
    let '(a, b) := split_text d n in a +:+ "." +:+ b
  else if (-6 <? n) && (n <=? 0) then "0." +:+ zeros (- n) +:+ d
  else
    let ex := (if 0 <=? n - 1 then "e+" else "e-") +:+ dec (Z.abs (n - 1)) in
    if k =? 1 then d +:+ ex
    else let '(a, b) := split_text d 1 in a +:+ "." +:+ b +:+ ex.

Definition float_to_string (f : spec_float) : string :=
  match f with
  | S754_nan => "NaN"
  | S754_zero _ => "0"
  | S754_infinity s => if s then "-Infinity" else "Infinity"
  | S754_finite s m e =>
      let m := Zpos m in
      let n := dec_exponent 700 m e 1 in
      let '(ds, k) := shortest 18 1 m e n in
      (* rounding up may have carried into a new leading digit *)
      let '(ds, n) := if ds =? 10 ^ k then (ds / 10, n + 1) else (ds, n) in
      (if s then "-" else "") +:+ format_digits ds k n
  end.
End float_to_string.

Definition num_to_string (n : num) : string :=
  match n with
  | Int z => dec z
  | Flt f => float_to_string f
  end.

(** [String(v)], and what a template literal [`${v}`] inserts. *)
Fixpoint js_to_string (v : jsval) : string :=
  match v with
  | VUndef => "undefined"
  | VNull => "null"
  | VBool b => if b then "true" else "false"
  | VNum n => num_to_string n
  | VBigInt z => dec z
  | VStr s => s
  | VObj _ => "[object Object]"
  | VArr l =>
      let fix join (l : list jsval) : string :=
        match l with
        | [] => ""
        | [v] => match v with VUndef | VNull => "" | _ => js_to_string v end
        | v :: l' =>
            match v with VUndef | VNull => "" | _ => js_to_string v end +:+ "," +:+ join l'
        end in
      join l
  end.

(** [v.toString()] *)
Definition toString (v : jsval) : outcome string :=
  match v with
  | VUndef => Throw (TypeError "Cannot read properties of undefined (reading 'toString')")
  | VNull => Throw (TypeError "Cannot read properties of null (reading 'toString')")
  | _ => Ok (js_to_string v)
  end.

(** ** Truthiness and strings *)

Definition num_truthy (n : num) : bool :=
  match n with
  | Int z => negb (z =? 0)
  | Flt (S754_nan | S754_zero _) => false
  | Flt _ => true
  end.

Definition truthy (v : jsval) : bool :=
  match v with
  | VUndef | VNull => false
  | VBool b => b
  | VNum n => num_truthy n
  | VBigInt z => negb (z =? 0)
  | VStr s => negb (bool_decide (s = ""))
  | VObj _ | VArr _ => true
  end.

(** [s.length] (the text handled is ASCII: one code unit per character) *)
Definition strlen (s : string) : Z := Z.of_nat (String.length s).

(** [s.toLowerCase()] on the ASCII text the services handle (addresses). *)
Definition lower_char (c : ascii) : ascii :=
  let n := Ascii.N_of_ascii c in
  if (65 <=? n)%N && (n <=? 90)%N then Ascii.ascii_of_N (n + 32) else c.

Fixpoint lower (s : string) : string :=
  match s with
  | EmptyString => EmptyString
  | String c s => String (lower_char c) (lower s)
  end.

Lemma lower_char_idemp c : lower_char (lower_char c) = lower_char c.
Proof. destruct c as [[] [] [] [] [] [] [] []]; reflexivity. Qed.

Lemma lower_idemp s : lower (lower s) = lower s.
Proof. induction s as [|c s IH]; simpl; [done|]. by rewrite lower_char_idemp, IH. Qed.

(** [v.toLowerCase()]: a method only strings have. *)
Definition toLowerCase (v : jsval) : outcome string :=
  match v with
  | VStr s => Ok (lower s)
  | VUndef => Throw (TypeError "Cannot read properties of undefined (reading 'toLowerCase')")
  | VNull => Throw (TypeError "Cannot read properties of null (reading 'toLowerCase')")
  | _ => Throw (TypeError "toLowerCase is not a function")
  end.

(** ** Array indexing by an arbitrary value

    [arr[k]] converts [k] to a property key, the decimal text of an integer
    Number or BigInt alike, and reads the element at that index. *)
Definition array_get (l : list jsval) (k : jsval) : jsval :=
  match undec (js_to_string k) with
  | Some z =>
      if (0 <=? z) && bool_decide (dec z = js_to_string k)
      then default VUndef (l !! Z.to_nat z) else VUndef
  | None => VUndef
  end.

(** ** [JSON.stringify], as the tree of the text it prints

    [undefined] members disappear, [NaN] and the infinities become [null],
    and a BigInt anywhere raises a TypeError. *)
Inductive json :=
  | JNull
  | JBool (b : bool)
  | JNum (n : num)
  | JStr (s : string)
  | JArr (l : list json)
  | JObj (fields : list (string * json)).

Definition json_num (n : num) : json :=
  match n with
  | Flt (S754_nan | S754_infinity _) => JNull
  | _ => JNum n
  end.

Fixpoint stringify (v : jsval) : outcome (option json) :=
  match v with
  | VUndef => Ok None
  | VNull => Ok (Some JNull)
  | VBool b => Ok (Some (JBool b))
  | VNum n => Ok (Some (json_num n))
  | VBigInt _ => Throw (TypeError "Do not know how to serialize a BigInt")
  | VStr s => Ok (Some (JStr s))
  | VArr l =>
      let fix go (l : list jsval) : outcome (list json) :=
        match l with
        | [] => Ok []
        | v :: l' => j ← stringify v; js ← go l'; Ok (default JNull j :: js)
        end in
      js ← go l; Ok (Some (JArr js))
  | VObj fields =>
      let fix go (l : list (string * jsval)) : outcome (list (string * json)) :=
        match l with
        | [] => Ok []
        | (k, v) :: l' =>
            j ← stringify v; js ← go l';
            Ok (match j with Some j => (k, j) :: js | None => js end)
        end in
      js ← go fields; Ok (Some (JObj js))
  end.

(** The keys of a JSON object. *)
Definition json_keys (j : json) : list string :=
  match j with JObj fields => fields.*1 | _ => [] end.

(** A record of strings stringifies to the same record. *)
Definition str_fields (l : list (string * string)) : list (string * jsval) :=
  prod_map id VStr <$> l.
Definition json_str_fields (l : list (string * string)) : list (string * json) :=
  prod_map id JStr <$> l.

Lemma stringify_str_fields l :
  stringify (VObj (str_fields l)) = Ok (Some (JObj (json_str_fields l))).
Proof.
  simpl. match goal with |- (_ ← ?go _; _) = _ =>
    enough (∀ l, go (str_fields l) = Ok (json_str_fields l)) as -> by done end.
  clear l. intros l. induction l as [|[k s] l IH]; simpl; [done|].
  rewrite IH. done.
Qed.

(** An object with a BigInt member never stringifies. *)
Lemma stringify_bigint_field fields k z :
  (k, VBigInt z) ∈ fields →
  (∀ k' v, (k', v) ∈ fields → v = VBigInt z ∨ ∃ s, v = VStr s) →
  ∃ msg, stringify (VObj fields) = Throw (TypeError msg).
Proof.
  intros Hin Hall. exists "Do not know how to serialize a BigInt". simpl.
  match goal with |- (_ ← ?go _; _) = _ =>
    enough (go fields = Throw (TypeError "Do not know how to serialize a BigInt")) as -> by done end.
  induction fields as [|[k' v] fields IH]; [by apply elem_of_nil in Hin|].
  simpl. destruct (Hall k' v) as [->|[s ->]]; [left|done|]; simpl.
  apply elem_of_cons in Hin as [[=]|Hin]; [].
  rewrite IH; [done|done|]. intros k'' v' H. apply (Hall k'' v'). by right.
Qed.

(** Stringifying raises nothing but a TypeError. *)
Lemma stringify_no_fuel v : stringify v ≠ Throw OutOfFuel.
Proof.
  induction v as [| | | | | |fs IH|l IH] using jsval_nested_ind; simpl; try done.
  - match goal with |- (_ ← ?go _; _) ≠ _ => enough (go fs ≠ Throw OutOfFuel) as H
      by (destruct (go fs); simpl; congruence) end.
    induction IH as [|[k v] fs Hv IH IH2]; simpl in *; [done|].
    destruct (stringify v) as [j|e]; simpl; [|congruence].
    match goal with |- (_ ← ?x; _) ≠ _ => destruct x end; simpl; congruence.
  - match goal with |- (_ ← ?go _; _) ≠ _ => enough (go l ≠ Throw OutOfFuel) as H
      by (destruct (go l); simpl; congruence) end.
    induction IH as [|v l Hv IH IH2]; simpl in *; [done|].
    destruct (stringify v) as [j|e]; simpl; [|congruence].
    match goal with |- (_ ← ?x; _) ≠ _ => destruct x end; simpl; congruence.
Qed.

Lemma js_get_no_fuel v k : js_get v k ≠ Throw OutOfFuel.
Proof. by destruct v. Qed.
Lemma toString_no_fuel v : toString v ≠ Throw OutOfFuel.
Proof. by destruct v. Qed.
Lemma toLowerCase_no_fuel v : toLowerCase v ≠ Throw OutOfFuel.
Proof. by destruct v. Qed.
#[export] Hint Resolve stringify_no_fuel js_get_no_fuel toString_no_fuel toLowerCase_no_fuel : no_fuel.
