(* ===== verification/JsText.v ===== *)
(** * Text functions of JavaScript

    [split] on one character, [trim], [parseInt(s, 10)] and [Number(s)], on
    ASCII text, with the laws the clients use. *)

From S2P Require Import Prelude JsValue.
From Stdlib Require Import Strings.Ascii SpecFloat.

(** [s.split(c)] *)
Fixpoint split (c : ascii) (s : string) : list string :=
  match s with
  | EmptyString => [""]
  | String x s' =>
      if decide (x = c) then "" :: split c s'
      else match split c s' with
           | [] => [String x EmptyString]
           | p :: ps => String x p :: ps
           end
  end.

(** [l.join(c)] *)
Fixpoint join (c : ascii) (l : list string) : string :=
  match l with
  | [] => ""
  | [s] => s
  | s :: l => s +:+ String c (join c l)
  end.

(** The ASCII white space and line terminators [trim] removes. *)
Definition is_space (c : ascii) : bool :=
  let n := N_of_ascii c in ((9 <=? n) && (n <=? 13) || (n =? 32))%N.

Fixpoint trimStart (s : string) : string :=
  match s with
  | String c s' => if is_space c then trimStart s' else s
  | EmptyString => EmptyString
  end.
Fixpoint trimEnd (s : string) : string :=
  match s with
  | String c s' =>
      match trimEnd s' with
      | EmptyString => if is_space c then EmptyString else String c EmptyString
      | t => String c t
      end
  | EmptyString => EmptyString
  end.
Definition trim (s : string) : string := trimEnd (trimStart s).

(** The characters of a string. *)
Fixpoint chars (s : string) : list ascii :=
  match s with EmptyString => [] | String c s => c :: chars s end.

(** [parseInt(s, 10)]: white space, a sign, digits; the rest is ignored. *)
Definition digit (c : ascii) : option Z :=
  let n := Z.of_N (N_of_ascii c) in
  if (48 <=? n) && (n <=? 57) then Some (n - 48) else None.
Fixpoint digits (s : string) (acc : option Z) : option Z :=
  match s with
  | String c s' =>
      match digit c with
      | Some d => digits s' (Some (default 0 acc * 10 + d))
      | None => acc
      end
  | EmptyString => acc
  end.
(** The Number nearest to an integer. *)
Definition num_of_Z (z : Z) : num :=
  if Z.abs z <=? 2 ^ 53 then Int z else Flt (binary_normalize 53 1024 z 0 false).
Definition parseInt (s : string) : num :=
  let '(sign, t) :=
    match trimStart s with
    | String "-" t => (-1, t)
    | String "+" t => (1, t)
    | t => (1, t)
    end in
  match digits t None with
  | Some z => num_of_Z (sign * z)
  | None => NaN
  end.

(** ** [Number(s)] of a text *)

(** The digits a text starts with: their value added to [acc], their number
    added to [n], and the rest. *)
Fixpoint take_digits (s : string) (acc n : Z) : Z * Z * string :=
  match s with
  | String c s' =>
      match digit c with
      | Some d => take_digits s' (acc * 10 + d) (n + 1)
      | None => (acc, n, s)
      end
  | EmptyString => (acc, n, s)
  end.

(** An unsigned decimal literal as [m * 10^e]. *)
Definition decimal_literal (s : string) : option (Z * Z) :=
  let '(i, ni, r) := take_digits s 0 0 in
  let '(m, nf, r) := match r with String "." r => take_digits r i 0 | _ => (i, 0, r) end in
  if ni + nf =? 0 then None
  else match r with
       | EmptyString => Some (m, - nf)
       | String ("e" | "E") r =>
           let '(sign, r) := match r with String "-" r => (-1, r) | String "+" r => (1, r) | _ => (1, r) end in
           let '(x, nx, r) := take_digits r 0 0 in
           if (0 <? nx) && bool_decide (r = "") then Some (m, sign * x - nf) else None
       | _ => None
       end.

(** The Number nearest to [m * 10^e], for [m] not negative: the quotient is
    taken with a sticky bit and at least eleven bits to spare. *)
Definition num_of_decimal (m e : Z) : num :=
  if 0 <=? e then num_of_Z (m * 10 ^ e)
  else
    let d := 10 ^ (- e) in
    if m mod d =? 0 then num_of_Z (m / d)
    else
      let s := Z.max 0 (Z.log2 d - Z.log2 m + 66) in
      let q := m * 2 ^ s / d in
      let sticky := if m * 2 ^ s mod d =? 0 then 0 else 1 in
      Flt (binary_normalize 53 1024 (2 * q + sticky) (- (s + 1)) false).

Definition num_opp (n : num) : num :=
  match n with
  | Int 0 => Flt (S754_zero true)
  | Int z => Int (- z)
  | Flt f => Flt (SFopp f)
  end.

Definition unsigned_number (s : string) : num :=
  if bool_decide (s = "Infinity") then Flt (S754_infinity false)
  else match decimal_literal s with Some (m, e) => num_of_decimal m e | None => NaN end.

(** A digit of a hexadecimal, octal or binary literal. *)
Definition radix_digit (radix : Z) (c : ascii) : option Z :=
  let n := Z.of_N (N_of_ascii c) in
  let d := if (48 <=? n) && (n <=? 57) then n - 48
           else if (97 <=? n) && (n <=? 102) then n - 87
           else if (65 <=? n) && (n <=? 70) then n - 55 else radix in
  if d <? radix then Some d else None.
Fixpoint radix_literal (radix : Z) (s : string) (acc : Z) : num :=
  match s with
  | EmptyString => num_of_Z acc
  | String c s => match radix_digit radix c with
                  | Some d => radix_literal radix s (acc * radix + d) | None => NaN end
  end.

Definition Number_text (s : string) : num :=
  match trim s with
  | EmptyString => Int 0
  | String "0" (String ("x" | "X") (String _ _ as t)) => radix_literal 16 t 0
  | String "0" (String ("o" | "O") (String _ _ as t)) => radix_literal 8 t 0
  | String "0" (String ("b" | "B") (String _ _ as t)) => radix_literal 2 t 0
  | String "-" t => num_opp (unsigned_number t)
  | String "+" t => unsigned_number t
  | t => unsigned_number t
  end.

Example Number_text_cases :
  Number_text " 42 " = Int 42 ∧ Number_text "" = Int 0 ∧ Number_text "12.5e1" = Int 125 ∧
  Number_text "-3" = Int (-3) ∧ Number_text "0x1F" = Int 31 ∧ Number_text "7 7" = NaN ∧ Number_text "abc" = NaN ∧
  num_to_string (Number_text "0.1") = "0.1" ∧ num_to_string (Number_text "1e-7") = "1e-7" ∧
  num_to_string (Number_text ".000123456789") = "0.000123456789".
Proof. vm_compute. repeat split. Qed.

(** ** Comparison of Numbers *)

(** [a > n] for a Number [a] and an integer [n]: false on [NaN]. *)
Definition num_gt (a : num) (n : Z) : bool :=
  match a with
  | Int z => n <? z
  | Flt (S754_infinity s) => negb s
  | Flt (S754_zero _) => n <? 0
  | Flt (S754_finite s m e) =>
      let m := if s then Zneg m else Zpos m in
      if 0 <=? e then n <? m * 2 ^ e else n * 2 ^ (- e) <? m
  | Flt S754_nan => false
  end.

(** ** Laws *)

Lemma split_nonempty c s : split c s ≠ [].
Proof. destruct s as [|x s]; simpl; [done|]. case_decide; [done|]. by destruct (split c s). Qed.

(** Splitting and joining back. *)
Lemma join_split c s : join c (split c s) = s.
Proof.
  induction s as [|x s IH]; [done|]. simpl. case_decide as Hx.
  - subst x. pose proof (split_nonempty c s). destruct (split c s) eqn:Hs; [done|].
    rewrite <-IH. reflexivity.
  - pose proof (split_nonempty c s). destruct (split c s) as [|p [|q ps]] eqn:Hs; [done|..];
      rewrite <-IH; reflexivity.
Qed.

(** No piece contains the separator. *)
Lemma split_pieces c s p : p ∈ split c s → c ∉ chars p.
Proof.
  revert p. induction s as [|x s IH]; intros p; simpl.
  { intros ->%list_elem_of_singleton. apply not_elem_of_nil. }
  case_decide as Hx.
  - intros [->|Hp]%elem_of_cons; [apply not_elem_of_nil|by apply IH].
  - pose proof (split_nonempty c s). destruct (split c s) as [|q ps] eqn:Hs; [done|].
    intros [->|Hp]%elem_of_cons; [|apply IH; by right].
    simpl. rewrite not_elem_of_cons. split; [done|apply IH; left].
Qed.

Lemma trimStart_head s c t : trimStart s = String c t → is_space c = false.
Proof.
  induction s as [|x s IH]; simpl; [done|]. destruct (is_space x) eqn:Hx; [done|].
  by intros [= <- _].
Qed.
Lemma trimEnd_cons c s : is_space c = false → ∃ t, trimEnd (String c s) = String c t.
Proof. intros Hc. simpl. destruct (trimEnd s); [rewrite Hc|]; eauto. Qed.

(** Trimming removes white space only at the ends: what is left is a part of
    the text that neither starts nor ends with a space. *)
Lemma trimEnd_last s : last (chars (trimEnd s)) = None ∨
  ∃ c, last (chars (trimEnd s)) = Some c ∧ is_space c = false.
Proof.
  induction s as [|x s IH]; [by left|]. simpl. destruct (trimEnd s) as [|y t].
  - destruct (is_space x) eqn:Hx; [by left|right; by exists x].
  - right. simpl in *. destruct IH as [IH|IH]; [|exact IH].
    exfalso. clear -IH. revert y IH. induction t as [|z t IH]; intros y; simpl; [done|apply IH].
Qed.
Lemma trim_ends s :
  (∀ c t, trim s = String c t → is_space c = false) ∧
  (∀ c, last (chars (trim s)) = Some c → is_space c = false).
Proof.
  split.
  - intros c t. unfold trim. destruct (trimStart s) as [|x u] eqn:Hs; [done|].
    apply trimStart_head in Hs. destruct (trimEnd_cons x u Hs) as [v ->]. by intros [= <- _].
  - intros c Hc. unfold trim in Hc. destruct (trimEnd_last (trimStart s)) as [H|(d & H & Hd)]; congruence.
Qed.
