(* ===== verification/Zod.v ===== *)
(** * The zod schema language, as an interface

    The services describe their environment and request bodies with zod
    schemas.  A schema is source text of the program and is data here
    ([ZodType]); what zod does with one is a parameter ([safeParse]) with
    the documented guarantees of a successful parse as laws ([ZodLaws]).
    [Reference] is one concrete parser that satisfies the laws; the
    witnesses of the client theorems run on it. *)

From S2P Require Import Prelude JsValue.
From Stdlib Require Import SpecFloat.

(** ** Integral Numbers *)

(** The integer a Number holds, when it holds one ([Number.isInteger]). *)
Definition num_to_Z (n : num) : option Z :=
  match n with
  | Int z => Some z
  | Flt (S754_zero _) => Some 0
  | Flt (S754_finite s m e) =>
      let m := if s then Zneg m else Zpos m in
      if 0 <=? e then Some (m * 2 ^ e)
      else if m mod 2 ^ (- e) =? 0 then Some (m / 2 ^ (- e)) else None
  | Flt _ => None
  end.

(** [n > 0] and [n >= 0] as JavaScript compares Numbers: false on [NaN]. *)
Definition num_pos (n : num) : bool :=
  match n with
  | Int z => 0 <? z
  | Flt (S754_finite s _ _) => negb s
  | Flt (S754_infinity s) => negb s
  | Flt _ => false
  end.
Definition num_nonneg (n : num) : bool :=
  match n with
  | Int z => 0 <=? z
  | Flt (S754_zero _) => true
  | _ => num_pos n
  end.

Lemma num_pos_Z n z : num_to_Z n = Some z → num_pos n = true → 0 < z.
Proof.
  destruct n as [z'|[| | |s m e]]; simpl; intros H Hp; simplify_eq; try lia.
  destruct s; [done|]. destruct (0 <=? e) eqn:He; simplify_eq.
  - assert (0 < 2 ^ e) by (apply Z.pow_pos_nonneg; lia). nia.
  - destruct (_ =? 0) eqn:Hm; simplify_eq. apply Z.eqb_eq in Hm.
    assert (0 < 2 ^ (- e)) by (apply Z.pow_pos_nonneg; lia).
    apply Z.div_exact in Hm; [|lia].
    revert Hm. generalize (Zpos m / 2 ^ (- e)). intros q Hq.
    clear He Hp. pose proof (Pos2Z.is_pos m). nia.
Qed.

Lemma num_nonneg_Z n z : num_to_Z n = Some z → num_nonneg n = true → 0 <= z.
Proof.
  intros Hz Hn. destruct (num_pos n) eqn:Hp.
  - pose proof (num_pos_Z _ _ Hz Hp). lia.
  - destruct n as [z'|[| | |s m e]]; simpl in *; simplify_eq; first [lia | congruence].
Qed.

(** ** Schemas *)

Inductive StrCheck := CUrl | CMin (n : Z) | CRegex (re : string).
Inductive NumCheck := CInt | CPositive | CNonnegative.

Inductive ZodType :=
  | ZString (cs : list StrCheck)
  | ZNumber (coerce : bool) (cs : list NumCheck)
  | ZOptional (t : ZodType)
  | ZDefault (t : ZodType) (d : jsval)
  | ZOr (t1 t2 : ZodType)
  | ZLiteral (v : jsval)
  | ZObject (fields : list (string * ZodType)).

Definition num_check (n : num) (c : NumCheck) : bool :=
  match c with
  | CInt => bool_decide (is_Some (num_to_Z n))
  | CPositive => num_pos n
  | CNonnegative => num_nonneg n
  end.

(** A member of a parsed object ([env.KEY]). *)
Definition member (v : jsval) (k : string) : jsval :=
  match v with VObj fs => default VUndef (assoc k fs) | _ => VUndef end.

(** ** The parser and its guarantees *)

Class Zod := safeParse : ZodType → jsval → option jsval.

Class ZodLaws (Zd : Zod) : Prop := {
  zod_object fs v d k t :
    safeParse (ZObject fs) v = Some d → assoc k fs = Some t →
    safeParse t (member v k) = Some (member d k);
  zod_string cs v d :
    safeParse (ZString cs) v = Some d →
    ∃ s, d = VStr s ∧ ∀ n, CMin n ∈ cs → n <= strlen s;
  zod_number co cs v d :
    safeParse (ZNumber co cs) v = Some d →
    ∃ n, d = VNum n ∧ ∀ c, c ∈ cs → num_check n c = true;
  zod_optional t v d :
    safeParse (ZOptional t) v = Some d → d = VUndef ∨ safeParse t v = Some d;
  zod_default t x v d :
    safeParse (ZDefault t x) v = Some d → d = x ∨ safeParse t v = Some d;
  zod_or t1 t2 v d :
    safeParse (ZOr t1 t2) v = Some d → safeParse t1 v = Some d ∨ safeParse t2 v = Some d;
  zod_literal x v d :
    safeParse (ZLiteral x) v = Some d → d = x;
}.

(** The text, and the integer, of a parsed member.  The [_spec] lemmas show
    that on a successful parse of a string or integer schema the default is
    never taken. *)
Definition text_of (v : jsval) : string := match v with VStr s => s | _ => "" end.
Definition Z_of (v : jsval) : Z :=
  match v with VNum n => default 0 (num_to_Z n) | _ => 0 end.
Definition opt_text_of (v : jsval) : option string :=
  match v with VStr s => Some s | _ => None end.

Section laws.
Context {Zd : Zod} {ZL : ZodLaws Zd}.

Lemma zod_string_text cs v d :
  safeParse (ZString cs) v = Some d → d = VStr (text_of d).
Proof. intros (s & -> & _)%zod_string. done. Qed.

Lemma zod_int_Z co cs v d :
  CInt ∈ cs → safeParse (ZNumber co cs) v = Some d →
  ∃ n, d = VNum n ∧ num_to_Z n = Some (Z_of d).
Proof.
  intros Hin (n & -> & Hall)%zod_number. exists n. split; [done|].
  specialize (Hall _ Hin). simpl in Hall. apply bool_decide_eq_true in Hall as [z Hz].
  simpl. by rewrite Hz.
Qed.

Lemma zod_int_pos co cs v d :
  CInt ∈ cs → CPositive ∈ cs → safeParse (ZNumber co cs) v = Some d → 0 < Z_of d.
Proof.
  intros Hi Hp Hs. destruct (zod_int_Z _ _ _ _ Hi Hs) as (n & -> & Hz).
  apply zod_number in Hs as (n' & [= <-] & Hall).
  eapply num_pos_Z; [exact Hz|]. apply (Hall _ Hp).
Qed.

Lemma zod_int_nonneg co cs v d :
  CInt ∈ cs → CNonnegative ∈ cs → safeParse (ZNumber co cs) v = Some d → 0 <= Z_of d.
Proof.
  intros Hi Hp Hs. destruct (zod_int_Z _ _ _ _ Hi Hs) as (n & -> & Hz).
  apply zod_number in Hs as (n' & [= <-] & Hall).
  eapply num_nonneg_Z; [exact Hz|]. apply (Hall _ Hp).
Qed.

(** A member with a defaulted integer schema. *)
Lemma default_int_pos v d x cs :
  CInt ∈ cs → CPositive ∈ cs → 0 < Z_of x →
  safeParse (ZDefault (ZNumber true cs) x) v = Some d → 0 < Z_of d.
Proof. intros ??? [->|H]%zod_default; [done|]. by eapply zod_int_pos. Qed.
Lemma default_int_nonneg v d x cs :
  CInt ∈ cs → CNonnegative ∈ cs → 0 <= Z_of x →
  safeParse (ZDefault (ZNumber true cs) x) v = Some d → 0 <= Z_of d.
Proof. intros ??? [->|H]%zod_default; [done|]. by eapply zod_int_nonneg. Qed.

Lemma optional_text v d cs :
  safeParse (ZOptional (ZString cs)) v = Some d →
  d = VUndef ∨ ∃ s, d = VStr s ∧ ∀ n, CMin n ∈ cs → n <= strlen s.
Proof. intros [->|H]%zod_optional; [by left|right]. by apply zod_string in H. Qed.
End laws.

(** [schema_of Hm k as H]: the parse of member [k], with [k]'s schema read off
    the schema table. *)
Tactic Notation "schema_of" constr(schema) constr(Hm) constr(k) "as" ident(H) :=
  let t := eval vm_compute in (assoc k schema) in
  lazymatch t with Some ?t => pose proof (Hm k t ltac:(vm_compute; reflexivity)) as H end.
Ltac elem_tac := first [apply list_elem_of_here | apply list_elem_of_further; elem_tac].

(** ** A concrete parser *)
Module Reference.
Section reference.
(** what [string.url()] and [regex] accept is left to the caller *)
Context (url_ok : string → bool) (regex_ok : string → string → bool).

Definition str_check (s : string) (c : StrCheck) : bool :=
  match c with
  | CUrl => url_ok s
  | CMin n => n <=? strlen s
  | CRegex re => regex_ok re s
  end.

(** [Number(v)] of the decimal texts an environment holds *)
Definition coerce_num (v : jsval) : option num :=
  match v with
  | VNum n => Some n
  | VStr s => Int <$> undec s
  | _ => None
  end.

Fixpoint parse (t : ZodType) (v : jsval) : option jsval :=
  match t with
  | ZString cs =>
      match v with
      | VStr s => if forallb (str_check s) cs then Some v else None
      | _ => None
      end
  | ZNumber co cs =>
      match (if co then coerce_num v else match v with VNum n => Some n | _ => None end) with
      | Some n => if forallb (num_check n) cs then Some (VNum n) else None
      | None => None
      end
  | ZOptional t => match v with VUndef => Some VUndef | _ => parse t v end
  | ZDefault t d => match v with VUndef => Some d | _ => parse t v end
  | ZOr t1 t2 => match parse t1 v with Some d => Some d | None => parse t2 v end
  | ZLiteral x =>
      match x, v with
      | VStr a, VStr b => if decide (a = b) then Some x else None
      | _, _ => None
      end
  | ZObject fs =>
      match v with
      | VObj _ =>
          let fix go (fs : list (string * ZodType)) : option (list (string * jsval)) :=
            match fs with
            | [] => Some []
            | (k, t) :: fs' =>
                d ← parse t (member v k); ds ← go fs'; Some ((k, d) :: ds)
            end in
          ds ← go fs; Some (VObj ds)
      | _ => None
      end
  end.

#[global] Instance zod : Zod := parse.

#[global] Instance zod_laws : ZodLaws zod.
Proof.
  split; unfold safeParse, zod.
  - intros fs v d k t. simpl. destruct v as [| | | | | |vs|]; try done.
    intros H Hk.
    apply bind_Some in H as (ds & Hgo & [= <-]).
    revert ds Hgo Hk. induction fs as [|[k' t'] fs IH]; intros ds Hgo Hk; [done|].
    apply bind_Some in Hgo as (x & Hx & Hgo).
    apply bind_Some in Hgo as (ds' & Hgo & [= <-]).
    simpl in *. case_decide; simplify_eq; simpl; [done|].
    by apply IH.
  - intros cs v d. simpl. destruct v; try done. case_match eqn:Hf; intros [= <-].
    eexists; split; [done|]. intros n Hn.
    rewrite forallb_forall in Hf. apply list_elem_of_In in Hn.
    specialize (Hf _ Hn). simpl in Hf. lia.
  - intros co cs v d. simpl. destruct (if co then _ else _) as [n|]; [|done].
    case_match eqn:Hf; intros [= <-].
    eexists; split; [done|]. intros c Hc.
    rewrite forallb_forall in Hf. apply list_elem_of_In in Hc. by apply Hf.
  - intros t v d. simpl. destruct v; naive_solver.
  - intros t x v d. simpl. destruct v; naive_solver.
  - intros t1 t2 v d. simpl. case_match; naive_solver.
  - intros x v d. simpl. destruct x, v; try done. case_decide; intros; by simplify_eq.
Qed.
End reference.
End Reference.
