(* ===== verification/IndexerConfig.v ===== *)
(** * indexer/src/config.js: the validated configuration

    [loadConfig] is the module's load-time function.  The theorems below say
    what a configuration it accepts guarantees to the scanner: the chunk
    size is positive (so scanning terminates), the deploy blocks and the
    reorg margin are not negative, and a backend is never configured without
    its key. *)

From S2P Require Import Prelude JsValue Zod.

Definition address_re : string := "^0x[a-fA-F0-9]{40}$".

Definition envSchema : list (string * ZodType) := [
  ("RPC_URL", ZString [CUrl]);
  ("CHAIN_ID", ZNumber true [CInt; CPositive]);
  ("DATABASE_URL", ZString [CMin 1]);
  ("CLAIM_REGISTRY_ADDRESS", ZString [CRegex address_re]);
  ("INSURANCE_POLICY_ADDRESS", ZString [CRegex address_re]);
  ("POLL_INTERVAL_MS", ZDefault (ZNumber true [CInt; CPositive]) (VNum (Int 3000)));
  ("BLOCK_RANGE_CHUNK_SIZE", ZDefault (ZNumber true [CInt; CPositive]) (VNum (Int 2000)));
  ("BACKEND_URL", ZOptional (ZString [CUrl]));
  ("BACKEND_WEBHOOK_API_KEY", ZOptional (ZString [CMin 16]));
  ("CLAIM_REGISTRY_DEPLOY_BLOCK", ZDefault (ZNumber true [CInt; CNonnegative]) (VNum (Int 0)));
  ("INSURANCE_POLICY_DEPLOY_BLOCK", ZDefault (ZNumber true [CInt; CNonnegative]) (VNum (Int 0)));
  ("REORG_SAFETY_BLOCKS", ZDefault (ZNumber true [CInt; CNonnegative]) (VNum (Int 2)))
].

Record Config := mkConfig {
  rpcUrl : string;
  chainId : Z;
  databaseUrl : string;
  claimRegistryAddress : string;
  insurancePolicyAddress : string;
  pollIntervalMs : Z;
  blockRangeChunkSize : Z;
  backendUrl : option string;            (** [None]: [undefined] *)
  backendWebhookApiKey : option string;
  claimRegistryDeployBlock : Z;
  insurancePolicyDeployBlock : Z;
  reorgSafetyBlocks : Z;
}.

Definition loadConfig `{Zod} (process_env : jsval) : outcome Config :=
  match safeParse (ZObject envSchema) process_env with
  | None => Throw (ProcessExit 1)
  | Some env =>
      if truthy (member env "BACKEND_URL") && negb (truthy (member env "BACKEND_WEBHOOK_API_KEY"))
      then Throw (ProcessExit 1)
      else Ok {|
        rpcUrl := text_of (member env "RPC_URL");
        chainId := Z_of (member env "CHAIN_ID");
        databaseUrl := text_of (member env "DATABASE_URL");
        claimRegistryAddress := text_of (member env "CLAIM_REGISTRY_ADDRESS");
        insurancePolicyAddress := text_of (member env "INSURANCE_POLICY_ADDRESS");
        pollIntervalMs := Z_of (member env "POLL_INTERVAL_MS");
        blockRangeChunkSize := Z_of (member env "BLOCK_RANGE_CHUNK_SIZE");
        backendUrl := opt_text_of (member env "BACKEND_URL");
        backendWebhookApiKey := opt_text_of (member env "BACKEND_WEBHOOK_API_KEY");
        claimRegistryDeployBlock := Z_of (member env "CLAIM_REGISTRY_DEPLOY_BLOCK");
        insurancePolicyDeployBlock := Z_of (member env "INSURANCE_POLICY_DEPLOY_BLOCK");
        reorgSafetyBlocks := Z_of (member env "REORG_SAFETY_BLOCKS")
      |}
  end.

(** ** What an accepted configuration guarantees *)

(** The contract of [config.js] towards the rest of the indexer. *)
Record ConfigOk (c : Config) : Prop := {
  co_chunk : 0 < blockRangeChunkSize c;
  co_poll : 0 < pollIntervalMs c;
  co_chain : 0 < chainId c;
  co_reorg : 0 <= reorgSafetyBlocks c;
  co_claims_deploy : 0 <= claimRegistryDeployBlock c;
  co_policy_deploy : 0 <= insurancePolicyDeployBlock c;
  co_backend_key : ∀ u, backendUrl c = Some u → u ≠ "" →
    ∃ k, backendWebhookApiKey c = Some k ∧ 16 <= strlen k;
}.

Section config.
Context {Zd : Zod} {ZL : ZodLaws Zd}.

(** [env.K] of the parsed environment satisfies the schema of [K]. *)
Lemma env_member p env k t :
  safeParse (ZObject envSchema) p = Some env → assoc k envSchema = Some t →
  safeParse t (member p k) = Some (member env k).
Proof. apply zod_object. Qed.

Lemma indexer_config_inv p c :
  loadConfig p = Ok c →
  ∃ env, safeParse (ZObject envSchema) p = Some env ∧
    (truthy (member env "BACKEND_URL") = true →
     truthy (member env "BACKEND_WEBHOOK_API_KEY") = true) ∧
    blockRangeChunkSize c = Z_of (member env "BLOCK_RANGE_CHUNK_SIZE") ∧
    pollIntervalMs c = Z_of (member env "POLL_INTERVAL_MS") ∧
    chainId c = Z_of (member env "CHAIN_ID") ∧
    reorgSafetyBlocks c = Z_of (member env "REORG_SAFETY_BLOCKS") ∧
    claimRegistryDeployBlock c = Z_of (member env "CLAIM_REGISTRY_DEPLOY_BLOCK") ∧
    insurancePolicyDeployBlock c = Z_of (member env "INSURANCE_POLICY_DEPLOY_BLOCK") ∧
    backendUrl c = opt_text_of (member env "BACKEND_URL") ∧
    backendWebhookApiKey c = opt_text_of (member env "BACKEND_WEBHOOK_API_KEY").
Proof.
  unfold loadConfig. destruct (safeParse _ p) as [env|]; [|done].
  destruct (truthy (member env "BACKEND_URL")) eqn:Hu,
    (truthy (member env "BACKEND_WEBHOOK_API_KEY")) eqn:Hk;
    intros H; try discriminate H; injection H as <-; exists env; by rewrite ?Hu, ?Hk.
Qed.
End config.

(** C40: A configuration that config.js accepts satisfies the scanner's
    contract: positive chunk size and poll interval, non-negative deploy
    blocks and reorg margin, and a non-empty BACKEND_URL only together with
    a webhook key of at least 16 characters. *)
Theorem loadConfig_ok {Zd : Zod} {ZL : ZodLaws Zd} (p : jsval) (c : Config) :
  loadConfig p = Ok c → ConfigOk c.
Proof.
  intros (env & Hp & Hkey & Hch & Hpo & Hci & Hre & Hcd & Hpd & Hu & Hk)%indexer_config_inv.
  assert (∀ k t, assoc k envSchema = Some t →
    safeParse t (member p k) = Some (member env k)) as Hm by (intros k t; by apply env_member).
  split.
  - rewrite Hch. schema_of envSchema Hm "BLOCK_RANGE_CHUNK_SIZE" as H.
    eapply default_int_pos in H; first [exact H | elem_tac | done].
  - rewrite Hpo. schema_of envSchema Hm "POLL_INTERVAL_MS" as H.
    eapply default_int_pos in H; first [exact H | elem_tac | done].
  - rewrite Hci. schema_of envSchema Hm "CHAIN_ID" as H.
    eapply zod_int_pos in H; first [exact H | elem_tac | done].
  - rewrite Hre. schema_of envSchema Hm "REORG_SAFETY_BLOCKS" as H.
    eapply default_int_nonneg in H; first [exact H | elem_tac | done].
  - rewrite Hcd. schema_of envSchema Hm "CLAIM_REGISTRY_DEPLOY_BLOCK" as H.
    eapply default_int_nonneg in H; first [exact H | elem_tac | done].
  - rewrite Hpd. schema_of envSchema Hm "INSURANCE_POLICY_DEPLOY_BLOCK" as H.
    eapply default_int_nonneg in H; first [exact H | elem_tac | done].
  - intros u Hu' Hne. rewrite Hu in Hu'.
    destruct (member env "BACKEND_URL") as [| | | | |s| |]; simplify_eq/=.
    schema_of envSchema Hm "BACKEND_WEBHOOK_API_KEY" as Hkp.
    destruct (optional_text _ _ _ Hkp) as [Hun|(k & Hs & Hl)].
    + rewrite Hun in Hkey. simpl in Hkey.
      rewrite bool_decide_eq_false_2 in Hkey by done. by specialize (Hkey eq_refl).
    + exists k. rewrite Hk, Hs. split; [done|]. apply Hl. elem_tac.
Qed.

(** A complete environment, as the deployment scripts set it. *)
Definition sample_env : jsval := VObj [
  ("RPC_URL", VStr "http://localhost:8545"); ("CHAIN_ID", VStr "1337");
  ("DATABASE_URL", VStr "postgres://localhost/dics");
  ("CLAIM_REGISTRY_ADDRESS", VStr "0x00000000000000000000000000000000000000C1");
  ("INSURANCE_POLICY_ADDRESS", VStr "0x00000000000000000000000000000000000000A1");
  ("BLOCK_RANGE_CHUNK_SIZE", VStr "500");
  ("BACKEND_URL", VStr "http://localhost:8000");
  ("BACKEND_WEBHOOK_API_KEY", VStr "0123456789abcdef")].

Lemma loadConfig_ok_witness :
  ∃ c, loadConfig (H := Reference.zod (λ _, true) (λ _ _, true)) sample_env = Ok c ∧
    blockRangeChunkSize c = 500 ∧ pollIntervalMs c = 3000 ∧ ConfigOk c.
Proof.
  eexists. split; [vm_compute; reflexivity|]. split_and!; [reflexivity..|].
  apply (loadConfig_ok (Zd := Reference.zod (λ _, true) (λ _ _, true)) sample_env).
  vm_compute. reflexivity.
Defined.
