(* ===== verification/IndexerStore.v ===== *)
(** * The indexer's tables and statements

    indexer/sql/schema.sql and the SQL text of checkpoint.js and
    eventHandlers.js.  The four tables are finite maps keyed by the columns
    their PRIMARY KEY / UNIQUE constraint names; every statement of the
    services is one constructor of [Stmt], and [exec] is its effect on the
    tables, with the column types' bounds.  Columns nothing reads back
    ([id], [processed_at], [updated_at]) are left out. *)

From S2P Require Import Prelude JsValue.

(** ** Rows *)

Record EventRow := mkEventRow {
  ev_name : string;
  ev_contract : string;
  ev_block : Z;
  ev_data : json;
}.

Record ClaimRow := mkClaimRow {
  cl_policy : Z;
  cl_claimant : string;
  cl_merkle_root : string;
  cl_amount : Z;
  cl_status : string;
  cl_submitted_tx : string;
  cl_submitted_block : Z;
  cl_last_status_tx : option string;
  cl_payout_tx : option string;
}.

Record PolicyRow := mkPolicyRow {
  po_holder : string;
  po_coverage : Z;
  po_valid_from : Z;                (** seconds since the epoch *)
  po_valid_until : Z;
  po_revoked : bool;
  po_registered_tx : string;
}.

(** [schema]: whether schema.sql has been run. *)
Record Db := mkDb {
  schema : bool;
  checkpoints : gmap string Z;
  events : gmap (string * Z) EventRow;     (** UNIQUE (tx_hash, log_index) *)
  claims : gmap Z ClaimRow;
  policies : gmap Z PolicyRow;
}.

Definition empty_db : Db := mkDb false ∅ ∅ ∅ ∅.

Definition set_checkpoints f d := mkDb (schema d) (f (checkpoints d)) (events d) (claims d) (policies d).
Definition set_events f d := mkDb (schema d) (checkpoints d) (f (events d)) (claims d) (policies d).
Definition set_claims f d := mkDb (schema d) (checkpoints d) (events d) (f (claims d)) (policies d).
Definition set_policies f d := mkDb (schema d) (checkpoints d) (events d) (claims d) (f (policies d)).

Definition set_status (st tx : string) (r : ClaimRow) : ClaimRow :=
  mkClaimRow (cl_policy r) (cl_claimant r) (cl_merkle_root r) (cl_amount r) st
    (cl_submitted_tx r) (cl_submitted_block r) (Some tx) (cl_payout_tx r).
Definition set_paid (tx : string) (r : ClaimRow) : ClaimRow :=
  mkClaimRow (cl_policy r) (cl_claimant r) (cl_merkle_root r) (cl_amount r) "paid"
    (cl_submitted_tx r) (cl_submitted_block r) (cl_last_status_tx r) (Some tx).
Definition set_revoked (r : PolicyRow) : PolicyRow :=
  mkPolicyRow (po_holder r) (po_coverage r) (po_valid_from r) (po_valid_until r) true
    (po_registered_tx r).

(** ** Statements and their parameters *)

(** The one statement text each call site passes to [pool.query]. *)
Inductive Stmt :=
  | CreateSchema            (** sql/schema.sql *)
  | SelectCheckpoint        (** SELECT last_processed_block ... WHERE contract_address = $1 *)
  | UpsertCheckpoint        (** INSERT ... ON CONFLICT DO UPDATE SET last_processed_block *)
  | InsertEvent             (** INSERT INTO onchain_events ... ON CONFLICT DO NOTHING RETURNING id *)
  | InsertClaim             (** INSERT INTO onchain_claims ... ON CONFLICT DO NOTHING *)
  | UpdateClaimStatus       (** UPDATE onchain_claims SET status, last_status_tx_hash RETURNING merkle_root *)
  | UpdateClaimPaid         (** UPDATE onchain_claims SET status = 'paid', payout_tx_hash RETURNING merkle_root *)
  | InsertPolicy            (** INSERT INTO onchain_policies ... ON CONFLICT DO NOTHING *)
  | RevokePolicy.           (** UPDATE onchain_policies SET revoked = true *)

#[global] Instance stmt_eq_dec : EqDecision Stmt.
Proof. solve_decision. Defined.

(** A bound parameter as it reaches the server: NULL, text, or the JSON text
    of an object (kept as its tree). *)
Inductive pgparam :=
  | PNull
  | PText (s : string)
  | PJson (j : json).

(** What [pool.query] resolves to. *)
Record QueryResult := mkResult {
  rowCount : Z;
  rows : list (list (string * jsval));
}.

(** ** Column input

    A parameter for a column of the given type, [None] when the server
    rejects it (NULL in a NOT NULL column, malformed or out-of-range text). *)
Definition text_in (p : pgparam) : option string :=
  match p with PText s => Some s | _ => None end.
Definition int_in (lo hi : Z) (p : pgparam) : option Z :=
  s ← text_in p; z ← undec s;
  if (lo <=? z) && (z <=? hi) then Some z else None.
Definition int8_in : pgparam → option Z := int_in (- 2 ^ 63) (2 ^ 63 - 1).    (** BIGINT *)
Definition int4_in : pgparam → option Z := int_in (- 2 ^ 31) (2 ^ 31 - 1).    (** INTEGER *)
Definition numeric_in (p : pgparam) : option Z := s ← text_in p; undec s.     (** NUMERIC *)
Definition jsonb_in (p : pgparam) : option json :=
  match p with PJson j => Some j | _ => None end.

(** INSERT ... ON CONFLICT (k) DO NOTHING: the map after it and the number of
    rows inserted. *)
Definition insert_if_absent `{Countable K} {V} (k : K) (v : V) (m : gmap K V) : gmap K V * Z :=
  match m !! k with
  | Some _ => (m, 0)
  | None => (<[k:=v]> m, 1)
  end.

(** UPDATE ... WHERE k = $1: the map after it and the updated row. *)
Definition update_row `{Countable K} {V} (f : V → V) (k : K) (m : gmap K V) : gmap K V * option V :=
  match m !! k with
  | Some v => (<[k:=f v]> m, Some (f v))
  | None => (m, None)
  end.

Definition returning_root (r : option ClaimRow) : QueryResult :=
  match r with
  | Some c => mkResult 1 [[("merkle_root", VStr (cl_merkle_root c))]]
  | None => mkResult 0 []
  end.

Section exec.
(** [to_timestamp] of the server, on the text of its parameter; [None]: out
    of range. *)
Context (to_timestamp : string → option Z).

Definition timestamp_in (p : pgparam) : option Z := s ← text_in p; to_timestamp s.

(** One statement on the tables; [None]: the server raises and changes
    nothing. *)
Definition exec (q : Stmt) (ps : list pgparam) (d : Db) : option (Db * QueryResult) :=
  match q, ps with
  | CreateSchema, [] =>
      Some (mkDb true (checkpoints d) (events d) (claims d) (policies d), mkResult 0 [])
  | _, _ =>
    if negb (schema d) then None else
    match q, ps with
    | SelectCheckpoint, [a] =>
        a ← text_in a;
        Some (d, match checkpoints d !! a with
                 | Some z => mkResult 1 [[("last_processed_block", VStr (dec z))]]
                 | None => mkResult 0 []
                 end)
    | UpsertCheckpoint, [a; n] =>
        a ← text_in a; n ← int8_in n;
        Some (set_checkpoints <[a:=n]> d, mkResult 1 [])
    | InsertEvent, [name; contract; tx; idx; blk; data] =>
        name ← text_in name; contract ← text_in contract; tx ← text_in tx;
        idx ← int4_in idx; blk ← int8_in blk; data ← jsonb_in data;
        let '(m, n) := insert_if_absent (tx, idx) (mkEventRow name contract blk data) (events d) in
        Some (set_events (λ _, m) d, mkResult n [])
    | InsertClaim, [id; policy; claimant; root; amount; tx; blk] =>
        id ← int8_in id; policy ← int8_in policy; claimant ← text_in claimant;
        root ← text_in root; amount ← numeric_in amount; tx ← text_in tx; blk ← int8_in blk;
        let '(m, n) := insert_if_absent id
          (mkClaimRow policy claimant root amount "submitted" tx blk None None) (claims d) in
        Some (set_claims (λ _, m) d, mkResult n [])
    | UpdateClaimStatus, [id; st; tx] =>
        id ← int8_in id; st ← text_in st; tx ← text_in tx;
        let '(m, r) := update_row (set_status st tx) id (claims d) in
        Some (set_claims (λ _, m) d, returning_root r)
    | UpdateClaimPaid, [id; tx] =>
        id ← int8_in id; tx ← text_in tx;
        let '(m, r) := update_row (set_paid tx) id (claims d) in
        Some (set_claims (λ _, m) d, returning_root r)
    | InsertPolicy, [id; holder; coverage; vfrom; vuntil; tx] =>
        id ← int8_in id; holder ← text_in holder; coverage ← numeric_in coverage;
        vfrom ← timestamp_in vfrom; vuntil ← timestamp_in vuntil; tx ← text_in tx;
        let '(m, n) := insert_if_absent id
          (mkPolicyRow holder coverage vfrom vuntil false tx) (policies d) in
        Some (set_policies (λ _, m) d, mkResult n [])
    | RevokePolicy, [id] =>
        id ← int8_in id;
        let '(m, r) := update_row set_revoked id (policies d) in
        Some (set_policies (λ _, m) d, mkResult (if r then 1 else 0) [])
    | _, _ => None
    end
  end.
End exec.
#[global] Arguments exec : simpl never.

(** ** The tables only grow

    Rows of [onchain_events] are never changed or removed; claims and
    policies are never removed; nothing but the checkpoint statement touches
    checkpoints. *)
Record db_grows (d d' : Db) : Prop := {
  dg_schema : schema d = true → schema d' = true;
  dg_events : events d ⊆ events d';
  dg_claims : ∀ k, is_Some (claims d !! k) → is_Some (claims d' !! k);
  dg_policies : ∀ k, is_Some (policies d !! k) → is_Some (policies d' !! k);
}.

#[global] Instance db_grows_preorder : PreOrder db_grows.
Proof.
  split.
  - intros d. by split.
  - intros d1 d2 d3 [S1 E1 C1 P1] [S2 E2 C2 P2]. split; eauto. by etrans.
Qed.

Lemma insert_if_absent_subseteq `{Countable K} {V} (k : K) (v : V) m :
  m ⊆ (insert_if_absent k v m).1.
Proof.
  unfold insert_if_absent. destruct (m !! k) eqn:E; simpl; [done|]. by apply insert_subseteq.
Qed.
Lemma insert_if_absent_is_Some `{Countable K} {V} (k k' : K) (v : V) m :
  is_Some (m !! k') → is_Some ((insert_if_absent k v m).1 !! k').
Proof.
  intros [x Hx]. eapply lookup_weaken in Hx; [|apply (insert_if_absent_subseteq k v)]. eauto.
Qed.
Lemma insert_if_absent_key `{Countable K} {V} (k : K) (v : V) m :
  is_Some ((insert_if_absent k v m).1 !! k).
Proof.
  unfold insert_if_absent. destruct (m !! k) eqn:E; simpl; [eauto|].
  rewrite lookup_insert_eq. eauto.
Qed.
Lemma update_row_is_Some `{Countable K} {V} (f : V → V) (k k' : K) m :
  is_Some (m !! k') → is_Some ((update_row f k m).1 !! k').
Proof.
  unfold update_row. destruct (m !! k) eqn:E; simpl; [|done].
  rewrite lookup_insert. case_decide; eauto.
Qed.

Ltac unopt H :=
  repeat match type of H with
  | (_ ≫= _) = Some _ =>
      let x := fresh "x" in let Hx := fresh "Hx" in
      apply bind_Some in H as (x & Hx & H)
  end.

(** A statement that succeeds, by cases: each non-[None] branch of [exec]. *)
Ltac exec_cases H :=
  unfold exec in H;
  repeat (case_match; try discriminate H); unopt H; simplify_eq/=.

Lemma exec_grows ts q ps d d' r : exec ts q ps d = Some (d', r) → db_grows d d'.
Proof.
  intros H. destruct q; exec_cases H; split; simpl; try done; intros;
    repeat case_match; simplify_eq/=;
    repeat match goal with
    | E : insert_if_absent ?k ?v ?m = (?m', _) |- _ =>
        replace m' with (insert_if_absent k v m).1 by (by rewrite E); clear E
    | E : update_row ?f ?k ?m = (?m', _) |- _ =>
        replace m' with (update_row f k m).1 by (by rewrite E); clear E
    end;
    eauto using insert_if_absent_subseteq, insert_if_absent_is_Some, update_row_is_Some.
Qed.

(** Only [UpsertCheckpoint] writes checkpoints. *)
Lemma exec_checkpoints ts q ps d d' r :
  exec ts q ps d = Some (d', r) → q ≠ UpsertCheckpoint → checkpoints d' = checkpoints d.
Proof. intros H Hq. destruct q; exec_cases H; repeat case_match; by simplify_eq/=. Qed.

(** ** Column input of the texts the services send *)

Lemma int_in_dec lo hi z :
  int_in lo hi (PText (dec z)) = if (lo <=? z) && (z <=? hi) then Some z else None.
Proof. unfold int_in. simpl. by rewrite undec_dec. Qed.
Lemma numeric_in_dec z : numeric_in (PText (dec z)) = Some z.
Proof. unfold numeric_in. simpl. by rewrite undec_dec. Qed.

(** The values BIGINT and INTEGER columns hold. *)
Definition int8 (z : Z) : Prop := - 2 ^ 63 <= z <= 2 ^ 63 - 1.
Definition int4 (z : Z) : Prop := - 2 ^ 31 <= z <= 2 ^ 31 - 1.

Lemma int_in_range lo hi p z : int_in lo hi p = Some z → lo <= z <= hi.
Proof.
  unfold int_in. intros H. unopt H. case_match eqn:Hb; [|done]. injection H as <-.
  apply andb_true_iff in Hb as [?%Z.leb_le ?%Z.leb_le]. done.
Qed.
Lemma int8_in_range p z : int8_in p = Some z → int8 z.
Proof. apply int_in_range. Qed.
Lemma int4_in_range p z : int4_in p = Some z → int4 z.
Proof. apply int_in_range. Qed.


Lemma int8_in_dec z : int8 z → int8_in (PText (dec z)) = Some z.
Proof.
  unfold int8, int8_in. intros H. rewrite int_in_dec.
  by rewrite (proj2 (Z.leb_le _ _) (proj1 H)), (proj2 (Z.leb_le _ _) (proj2 H)).
Qed.
Lemma int4_in_dec z : int4 z → int4_in (PText (dec z)) = Some z.
Proof.
  unfold int4, int4_in. intros H. rewrite int_in_dec.
  by rewrite (proj2 (Z.leb_le _ _) (proj1 H)), (proj2 (Z.leb_le _ _) (proj2 H)).
Qed.

Lemma set_events_id d : set_events (λ _, events d) d = d.
Proof. by destruct d. Qed.

(** The raw-event insert, from the texts the indexer binds. *)
Lemma exec_insert_event ts name contract tx idx blk pd d d' r :
  exec ts InsertEvent [PText name; PText contract; PText tx; PText (dec idx); PText (dec blk); pd] d
    = Some (d', r) →
  ∃ row, d' = set_events (λ _, (insert_if_absent (tx, idx) row (events d)).1) d ∧
    rowCount r = (insert_if_absent (tx, idx) row (events d)).2.
Proof.
  unfold exec, int4_in, int8_in. rewrite !int_in_dec.
  destruct (negb (schema d)); [done|]. simpl.
  destruct ((_ <=? idx) && _); [|done]. destruct ((_ <=? blk) && _); [|done]. simpl.
  destruct (jsonb_in pd) as [j|]; [|done]. simpl.
  destruct (insert_if_absent _ _ _) as [m n] eqn:E; intros [= <- <-].
  exists (mkEventRow name contract blk j). by rewrite E.
Qed.
