(* ===== verification/IndexerWorld.v ===== *)
(** * The indexer's world: external services and process state

    The RPC node, ethers' log decoding, node-postgres, the database server's
    availability and the backend are parameters, collected in [Env].  Every
    call to one of them takes a tick of [clock], and the answer may depend
    on the tick: a theorem that quantifies over [Env] covers every schedule
    of failures and answers. *)

From S2P Require Import Prelude JsValue Zod IndexerConfig IndexerStore.

(** ** What crosses the boundary *)

(** An entry of [provider.getLogs]. *)
Record Log := mkLog {
  log_address : string;
  log_topics : list string;
  log_data : string;
  transactionHash : string;
  index : Z;
  blockNumber : Z;
}.

#[global] Instance log_eq_dec : EqDecision Log.
Proof. solve_decision. Defined.

(** The UNIQUE key of the raw event table. *)
Definition log_key (l : Log) : string * Z := (transactionHash l, index l).

(** [contract.interface.parseLog(log)]: it may throw, return [null], or
    return a description with the event's name and arguments. *)
Inductive ParseResult :=
  | ParseThrows
  | ParseNull
  | Parsed (name : string) (args : jsval).

(** One call of [pool.query]: it succeeds if the statement does, or the
    connection fails before the statement took effect, or after. *)
Inductive DbOutcome := DbDone | DbLost | DbAckLost.

(** An HTTP request of [fetch]. *)
Record Request := mkRequest {
  rq_url : string;
  rq_method : string;
  rq_headers : list (string * jsval);
  rq_body : option json;             (** [JSON.stringify] of the body *)
}.

(** [fetch] rejects (network error) before the request left, or after, or
    resolves with a status and a body whose [text()] may itself reject. *)
Inductive FetchOutcome :=
  | FetchUnsent
  | FetchRejects
  | FetchResponds (status : Z) (text : option string).

(** [response.ok] *)
Definition response_ok (status : Z) : bool := (200 <=? status) && (status <=? 299).

Record Env := mkEnv {
  getBlockNumber : nat → option Z;
  getLogs : nat → string → Z → Z → option (list Log);
  parseLog : list string → Log → ParseResult;      (** ethers, per ABI *)
  prepareValue : jsval → option pgparam;           (** node-postgres; [None]: throws *)
  to_timestamp : string → option Z;                (** the server *)
  db_outcome : nat → Stmt → DbOutcome;
  fetch_outcome : nat → Request → FetchOutcome;
}.

(** ** Process state *)

Record World := mkWorld {
  clock : nat;
  db : Db;
  sent : list Request;               (** requests that left, in order *)
  warnedNoBackend : bool;            (** module variable of backendClient.js *)
  console : list (string * string);  (** console lines, level and text *)
}.

Definition set_db f w := mkWorld (clock w) (f (db w)) (sent w) (warnedNoBackend w) (console w).
Definition set_sent f w := mkWorld (clock w) (db w) (f (sent w)) (warnedNoBackend w) (console w).
Definition set_warned b w := mkWorld (clock w) (db w) (sent w) b (console w).
Definition tick w := mkWorld (S (clock w)) (db w) (sent w) (warnedNoBackend w) (console w).
Definition print level text w :=
  mkWorld (clock w) (db w) (sent w) (warnedNoBackend w) (console w ++ [(level, text)]).

Definition boot (d : Db) : World := mkWorld 0 d [] false [].

Definition console_log (level text : string) : Js World unit := modify (print level text).

(** ** Calls to the services *)
Section calls.
Context (E : Env).

(** [pool.query(text, values)] *)
Definition pool_query (q : Stmt) (values : list jsval) : Js World QueryResult := λ w,
  match mapM (prepareValue E) values with
  | None => (Throw (TypeError "prepareValue"), w)
  | Some ps =>
      let w' := tick w in
      match db_outcome E (clock w) q with
      | DbLost => (Throw (ServiceError "postgres"), w')
      | DbDone =>
          match exec (to_timestamp E) q ps (db w) with
          | Some (d, r) => (Ok r, set_db (λ _, d) w')
          | None => (Throw (ServiceError "postgres"), w')
          end
      | DbAckLost =>
          match exec (to_timestamp E) q ps (db w) with
          | Some (d, _) => (Throw (ServiceError "postgres"), set_db (λ _, d) w')
          | None => (Throw (ServiceError "postgres"), w')
          end
      end
  end.

(** [fetch(url, init)] *)
Definition fetch (r : Request) : Js World (Z * option string) := λ w,
  let w' := set_sent (λ l, l ++ [r]) (tick w) in
  match fetch_outcome E (clock w) r with
  | FetchUnsent => (Throw (ServiceError "fetch"), tick w)
  | FetchRejects => (Throw (ServiceError "fetch"), w')
  | FetchResponds status text => (Ok (status, text), w')
  end.

(** [provider.getBlockNumber()] *)
Definition rpc_getBlockNumber : Js World Z := λ w,
  match getBlockNumber E (clock w) with
  | Some n => (Ok n, tick w)
  | None => (Throw (ServiceError "rpc"), tick w)
  end.

(** [provider.getLogs({address, fromBlock, toBlock})] *)
Definition rpc_getLogs (address : string) (fromBlock toBlock : Z) : Js World (list Log) := λ w,
  match getLogs E (clock w) address fromBlock toBlock with
  | Some l => (Ok l, tick w)
  | None => (Throw (ServiceError "rpc"), tick w)
  end.
End calls.

(** ** node-postgres' parameter conversion

    Documented behaviour of [pg]: a string is sent as it is, a number as its
    decimal text, an object as [JSON.stringify] prints it. *)
Class PgLaws (E : Env) : Prop := {
  pg_str s : prepareValue E (VStr s) = Some (PText s);
  pg_int z : prepareValue E (VNum (Int z)) = Some (PText (dec z));
  pg_obj fs : prepareValue E (VObj fs) =
    match stringify (VObj fs) with Ok (Some j) => Some (PJson j) | _ => None end;
}.

(** ** A process that is killed

    From tick [k] on none of its calls has an effect any more.  (What is left
    of it then fails call by call, but nothing of that can be seen outside:
    [killed_frozen].)  A call that took effect just before, unanswered, is
    one at tick [k - 1]. *)
Definition killed_at (k : nat) (E : Env) : Env := {|
  getBlockNumber t := if decide (t < k)%nat then getBlockNumber E t else None;
  getLogs t a lo hi := if decide (t < k)%nat then getLogs E t a lo hi else None;
  parseLog := parseLog E;
  prepareValue := prepareValue E;
  to_timestamp := to_timestamp E;
  db_outcome t q := if decide (t < k)%nat then db_outcome E t q else DbLost;
  fetch_outcome t r := if decide (t < k)%nat then fetch_outcome E t r else FetchUnsent;
|}.
#[global] Instance killed_at_pg k E : PgLaws E → PgLaws (killed_at k E).
Proof. intros [H1 H2 H3]. by split. Qed.

(** ** How the world moves

    Whatever a service call does, tables and traces only grow; only the
    checkpoint statement touches checkpoints. *)
Record world_grows (w w' : World) : Prop := {
  wg_clock : (clock w <= clock w')%nat;
  wg_db : db_grows (db w) (db w');
  wg_sent : sent w `prefix_of` sent w';
}.

#[global] Instance world_grows_preorder : PreOrder world_grows.
Proof.
  split.
  - intros w. by split.
  - intros w1 w2 w3 [? ? ?] [? ? ?]. split; [lia|by etrans|by etrans].
Qed.

(** The same, with the checkpoints left alone. *)
Definition keeps_checkpoints (w w' : World) : Prop :=
  world_grows w w' ∧ checkpoints (db w') = checkpoints (db w).

#[global] Instance keeps_checkpoints_preorder : PreOrder keeps_checkpoints.
Proof.
  split.
  - intros w. by split.
  - intros w1 w2 w3 [? ?] [? ?]. split; [by etrans|congruence].
Qed.

(** Same tables, same requests: what reading and logging leave alone. *)
Record same_state (w w' : World) : Prop := {
  ss_db : db w' = db w;
  ss_sent : sent w' = sent w;
  ss_clock : (clock w <= clock w')%nat;
}.

#[global] Instance same_state_preorder : PreOrder same_state.
Proof.
  split; [by intros w|].
  intros w1 w2 w3 [? ? ?] [? ? ?]. split; [congruence|congruence|lia].
Qed.
Lemma tick_same w : same_state w (tick w).
Proof. split; cbn; [done|done|lia]. Qed.

Lemma tick_grows w : world_grows w (tick w).
Proof. split; simpl; [lia|done|done]. Qed.

Lemma pool_query_grows E q vs : moves world_grows (pool_query E q vs).
Proof.
  intros w. unfold pool_query.
  destruct (mapM _ vs); simpl; [|done].
  destruct (exec _ q _ (db w)) as [[d r]|] eqn:Hx; destruct (db_outcome _ _ _); simpl;
    try apply tick_grows; apply exec_grows in Hx; split; simpl; try lia; done.
Qed.

Lemma pool_query_keeps E q vs : q ≠ UpsertCheckpoint → moves keeps_checkpoints (pool_query E q vs).
Proof.
  intros Hq w. split; [apply pool_query_grows|].
  unfold pool_query. destruct (mapM _ vs); simpl; [|done].
  destruct (exec _ q _ (db w)) as [[d r]|] eqn:Hx; destruct (db_outcome _ _ _); simpl;
    try done; by eapply exec_checkpoints.
Qed.

Lemma fetch_keeps E r : moves keeps_checkpoints (fetch E r).
Proof.
  intros w. unfold fetch. destruct (fetch_outcome _ _ _); simpl;
    (split; [split; simpl; [lia|done|first [done|by apply prefix_app_r]]|done]).
Qed.
Lemma rpc_getBlockNumber_keeps E : moves keeps_checkpoints (rpc_getBlockNumber E).
Proof.
  intros w. unfold rpc_getBlockNumber. case_match; simpl; (split; [apply tick_grows|done]).
Qed.
Lemma rpc_getLogs_keeps E a lo hi : moves keeps_checkpoints (rpc_getLogs E a lo hi).
Proof.
  intros w. unfold rpc_getLogs. case_match; simpl; (split; [apply tick_grows|done]).
Qed.
Lemma console_log_keeps l t : moves keeps_checkpoints (console_log l t).
Proof. intros w. split; [by split|done]. Qed.
Lemma set_warned_keeps b : moves keeps_checkpoints (modify (set_warned b)).
Proof. intros w. split; [by split|done]. Qed.

Lemma rpc_getBlockNumber_same E : moves same_state (rpc_getBlockNumber E).
Proof. intros w. unfold rpc_getBlockNumber. case_match; apply tick_same. Qed.
Lemma rpc_getLogs_same E a lo hi : moves same_state (rpc_getLogs E a lo hi).
Proof. intros w. unfold rpc_getLogs. case_match; apply tick_same. Qed.
Lemma console_log_same l t : moves same_state (console_log l t).
Proof. intros w. by split. Qed.
Lemma pool_query_clock E q vs w : (clock w <= clock (pool_query E q vs w).2)%nat.
Proof. unfold pool_query. repeat case_match; simpl; lia. Qed.
Lemma pool_query_sent E q vs w : sent (pool_query E q vs w).2 = sent w.
Proof. unfold pool_query. repeat case_match; done. Qed.

Lemma keeps_grows {A} (m : Js World A) : moves keeps_checkpoints m → moves world_grows m.
Proof. apply moves_weaken. by intros s s' []. Qed.

#[export] Hint Resolve pool_query_keeps fetch_keeps rpc_getBlockNumber_keeps
  rpc_getLogs_keeps console_log_keeps set_warned_keeps pool_query_grows
  rpc_getBlockNumber_same rpc_getLogs_same console_log_same : moves.
#[export] Hint Extern 4 (moves world_grows _) => apply keeps_grows : moves.
#[export] Hint Extern 1 (_ ≠ UpsertCheckpoint) => discriminate : moves.

(** ** Running a call whose outcome is known *)

Lemma pool_query_done E q vs ps d r w :
  mapM (prepareValue E) vs = Some ps →
  db_outcome E (clock w) q = DbDone →
  exec (to_timestamp E) q ps (db w) = Some (d, r) →
  pool_query E q vs w = (Ok r, set_db (λ _, d) (tick w)).
Proof. unfold pool_query. by intros -> -> ->. Qed.

(** A query that returned did run its statement. *)
Lemma pool_query_ok_inv E q vs w r w' :
  pool_query E q vs w = (Ok r, w') →
  ∃ ps d, mapM (prepareValue E) vs = Some ps ∧
    exec (to_timestamp E) q ps (db w) = Some (d, r) ∧ w' = set_db (λ _, d) (tick w).
Proof.
  unfold pool_query. intros H. destruct (mapM _ vs) as [ps|]; [|done].
  destruct (db_outcome _ _ _); try done; destruct (exec _ _ _ _) as [[d r']|] eqn:Hx;
    naive_solver.
Qed.
