(* ===== verification/BackendClient.v ===== *)
(** * indexer/src/backendClient.js: the webhook to the backend

    [reportClaimEvent] and what it promises: it never touches the tables,
    issues at most one request, warns once when no backend is configured,
    logs a refused webhook and lets a failed [fetch] escape. *)

From S2P Require Import Prelude JsValue Zod IndexerConfig IndexerStore IndexerWorld.

(** [config.backendUrl] is truthy. *)
Definition backend_url (c : Config) : option string :=
  match backendUrl c with
  | Some u => if bool_decide (u = "") then None else Some u
  | None => None
  end.

Definition opt_str (o : option string) : jsval := match o with Some s => VStr s | None => VUndef end.

Section client.
Context (E : Env) (config : Config).

Definition webhook_request (url : string) (body : option json) : Request :=
  mkRequest (url +:+ "/internal/onchain-events") "POST"
    [("Content-Type", VStr "application/json");
     ("X-Indexer-Webhook-Key", opt_str (backendWebhookApiKey config))]
    body.

Definition reportClaimEvent (event : jsval) : Js World unit :=
  match backend_url config with
  | None =>
      w ← get;
      if warnedNoBackend w then mret tt
      else
        console_log "warn" "[backendClient] BACKEND_URL not set — skipping backend notification." ;;
        modify (set_warned true)
  | Some url =>
      body ← lift (stringify event);
      response ← fetch E (webhook_request url body);
      if response_ok response.1 then mret tt
      else
        let body := default "" response.2 in
        console_log "error"
          ("[backendClient] webhook failed (" +:+ dec response.1 +:+ "): " +:+ body)
  end.
End client.

(** ** Its effect on the world *)
Section client_props.
Context (E : Env) (config : Config).

Lemma reportClaimEvent_keeps event : moves keeps_checkpoints (reportClaimEvent E config event).
Proof. unfold reportClaimEvent. solve_moves. Qed.

(** The tables are the same whatever happens. *)
Definition same_db (w w' : World) : Prop := db w' = db w.
#[global] Instance same_db_preorder : PreOrder same_db.
Proof. split; [done|]. intros w1 w2 w3. unfold same_db. congruence. Qed.

Lemma reportClaimEvent_same_db event : moves same_db (reportClaimEvent E config event).
Proof.
  assert (∀ r, moves same_db (fetch E r)).
  { intros r w. unfold fetch. by case_match. }
  assert (∀ l t, moves same_db (console_log l t)) by (intros l t w; reflexivity).
  assert (∀ b, moves same_db (modify (set_warned b))) by (intros b w; reflexivity).
  unfold reportClaimEvent. solve_moves.
Qed.

(** No backend configured: no request, and the warning appears only the
    first time. *)
Lemma report_no_backend event w :
  backend_url config = None →
  reportClaimEvent E config event w =
    (Ok tt, if warnedNoBackend w then w
            else set_warned true (print "warn"
              "[backendClient] BACKEND_URL not set — skipping backend notification." w)).
Proof.
  unfold reportClaimEvent, console_log. intros ->. js_simpl.
  destruct (warnedNoBackend w); [done|]. by js_simpl.
Qed.

(** A backend that answers gets exactly one request with the event. *)
Lemma report_sends event j url w status text :
  backend_url config = Some url →
  stringify event = Ok j →
  fetch_outcome E (clock w) (webhook_request config url j) = FetchResponds status text →
  ∃ w', reportClaimEvent E config event w = (Ok tt, w') ∧
    db w' = db w ∧ sent w' = sent w ++ [webhook_request config url j].
Proof.
  intros Hu Hj Hf. unfold reportClaimEvent. rewrite Hu, Hj. js_simpl.
  rewrite bind_ok with (a := (status, text))
    (s' := set_sent (λ l, l ++ [webhook_request config url j]) (tick w)).
  - simpl. destruct (response_ok status); by eexists.
  - unfold fetch. by rewrite Hf.
Qed.

(** A rejected [fetch] escapes as an exception. *)
Lemma report_rejects event j url w :
  backend_url config = Some url →
  stringify event = Ok j →
  fetch_outcome E (clock w) (webhook_request config url j) = FetchRejects →
  ∃ w', reportClaimEvent E config event w = (Throw (ServiceError "fetch"), w') ∧
    db w' = db w.
Proof.
  intros Hu Hj Hf. unfold reportClaimEvent. rewrite Hu, Hj. js_simpl.
  exists (set_sent (λ l, l ++ [webhook_request config url j]) (tick w)). split; [|done].
  apply bind_throw. unfold fetch. by rewrite Hf.
Qed.
End client_props.
#[export] Hint Resolve reportClaimEvent_keeps : moves.
