(* ===== verification/EventHandlers.v ===== *)
(** * indexer/src/eventHandlers.js and rpcClient.js

    One definition per handler, in the shape of the source: the event's
    arguments are read and converted, the raw event row is inserted first,
    and only the call that inserted it goes on to the projection and the
    webhook.  The theorems of this file are the contract the scanner relies
    on ([SoundHandler], [guarded_persist]) and what a handler is made of. *)

From S2P Require Import Prelude JsValue Zod IndexerConfig IndexerStore IndexerWorld BackendClient.

(** ** rpcClient.js *)

Definition CLAIM_REGISTRY_ABI : list string := [
  "event ClaimSubmitted(uint256 indexed claimId, uint256 indexed policyId, address indexed claimant, bytes32 merkleRoot, uint256 amount, uint256 timestamp)";
  "event ClaimStatusChanged(uint256 indexed claimId, uint8 status)";
  "event ClaimPayout(uint256 indexed claimId, address indexed to, uint256 amount, address token)"
].

Definition INSURANCE_POLICY_ABI : list string := [
  "event PolicyRegistered(uint256 indexed policyId, address indexed holder, uint256 validFrom, uint256 validUntil, uint256 coverageAmount, bytes32 metadataHash)";
  "event PolicyRevoked(uint256 indexed policyId)"
].

Definition CLAIM_STATUS_NAMES : list jsval :=
  VStr <$> ["submitted"; "under_review"; "approved"; "paid"; "rejected"].

(** [CLAIM_STATUS_NAMES[s] ?? `unknown(${s})`] *)
Definition status_name (s : jsval) : string :=
  match array_get CLAIM_STATUS_NAMES s with
  | VStr n => n
  | _ => "unknown(" +:+ js_to_string s +:+ ")"
  end.

Section handlers.
Context (E : Env) (config : Config).

(** [args.k] and [args.k.toString()] *)
Definition arg (args : jsval) (k : string) : Js World jsval := lift (js_get args k).
Definition argText (args : jsval) (k : string) : Js World string :=
  v ← arg args k; lift (toString v).

Definition persistRawEventOnce (log : Log) (eventName contractAddress : string) (data : jsval)
    : Js World bool :=
  result ← pool_query E InsertEvent
    [VStr eventName; VStr (lower contractAddress); VStr (transactionHash log);
     VNum (Int (index log)); VNum (Int (blockNumber log)); data];
  mret (0 <? rowCount result).

(** The object passed to [reportClaimEvent]. *)
Definition claim_event (eventName claimId : string) (merkleRoot : jsval) (log : Log)
    (status : string) : jsval :=
  VObj [("eventName", VStr eventName); ("onchainClaimId", VStr claimId);
        ("merkleRoot", merkleRoot); ("txHash", VStr (transactionHash log));
        ("status", VStr status)].

Definition handleClaimSubmitted (log : Log) (args : jsval) (contractAddress : string)
    : Js World unit :=
  claimId ← argText args "claimId";
  policyId ← argText args "policyId";
  claimant ← arg args "claimant";
  merkleRoot ← arg args "merkleRoot";
  amount ← argText args "amount";
  timestamp ← argText args "timestamp";
  let data := VObj [("claimId", VStr claimId); ("policyId", VStr policyId);
    ("claimant", claimant); ("merkleRoot", merkleRoot); ("amount", VStr amount);
    ("timestamp", VStr timestamp)] in
  isNew ← persistRawEventOnce log "ClaimSubmitted" contractAddress data;
  if negb isNew then mret tt else
  claimantLower ← lift (toLowerCase claimant);
  pool_query E InsertClaim
    [VStr claimId; VStr policyId; VStr claimantLower; merkleRoot; VStr amount;
     VStr (transactionHash log); VNum (Int (blockNumber log))] ;;
  reportClaimEvent E config (claim_event "ClaimSubmitted" claimId merkleRoot log "submitted").

(** [rows[0].merkle_root] *)
Definition row_root (row : list (string * jsval)) : jsval := default VUndef (assoc "merkle_root" row).

Definition handleClaimStatusChanged (log : Log) (args : jsval) (contractAddress : string)
    : Js World unit :=
  status ← arg args "status";
  let statusName := status_name status in
  claimId ← argText args "claimId";
  let data := VObj [("claimId", VStr claimId); ("status", status); ("statusName", VStr statusName)] in
  isNew ← persistRawEventOnce log "ClaimStatusChanged" contractAddress data;
  if negb isNew then mret tt else
  result ← pool_query E UpdateClaimStatus
    [VStr claimId; VStr statusName; VStr (transactionHash log)];
  match rows result with
  | [] =>
      console_log "warn"
        ("[eventHandlers] ClaimStatusChanged for unknown claimId " +:+ claimId)
  | row :: _ =>
      reportClaimEvent E config
        (claim_event "ClaimStatusChanged" claimId (row_root row) log statusName)
  end.

Definition handleClaimPayout (log : Log) (args : jsval) (contractAddress : string)
    : Js World unit :=
  claimId ← argText args "claimId";
  to ← arg args "to";
  amount ← argText args "amount";
  token ← arg args "token";
  let data := VObj [("claimId", VStr claimId); ("to", to); ("amount", VStr amount); ("token", token)] in
  isNew ← persistRawEventOnce log "ClaimPayout" contractAddress data;
  if negb isNew then mret tt else
  result ← pool_query E UpdateClaimPaid [VStr claimId; VStr (transactionHash log)];
  match rows result with
  | [] => mret tt
  | row :: _ =>
      reportClaimEvent E config (claim_event "ClaimPayout" claimId (row_root row) log "paid")
  end.

Definition handlePolicyRegistered (log : Log) (args : jsval) (contractAddress : string)
    : Js World unit :=
  policyId ← argText args "policyId";
  holder ← arg args "holder";
  validFrom ← argText args "validFrom";
  validUntil ← argText args "validUntil";
  coverageAmount ← argText args "coverageAmount";
  let data := VObj [("policyId", VStr policyId); ("holder", holder); ("validFrom", VStr validFrom);
    ("validUntil", VStr validUntil); ("coverageAmount", VStr coverageAmount)] in
  isNew ← persistRawEventOnce log "PolicyRegistered" contractAddress data;
  if negb isNew then mret tt else
  holderLower ← lift (toLowerCase holder);
  pool_query E InsertPolicy
    [VStr policyId; VStr holderLower; VStr coverageAmount; VStr validFrom; VStr validUntil;
     VStr (transactionHash log)] ;;
  mret tt.

Definition handlePolicyRevoked (log : Log) (args : jsval) (contractAddress : string)
    : Js World unit :=
  policyId ← argText args "policyId";
  let data := VObj [("policyId", VStr policyId)] in
  isNew ← persistRawEventOnce log "PolicyRevoked" contractAddress data;
  if negb isNew then mret tt else
  pool_query E RevokePolicy [VStr policyId] ;;
  mret tt.

Definition Handler : Type := Log → jsval → string → Js World unit.

(** listener.js's dispatch table. *)
Definition HANDLERS : list (string * Handler) := [
  ("ClaimSubmitted", handleClaimSubmitted);
  ("ClaimStatusChanged", handleClaimStatusChanged);
  ("ClaimPayout", handleClaimPayout);
  ("PolicyRegistered", handlePolicyRegistered);
  ("PolicyRevoked", handlePolicyRevoked)
].
End handlers.

(** ** The contract with the scanner

    [guarded log m]: [m] never touches a checkpoint; if it returns, the raw
    row of [log] is in the event table; and if that row was there already,
    [m] changes no table and sends nothing, whatever fails.  This is what
    listener.js needs of every handler, and all it uses of them. *)
Record guarded (log : Log) (m : Js World unit) : Prop := {
  gd_keeps : moves keeps_checkpoints m;
  gd_persists w w' : m w = (Ok tt, w') → is_Some (events (db w') !! log_key log);
  gd_dup w : is_Some (events (db w) !! log_key log) →
    db (m w).2 = db w ∧ sent (m w).2 = sent w;
}.

Class SoundHandler (h : Handler) : Prop :=
  sound_handler log args contractAddress : guarded log (h log args contractAddress).

(** Computations that only read. *)
Definition pure_js {A} (m : Js World A) : Prop := ∀ w, (m w).2 = w.

Section guarded.
Context (E : Env) {PL : PgLaws E} (config : Config).

Lemma pure_lift {A} (o : outcome A) : pure_js (lift o).
Proof. done. Qed.
Lemma pure_arg args k : pure_js (arg args k).
Proof. done. Qed.
Lemma pure_argText args k : pure_js (argText args k).
Proof. intros w. unfold argText, arg, lift, mbind, js_bind. by destruct (js_get args k). Qed.

Lemma guarded_pure {A} log (m : Js World A) k :
  pure_js m → (∀ a, guarded log (k a)) → guarded log (m ≫= k).
Proof.
  intros Hp Hk. split.
  - apply moves_bind; [apply _| |intros a; apply Hk].
    intros w. rewrite Hp. done.
  - intros w w' H. apply bind_ok_inv in H as (a & w1 & _ & H). by eapply Hk.
  - intros w Hw. specialize (Hp w). unfold mbind, js_bind.
    destruct (m w) as [[a|e] w1]; simpl in *; subst w1; [by apply Hk|done].
Qed.

Lemma persist_keeps log name a data : moves keeps_checkpoints (persistRawEventOnce E log name a data).
Proof. unfold persistRawEventOnce. solve_moves. Qed.

(** The call as one raw-event insert. *)
Lemma persist_params log name a data ps :
  mapM (prepareValue E) [VStr name; VStr (lower a); VStr (transactionHash log);
    VNum (Int (index log)); VNum (Int (blockNumber log)); data] = Some ps →
  ∃ pd, prepareValue E data = Some pd ∧
    ps = [PText name; PText (lower a); PText (transactionHash log); PText (dec (index log));
          PText (dec (blockNumber log)); pd].
Proof.
  simpl. rewrite !pg_str, !pg_int. simpl.
  destruct (prepareValue E data) as [pd|]; simpl; intros [= <-]. eauto.
Qed.

(** What the call does to the world, whether or not it returns: nothing, or
    the insert, and a returned value tells which. *)
Lemma persist_effect log name a data w :
  let r := persistRawEventOnce E log name a data w in
  sent r.2 = sent w ∧
  ((db r.2 = db w ∧ ∃ e, r.1 = Throw e) ∨
   ∃ row, db r.2 = set_events (λ _, (insert_if_absent (log_key log) row (events (db w))).1) (db w) ∧
     ∀ b, r.1 = Ok b → b = (0 <? (insert_if_absent (log_key log) row (events (db w))).2)).
Proof.
  unfold persistRawEventOnce, mbind, js_bind, pool_query.
  destruct (mapM _ _) as [ps|] eqn:Hps; simpl; [|eauto].
  apply persist_params in Hps as (pd & _ & ->).
  destruct (exec (to_timestamp E) InsertEvent _ (db w)) as [[d r]|] eqn:Hx;
    destruct (db_outcome E (clock w) InsertEvent); simpl; split; eauto;
    apply exec_insert_event in Hx as (row & -> & Hr); right; exists row; (split; [done|]);
    intros b; try done; simpl; rewrite Hr; by intros [= <-].
Qed.

(** The pattern every handler ends with. *)
Lemma guarded_persist log name a data (rest : Js World unit) :
  moves keeps_checkpoints rest →
  guarded log (isNew ← persistRawEventOnce E log name a data;
               if negb isNew then mret tt else rest).
Proof.
  intros Hrest. split.
  - apply moves_bind; [apply _|apply persist_keeps|intros []; simpl; [done|apply moves_ret; apply _]].
  - intros w w' H. apply bind_ok_inv in H as (b & w1 & H1 & H2).
    pose proof (persist_effect log name a data w) as (_ & [[_ [e He]]|(row & Hdb & _)]);
      rewrite H1 in *; [done|]; simpl in Hdb.
    assert (is_Some (events (db w1) !! log_key log)) as [x Hx].
    { rewrite Hdb. apply insert_if_absent_key. }
    assert (keeps_checkpoints w1 w') as [[_ G _] _].
    { destruct b; simpl in H2; [|by injection H2 as <-].
      specialize (Hrest w1). by rewrite H2 in Hrest. }
    exists x. eapply lookup_weaken; [exact Hx|apply G].
  - intros w [x Hx].
    pose proof (persist_effect log name a data w) as (Hs & He).
    unfold mbind, js_bind.
    destruct (persistRawEventOnce E log name a data w) as [[b|e] w1]; simpl in *.
    + destruct He as [[_ [? [=]]]|(row & Hdb & Hb)].
      specialize (Hb _ eq_refl). unfold insert_if_absent in *. rewrite Hx in *.
      simpl in *. subst b. simpl. by rewrite Hdb, set_events_id.
    + destruct He as [[Hdb _]|(row & Hdb & _)]; [done|].
      unfold insert_if_absent in Hdb. rewrite Hx in Hdb. simpl in Hdb.
      by rewrite Hdb, set_events_id.
Qed.
End guarded.

#[export] Hint Resolve pure_lift pure_arg pure_argText : moves.
Ltac solve_guarded :=
  repeat first
    [ apply guarded_persist; [apply _|solve_moves]
    | apply guarded_pure; [solve [eauto with moves]|intros ?] ].

Section sound.
Context (E : Env) {PL : PgLaws E} (config : Config).

#[global] Instance handleClaimSubmitted_sound : SoundHandler (handleClaimSubmitted E config).
Proof. intros log args a. unfold handleClaimSubmitted. solve_guarded. Qed.
#[global] Instance handleClaimStatusChanged_sound : SoundHandler (handleClaimStatusChanged E config).
Proof. intros log args a. unfold handleClaimStatusChanged. solve_guarded. Qed.
#[global] Instance handleClaimPayout_sound : SoundHandler (handleClaimPayout E config).
Proof. intros log args a. unfold handleClaimPayout. solve_guarded. Qed.
#[global] Instance handlePolicyRegistered_sound : SoundHandler (handlePolicyRegistered E).
Proof. intros log args a. unfold handlePolicyRegistered. solve_guarded. Qed.
#[global] Instance handlePolicyRevoked_sound : SoundHandler (handlePolicyRevoked E).
Proof. intros log args a. unfold handlePolicyRevoked. solve_guarded. Qed.

(** Every entry of the dispatch table honours the contract. *)
Lemma HANDLERS_sound name h : assoc name (HANDLERS E config) = Some h → SoundHandler h.
Proof.
  unfold HANDLERS. simpl. intros H. repeat (case_decide; [by simplify_eq; apply _|]). done.
Qed.
End sound.
