(* ===== verification/Listener.v ===== *)
(** * indexer/src/checkpoint.js and listener.js: the scanner

    The checkpoint reads and writes, one scan of a contract in chunks, a
    pass over both contracts, the main loop, and the processes that run it
    one after the other, stopped or killed. *)

From S2P Require Import Prelude JsValue Zod IndexerConfig IndexerStore IndexerWorld BackendClient EventHandlers.

(** The two contracts of the indexer, as rpcClient.js builds them. *)
Inductive Contract := ClaimRegistry | InsurancePolicy.

#[global] Instance contract_eq_dec : EqDecision Contract.
Proof. solve_decision. Defined.

Definition abi (c : Contract) : list string :=
  match c with ClaimRegistry => CLAIM_REGISTRY_ABI | InsurancePolicy => INSURANCE_POLICY_ABI end.

(** [await contract.getAddress()]: the address the contract was built with. *)
Definition contract_address (config : Config) (c : Contract) : string :=
  match c with
  | ClaimRegistry => claimRegistryAddress config
  | InsurancePolicy => insurancePolicyAddress config
  end.

Definition deploy_block (config : Config) (c : Contract) : Z :=
  match c with
  | ClaimRegistry => claimRegistryDeployBlock config
  | InsurancePolicy => insurancePolicyDeployBlock config
  end.

Record ScanResult := mkScan { scanned : Z; sr_fromBlock : Z; sr_safeHead : Z }.

Section listener.
Context (E : Env) (config : Config).

(** ** checkpoint.js *)

(** [Number(rows[0].last_processed_block)]: pg returns BIGINT as text, exact
    below 2^53.  The column is BIGINT NOT NULL, so the text is always an
    integer ([getLastProcessedBlock_spec]) and the throwing branch below
    never runs. *)
Definition block_of_row (row : list (string * jsval)) : option Z :=
  match default VUndef (assoc "last_processed_block" row) with
  | VStr s => undec s
  | _ => None
  end.

Definition getLastProcessedBlock (contractAddress : string) : Js World (option Z) :=
  result ← pool_query E SelectCheckpoint [VStr (lower contractAddress)];
  match rows result with
  | [] => mret None
  | row :: _ =>
      match block_of_row row with
      | Some n => mret (Some n)
      | None => throw (TypeError "last_processed_block")
      end
  end.

Definition setLastProcessedBlock (contractAddress : string) (blockNumber : Z) : Js World unit :=
  pool_query E UpsertCheckpoint [VStr (lower contractAddress); VNum (Int blockNumber)] ;;
  mret tt.

(** ** scanContract *)

(** The body of [for (const log of logs)]; the number counts dispatched
    logs.  Only a [parseLog] that throws is skipped: [null] has no [name]. *)
Definition process_log (c : Contract) (address : string) (log : Log) : Js World Z :=
  match parseLog E (abi c) log with
  | ParseThrows => mret 0
  | ParseNull => throw (TypeError "Cannot read properties of null (reading 'name')")
  | Parsed name args =>
      match assoc name (HANDLERS E config) with
      | Some handler => handler log args address ;; mret 1
      | None => mret 0
      end
  end.

Fixpoint process_logs (c : Contract) (address : string) (logs : list Log) (total : Z) : Js World Z :=
  match logs with
  | [] => mret total
  | log :: logs =>
      n ← process_log c address log;
      process_logs c address logs (total + n)
  end.

(** [while (cursor <= safeHead)], one unit of fuel per iteration. *)
Fixpoint scan_chunks (fuel : nat) (c : Contract) (address : string) (cursor safeHead total : Z)
    : Js World Z :=
  if cursor <=? safeHead then
    match fuel with
    | O => throw OutOfFuel
    | S fuel =>
        let toBlock := Z.min (cursor + blockRangeChunkSize config - 1) safeHead in
        logs ← rpc_getLogs E address cursor toBlock;
        total ← process_logs c address logs total;
        setLastProcessedBlock address toBlock ;;
        scan_chunks fuel c address (toBlock + 1) safeHead total
    end
  else mret total.

(** Fuel: one iteration per block is enough when the chunk size is
    positive. *)
Definition scan_fuel (fromBlock safeHead : Z) : nat := Z.to_nat (safeHead - fromBlock + 1).

Definition scanContract (c : Contract) (deployBlock : Z) : Js World ScanResult :=
  let address := contract_address config c in
  currentHead ← rpc_getBlockNumber E;
  let safeHead := Z.max 0 (currentHead - reorgSafetyBlocks config) in
  checkpoint ← getLastProcessedBlock address;
  let fromBlock := match checkpoint with None => deployBlock | Some n => n + 1 end in
  if safeHead <? fromBlock then mret (mkScan 0 fromBlock safeHead)
  else
    totalScanned ← scan_chunks (scan_fuel fromBlock safeHead) c address fromBlock safeHead 0;
    mret (mkScan totalScanned fromBlock safeHead).

(** Policies are scanned first. *)
Definition runOnePass : Js World (ScanResult * ScanResult) :=
  policyResult ← scanContract InsurancePolicy (insurancePolicyDeployBlock config);
  claimResult ← scanContract ClaimRegistry (claimRegistryDeployBlock config);
  mret (policyResult, claimResult).

(** ** mainLoop *)

(** db.js's [ensureSchema] *)
Definition ensureSchema : Js World unit := pool_query E CreateSchema [] ;; mret tt.

(** One iteration of [while (true)], up to the timer. *)
Definition mainLoop_body : Js World unit :=
  try_catch
    (r ← runOnePass;
     let '(policyResult, claimResult) := r in
     if (0 <? scanned policyResult) || (0 <? scanned claimResult) then
       console_log "log" ("[indexer] processed " +:+ dec (scanned policyResult) +:+
         " policy event(s), " +:+ dec (scanned claimResult) +:+ " claim event(s)")
     else mret tt)
    (λ _, console_log "error" "[indexer] scan pass failed:").

Fixpoint mainLoop_iterations (n : nat) : Js World unit :=
  match n with
  | O => mret tt
  | S n => mainLoop_body ;; mainLoop_iterations n
  end.

(** [mainLoop()] up to the end of its [n]-th iteration. *)
Definition mainLoop (n : nat) : Js World unit :=
  ensureSchema ;;
  console_log "log" ("[indexer] starting — chainId " +:+ dec (chainId config) +:+
    ", poll every " +:+ dec (pollIntervalMs config) +:+ "ms") ;;
  mainLoop_iterations n.

End listener.

(** ** Processes *)

(** A process that is stopped after so many iterations, or killed before
    that, at a tick of its own: anywhere, also between two awaits of a
    handler. *)
Record Process := mkProcess { iterations : nat; killed : option nat }.
Definition services (E : Env) (p : Process) : Env :=
  match killed p with Some k => killed_at k E | None => E end.
#[global] Instance services_pg E p : PgLaws E → PgLaws (services E p).
Proof. unfold services. intros H. destruct (killed p); apply _. Qed.

(** A new process over the same tables and services: module variables are
    back at their initial values. *)
Definition restart (w : World) : World := set_warned false w.

(** Any number of processes, one after the other. *)
Fixpoint lives (E : Env) (config : Config) (ps : list Process) (w : World) : World :=
  match ps with
  | [] => w
  | p :: ps => lives E config ps (restart (mainLoop (services E p) config (iterations p) w).2)
  end.
