(* ===== verification/IndexerMirror.v ===== *)
(** * What the index should contain: an abstract mirror of the chain

    [ChainEvent] is an event as the contracts emit it, [mirror_event] its
    effect on the index, in plain map algebra and without statements, errors
    or retries.  An event may be cut short, and never taken up again: its
    [Fate] says after which part, and at which tick.  The section [refinement]
    shows that each handler implements [mirror_event]: one dispatched log
    either changes nothing, or performs that step, cut short only by a failure
    of a call it makes, at the tick of that call. *)

From S2P Require Import Prelude JsValue Zod IndexerConfig IndexerStore IndexerWorld BackendClient EventHandlers Listener.

(** ** Events *)

Inductive ChainEvent :=
  | EvClaimSubmitted (claimId policyId : Z) (claimant merkleRoot : string) (amount timestamp : Z)
  | EvClaimStatusChanged (claimId status : Z)
  | EvClaimPayout (claimId : Z) (to : string) (amount : Z) (token : string)
  | EvPolicyRegistered (policyId : Z) (holder : string) (validFrom validUntil coverageAmount : Z)
      (metadataHash : string)
  | EvPolicyRevoked (policyId : Z).

Definition event_contract (ev : ChainEvent) : Contract :=
  match ev with
  | EvClaimSubmitted _ _ _ _ _ _ | EvClaimStatusChanged _ _ | EvClaimPayout _ _ _ _ => ClaimRegistry
  | _ => InsurancePolicy
  end.

Definition event_name (ev : ChainEvent) : string :=
  match ev with
  | EvClaimSubmitted _ _ _ _ _ _ => "ClaimSubmitted"
  | EvClaimStatusChanged _ _ => "ClaimStatusChanged"
  | EvClaimPayout _ _ _ _ => "ClaimPayout"
  | EvPolicyRegistered _ _ _ _ _ _ => "PolicyRegistered"
  | EvPolicyRevoked _ => "PolicyRevoked"
  end.

(** The decoded arguments: 256-bit integers are BigInts, addresses and
    hashes strings; [status] says how a [uint8] arrives, since the services'
    comments and ethers v6 differ. *)
Definition event_args (status : Z → jsval) (ev : ChainEvent) : jsval :=
  match ev with
  | EvClaimSubmitted id pol claimant root amount ts =>
      VObj [("claimId", VBigInt id); ("policyId", VBigInt pol); ("claimant", VStr claimant);
            ("merkleRoot", VStr root); ("amount", VBigInt amount); ("timestamp", VBigInt ts)]
  | EvClaimStatusChanged id s => VObj [("claimId", VBigInt id); ("status", status s)]
  | EvClaimPayout id to amount token =>
      VObj [("claimId", VBigInt id); ("to", VStr to); ("amount", VBigInt amount); ("token", VStr token)]
  | EvPolicyRegistered id holder vf vu cov hash =>
      VObj [("policyId", VBigInt id); ("holder", VStr holder); ("validFrom", VBigInt vf);
            ("validUntil", VBigInt vu); ("coverageAmount", VBigInt cov); ("metadataHash", VStr hash)]
  | EvPolicyRevoked id => VObj [("policyId", VBigInt id)]
  end.

Definition as_number (s : Z) : jsval := VNum (Int s).

Definition status_text (s : Z) : string := status_name (as_number s).

(** The [event_data] column. *)
Definition event_json (ev : ChainEvent) : json :=
  JObj match ev with
  | EvClaimSubmitted id pol claimant root amount ts =>
      [("claimId", JStr (dec id)); ("policyId", JStr (dec pol)); ("claimant", JStr claimant);
       ("merkleRoot", JStr root); ("amount", JStr (dec amount)); ("timestamp", JStr (dec ts))]
  | EvClaimStatusChanged id s =>
      [("claimId", JStr (dec id)); ("status", JNum (Int s)); ("statusName", JStr (status_text s))]
  | EvClaimPayout id to amount token =>
      [("claimId", JStr (dec id)); ("to", JStr to); ("amount", JStr (dec amount)); ("token", JStr token)]
  | EvPolicyRegistered id holder vf vu cov _ =>
      [("policyId", JStr (dec id)); ("holder", JStr holder); ("validFrom", JStr (dec vf));
       ("validUntil", JStr (dec vu)); ("coverageAmount", JStr (dec cov))]
  | EvPolicyRevoked id => [("policyId", JStr (dec id))]
  end.

(** ** The mirror *)

Record Mirror := mkMirror {
  m_events : gmap (string * Z) EventRow;
  m_claims : gmap Z ClaimRow;
  m_policies : gmap Z PolicyRow;
  m_sent : list Request;
}.

Definition empty_mirror : Mirror := mkMirror ∅ ∅ ∅ [].

Definition mirror_of (w : World) : Mirror :=
  mkMirror (events (db w)) (claims (db w)) (policies (db w)) (sent w).

Section mirror.
Context (config : Config).

Definition event_row (c : Contract) (log : Log) (ev : ChainEvent) : EventRow :=
  mkEventRow (event_name ev) (lower (contract_address config c)) (blockNumber log) (event_json ev).

Definition claims_step (log : Log) (ev : ChainEvent) (cs : gmap Z ClaimRow) : gmap Z ClaimRow :=
  match ev with
  | EvClaimSubmitted id pol claimant root amount _ =>
      cs ∪ {[ id := mkClaimRow pol (lower claimant) root amount "submitted"
                (transactionHash log) (blockNumber log) None None ]}
  | EvClaimStatusChanged id s => alter (set_status (status_text s) (transactionHash log)) id cs
  | EvClaimPayout id _ _ _ => alter (set_paid (transactionHash log)) id cs
  | _ => cs
  end.

Definition policies_step (log : Log) (ev : ChainEvent) (ps : gmap Z PolicyRow) : gmap Z PolicyRow :=
  match ev with
  | EvPolicyRegistered id holder vf vu cov _ =>
      ps ∪ {[ id := mkPolicyRow (lower holder) cov vf vu false (transactionHash log) ]}
  | EvPolicyRevoked id => alter set_revoked id ps
  | _ => ps
  end.

(** The body the backend is sent for a claim event. *)
Definition webhook_body (log : Log) (name : string) (id : Z) (root status : string) : json :=
  JObj [("eventName", JStr name); ("onchainClaimId", JStr (dec id)); ("merkleRoot", JStr root);
        ("txHash", JStr (transactionHash log)); ("status", JStr status)].

Definition webhook (log : Log) (name : string) (id : Z) (root status : string) : list Request :=
  match backend_url config with
  | None => []
  | Some u => [webhook_request config u (Some (webhook_body log name id root status))]
  end.

(** At most one notification per claim event; none about an unknown claim. *)
Definition notifications (log : Log) (ev : ChainEvent) (cs : gmap Z ClaimRow) : list Request :=
  match ev with
  | EvClaimSubmitted id _ _ root _ _ => webhook log (event_name ev) id root "submitted"
  | EvClaimStatusChanged id s =>
      match cs !! id with
      | Some r => webhook log (event_name ev) id (cl_merkle_root r) (status_text s)
      | None => []
      end
  | EvClaimPayout id _ _ _ =>
      match cs !! id with
      | Some r => webhook log (event_name ev) id (cl_merkle_root r) "paid"
      | None => []
      end
  | _ => []
  end.

(** How far a recorded event got: all the way, or no further than its raw
    row, or no further than its projection; and at which tick it was cut. *)
Inductive Fate := Processed | Unprojected (t : nat) | Unreported (t : nat).
Definition is_projected (f : Fate) : bool := match f with Unprojected _ => false | _ => true end.
Definition is_processed (f : Fate) : bool := match f with Processed => true | _ => false end.
Definition cut_tick (f : Fate) : option nat :=
  match f with Processed => None | Unprojected t | Unreported t => Some t end.

Definition mirror_event (c : Contract) (log : Log) (ev : ChainEvent) (f : Fate) (m : Mirror) : Mirror :=
  mkMirror (<[log_key log := event_row c log ev]> (m_events m))
    (if is_projected f then claims_step log ev (m_claims m) else m_claims m)
    (if is_projected f then policies_step log ev (m_policies m) else m_policies m)
    (m_sent m ++ if is_processed f then notifications log ev (m_claims m) else []).
End mirror.

(** ** Refinement: a handler performs exactly its mirror step *)

(** The statement that projects an event. *)
Definition projection (ev : ChainEvent) : Stmt :=
  match ev with
  | EvClaimSubmitted _ _ _ _ _ _ => InsertClaim
  | EvClaimStatusChanged _ _ => UpdateClaimStatus
  | EvClaimPayout _ _ _ _ => UpdateClaimPaid
  | EvPolicyRegistered _ _ _ _ _ _ => InsertPolicy
  | EvPolicyRevoked _ => RevokePolicy
  end.

(** What cuts a handler that began at tick [t0]: the raw insert took effect
    but was not acknowledged; the statement after it did not take effect, or
    was not acknowledged; the request to the backend did not leave. *)
Definition cut_at (E : Env) (ev : ChainEvent) (t0 : nat) (f : Fate) : Prop :=
  match f with
  | Processed => True
  | Unprojected t =>
      (t = t0 ∧ db_outcome E t InsertEvent = DbAckLost) ∨
      (t = S t0 ∧ db_outcome E t0 InsertEvent = DbDone ∧ db_outcome E t (projection ev) = DbLost)
  | Unreported t =>
      (t = S t0 ∧ db_outcome E t (projection ev) = DbAckLost) ∨
      (t = S (S t0) ∧ db_outcome E (S t0) (projection ev) = DbDone ∧ ∃ r, fetch_outcome E t r = FetchUnsent)
  end.
Lemma cut_at_tick E ev t0 f t : cut_at E ev t0 f → cut_tick f = Some t → (t0 <= t)%nat.
Proof. destruct f; cbn; intros H [= <-]; destruct H as [[-> _]|[-> _]]; lia. Qed.

(** Some call to the database or the backend fails at this tick. *)
Definition failing (E : Env) (t : nat) : Prop :=
  (∃ q, db_outcome E t q ≠ DbDone) ∨ (∃ r, ∀ status text, fetch_outcome E t r ≠ FetchResponds status text).

(** The event's values fit the columns they go to. *)
Definition event_fits (E : Env) (log : Log) (ev : ChainEvent) : Prop :=
  int4 (index log) ∧ int8 (blockNumber log) ∧
  match ev with
  | EvClaimSubmitted id pol _ _ _ _ => int8 id ∧ int8 pol
  | EvClaimStatusChanged id _ | EvClaimPayout id _ _ _ | EvPolicyRevoked id => int8 id
  | EvPolicyRegistered id _ vf vu _ _ =>
      int8 id ∧ to_timestamp E (dec vf) = Some vf ∧ to_timestamp E (dec vu) = Some vu
  end.

Section map_algebra.
Context `{Countable K} {V : Type}.
Implicit Types m : gmap K V.

Lemma insert_if_absent_union k v m : (insert_if_absent k v m).1 = m ∪ {[ k := v ]}.
Proof.
  unfold insert_if_absent. destruct (m !! k) eqn:Hk; simpl; apply map_eq; intros i.
  - rewrite lookup_union. destruct (decide (i = k)) as [->|Hne].
    + by rewrite Hk, lookup_singleton_eq.
    + rewrite lookup_singleton_ne by done. by destruct (m !! i).
  - rewrite lookup_union. destruct (decide (i = k)) as [->|Hne].
    + by rewrite lookup_insert_eq, Hk, lookup_singleton_eq.
    + rewrite lookup_insert_ne, lookup_singleton_ne by done. by destruct (m !! i).
Qed.

Lemma update_row_alter f k m : update_row f k m = (alter f k m, f <$> m !! k).
Proof.
  unfold update_row. destruct (m !! k) as [v|] eqn:Hk; simpl.
  - f_equal. apply map_eq. intros i. destruct (decide (i = k)) as [->|Hne].
    + by rewrite lookup_insert_eq, lookup_alter_eq, Hk.
    + by rewrite lookup_insert_ne, lookup_alter_ne.
  - f_equal. symmetry. by apply alter_id'.
Qed.
End map_algebra.

(** Reading the arguments a handler names. *)
Lemma argText_bigint {B} fs k z (cont : string → Js World B) w :
  assoc k fs = Some (VBigInt z) → (argText (VObj fs) k ≫= cont) w = cont (dec z) w.
Proof. unfold argText, arg, lift, mbind, js_bind. simpl. by intros ->. Qed.
Lemma arg_field {B} fs k v (cont : jsval → Js World B) w :
  assoc k fs = Some v → (arg (VObj fs) k ≫= cont) w = cont v w.
Proof. unfold arg, lift, mbind, js_bind. simpl. by intros ->. Qed.
Ltac args := repeat first
  [ erewrite argText_bigint by reflexivity | erewrite arg_field by reflexivity ].

Section refinement.
Context (E : Env) {PL : PgLaws E} (config : Config).

(** What handleX does around its projection [rest]: the raw row first, the
    projection only when that row is new. *)
Inductive persisted (log : Log) (row : EventRow) (rest : Js World unit) (w : World)
    : outcome unit * World → Prop :=
  | persist_lost w' :
      failing E (clock w) ∨ schema (db w) = false → same_state w w' →
      persisted log row rest w (Throw (ServiceError "postgres"), w')
  | persist_duplicate :
      is_Some (events (db w) !! log_key log) →
      persisted log row rest w (Ok tt, set_db (λ _, db w) (tick w))
  | persist_unacked :
      events (db w) !! log_key log = None → db_outcome E (clock w) InsertEvent = DbAckLost →
      persisted log row rest w
        (Throw (ServiceError "postgres"), set_db (λ _, set_events <[log_key log := row]> (db w)) (tick w))
  | persist_new :
      events (db w) !! log_key log = None → schema (db w) = true → db_outcome E (clock w) InsertEvent = DbDone →
      persisted log row rest w
        (rest (set_db (λ _, set_events <[log_key log := row]> (db w)) (tick w))).

Lemma persist_cases log name a data j (rest : Js World unit) w :
  prepareValue E data = Some (PJson j) →
  int4 (index log) → int8 (blockNumber log) →
  persisted log (mkEventRow name (lower a) (blockNumber log) j) rest w
    ((isNew ← persistRawEventOnce E log name a data;
      if negb isNew then mret tt else rest) w).
Proof.
  intros Hj Hi Hb. unfold persistRawEventOnce, mbind, js_bind, pool_query. simpl.
  rewrite !pg_str, !pg_int, Hj. simpl. unfold exec.
  assert (db_outcome E (clock w) InsertEvent ≠ DbDone → failing E (clock w)) as Hfail by (intros ?; left; by eexists).
  assert (same_state w (set_db (λ _, db w) (tick w))) as Hsame by (split; cbn; [done|done|lia]).
  destruct (schema (db w)) eqn:Hs; simpl;
    [|destruct (db_outcome E (clock w) InsertEvent); constructor; auto using tick_same].
  rewrite int4_in_dec, int8_in_dec by done. simpl. unfold insert_if_absent. change (transactionHash log, index log) with (log_key log).
  destruct (events (db w) !! log_key log) as [x|] eqn:Hx; simpl; rewrite ?set_events_id;
    destruct (db_outcome E (clock w) InsertEvent) eqn:Ho; simpl.
  - constructor. eauto.
  - constructor; [|apply tick_same]. left. by apply Hfail.
  - constructor; [|exact Hsame]. left. by apply Hfail.
  - by constructor.
  - constructor; [|apply tick_same]. left. by apply Hfail.
  - by constructor.
Qed.

(** How a notification [l] ends. *)
Definition notified (l : list Request) (w : World) (r : outcome unit * World) : Prop :=
  db r.2 = db w ∧ (clock w <= clock r.2)%nat ∧
  ((r.1 = Ok tt ∧ sent r.2 = sent w ++ l) ∨
   ((∃ e, r.1 = Throw e) ∧ failing E (clock w) ∧ (clock w < clock r.2)%nat ∧
    (sent r.2 = sent w ++ l ∨ sent r.2 = sent w ∧ ∃ rq, fetch_outcome E (clock w) rq = FetchUnsent))).

Lemma report_claim_event log name id root st w :
  notified (webhook config log name id root st) w
    (reportClaimEvent E config (claim_event name (dec id) (VStr root) log st) w).
Proof.
  unfold notified, webhook. destruct (backend_url config) as [u|] eqn:Hu.
  - unfold reportClaimEvent. rewrite Hu. simpl stringify. js_simpl. rewrite bind_run. unfold fetch.
    change (Some (webhook_body log name id root st)) with
      (Some (JObj [("eventName", JStr name); ("onchainClaimId", JStr (dec id)); ("merkleRoot", JStr root);
        ("txHash", JStr (transactionHash log)); ("status", JStr st)])).
    destruct (fetch_outcome E (clock w) _) as [| |status text] eqn:Hf; cbn.
    + split_and!; [done|lia|right]. split_and!; [by eexists| |lia|right; split; [done|by eexists]].
      right. eexists. intros ??. by rewrite Hf.
    + split_and!; [done|lia|right]. split_and!; [by eexists| |lia|by left].
      right. eexists. intros ??. by rewrite Hf.
    + destruct (response_ok status); cbn; (split_and!; [done|lia|by left]).
  - rewrite report_no_backend by done. cbn. rewrite app_nil_r.
    destruct (warnedNoBackend w); (split_and!; [done|done|by left]).
Qed.
Lemma nothing_notified w : notified [] w (Ok tt, w).
Proof. split_and!; [done|done|left]. by rewrite app_nil_r. Qed.

(** The run [r] from [w] performed the mirror step of a new log, as far as
    [f] says; it returned if nothing failed. *)
Definition performs (c : Contract) (log : Log) (ev : ChainEvent) (w : World) (r : outcome unit * World) : Prop :=
  ∃ f, mirror_of r.2 = mirror_event config c log ev f (mirror_of w) ∧ cut_at E ev (clock w) f ∧
    (∀ t, cut_tick f = Some t → (t < clock r.2)%nat) ∧ (clock w <= clock r.2)%nat ∧
    ((r.1 = Ok tt ∧ f = Processed) ∨ (∃ e, r.1 = Throw e) ∧ ∃ t, (clock w <= t)%nat ∧ failing E t).

Inductive implements (c : Contract) (log : Log) (ev : ChainEvent) (w : World) (r : outcome unit * World) : Prop :=
  | implements_nothing e :
      r.1 = Throw e → same_state w r.2 → failing E (clock w) ∨ schema (db w) = false → implements c log ev w r
  | implements_duplicate :
      r.1 = Ok tt → same_state w r.2 → is_Some (events (db w) !! log_key log) → implements c log ev w r
  | implements_event :
      events (db w) !! log_key log = None → performs c log ev w r → implements c log ev w r.

(** The world in which the projection runs. *)
Definition raw_stored (c : Contract) (log : Log) (ev : ChainEvent) (w : World) : World :=
  set_db (λ _, set_events <[log_key log := event_row config c log ev]> (db w)) (tick w).

Lemma persisted_implements c log ev rest w r :
  persisted log (event_row config c log ev) rest w r →
  (schema (db w) = true → db_outcome E (clock w) InsertEvent = DbDone →
   performs c log ev w (rest (raw_stored c log ev w))) →
  implements c log ev w r.
Proof.
  intros [w' Hf Hs|Hd|Hn Ho|Hn Hsch Ho] Hrest.
  - by eapply implements_nothing.
  - apply implements_duplicate; [done| |done]. split; cbn; [done|done|lia].
  - apply implements_event; [done|]. exists (Unprojected (clock w)). cbn. split_and!; [|by left| |lia|right].
    + unfold mirror_of, mirror_event. cbn. by rewrite app_nil_r.
    + intros t [= <-]. lia.
    + split; [by eexists|]. exists (clock w). split; [done|]. left. exists InsertEvent. by rewrite Ho.
  - apply implements_event; [done|]. by apply Hrest.
Qed.

(** A projection that the server accepts, and the notification after it. *)
Lemma projected_performs c log ev vs ps d res (k : QueryResult → Js World unit) w :
  let q := projection ev in db_outcome E (clock w) InsertEvent = DbDone →
  mapM (prepareValue E) vs = Some ps →
  exec (to_timestamp E) q ps (db (raw_stored c log ev w)) = Some (d, res) →
  events d = <[log_key log := event_row config c log ev]> (events (db w)) →
  claims d = claims_step log ev (claims (db w)) → policies d = policies_step log ev (policies (db w)) →
  (∀ w', db w' = d → notified (notifications config log ev (claims (db w))) w' (k res w')) →
  performs c log ev w ((pool_query E q vs ≫= k) (raw_stored c log ev w)).
Proof.
  intros q Hins Hps Hx He Hc Hp Hk. rewrite bind_run. unfold pool_query. rewrite Hps, Hx.
  change (clock (raw_stored c log ev w)) with (S (clock w)).
  assert (db_outcome E (S (clock w)) q ≠ DbDone → ∃ t, (clock w <= t)%nat ∧ failing E t) as Hfail
    by (intros H; exists (S (clock w)); split; [lia|left; by eexists]).
  destruct (db_outcome E (S (clock w)) q) eqn:Ho.
  - set (w' := set_db (λ _, d) (tick (raw_stored c log ev w))). destruct (Hk w' eq_refl) as (Hdb & Hcl & Hend).
    change (clock w') with (S (S (clock w))) in *. change (db w') with d in Hdb. change (sent w') with (sent w) in Hend.
    destruct Hend as [[Hr Hs]|(Hr & Hf & Hlt & [Hs|[Hs Hun]])]; [exists Processed|exists Processed|exists (Unreported (S (S (clock w))))];
      unfold mirror_of, mirror_event; cbn; rewrite ?Hdb, ?Hs, ?He, ?Hc, ?Hp, ?app_nil_r.
    + split_and!; [done|done|done|lia|by left].
    + split_and!; [done|done|done|lia|right]. split; [done|]. exists (S (S (clock w))). split; [lia|done].
    + split_and!; [done| |intros t [= <-]; lia|lia|right].
      * right. split_and!; [done|done|exact Hun].
      * split; [done|]. exists (S (S (clock w))). split; [lia|done].
  - exists (Unprojected (S (clock w))). cbn. split_and!; [|by right|intros t [= <-]; lia|lia|right].
    + unfold mirror_of, mirror_event. cbn. by rewrite app_nil_r.
    + split; [by eexists|]. by apply Hfail.
  - exists (Unreported (S (clock w))). cbn. split_and!; [| |intros t [= <-]; lia|lia|right].
    + unfold mirror_of, mirror_event. cbn. by rewrite He, Hc, Hp, app_nil_r.
    + by left.
    + split; [by eexists|]. by apply Hfail.
Qed.

Lemma timestamp_in_dec ts z : ts (dec z) = Some z → timestamp_in ts (PText (dec z)) = Some z.
Proof. done. Qed.

(** Enter the projection of a handler whose raw row is new. *)
Ltac enter Hs Ho :=
  args; eapply persisted_implements;
    [by apply persist_cases; [rewrite pg_obj; reflexivity|..]|];
  intros Hs Ho; js_simpl; simpl toLowerCase; js_simpl.
(** The statement at the head of the goal; leaves the notification. *)
Ltac project Hs :=
  eapply projected_performs;
    [done
    |simpl; rewrite ?pg_str, ?pg_int; reflexivity
    |unfold exec; simpl; rewrite Hs; simpl;
     rewrite ?int8_in_dec, ?numeric_in_dec, ?timestamp_in_dec by done; simpl;
     rewrite ?update_row_alter;
     try match goal with |- context [insert_if_absent ?k ?v ?m] =>
       rewrite (surjective_pairing (insert_if_absent k v m)) end;
     reflexivity
    |done|simpl; rewrite ?insert_if_absent_union; done|simpl; rewrite ?insert_if_absent_union; done
    |intros w' Hdb].

Lemma submitted_implements log id pol claimant root amount ts w :
  let ev := EvClaimSubmitted id pol claimant root amount ts in
  event_fits E log ev →
  implements ClaimRegistry log ev w
    (handleClaimSubmitted E config log (event_args as_number ev)
       (contract_address config ClaimRegistry) w).
Proof.
  intros ev (Hi & Hb & Hid & Hpol). unfold handleClaimSubmitted. simpl event_args.
  enter Hs Ho. project Hs. apply report_claim_event.
Qed.

Lemma status_implements log id st w :
  let ev := EvClaimStatusChanged id st in
  event_fits E log ev →
  implements ClaimRegistry log ev w
    (handleClaimStatusChanged E config log (event_args as_number ev)
       (contract_address config ClaimRegistry) w).
Proof.
  intros ev (Hi & Hb & Hid). unfold handleClaimStatusChanged. simpl event_args.
  enter Hs Ho. project Hs. simpl. destruct (claims (db w) !! id) as [r|] eqn:Hr; simpl.
  - apply report_claim_event.
  - split_and!; [done|done|left]. by rewrite app_nil_r.
Qed.

Lemma payout_implements log id to amount token w :
  let ev := EvClaimPayout id to amount token in
  event_fits E log ev →
  implements ClaimRegistry log ev w
    (handleClaimPayout E config log (event_args as_number ev)
       (contract_address config ClaimRegistry) w).
Proof.
  intros ev (Hi & Hb & Hid). unfold handleClaimPayout. simpl event_args.
  enter Hs Ho. project Hs. simpl. destruct (claims (db w) !! id) as [r|] eqn:Hr; simpl.
  - apply report_claim_event.
  - apply nothing_notified.
Qed.

Lemma registered_implements log id holder vf vu cov hash w :
  let ev := EvPolicyRegistered id holder vf vu cov hash in
  event_fits E log ev →
  implements InsurancePolicy log ev w
    (handlePolicyRegistered E log (event_args as_number ev)
       (contract_address config InsurancePolicy) w).
Proof.
  intros ev (Hi & Hb & Hid & Hvf & Hvu). unfold handlePolicyRegistered. simpl event_args.
  enter Hs Ho. project Hs. apply nothing_notified.
Qed.

Lemma revoked_implements log id w :
  let ev := EvPolicyRevoked id in
  event_fits E log ev →
  implements InsurancePolicy log ev w
    (handlePolicyRevoked E log (event_args as_number ev)
       (contract_address config InsurancePolicy) w).
Proof.
  intros ev (Hi & Hb & Hid). unfold handlePolicyRevoked. simpl event_args.
  enter Hs Ho. project Hs. apply nothing_notified.
Qed.

(** A status that arrived as a BigInt stops the handler before it writes. *)
Lemma status_bigint log id st a w :
  (handleClaimStatusChanged E config log (event_args VBigInt (EvClaimStatusChanged id st)) a w) =
    (Throw (TypeError "prepareValue"), w).
Proof.
  unfold handleClaimStatusChanged. simpl event_args. args.
  unfold persistRawEventOnce, mbind, js_bind, pool_query. simpl.
  by rewrite !pg_str, !pg_int, pg_obj.
Qed.

(** Every event has its handler in the dispatch table. *)
Lemma event_handler ev :
  ∃ h, assoc (event_name ev) (HANDLERS E config) = Some h ∧
    ∀ log w, event_fits E log ev →
      implements (event_contract ev) log ev w
        (h log (event_args as_number ev) (contract_address config (event_contract ev)) w).
Proof.
  destruct ev; eexists; (split; [reflexivity|intros log w Hf]).
  - by apply submitted_implements.
  - by apply status_implements.
  - by apply payout_implements.
  - by apply registered_implements.
  - by apply revoked_implements.
Qed.
End refinement.

(** ** One log of the scan *)
Section reading.
Context (E : Env) {PL : PgLaws E} (config : Config).
(** What each log of the two contracts records, if it is an event the
    indexer mirrors. *)
Context (event_of : Log → option ChainEvent).

(** ethers decodes the mirrored events (a status as a Number or as a
    BigInt), and makes of any other log nothing the dispatch table knows. *)
Definition decodes (c : Contract) (log : Log) : Prop :=
  match event_of log with
  | Some ev => event_contract ev = c ∧ event_fits E log ev ∧
      (parseLog E (abi c) log = Parsed (event_name ev) (event_args as_number ev) ∨
       parseLog E (abi c) log = Parsed (event_name ev) (event_args VBigInt ev))
  | None => ∀ name args, parseLog E (abi c) log = Parsed name args →
      assoc name (HANDLERS E config) = None
  end.

(** The logs listener.js cannot process ([null_poison], [bigint_poison]). *)
Definition stuck (c : Contract) (log : Log) : Prop :=
  parseLog E (abi c) log = ParseNull ∨
  ∃ id s, parseLog E (abi c) log =
    Parsed "ClaimStatusChanged" (event_args VBigInt (EvClaimStatusChanged id s)).

Definition mirror_log (c : Contract) (log : Log) (f : Fate) (m : Mirror) : Mirror :=
  match event_of log with Some ev => mirror_event config c log ev f m | None => m end.

(** Why a log's processing from [w] on throws. *)
Definition troubled (c : Contract) (log : Log) (w : World) : Prop :=
  (∃ t, (clock w <= t)%nat ∧ failing E t) ∨ schema (db w) = false ∨ stuck c log.

(** One log: it fails without effect, or has nothing to do, or performs its
    mirror step, cut short or not. *)
Inductive log_step (c : Contract) (log : Log) (w : World) (r : outcome Z * World) : Prop :=
  | log_fails e :
      r.1 = Throw e → same_state w r.2 → troubled c log w → log_step c log w r
  | log_idle n :
      r.1 = Ok n → same_state w r.2 →
      event_of log = None ∨ is_Some (events (db w) !! log_key log) → log_step c log w r
  | log_performs ev f :
      events (db w) !! log_key log = None → event_of log = Some ev →
      mirror_of r.2 = mirror_log c log f (mirror_of w) → cut_at E ev (clock w) f →
      (∀ t, cut_tick f = Some t → (t < clock r.2)%nat) → (clock w <= clock r.2)%nat →
      ((∃ n, r.1 = Ok n) ∧ f = Processed ∨ (∃ e, r.1 = Throw e) ∧ troubled c log w) → log_step c log w r.

Lemma event_args_number ev st :
  (∀ id s, ev ≠ EvClaimStatusChanged id s) → event_args st ev = event_args as_number ev.
Proof. destruct ev; naive_solver. Qed.

Lemma process_log_steps c log w :
  decodes c log → log_step c log w (process_log E config c (contract_address config c) log w).
Proof.
  unfold decodes, process_log. destruct (event_of log) as [ev|] eqn:Hev.
  - intros (<- & Hf & Hp).
    assert (parseLog E (abi (event_contract ev)) log =
        Parsed (event_name ev) (event_args as_number ev) ∨
      ∃ id s, ev = EvClaimStatusChanged id s ∧ parseLog E (abi ClaimRegistry) log =
        Parsed "ClaimStatusChanged" (event_args VBigInt ev)) as [Hpn|(id & s & -> & Hpb)].
    { destruct Hp as [|Hp]; [by left|].
      destruct ev as [|id s| | |]; (rewrite Hp; eauto 6). }
    + rewrite Hpn. destruct (event_handler E config ev) as (h & -> & Himp).
      specialize (Himp log w Hf). rewrite bind_run.
      destruct Himp as [e Hr Hs Hwhy|Hr Hs Hrec|Hnew (f & Hm & Hcut & Htick & Hcl & Hend)];
        destruct (h log _ _ w) as [o w1]; cbn [fst snd] in *; try subst o.
      * eapply log_fails; [done..|]. destruct Hwhy as [?|?]; [left; by exists (clock w)|right; by left].
      * eapply log_idle; [done..|by right].
      * assert (mirror_of w1 = mirror_log (event_contract ev) log f (mirror_of w)) as Hm' by (unfold mirror_log; by rewrite Hev).
        destruct Hend as [[-> ->]|[[e ->] Hfail]]; (eapply log_performs; [done|exact Hev|done..|]).
        { left. split; [by eexists|done]. }
        { right. split; [by eexists|by left]. }
    + change (abi (event_contract _)) with (abi ClaimRegistry). rewrite Hpb. simpl. unfold mbind, js_bind.
      pose proof (status_bigint E config log id s (claimRegistryAddress config) w) as Hb.
      simpl in Hb. rewrite Hb. eapply log_fails; [done..|]. right. right. right. eauto.
  - intros Hd. destruct (parseLog E (abi c) log) as [| |name args] eqn:Hp.
    + by eapply log_idle; [..|left].
    + eapply log_fails; [done..|]. right. right. by left.
    + rewrite (Hd _ _ eq_refl). by eapply log_idle; [..|left].
Qed.
End reading.

(** ** Processes that are killed *)

(** A failure of the services that cuts the event short, at that tick. *)
Definition cause (E : Env) (ev : ChainEvent) (f : Fate) : Prop :=
  match f with
  | Processed => True
  | Unprojected t => db_outcome E t InsertEvent = DbAckLost ∨ db_outcome E t (projection ev) = DbLost
  | Unreported t => db_outcome E t (projection ev) = DbAckLost ∨ ∃ r, fetch_outcome E t r = FetchUnsent
  end.

Lemma cut_cause E ev t0 f : cut_at E ev t0 f → cause E ev f.
Proof.
  destruct f as [|t|t]; cbn; [done|..].
  - intros [[_ H]|(_ & _ & H)]; auto.
  - intros [[_ H]|(_ & _ & H)]; auto.
Qed.
(** In a killed process it is one of the services, or the kill itself, at its
    own tick. *)
Lemma killed_cause k E ev t0 f : cut_at (killed_at k E) ev t0 f → cause E ev f ∨ cut_tick f = Some k.
Proof.
  destruct f as [|t|t]; cbn; [by left|..].
  - intros [[-> H]|(-> & H & Hl)]; destruct (decide (t0 < k)%nat); [by left; left|done| |done].
    destruct (decide (S t0 < k)%nat); [by left; right|right; f_equal; lia].
  - intros [[-> H]|(-> & H & r & Hr)]; destruct (decide (S t0 < k)%nat); [by left; left|done| |done].
    destruct (decide (S (S t0) < k)%nat); [left; right; eauto|right; f_equal; lia].
Qed.
Lemma services_cause E p ev t0 f : cut_at (services E p) ev t0 f → cause E ev f ∨ cut_tick f = killed p.
Proof.
  unfold services. destruct (killed p) as [k|]; [by intros ?%killed_cause|]. intros H%cut_cause. by left.
Qed.

(** What a killed process reads and decodes is what another one would. *)
Lemma HANDLERS_names E E' config name : assoc name (HANDLERS E config) = None → assoc name (HANDLERS E' config) = None.
Proof. unfold HANDLERS. simpl. repeat (case_decide; [done|]). done. Qed.
Lemma services_parse E p : parseLog (services E p) = parseLog E.
Proof. unfold services. by destruct (killed p). Qed.
Lemma services_timestamp E p : to_timestamp (services E p) = to_timestamp E.
Proof. unfold services. by destruct (killed p). Qed.
Lemma services_decodes E p config event_of c log : decodes E config event_of c log →
  decodes (services E p) config event_of c log.
Proof.
  unfold decodes, event_fits. rewrite services_parse, services_timestamp. destruct (event_of log); [done|].
  intros H name args Hp. by eapply HANDLERS_names, H.
Qed.
Lemma services_logs E p t a lo hi logs : getLogs (services E p) t a lo hi = Some logs → getLogs E t a lo hi = Some logs.
Proof. unfold services. destruct (killed p); [|done]. cbn. by case_decide. Qed.
Lemma services_head E p t head : getBlockNumber (services E p) t = Some head → getBlockNumber E t = Some head.
Proof. unfold services. destruct (killed p); [|done]. cbn. by case_decide. Qed.
