(* ===== verification/Scenario.v ===== *)
(** * A concrete world for the witnesses

    A configuration, a four-log chain and services whose failures are
    scripted by functions of the tick: the instances on which the witnesses
    of the indexer's theorems run.  Nothing here models code. *)

From Stdlib Require Import Sorting.Sorted.
From S2P Require Import Prelude JsValue Zod IndexerConfig IndexerStore IndexerWorld BackendClient EventHandlers Listener IndexerMirror.

Definition claims_addr : string := "0x00000000000000000000000000000000000000C1".
Definition policy_addr : string := "0x00000000000000000000000000000000000000A1".

Definition demo_config : Config := {|
  rpcUrl := "http://localhost:8545"; chainId := 1337; databaseUrl := "postgres://localhost/dics";
  claimRegistryAddress := claims_addr; insurancePolicyAddress := policy_addr;
  pollIntervalMs := 3000; blockRangeChunkSize := 4;
  backendUrl := Some "http://localhost:8000";
  backendWebhookApiKey := Some "0123456789abcdef";
  claimRegistryDeployBlock := 0; insurancePolicyDeployBlock := 0; reorgSafetyBlocks := 2
|}.

Lemma demo_config_ok : ConfigOk demo_config.
Proof. split; simpl; try lia. intros u _ _. eexists. split; [reflexivity|]. vm_compute. done. Qed.

Lemma demo_distinct :
  lower (claimRegistryAddress demo_config) ≠ lower (insurancePolicyAddress demo_config).
Proof. by vm_compute. Qed.

(** The events, one log each; the log's data is the event's position. *)
Definition demo_events : list ChainEvent := [
  EvPolicyRegistered 7 "0xAbC" 100 200 5000 "0x01";
  EvClaimSubmitted 1 7 "0xDeF" "0x99" 250 1000;
  EvClaimStatusChanged 1 2;
  EvClaimPayout 1 "0xDeF" 250 "0x77"
].

Definition demo_log (i : nat) (addr tx : string) (block : Z) : Log :=
  mkLog addr [] (dec (Z.of_nat i)) tx 0 block.

Definition demo_policy_logs : list Log := [demo_log 0 policy_addr "0xt0" 3].
Definition demo_claim_logs : list Log :=
  [demo_log 1 claims_addr "0xt1" 5; demo_log 2 claims_addr "0xt2" 6; demo_log 3 claims_addr "0xt3" 9].

Definition demo_chain (a : string) : list Log :=
  if decide (a = claims_addr) then demo_claim_logs
  else if decide (a = policy_addr) then demo_policy_logs else [].

Definition demo_event_of (log : Log) : option ChainEvent :=
  i ← undec (log_data log); demo_events !! Z.to_nat i.

Definition demo_parse (log : Log) : ParseResult :=
  match demo_event_of log with
  | Some ev => Parsed (event_name ev) (event_args as_number ev)
  | None => ParseThrows
  end.

(** node-postgres' conversion on the values the services bind. *)
Definition pg_prepare (v : jsval) : option pgparam :=
  match v with
  | VUndef | VNull => Some PNull
  | VStr s => Some (PText s)
  | VNum n => Some (PText (num_to_string n))
  | VObj _ => match stringify v with Ok (Some j) => Some (PJson j) | _ => None end
  | _ => None
  end.

(** Services over a chain and a decoder, with scripted failures. *)
Definition scripted (chain : string → list Log) (parse : Log → ParseResult)
    (head : nat → option Z) (dbo : nat → Stmt → DbOutcome) (fo : nat → Request → FetchOutcome) : Env :=
  mkEnv head
    (λ _ a lo hi, Some (filter (λ x, lo <= blockNumber x <= hi) (chain a)))
    (λ _, parse) pg_prepare undec dbo fo.

#[global] Instance scripted_pg chain parse head dbo fo : PgLaws (scripted chain parse head dbo fo).
Proof. by split. Qed.

Definition answers (t : nat) (r : Request) : FetchOutcome := FetchResponds 202 (Some "").
Definition always_done (t : nat) (q : Stmt) : DbOutcome := DbDone.

(** The node is down at first, a raw insert is lost once, an acknowledgement
    of a checkpoint is lost. *)
Definition flaky_head (t : nat) : option Z := if decide (t < 2)%nat then None else Some 11.
Definition flaky_db (t : nat) (q : Stmt) : DbOutcome :=
  match q with
  | InsertEvent => if decide (t < 12)%nat then DbLost else DbDone
  | UpsertCheckpoint => if decide (t < 16)%nat then DbAckLost else DbDone
  | _ => DbDone
  end.
Definition flaky : Env := scripted demo_chain demo_parse flaky_head flaky_db answers.

(** A process that is stopped between iterations, and one that is killed. *)
Definition stopped (n : nat) : Process := mkProcess n None.
Definition crashed (n k : nat) : Process := mkProcess n (Some k).
