(* ===== verification/ScanSafety.v ===== *)
(** * Safety of the scanner under arbitrary failures

    Termination of a scan, monotonicity of checkpoints, and the invariant
    that nothing below a checkpoint is missing from the event table.  All of
    it holds for every [Env]: whichever calls fail, and however often. *)

From S2P Require Import Prelude JsValue Zod IndexerConfig IndexerStore IndexerWorld BackendClient EventHandlers Listener.

(** ** Termination *)
Section termination.
Context (E : Env) (config : Config).

Lemma pool_query_no_fuel q vs : no_fuel (pool_query E q vs).
Proof. intros w. unfold pool_query. repeat case_match; simpl; congruence. Qed.
Lemma fetch_no_fuel r : no_fuel (fetch E r).
Proof. intros w. unfold fetch. by case_match. Qed.
Lemma rpc_getBlockNumber_no_fuel : no_fuel (rpc_getBlockNumber E).
Proof. intros w. unfold rpc_getBlockNumber. by case_match. Qed.
Lemma rpc_getLogs_no_fuel a lo hi : no_fuel (rpc_getLogs E a lo hi).
Proof. intros w. unfold rpc_getLogs. by case_match. Qed.
#[local] Hint Resolve pool_query_no_fuel fetch_no_fuel rpc_getBlockNumber_no_fuel
  rpc_getLogs_no_fuel : no_fuel.

Lemma report_no_fuel event : no_fuel (reportClaimEvent E config event).
Proof. unfold reportClaimEvent, console_log. solve_no_fuel. Qed.
Lemma persist_no_fuel log name a data : no_fuel (persistRawEventOnce E log name a data).
Proof. unfold persistRawEventOnce. solve_no_fuel. Qed.
Lemma arg_no_fuel args k : no_fuel (arg args k).
Proof. unfold arg. solve_no_fuel. Qed.
Lemma argText_no_fuel args k : no_fuel (argText args k).
Proof. unfold argText, arg. solve_no_fuel. Qed.
#[local] Hint Resolve report_no_fuel persist_no_fuel arg_no_fuel argText_no_fuel : no_fuel.

Lemma HANDLERS_no_fuel name h log args a :
  assoc name (HANDLERS E config) = Some h → no_fuel (h log args a).
Proof.
  unfold HANDLERS. simpl. intros H.
  repeat (case_decide; [injection H as <-;
    unfold handleClaimSubmitted, handleClaimStatusChanged, handleClaimPayout,
      handlePolicyRegistered, handlePolicyRevoked, console_log; solve_no_fuel|]).
  done.
Qed.

Lemma process_logs_no_fuel c a logs total : no_fuel (process_logs E config c a logs total).
Proof.
  revert total. induction logs as [|log logs IH]; intros total; simpl; [solve_no_fuel|].
  apply no_fuel_bind; [|intros n; apply IH].
  unfold process_log. destruct (parseLog _ _ _) as [| |name args]; [solve_no_fuel..|].
  destruct (assoc name _) as [h|] eqn:Hh; [|solve_no_fuel].
  apply no_fuel_bind; [by eapply HANDLERS_no_fuel|intros ?; solve_no_fuel].
Qed.

Lemma setLastProcessedBlock_no_fuel a n : no_fuel (setLastProcessedBlock E a n).
Proof. unfold setLastProcessedBlock. solve_no_fuel. Qed.
Lemma getLastProcessedBlock_no_fuel a : no_fuel (getLastProcessedBlock E a).
Proof. unfold getLastProcessedBlock. solve_no_fuel. Qed.

(** One unit of fuel per block left is enough. *)
Lemma scan_chunks_no_fuel c a safeHead fuel :
  0 < blockRangeChunkSize config → ∀ cursor total,
  (scan_fuel cursor safeHead <= fuel)%nat →
  no_fuel (scan_chunks E config fuel c a cursor safeHead total).
Proof.
  intros Hch. unfold scan_fuel.
  induction fuel as [|fuel IH]; intros cursor total Hf; simpl;
    (destruct (Z.leb_spec cursor safeHead); [|solve_no_fuel]); [lia|].
  apply no_fuel_bind; [solve_no_fuel|intros logs].
  apply no_fuel_bind; [apply process_logs_no_fuel|intros n].
  apply no_fuel_bind; [apply setLastProcessedBlock_no_fuel|intros _].
  apply IH. lia.
Qed.

Lemma scanContract_no_fuel c deployBlock :
  0 < blockRangeChunkSize config → no_fuel (scanContract E config c deployBlock).
Proof.
  intros Hch. unfold scanContract.
  apply no_fuel_bind; [solve_no_fuel|intros head].
  apply no_fuel_bind; [apply getLastProcessedBlock_no_fuel|intros cp]. simpl.
  destruct (_ <? _); [solve_no_fuel|].
  apply no_fuel_bind; [by apply scan_chunks_no_fuel|intros ?; solve_no_fuel].
Qed.

Lemma runOnePass_no_fuel :
  0 < blockRangeChunkSize config → no_fuel (runOnePass E config).
Proof.
  intros Hch. unfold runOnePass.
  apply no_fuel_bind; [by apply scanContract_no_fuel|intros ?].
  apply no_fuel_bind; [by apply scanContract_no_fuel|intros ?]. solve_no_fuel.
Qed.

(** The loop body returns: whatever the pass throws is logged. *)
Lemma mainLoop_body_ok w :
  0 < blockRangeChunkSize config → ∃ w', mainLoop_body E config w = (Ok tt, w').
Proof.
  intros Hch. unfold mainLoop_body.
  destruct (try_catch_never_throws
    (r ← runOnePass E config;
     let '(policyResult, claimResult) := r in
     if (0 <? scanned policyResult) || (0 <? scanned claimResult) then
       console_log "log" ("[indexer] processed " +:+ dec (scanned policyResult) +:+
         " policy event(s), " +:+ dec (scanned claimResult) +:+ " claim event(s)")
     else mret tt)
    (λ _, console_log "error" "[indexer] scan pass failed:") w) as ([] & w' & H).
  - apply no_fuel_bind; [by apply runOnePass_no_fuel|intros [p c]].
    unfold console_log. solve_no_fuel.
  - intros e s'. by eexists _, _.
  - eauto.
Qed.

Lemma mainLoop_iterations_ok n : 0 < blockRangeChunkSize config →
  ∀ w, ∃ w', mainLoop_iterations E config n w = (Ok tt, w').
Proof.
  intros Hch. induction n as [|n IH]; intros w; simpl; [by eexists|].
  destruct (mainLoop_body_ok w Hch) as [w1 H1].
  rewrite (bind_ok _ _ _ _ _ H1). apply IH.
Qed.
End termination.

(** ** What the checkpoint calls do *)
Section checkpoint.
Context (E : Env) {PL : PgLaws E} (config : Config).

Lemma getLastProcessedBlock_keeps a : moves keeps_checkpoints (getLastProcessedBlock E a).
Proof. unfold getLastProcessedBlock. solve_moves. Qed.

Lemma getLastProcessedBlock_same a : moves same_state (getLastProcessedBlock E a).
Proof.
  unfold getLastProcessedBlock. apply moves_bind; [apply _| |].
  - intros w. split; [|apply pool_query_sent|apply pool_query_clock]. unfold pool_query. simpl. rewrite pg_str. simpl.
    unfold exec. simpl. destruct (negb _); simpl; destruct (db_outcome _ _ _); done.
  - intros r. destruct (rows r) as [|row l]; [apply moves_ret, _|].
    destruct (block_of_row row); [apply moves_ret, _|apply moves_throw, _].
Qed.

(** A read that returns returns the stored checkpoint. *)
Lemma getLastProcessedBlock_spec a w o w' :
  getLastProcessedBlock E a w = (Ok o, w') → o = checkpoints (db w) !! lower a ∧ db w' = db w.
Proof.
  unfold getLastProcessedBlock. intros H. apply bind_ok_inv in H as (r & w1 & H1 & H2).
  apply pool_query_ok_inv in H1 as (ps & d & Hps & Hx & ->).
  simpl in Hps. rewrite pg_str in Hps. injection Hps as <-.
  unfold exec in Hx. destruct (negb _); [done|]. simpl in Hx.
  destruct (checkpoints (db w) !! lower a) as [z|]; injection Hx as <- <-; simpl in H2.
  - unfold block_of_row in H2. simpl in H2. rewrite undec_dec in H2. by injection H2 as <- <-.
  - by injection H2 as <- <-.
Qed.

(** A write either changes nothing and throws, or stores the block. *)
Lemma setLastProcessedBlock_effect a n w :
  let r := setLastProcessedBlock E a n w in
  world_grows w r.2 ∧ sent r.2 = sent w ∧
  ((db r.2 = db w ∧ ∃ e, r.1 = Throw e) ∨
   (db r.2 = set_checkpoints <[lower a := n]> (db w) ∧ int8 n)).
Proof.
  split.
  { unfold setLastProcessedBlock. apply moves_bind; [apply _|apply pool_query_grows|].
    intros ?. apply moves_ret, _. }
  split.
  { pose proof (pool_query_sent E UpsertCheckpoint [VStr (lower a); VNum (Int n)] w) as Hs.
    unfold setLastProcessedBlock, mbind, js_bind.
    by destruct (pool_query _ _ _ _) as [[r|e] w1]. }
  unfold setLastProcessedBlock, mbind, js_bind, pool_query. simpl.
  rewrite pg_str, pg_int. simpl.
  destruct (exec _ _ _ (db w)) as [[d r]|] eqn:Hx;
    destruct (db_outcome E (clock w) UpsertCheckpoint); simpl; eauto;
    unfold exec in Hx; (destruct (negb _); [done|]); simpl in Hx;
    destruct (int8_in _) as [z|] eqn:Hz; simpl in Hx; try done;
    pose proof (int8_in_range _ _ Hz); unfold int8_in in Hz; rewrite int_in_dec in Hz; case_match; simplify_eq; auto.
Qed.

Lemma process_log_keeps c a log : moves keeps_checkpoints (process_log E config c a log).
Proof.
  unfold process_log. destruct (parseLog _ _ _) as [| |name args]; [solve_moves..|].
  destruct (assoc name _) as [h|] eqn:Hh; [|solve_moves].
  apply moves_bind; [apply _| |intros ?; solve_moves].
  apply (gd_keeps log), (HANDLERS_sound E config name h Hh).
Qed.
Lemma process_logs_keeps c a logs total : moves keeps_checkpoints (process_logs E config c a logs total).
Proof.
  revert total. induction logs as [|log logs IH]; intros total; simpl; [solve_moves|].
  apply moves_bind; [apply _|apply process_log_keeps|intros n; apply IH].
Qed.
End checkpoint.

(** ** An induction principle for the chunk loop

    [I cursor w]: the loop's invariant when the blocks below [cursor] are
    done.  It must depend on the tables and requests only, survive the
    processing of a batch however it ends, and move to the next chunk when a
    batch went through and the checkpoint is stored. *)
Section chunk_induction.
Context (E : Env) {PL : PgLaws E} (config : Config) (c : Contract) (address : string) (safeHead : Z).
Context (Hchunk : 0 < blockRangeChunkSize config).
Context (I : Z → World → Prop).
Context (I_same : ∀ cursor w w', I cursor w → same_state w w' → I cursor w').
Context (I_logs : ∀ cursor toBlock t logs total w,
  I cursor w → cursor <= toBlock <= safeHead →
  getLogs E t address cursor toBlock = Some logs →
  I cursor (process_logs E config c address logs total w).2).
Context (I_chunk : ∀ cursor toBlock t logs total n w w1 w2,
  I cursor w → I cursor w1 → cursor <= toBlock <= safeHead →
  getLogs E t address cursor toBlock = Some logs →
  process_logs E config c address logs total w = (Ok n, w1) →
  world_grows w1 w2 → sent w2 = sent w1 →
  db w2 = set_checkpoints <[lower address := toBlock]> (db w1) → int8 toBlock →
  I (toBlock + 1) w2).

Lemma scan_chunks_ind fuel : ∀ cursor total w,
  I cursor w →
  let r := scan_chunks E config fuel c address cursor safeHead total w in
  ∃ cursor', cursor <= cursor' ∧ I cursor' r.2 ∧ (∀ n, r.1 = Ok n → safeHead < cursor').
Proof.
  induction fuel as [|fuel IH]; intros cursor total w HI; simpl;
    (destruct (Z.leb_spec cursor safeHead) as [Hle|]; [|exists cursor; split_and!; [lia|done|intros; done]]);
    [exists cursor; split_and!; [lia|done|done]|].
  set (toBlock := Z.min _ _). assert (cursor <= toBlock <= safeHead) as Hto by lia.
  rewrite bind_run.
  pose proof (rpc_getLogs_same E address cursor toBlock w) as Hk1.
  destruct (rpc_getLogs E address cursor toBlock w) as [[logs|e] w0] eqn:H0; simpl in Hk1;
    [|exists cursor; split_and!; [lia|by eapply I_same|done]].
  assert (∃ t, getLogs E t address cursor toBlock = Some logs) as [t Ht].
  { unfold rpc_getLogs in H0. destruct (getLogs _ _ _ _ _) eqn:Ht; [injection H0 as <- _; eauto|done]. }
  assert (I cursor w0) as HI0 by (by eapply I_same).
  rewrite bind_run.
  pose proof (I_logs cursor toBlock t logs total w0 HI0 Hto Ht) as HI1.
  destruct (process_logs E config c address logs total w0) as [[n|e] w1] eqn:H1; simpl in HI1;
    [|exists cursor; split_and!; [lia|done..]].
  rewrite bind_run.
  destruct (setLastProcessedBlock_effect E address toBlock w1) as (Hg & Hs & He).
  destruct (setLastProcessedBlock E address toBlock w1) as [[u|e] w2]; simpl in *.
  - destruct He as [[_ [e [=]]]|[Hdb Hint]].
    destruct (IH (toBlock + 1) n w2) as (cur' & ? & ? & ?);
      [by apply (I_chunk _ _ _ _ _ _ _ _ _ HI0 HI1 Hto Ht H1)|].
    exists cur'. split_and!; [lia|done..].
  - destruct He as [[Hdb _]|[Hdb Hint]].
    + exists cursor. split_and!; [lia| |done]. eapply I_same; [exact HI1|]. split; [done|done|apply Hg].
    + exists (toBlock + 1). split_and!; [lia| |done].
      by apply (I_chunk _ _ _ _ _ _ _ _ _ HI0 HI1 Hto Ht H1).
Qed.
End chunk_induction.

(** ** Relations a whole scan moves along *)
Section scan_moves.
Context (E : Env) {PL : PgLaws E} (config : Config).

Lemma scan_chunks_grows fuel c a cursor safeHead total :
  moves world_grows (scan_chunks E config fuel c a cursor safeHead total).
Proof.
  revert cursor total. induction fuel as [|fuel IH]; intros cursor total; simpl;
    (destruct (_ <=? _); [|solve_moves]); [solve_moves|].
  apply moves_bind; [apply _|solve_moves|intros logs].
  apply moves_bind; [apply _|apply keeps_grows, process_logs_keeps, _|intros n].
  apply moves_bind; [apply _| |intros ?; apply IH].
  intros w. by apply (setLastProcessedBlock_effect E).
Qed.

Lemma scanContract_grows c deployBlock : moves world_grows (scanContract E config c deployBlock).
Proof.
  unfold scanContract. apply moves_bind; [apply _|solve_moves|intros head].
  apply moves_bind; [apply _|apply keeps_grows, getLastProcessedBlock_keeps|intros cp]. simpl.
  destruct (_ <? _); [solve_moves|].
  apply moves_bind; [apply _|apply scan_chunks_grows|intros ?; solve_moves].
Qed.

Lemma runOnePass_grows : moves world_grows (runOnePass E config).
Proof.
  unfold runOnePass. apply moves_bind; [apply _|apply scanContract_grows|intros ?].
  apply moves_bind; [apply _|apply scanContract_grows|intros ?; solve_moves].
Qed.

Lemma mainLoop_body_grows : moves world_grows (mainLoop_body E config).
Proof.
  unfold mainLoop_body. apply moves_try; [apply _| |intros ?; solve_moves].
  apply moves_bind; [apply _|apply runOnePass_grows|intros [p c]]. solve_moves.
Qed.

Lemma mainLoop_grows n : moves world_grows (mainLoop E config n).
Proof.
  unfold mainLoop, ensureSchema. apply moves_bind; [apply _|solve_moves|intros _].
  apply moves_bind; [apply _|solve_moves|intros _].
  induction n as [|n IH]; simpl; [solve_moves|].
  apply moves_bind; [apply _|apply mainLoop_body_grows|done].
Qed.
End scan_moves.

(** ** A scan, as an invariant step

    [J] is a property of the tables and requests.  If from [J] the loop
    invariant [I fromBlock] can be established, and [I] implies [J] at any
    cursor, a whole scan preserves [J], however it ends. *)
Section scan_step.
Context (E : Env) {PL : PgLaws E} (config : Config) (c : Contract) (deployBlock : Z).
Context (Hchunk : 0 < blockRangeChunkSize config).
Context (J : World → Prop) (I : Z → World → Prop).
Context (I_same : ∀ cursor w w', I cursor w → same_state w w' → I cursor w').
Context (J_same : ∀ w w', J w → same_state w w' → J w').
Context (I_init : ∀ w, J w →
  I (match checkpoints (db w) !! lower (contract_address config c) with
     | None => deployBlock | Some n => n + 1 end) w).
Context (I_final : ∀ cursor w, I cursor w → J w).
Context (I_logs : ∀ cursor toBlock t logs total w,
  I cursor w → cursor <= toBlock →
  getLogs E t (contract_address config c) cursor toBlock = Some logs →
  I cursor (process_logs E config c (contract_address config c) logs total w).2).
Context (I_chunk : ∀ cursor toBlock t logs total n w w1 w2,
  I cursor w → I cursor w1 → cursor <= toBlock →
  getLogs E t (contract_address config c) cursor toBlock = Some logs →
  process_logs E config c (contract_address config c) logs total w = (Ok n, w1) →
  world_grows w1 w2 → sent w2 = sent w1 →
  db w2 = set_checkpoints <[lower (contract_address config c) := toBlock]> (db w1) → int8 toBlock →
  I (toBlock + 1) w2).

(** However the scan ends, [J] holds; if it returned, the loop invariant
    holds at a cursor beyond the safe head. *)
Lemma scanContract_ind w : J w →
  let r := scanContract E config c deployBlock w in
  J r.2 ∧ ∀ res, r.1 = Ok res → ∃ cursor, sr_safeHead res < cursor ∧ I cursor r.2.
Proof.
  intros HJ. unfold scanContract. rewrite bind_run.
  pose proof (rpc_getBlockNumber_same E w) as Hk1.
  destruct (rpc_getBlockNumber E w) as [[head|e] w1]; simpl in *;
    [|split; [by eapply J_same|done]].
  set (a := contract_address config c) in *. rewrite bind_run.
  pose proof (getLastProcessedBlock_same E a w1) as Hk2.
  destruct (getLastProcessedBlock E a w1) as [[cp|e] w2] eqn:Hcp; simpl in *;
    [|split; [eapply J_same; [exact HJ|by etrans]|done]].
  apply getLastProcessedBlock_spec in Hcp as [-> Hdb]; [|done].
  assert (J w2) as HJ2 by (eapply J_same; [exact HJ|by etrans]).
  pose proof (I_init _ HJ2) as HI. rewrite Hdb in HI. fold a in HI.
  set (fromBlock := match checkpoints (db w1) !! lower a with None => _ | Some _ => _ end) in *.
  destruct (Z.ltb_spec (Z.max 0 (head - reorgSafetyBlocks config)) fromBlock) as [Hlt|_].
  { simpl. split; [done|]. intros res [= <-]. simpl. by exists fromBlock. }
  rewrite bind_run.
  set (safeHead := Z.max _ _).
  destruct (scan_chunks_ind E config c a safeHead Hchunk I I_same) with
    (fuel := scan_fuel fromBlock safeHead) (cursor := fromBlock) (total := 0) (w := w2)
    as (cursor' & _ & HI' & Hend); [|  |done|].
  { intros ????? ? HI1 [? _] Hget. by apply (I_logs _ _ _ _ _ _ HI1 ltac:(done) Hget). }
  { intros ???????? ? HI0 HI1 [? _] Hget Hproc.
    by apply (I_chunk _ _ _ _ _ _ _ _ _ HI0 HI1 ltac:(done) Hget Hproc). }
  destruct (scan_chunks _ _ _ _ _ _ _ _ _) as [[n|e] w3]; simpl in *.
  - split; [by eapply I_final|]. intros res [= <-]. simpl. eauto.
  - split; [by eapply I_final|done].
Qed.

Lemma scanContract_preserves w : J w → J (scanContract E config c deployBlock w).2.
Proof. intros HJ. apply (scanContract_ind w HJ). Qed.
End scan_step.

(** The common case: an invariant that survives whatever leaves the
    checkpoints alone. *)
Section scan_step_stable.
Context (E : Env) {PL : PgLaws E} (config : Config) (c : Contract) (deployBlock : Z).
Context (Hchunk : 0 < blockRangeChunkSize config).

Lemma same_keeps w w' :
  same_state w w' → keeps_checkpoints w w'.
Proof. intros [Hd Hs Hc]. split; [split|]; rewrite ?Hd, ?Hs; done. Qed.

(** Ignores the clock, so that [same_state] is enough. *)
Definition tables_keep (w w' : World) : Prop :=
  db_grows (db w) (db w') ∧ checkpoints (db w') = checkpoints (db w).

Lemma keeps_tables w w' : keeps_checkpoints w w' → tables_keep w w'.
Proof. by intros [[_ ? _] ?]. Qed.
Lemma same_tables w w' : same_state w w' → tables_keep w w'.
Proof. intros [Hd _ _]. unfold tables_keep. by rewrite Hd. Qed.

Lemma scanContract_preserves_stable (J : World → Prop) (I : Z → World → Prop) w :
  (∀ w w', J w → tables_keep w w' → J w') →
  (∀ cursor w w', I cursor w → tables_keep w w' → I cursor w') →
  (∀ w, J w → I (match checkpoints (db w) !! lower (contract_address config c) with
     | None => deployBlock | Some n => n + 1 end) w) →
  (∀ cursor w, I cursor w → J w) →
  (∀ cursor toBlock t logs total n w w1 w2,
    I cursor w1 → cursor <= toBlock →
    getLogs E t (contract_address config c) cursor toBlock = Some logs →
    process_logs E config c (contract_address config c) logs total w = (Ok n, w1) →
    db_grows (db w1) (db w2) →
    db w2 = set_checkpoints <[lower (contract_address config c) := toBlock]> (db w1) →
    I (toBlock + 1) w2) →
  J w → J (scanContract E config c deployBlock w).2.
Proof.
  intros HJ HI Hinit Hfin Hchk.
  apply (scanContract_preserves E config c deployBlock Hchunk J I); eauto using same_tables.
  - intros cursor toBlock t logs total w0 H _ _. eapply HI; [exact H|].
    apply keeps_tables, process_logs_keeps, _.
  - intros cursor toBlock t logs total n w0 w1 w2 _ H Hto Hget Hproc [_ G _] _ Hdb _.
    by eapply Hchk.
Qed.
End scan_step_stable.

(** ** Monotone checkpoints *)
Section monotone.
Context (E : Env) {PL : PgLaws E} (config : Config).
Context (Hchunk : 0 < blockRangeChunkSize config).

(** The checkpoint of [a] is at least [n]. *)
Definition at_least (a : string) (n : Z) (w : World) : Prop :=
  ∃ cp, checkpoints (db w) !! a = Some cp ∧ n <= cp.

Lemma scanContract_at_least c deployBlock a n w :
  at_least a n w → at_least a n (scanContract E config c deployBlock w).2.
Proof.
  set (key := lower (contract_address config c)).
  apply (scanContract_preserves_stable E config c deployBlock Hchunk (at_least a n)
    (λ cursor w, at_least a n w ∧ ∀ cp, checkpoints (db w) !! key = Some cp → cp < cursor)).
  - intros w1 w2 (cp & ? & ?) [_ Hc]. exists cp. by rewrite Hc.
  - intros cursor w1 w2 [(cp & ? & ?) Hlt] [_ Hc]. split; [exists cp|]; by rewrite Hc.
  - intros w1 Hw1. fold key. split; [done|]. intros cp ->. lia.
  - by intros ? ? [? _].
  - intros cursor toBlock t logs total m w0 w1 w2 [(cp & Hcp & Hle) Hlt] Hto _ _ _ Hdb.
    fold key in Hdb. unfold at_least. rewrite Hdb. simpl. split.
    + destruct (decide (a = key)) as [->|Hne].
      * exists toBlock. rewrite lookup_insert_eq. split; [done|]. specialize (Hlt _ Hcp). lia.
      * exists cp. by rewrite lookup_insert_ne.
    + intros cp'. rewrite lookup_insert_eq. intros [= <-]. lia.
Qed.

Lemma runOnePass_at_least a n w : at_least a n w → at_least a n (runOnePass E config w).2.
Proof.
  intros H. unfold runOnePass, mbind, js_bind.
  pose proof (scanContract_at_least InsurancePolicy (insurancePolicyDeployBlock config) a n w H) as H1.
  destruct (scanContract E config InsurancePolicy _ w) as [[r|e] w1]; [|done].
  pose proof (scanContract_at_least ClaimRegistry (claimRegistryDeployBlock config) a n w1 H1) as H2.
  by destruct (scanContract E config ClaimRegistry _ w1) as [[r'|e] w2].
Qed.
End monotone.

(** ** A process that has been killed *)
Section frozen.
Context (E : Env) (config : Config) (k : nat).

(** From tick [k] on, nothing happens. *)
Definition frozen (w w' : World) : Prop := (k <= clock w)%nat → same_state w w'.
#[local] Instance frozen_preorder : PreOrder frozen.
Proof.
  split; [by intros w _|]. intros w1 w2 w3 H1 H2 Hk. specialize (H1 Hk). etrans; [exact H1|].
  apply H2. destruct H1. lia.
Qed.
Lemma same_frozen {A} (m : Js World A) : moves same_state m → moves frozen m.
Proof. apply moves_weaken. by intros w w' H _. Qed.

Lemma pool_query_frozen q vs : moves frozen (pool_query (killed_at k E) q vs).
Proof.
  intros w Hk. unfold pool_query. destruct (mapM _ _); [|done]. cbn. rewrite decide_False by lia. apply tick_same.
Qed.
Lemma fetch_frozen r : moves frozen (fetch (killed_at k E) r).
Proof. intros w Hk. unfold fetch. cbn. rewrite decide_False by lia. apply tick_same. Qed.
Lemma set_warned_frozen b : moves frozen (modify (set_warned b)).
Proof. intros w _. by split. Qed.
Lemma rpc_getBlockNumber_frozen : moves frozen (rpc_getBlockNumber (killed_at k E)).
Proof. apply same_frozen, rpc_getBlockNumber_same. Qed.
Lemma rpc_getLogs_frozen a lo hi : moves frozen (rpc_getLogs (killed_at k E) a lo hi).
Proof. apply same_frozen, rpc_getLogs_same. Qed.
Lemma console_log_frozen l t : moves frozen (console_log l t).
Proof. apply same_frozen, console_log_same. Qed.
#[local] Hint Resolve pool_query_frozen fetch_frozen set_warned_frozen rpc_getBlockNumber_frozen rpc_getLogs_frozen
  console_log_frozen : moves.

Lemma handler_frozen name h log args a :
  assoc name (HANDLERS (killed_at k E) config) = Some h → moves frozen (h log args a).
Proof.
  assert (∀ x, moves frozen (arg args x)) as Harg by (intros x w _; reflexivity).
  assert (∀ x, moves frozen (argText args x)) as Htext by (intros x w _; by rewrite pure_argText).
  assert (∀ e, moves frozen (reportClaimEvent (killed_at k E) config e)) as Hrep by (intros e; unfold reportClaimEvent; solve_moves).
  assert (∀ n d, moves frozen (persistRawEventOnce (killed_at k E) log n a d)) as Hper
    by (intros n d; unfold persistRawEventOnce; solve_moves).
  unfold HANDLERS. simpl. intros Hh.
  repeat (case_decide; [injection Hh as <-;
    unfold handleClaimSubmitted, handleClaimStatusChanged, handleClaimPayout,
      handlePolicyRegistered, handlePolicyRevoked; solve_moves|]).
  done.
Qed.
Lemma process_logs_frozen c a logs total : moves frozen (process_logs (killed_at k E) config c a logs total).
Proof.
  revert total. induction logs as [|log logs IH]; intros total; simpl; [solve_moves|].
  apply moves_bind; [apply _| |intros n; apply IH].
  unfold process_log. destruct (parseLog _ _ _) as [| |name args]; [solve_moves..|].
  destruct (assoc name _) as [h|] eqn:Hh; [|solve_moves].
  apply moves_bind; [apply _|by eapply handler_frozen|intros ?; solve_moves].
Qed.
Lemma scanContract_frozen c deployBlock : moves frozen (scanContract (killed_at k E) config c deployBlock).
Proof.
  assert (∀ fuel a cur sh t, moves frozen (scan_chunks (killed_at k E) config fuel c a cur sh t)) as Hchunks.
  { intros fuel a. induction fuel as [|fuel IH]; intros cur sh t; simpl;
      (destruct (_ <=? _); [|solve_moves]); [solve_moves|].
    apply moves_bind; [apply _|solve_moves|intros logs].
    apply moves_bind; [apply _|apply process_logs_frozen|intros n].
    apply moves_bind; [apply _|unfold setLastProcessedBlock; solve_moves|intros _; apply IH]. }
  unfold scanContract, getLastProcessedBlock. solve_moves.
Qed.

(** The rest of a killed process changes no table and sends nothing. *)
Lemma killed_frozen n w : (k <= clock w)%nat → same_state w (mainLoop (killed_at k E) config n w).2.
Proof.
  assert (moves frozen (mainLoop_body (killed_at k E) config)) as Hbody.
  { unfold mainLoop_body, runOnePass. apply moves_try; [apply _| |intros e; solve_moves].
    pose proof scanContract_frozen. solve_moves. }
  assert (∀ m, moves frozen (mainLoop_iterations (killed_at k E) config m)) as Hit.
  { intros m. induction m as [|m IH]; simpl; [solve_moves|]. by apply moves_bind; [apply _|done|intros _]. }
  assert (moves frozen (mainLoop (killed_at k E) config n)) as H; [|by apply H].
  unfold mainLoop, ensureSchema. solve_moves.
Qed.
End frozen.
