(* ===== verification/ScanInvariant.v ===== *)
(** * What holds after any number of passes, whatever fails

    The scanner's theorems: it terminates and survives, checkpoints never go
    back, nothing below a checkpoint is missing from the event table,
    recorded events are processed once; and the two logs a scan can never get
    past. *)

From S2P Require Import Prelude JsValue Zod IndexerConfig IndexerStore IndexerWorld BackendClient EventHandlers Listener IndexerMirror Scenario ScanSafety.

(** ** From one pass to the whole loop *)
Section loop_step.
Context (E : Env) (config : Config).
Context (J : World → Prop).
Context (J_same : ∀ w w', J w → same_state w w' → J w').
Context (J_pass : ∀ w, J w → J (runOnePass E config w).2).

Lemma mainLoop_body_preserves w : J w → J (mainLoop_body E config w).2.
Proof.
  intros H. apply J_pass in H. unfold mainLoop_body, try_catch. rewrite bind_run.
  destruct (runOnePass E config w) as [[[p c]|[]] w1]; simpl in *; try done;
    try by (eapply J_same; [exact H|apply console_log_same]).
  destruct (_ || _); simpl; [|done]. eapply J_same; [exact H|apply console_log_same].
Qed.

Lemma mainLoop_iterations_preserves n w : J w → J (mainLoop_iterations E config n w).2.
Proof.
  revert w. induction n as [|n IH]; intros w H; simpl; [done|].
  apply mainLoop_body_preserves in H. rewrite bind_run.
  destruct (mainLoop_body E config w) as [[[]|e] w2]; [by apply IH|done].
Qed.

(** The loop with its start-up, when running schema.sql keeps [J]. *)
Context (J_schema : ∀ w, J w → J (ensureSchema E w).2).

Lemma mainLoop_preserves n w : J w → J (mainLoop E config n w).2.
Proof.
  intros H. apply J_schema in H. unfold mainLoop. rewrite bind_run.
  destruct (ensureSchema E w) as [[[]|e] w1]; simpl in H; [|done].
  unfold console_log. js_simpl. apply mainLoop_iterations_preserves.
  eapply J_same; [exact H|apply console_log_same].
Qed.
End loop_step.

(** An invariant of the processes, killed or not. *)
Lemma lives_preserves_in E config (J : World → Prop) ps w :
  (∀ w w', J w → same_state w w' → J w') →
  (∀ p w, p ∈ ps → J w → J (runOnePass (services E p) config w).2) →
  (∀ p w, p ∈ ps → J w → J (ensureSchema (services E p) w).2) →
  J w → J (lives E config ps w).
Proof.
  intros J_same. revert w. induction ps as [|p ps IH]; intros w J_pass J_schema H; simpl; [done|].
  pose proof (list_elem_of_here p ps) as Hp.
  apply IH; [intros p' w' Hin; apply J_pass; by right|intros p' w' Hin; apply J_schema; by right|].
  apply (J_same (mainLoop (services E p) config (iterations p) w).2); [|done].
  by apply mainLoop_preserves; auto.
Qed.
Lemma lives_preserves E config (J : World → Prop) ps w :
  (∀ w w', J w → same_state w w' → J w') →
  (∀ p w, J w → J (runOnePass (services E p) config w).2) →
  (∀ p w, J w → J (ensureSchema (services E p) w).2) →
  J w → J (lives E config ps w).
Proof. intros. apply lives_preserves_in; auto. Qed.

(** A pass preserves what both scans preserve. *)
Lemma runOnePass_preserves E config (J : World → Prop) :
  (∀ c w, J w → J (scanContract E config c (deploy_block config c) w).2) →
  ∀ w, J w → J (runOnePass E config w).2.
Proof.
  intros J_scan w H. unfold runOnePass. rewrite bind_run.
  pose proof (J_scan InsurancePolicy w H) as H1. simpl in H1.
  destruct (scanContract E config InsurancePolicy _ w) as [[r|e] w1]; [|done].
  rewrite bind_run. pose proof (J_scan ClaimRegistry w1 H1) as H2. simpl in H2.
  by destruct (scanContract E config ClaimRegistry _ w1) as [[r'|e] w2].
Qed.

Lemma ensureSchema_keeps E : moves keeps_checkpoints (ensureSchema E).
Proof. unfold ensureSchema. solve_moves. Qed.

(** An invariant of the tables and checkpoints survives the start-up. *)
Lemma tables_schema E (J : World → Prop) :
  (∀ w w', J w → tables_keep w w' → J w') → ∀ w, J w → J (ensureSchema E w).2.
Proof. intros HJ w H. eapply HJ; [exact H|]. apply keeps_tables, ensureSchema_keeps. Qed.

(** ** The index is complete below the checkpoints *)
Section indexed.
Context (E : Env) {PL : PgLaws E} (config : Config).
Context (Hchunk : 0 < blockRangeChunkSize config).
Context (Hdistinct :
  lower (claimRegistryAddress config) ≠ lower (insurancePolicyAddress config)).
(** The chain's logs per address; [eth_getLogs] returns every one in the
    range asked for (no reorganisation below the scanned head). *)
Context (chain : string → list Log).

Definition logs_complete : Prop := ∀ t a lo hi logs,
  getLogs E t a lo hi = Some logs →
  ∀ log, log ∈ chain a → lo <= blockNumber log <= hi → log ∈ logs.
Context (Hlogs : logs_complete).

(** The log decodes to an event the dispatch table handles. *)
Definition handled (c : Contract) (log : Log) : Prop :=
  ∃ name args h, parseLog E (abi c) log = Parsed name args ∧
    assoc name (HANDLERS E config) = Some h.

Definition recorded (log : Log) (w : World) : Prop := is_Some (events (db w) !! log_key log).

(** Every handled log of [c] in the blocks [deploy, bound] is recorded. *)
Definition recorded_upto (c : Contract) (bound : Z) (w : World) : Prop :=
  ∀ log, log ∈ chain (contract_address config c) →
    deploy_block config c <= blockNumber log <= bound → handled c log → recorded log w.

Definition indexed (w : World) : Prop := ∀ c cp,
  checkpoints (db w) !! lower (contract_address config c) = Some cp → recorded_upto c cp w.

Lemma recorded_mono log w w' : recorded log w → db_grows (db w) (db w') → recorded log w'.
Proof. intros [x Hx] [_ G _ _]. exists x. by eapply lookup_weaken. Qed.

Lemma recorded_upto_mono c b w w' : recorded_upto c b w → db_grows (db w) (db w') → recorded_upto c b w'.
Proof. intros H G log ???. eapply recorded_mono; [by apply H|done]. Qed.

Lemma address_inj c c' :
  lower (contract_address config c) = lower (contract_address config c') → c = c'.
Proof. destruct c, c'; simpl; congruence. Qed.

(** A batch that went through recorded every handled log of it. *)
Lemma process_logs_records c a logs total w n w' :
  process_logs E config c a logs total w = (Ok n, w') →
  ∀ log, log ∈ logs → handled c log → recorded log w'.
Proof.
  revert total w. induction logs as [|log0 logs IH]; intros total w H log Hin Hh;
    [by apply elem_of_nil in Hin|].
  simpl in H. apply bind_ok_inv in H as (m & w1 & H1 & H2).
  apply elem_of_cons in Hin as [->|Hin]; [|by eapply IH].
  destruct Hh as (name & args & h & Hp & Ha). unfold process_log in H1.
  rewrite Hp, Ha in H1. apply bind_ok_inv in H1 as ([] & w2 & H1 & [= _ <-]).
  apply (gd_persists _ _ (HANDLERS_sound E config name h Ha log0 args a)) in H1.
  eapply recorded_mono; [exact H1|].
  pose proof (process_logs_keeps E config c a logs (total + m) w2) as [[_ G _] _].
  by rewrite H2 in G.
Qed.

Lemma indexed_stable w w' : indexed w → tables_keep w w' → indexed w'.
Proof.
  intros H [G Hc] c cp Hcp. rewrite Hc in Hcp. eapply recorded_upto_mono; [by apply H|done].
Qed.

Lemma scan_indexed c w :
  indexed w → indexed (scanContract E config c (deploy_block config c) w).2.
Proof.
  apply (scanContract_preserves_stable E config c (deploy_block config c) Hchunk indexed
    (λ cursor w, indexed w ∧ recorded_upto c (cursor - 1) w) w).
  - apply indexed_stable.
  - intros cursor w1 w2 [Hi Hr] G. split; [by eapply indexed_stable|].
    eapply recorded_upto_mono; [done|apply G].
  - intros w1 Hi. split; [done|].
    destruct (checkpoints (db w1) !! _) as [cp|] eqn:Hcp.
    + replace (cp + 1 - 1) with cp by lia. by apply Hi.
    + intros log _ Hb _. lia.
  - by intros ?? [].
  - intros cursor toBlock t logs total n w0 w1 w2 [Hi Hr] Hto Hget Hproc G Hdb.
    assert (recorded_upto c toBlock w2) as Hr2.
    { intros log Hin Hb Hh. eapply recorded_mono; [|exact G].
      destruct (decide (blockNumber log <= cursor - 1)) as [Hlt|Hge].
      - apply Hr; [done|lia|done].
      - eapply process_logs_records; [exact Hproc| |done].
        eapply Hlogs; [exact Hget|done|lia]. }
    split; [|by replace (toBlock + 1 - 1) with toBlock by lia].
    intros c' cp Hcp. rewrite Hdb in Hcp. simpl in Hcp.
    destruct (decide (c' = c)) as [->|Hne].
    + rewrite lookup_insert_eq in Hcp. by injection Hcp as <-.
    + rewrite lookup_insert_ne in Hcp by (intros ?%address_inj; congruence).
      eapply recorded_upto_mono; [by apply Hi|done].
Qed.

End indexed.

(** A killed process asks the same node, with the same dispatch table. *)
Lemma services_complete E p chain : logs_complete E chain → logs_complete (services E p) chain.
Proof. intros H t a lo hi logs Hl%services_logs. by apply (H t). Qed.
Lemma services_handled E p config c log : handled (services E p) config c log ↔ handled E config c log.
Proof.
  unfold handled. rewrite services_parse. split; intros (name & args & h & Hp & Hh); exists name, args.
  - destruct (assoc name (HANDLERS E config)) as [h'|] eqn:Hn; [by exists h'|].
    by rewrite (HANDLERS_names _ (services E p) _ _ Hn) in Hh.
  - destruct (assoc name (HANDLERS (services E p) config)) as [h'|] eqn:Hn; [by exists h'|].
    by rewrite (HANDLERS_names _ E _ _ Hn) in Hh.
Qed.
Lemma services_indexed E p config chain w : indexed (services E p) config chain w ↔ indexed E config chain w.
Proof.
  unfold indexed, recorded_upto.
  split; intros H c cp Hcp log Hin Hb Hh; apply (H c cp Hcp log Hin Hb).
  - by apply (proj2 (services_handled E p config c log)).
  - by apply (proj1 (services_handled E p config c log)).
Qed.

Lemma lives_indexed E {PL : PgLaws E} config chain ps w :
  0 < blockRangeChunkSize config →
  lower (claimRegistryAddress config) ≠ lower (insurancePolicyAddress config) →
  logs_complete E chain → indexed E config chain w → indexed E config chain (lives E config ps w).
Proof.
  intros Hchunk Hne Hl. apply lives_preserves.
  - eauto using indexed_stable, same_tables.
  - intros p w1 H%(proj2 (services_indexed E p config chain _)).
    apply (proj1 (services_indexed E p config chain _)). revert w1 H.
    apply runOnePass_preserves, scan_indexed; [apply _|done..|by apply services_complete].
  - intros p w1 H. revert w1 H. apply tables_schema, indexed_stable.
Qed.

(** ** Logs a scan cannot get past *)
Section poison.
Context (E : Env) {PL : PgLaws E} (config : Config).
Context (Hchunk : 0 < blockRangeChunkSize config).
Context (Hdistinct :
  lower (claimRegistryAddress config) ≠ lower (insurancePolicyAddress config)).
Context (chain : string → list Log) (Hlogs : logs_complete E chain).

(** Processing the log never succeeds. *)
Definition poison (c : Contract) (log : Log) : Prop :=
  ∀ w n w', process_log E config c (contract_address config c) log w ≠ (Ok n, w').

(** The checkpoint of [c], if there is one, is below [b]. *)
Definition checkpoint_below (c : Contract) (b : Z) (w : World) : Prop :=
  ∀ cp, checkpoints (db w) !! lower (contract_address config c) = Some cp → cp < b.

Lemma poison_batch c logs log :
  poison c log → log ∈ logs →
  ∀ total w n w', process_logs E config c (contract_address config c) logs total w ≠ (Ok n, w').
Proof.
  intros Hp Hin. induction logs as [|log0 logs IH]; intros total w n w' H;
    [by apply elem_of_nil in Hin|].
  simpl in H. apply bind_ok_inv in H as (m & w1 & H1 & H2).
  apply elem_of_cons in Hin as [->|Hin]; [by eapply Hp|by eapply IH].
Qed.

Lemma below_stable c b w w' : checkpoint_below c b w → tables_keep w w' → checkpoint_below c b w'.
Proof. intros H [_ Hc] cp. rewrite Hc. apply H. Qed.

Lemma poison_pass c log w :
  poison c log → log ∈ chain (contract_address config c) →
  deploy_block config c <= blockNumber log →
  checkpoint_below c (blockNumber log) w →
  checkpoint_below c (blockNumber log) (runOnePass E config w).2.
Proof.
  intros Hp Hin Hdep. pose proof (below_stable c (blockNumber log)) as Hst. revert w.
  apply runOnePass_preserves. intros c' w'. destruct (decide (c' = c)) as [->|Hne].
  - apply (scanContract_preserves_stable E config c (deploy_block config c) Hchunk
      (checkpoint_below c (blockNumber log))
      (λ cursor w, checkpoint_below c (blockNumber log) w ∧ cursor <= blockNumber log)).
    + done.
    + intros cursor w1 w2 [? ?] ?. split; [by eapply Hst|done].
    + intros w1 H1. split; [done|]. destruct (_ !! _) as [cp|] eqn:Hcp; [|done].
      specialize (H1 _ Hcp). lia.
    + by intros ?? [].
    + intros cursor toBlock t logs total m w0 w1 w2 [Hb Hc] Hto Hget Hproc _ Hdb.
      assert (toBlock < blockNumber log) as Hlt.
      { destruct (Z.lt_ge_cases toBlock (blockNumber log)) as [|Hge]; [done|].
        exfalso. eapply poison_batch; [exact Hp| |exact Hproc].
        eapply Hlogs; [exact Hget|done|lia]. }
      split; [|lia]. intros cp. rewrite Hdb. simpl. rewrite lookup_insert_eq.
      by intros [= <-].
  - apply (scanContract_preserves_stable E config c' (deploy_block config c') Hchunk
      (checkpoint_below c (blockNumber log)) (λ _, checkpoint_below c (blockNumber log)));
      [done|by intros _|done|done|].
    intros cursor toBlock t logs total m w0 w1 w2 Hb _ _ _ _ Hdb cp. rewrite Hdb. simpl.
    rewrite lookup_insert_ne; [apply Hb|]. intros ?%(address_inj config Hdistinct). done.
Qed.

(** A log the ABI does not know: [parseLog] returns [null]. *)
Lemma null_poison c log : parseLog E (abi c) log = ParseNull → poison c log.
Proof. unfold poison, process_log. by intros -> w n w'. Qed.

(** A status argument decoded as a BigInt: the raw event cannot be stored. *)
Lemma bigint_poison log id s :
  parseLog E (abi ClaimRegistry) log =
    Parsed "ClaimStatusChanged" (VObj [("claimId", VBigInt id); ("status", VBigInt s)]) →
  poison ClaimRegistry log.
Proof.
  unfold poison, process_log. intros -> w n w'. simpl. intros H.
  apply bind_ok_inv in H as (u & w1 & H & _). revert H.
  unfold handleClaimStatusChanged, arg, argText, arg. simpl. js_simpl. simpl. js_simpl.
  unfold persistRawEventOnce. js_simpl. intros H. apply bind_ok_inv in H as (r & w2 & H & _).
  revert H. unfold pool_query. simpl. rewrite !pg_str, !pg_int, pg_obj. done.
Qed.
End poison.

Lemma poison_blocks E {PL : PgLaws E} config chain c log ps w :
  0 < blockRangeChunkSize config →
  lower (claimRegistryAddress config) ≠ lower (insurancePolicyAddress config) →
  logs_complete E chain → (∀ p, poison (services E p) config c log) →
  log ∈ chain (contract_address config c) → deploy_block config c <= blockNumber log →
  checkpoint_below config c (blockNumber log) w →
  checkpoint_below config c (blockNumber log) (lives E config ps w).
Proof.
  intros Hchunk Hne Hl Hp Hin Hdep. apply lives_preserves.
  - eauto using below_stable, same_tables.
  - intros p w1. eapply poison_pass; eauto using services_complete. apply _.
  - intros p. apply tables_schema, below_stable.
Qed.

(** ** Recorded logs *)
Section inert.
Context (E : Env) {PL : PgLaws E} (config : Config) (c : Contract) (address : string) (log : Log).

Lemma recorded_same w :
  is_Some (events (db w) !! log_key log) → same_state w (process_log E config c address log w).2.
Proof.
  intros Hrec. unfold process_log. destruct (parseLog E (abi c) log) as [| |name args]; [done..|].
  destruct (assoc name _) as [h|] eqn:Hh; [|done].
  pose proof (gd_dup _ _ (HANDLERS_sound E config name h Hh log args address) w Hrec) as [Hd Hs].
  pose proof (wg_clock _ _ (proj1 (gd_keeps _ _ (HANDLERS_sound E config name h Hh log args address) w))) as Hc.
  rewrite bind_run. by destruct (h log args address w) as [[[]|e] w1]; split.
Qed.
Lemma recorded_inert w :
  is_Some (events (db w) !! log_key log) → db (process_log E config c address log w).2 = db w.
Proof. apply recorded_same. Qed.
Lemma recorded_silent w :
  is_Some (events (db w) !! log_key log) → sent (process_log E config c address log w).2 = sent w.
Proof. apply recorded_same. Qed.
End inert.

(** ** The theorems *)

(** C10: Nothing is missed.  Whatever calls to the node, the database and the
    backend fail, and however often the process is stopped between iterations
    or killed anywhere and started again, every handled log
    between a contract's deploy block and its stored checkpoint is in the
    raw event table. *)
Theorem index_complete_below_checkpoints (E : Env) {PL : PgLaws E} (config : Config)
    (chain : string → list Log) (ps : list Process) :
  ConfigOk config →
  lower (claimRegistryAddress config) ≠ lower (insurancePolicyAddress config) →
  logs_complete E chain →
  ∀ c cp log,
    checkpoints (db (lives E config ps (boot empty_db))) !! lower (contract_address config c) = Some cp →
    log ∈ chain (contract_address config c) →
    deploy_block config c <= blockNumber log <= cp → handled E config c log →
    is_Some (events (db (lives E config ps (boot empty_db))) !! log_key log).
Proof.
  intros Hcfg Hne Hl c cp log Hcp Hin Hb Hh.
  assert (indexed E config chain (boot empty_db)) as H0 by (intros ? ? H; done).
  by apply (lives_indexed E config chain ps _ (co_chunk _ Hcfg) Hne Hl H0 c cp).
Qed.

(** Checkpoints never go back, whatever fails and however often the
    process restarts. *)
Theorem checkpoints_monotone (E : Env) {PL : PgLaws E} (config : Config) (ps : list Process)
    (a : string) (n : Z) (w : World) :
  ConfigOk config → checkpoints (db w) !! a = Some n →
  ∃ m, checkpoints (db (lives E config ps w)) !! a = Some m ∧ n <= m.
Proof.
  intros Hcfg Hn. assert (at_least a n w) as H by (by exists n).
  assert (∀ w w', at_least a n w → tables_keep w w' → at_least a n w') as Hst.
  { intros w1 w2 (cp & ? & ?) [_ Hc]. exists cp. by rewrite Hc. }
  apply (lives_preserves E config (at_least a n)); [eauto using same_tables| | |done].
  - intros p. apply runOnePass_preserves. intros c w1. apply scanContract_at_least; [apply _|apply Hcfg].
  - intros p. by apply tables_schema.
Qed.

(** C27: The loop never dies and never hangs: with a configuration config.js
    accepts, every iteration terminates and returns, whatever the services
    do. *)
Theorem mainLoop_survives (E : Env) (config : Config) (n : nat) (w : World) :
  ConfigOk config → ∃ w', mainLoop_iterations E config n w = (Ok tt, w').
Proof. intros Hcfg. by apply mainLoop_iterations_ok, Hcfg. Qed.

(** Append-only.  No run changes or deletes a raw event row, deletes a
    claim or a policy, or takes back a request. *)
Theorem index_append_only (E : Env) {PL : PgLaws E} (config : Config) (ps : list Process) (w : World) :
  let w' := lives E config ps w in
  events (db w) ⊆ events (db w') ∧ sent w `prefix_of` sent w' ∧
  (∀ k, is_Some (claims (db w) !! k) → is_Some (claims (db w') !! k)) ∧
  (∀ k, is_Some (policies (db w) !! k) → is_Some (policies (db w') !! k)).
Proof.
  assert (world_grows w (lives E config ps w)) as [_ [_ He Hc Hp] Hs]; [|done].
  revert w. induction ps as [|p ps IH]; intros w; simpl; [done|].
  etrans; [apply (mainLoop_grows (services E p) config (iterations p) w)|]. etrans; [|apply IH]. by split.
Qed.

(** Idempotence.  Processing a log that is already recorded changes no
    table and sends nothing, whatever the log decodes to and whatever
    fails. *)
Theorem recorded_log_is_inert (E : Env) {PL : PgLaws E} (config : Config) (c : Contract)
    (address : string) (log : Log) (w : World) :
  is_Some (events (db w) !! log_key log) →
  let w' := (process_log E config c address log w).2 in
  db w' = db w ∧ sent w' = sent w.
Proof. intros Hrec. split; [by apply recorded_inert|by apply recorded_silent]. Qed.

(** C38: A log of an event outside the hand-written ABI stops a contract's
    scan for good: [parseLog] returns [null], the loop reads its [name], and
    no checkpoint at or above the log's block is ever stored. *)
Theorem null_log_blocks_scan (E : Env) {PL : PgLaws E} (config : Config)
    (chain : string → list Log) (c : Contract) (log : Log) (ps : list Process) :
  ConfigOk config →
  lower (claimRegistryAddress config) ≠ lower (insurancePolicyAddress config) →
  logs_complete E chain →
  log ∈ chain (contract_address config c) → deploy_block config c <= blockNumber log →
  parseLog E (abi c) log = ParseNull →
  ∀ cp, checkpoints (db (lives E config ps (boot empty_db))) !! lower (contract_address config c) =
    Some cp → cp < blockNumber log.
Proof.
  intros Hcfg Hne Hl Hin Hd Hp.
  apply (poison_blocks E config chain c log ps _ (co_chunk _ Hcfg) Hne Hl); [|done..].
  intros p. apply null_poison. by rewrite services_parse.
Qed.

(** C37: A status change whose [uint8] arrives as a BigInt, as ethers v6 decodes
    every integer type, stops the claim scan for good: the raw row cannot be
    serialised, and no checkpoint at or above the log's block is ever
    stored. *)
Theorem bigint_status_blocks_scan (E : Env) {PL : PgLaws E} (config : Config)
    (chain : string → list Log) (log : Log) (id s : Z) (ps : list Process) :
  ConfigOk config →
  lower (claimRegistryAddress config) ≠ lower (insurancePolicyAddress config) →
  logs_complete E chain →
  log ∈ chain (claimRegistryAddress config) → claimRegistryDeployBlock config <= blockNumber log →
  parseLog E (abi ClaimRegistry) log =
    Parsed "ClaimStatusChanged" (event_args VBigInt (EvClaimStatusChanged id s)) →
  ∀ cp, checkpoints (db (lives E config ps (boot empty_db))) !!
    lower (claimRegistryAddress config) = Some cp → cp < blockNumber log.
Proof.
  intros Hcfg Hne Hl Hin Hd Hp.
  apply (poison_blocks E config chain ClaimRegistry log ps _ (co_chunk _ Hcfg) Hne Hl); [|done..].
  intros p. apply (bigint_poison (services E p) config log id s). by rewrite services_parse.
Qed.

(** ** A failing policy scan starves the claim scan *)
Section starvation.
Context (E : Env) {PL : PgLaws E} (config : Config).
(** The node answers no log query for the policy contract, and the head is
    past its deploy block. *)
Context (Hnone : ∀ t lo hi, getLogs E t (insurancePolicyAddress config) lo hi = None).
Context (Hhead : ∀ t head, getBlockNumber E t = Some head →
  insurancePolicyDeployBlock config <= head - reorgSafetyBlocks config).

Definition untouched (w : World) : Prop := mirror_of w = empty_mirror ∧ checkpoints (db w) = ∅.

Lemma untouched_same w w' : untouched w → same_state w w' → untouched w'.
Proof. intros H [Hd Hs _]. unfold untouched, mirror_of in *. by rewrite Hd, Hs. Qed.

Lemma untouched_schema w : untouched w → untouched (ensureSchema E w).2.
Proof.
  unfold ensureSchema. rewrite bind_run. unfold pool_query. simpl.
  by destruct (db_outcome _ _ _).
Qed.

Lemma policy_scan_throws w : untouched w →
  ∃ e w', scanContract E config InsurancePolicy (insurancePolicyDeployBlock config) w = (Throw e, w') ∧
    same_state w w'.
Proof.
  intros [_ Hcp]. unfold scanContract. rewrite bind_run. unfold rpc_getBlockNumber.
  destruct (getBlockNumber E (clock w)) as [head|] eqn:Hh; [|eexists _, _; split; [done|apply tick_same]].
  apply Hhead in Hh. set (a := contract_address config InsurancePolicy). rewrite bind_run.
  assert (same_state w (getLastProcessedBlock E a (tick w)).2) as Hsame
    by (etrans; [apply tick_same|by apply getLastProcessedBlock_same]).
  destruct (getLastProcessedBlock E a (tick w)) as [[cp|e] w1] eqn:Hg; [|by eexists _, _].
  apply getLastProcessedBlock_spec in Hg as [-> Hdb]; [|done].
  change (checkpoints (db (tick w))) with (checkpoints (db w)). rewrite Hcp, lookup_empty.
  rewrite (proj2 (Z.ltb_ge _ _)) by lia. rewrite bind_run. unfold scan_fuel.
  set (safeHead := Z.max _ _). set (from := insurancePolicyDeployBlock config).
  destruct (Z.to_nat (safeHead - from + 1)) as [|fuel] eqn:Hf; [lia|].
  simpl. rewrite (proj2 (Z.leb_le _ _)) by lia. rewrite bind_run. unfold rpc_getLogs. rewrite Hnone.
  eexists _, _. split; [done|]. etrans; [exact Hsame|apply tick_same].
Qed.

Lemma pass_untouched w : untouched w → untouched (runOnePass E config w).2.
Proof.
  intros H. destruct (policy_scan_throws w H) as (e & w' & He & Hs). unfold runOnePass.
  rewrite (bind_throw _ _ _ _ _ He). by eapply untouched_same.
Qed.
End starvation.

(** While the node cannot serve the policy contract's logs, no claim
    event is ever indexed or reported, however healthy the claim contract's
    queries are: a pass scans the policies first and an exception ends it. *)
Theorem policy_failure_starves_claims (E : Env) {PL : PgLaws E} (config : Config) (ps : list Process) :
  (∀ t lo hi, getLogs E t (insurancePolicyAddress config) lo hi = None) →
  (∀ t head, getBlockNumber E t = Some head →
    insurancePolicyDeployBlock config <= head - reorgSafetyBlocks config) →
  let w := lives E config ps (boot empty_db) in
  events (db w) = ∅ ∧ claims (db w) = ∅ ∧ checkpoints (db w) = ∅ ∧ sent w = [].
Proof.
  intros Hnone Hhead w. assert (untouched w) as [Hm Hc].
  { apply lives_preserves; [apply untouched_same| |intros p; apply untouched_schema|done].
    intros p w1. apply pass_untouched; [apply _| |by intros t head ?%services_head; eapply Hhead].
    intros t lo hi. destruct (getLogs (services E p) _ _ _ _) eqn:Hl; [|done].
    apply services_logs in Hl. by rewrite Hnone in Hl. }
  unfold mirror_of in Hm. by injection Hm.
Qed.

(** C36: The raw row and the projection are not one transaction.  When the
    claim insert fails after the raw row of a ClaimSubmitted was stored, the
    claim is absent and the row is there; and from then on, in every world
    that grows out of this one and under any services, processing the log
    again changes no table: the claim is lost. *)
Theorem projection_failure_loses_claim (E : Env) {PL : PgLaws E} (config : Config) (log : Log)
    (id pol amount ts : Z) (claimant root : string) (w : World) :
  let ev := EvClaimSubmitted id pol claimant root amount ts in
  let run E config := process_log E config ClaimRegistry (claimRegistryAddress config) log in
  event_fits E log ev →
  parseLog E (abi ClaimRegistry) log = Parsed (event_name ev) (event_args as_number ev) →
  schema (db w) = true → events (db w) !! log_key log = None → claims (db w) !! id = None →
  db_outcome E (clock w) InsertEvent = DbDone →
  db_outcome E (S (clock w)) InsertClaim = DbLost →
  let w1 := (run E config w).2 in
  claims (db w1) !! id = None ∧ is_Some (events (db w1) !! log_key log) ∧
  ∀ E2 config2 w2, PgLaws E2 → world_grows w1 w2 → db (run E2 config2 w2).2 = db w2.
Proof.
  intros ev run (Hi & Hb & Hid & Hpol) Hp Hs Hev Hcl Ho1 Ho2 w1.
  assert (w1 = tick (set_db (λ _, set_events <[log_key log := event_row config ClaimRegistry log ev]>
    (db w)) (tick w))) as Hw1.
  { unfold w1, run, process_log. rewrite Hp. simpl. unfold handleClaimSubmitted. rewrite bind_run.
    simpl event_args. args. unfold persistRawEventOnce. js_simpl. erewrite bind_ok.
    2:{ eapply pool_query_done; [simpl; rewrite !pg_str, !pg_int, pg_obj; reflexivity|done|].
        unfold exec. rewrite Hs. simpl. rewrite int4_in_dec, int8_in_dec by done. simpl.
        unfold insert_if_absent. change (transactionHash log, index log) with (log_key log).
        rewrite Hev. reflexivity. }
    simpl. js_simpl. simpl. js_simpl. erewrite bind_throw; [reflexivity|].
    unfold pool_query. simpl. rewrite !pg_str, !pg_int. simpl. by rewrite Ho2. }
  assert (is_Some (events (db w1) !! log_key log)) as Hrec.
  { rewrite Hw1. simpl. rewrite lookup_insert_eq. eauto. }
  split_and!; [by rewrite Hw1|done|].
  intros E2 config2 w2 PL2 [_ [_ Hg _ _] _]. apply recorded_inert; [done|].
  destruct Hrec as [x Hx]. exists x. by eapply lookup_weaken.
Qed.

(** ** Witnesses *)

(** Every claim insert fails; everything else works. *)
Definition claim_insert_lost (t : nat) (q : Stmt) : DbOutcome :=
  if decide (q = InsertClaim) then DbLost else DbDone.

(** A world in which the claim insert always fails, some replies of the
    backend are lost and the node is down now and then. *)
Definition hostile : Env :=
  scripted demo_chain demo_parse
    (λ t, if Nat.even (t / 7) then Some 11 else None) claim_insert_lost
    (λ t _, if Nat.even t then FetchRejects else FetchResponds 500 None).

Lemma hostile_complete : logs_complete hostile demo_chain.
Proof. intros t a lo hi logs [= <-] log Hin Hb. by apply list_elem_of_filter. Qed.

Lemma index_complete_below_checkpoints_witness :
  let w := lives hostile demo_config [crashed 9 16; stopped 14] (boot empty_db) in
  checkpoints (db w) !! lower claims_addr = Some 9 ∧
  is_Some (events (db w) !! ("0xt3", 0)).
Proof.
  split; [vm_compute; reflexivity|].
  apply (index_complete_below_checkpoints hostile demo_config demo_chain [crashed 9 16; stopped 14]
    demo_config_ok demo_distinct hostile_complete ClaimRegistry 9 (demo_log 3 claims_addr "0xt3" 9)).
  - vm_compute. reflexivity.
  - apply list_elem_of_further, list_elem_of_further, list_elem_of_here.
  - vm_compute. split; discriminate.
  - eexists _, _, (handleClaimPayout hostile demo_config). split; [vm_compute; reflexivity|reflexivity].
Defined.

Lemma checkpoints_monotone_witness :
  let w := lives hostile demo_config [stopped 9] (boot empty_db) in
  ∃ m, checkpoints (db (lives hostile demo_config [stopped 5] w)) !! lower policy_addr = Some m ∧ 9 <= m.
Proof.
  apply (checkpoints_monotone hostile demo_config [stopped 5] _ 9 _ demo_config_ok).
  vm_compute. reflexivity.
Defined.

Lemma mainLoop_survives_witness :
  ∃ w', mainLoop_iterations hostile demo_config 5 (boot empty_db) = (Ok tt, w').
Proof. apply (mainLoop_survives hostile demo_config 5 (boot empty_db) demo_config_ok). Defined.

Lemma recorded_log_is_inert_witness :
  let w := lives hostile demo_config [stopped 9] (boot empty_db) in
  let w' := (process_log hostile demo_config ClaimRegistry claims_addr
               (demo_log 1 claims_addr "0xt1" 5) w).2 in
  db w' = db w ∧ sent w' = sent w.
Proof.
  apply (recorded_log_is_inert hostile demo_config ClaimRegistry claims_addr
    (demo_log 1 claims_addr "0xt1" 5)).
  vm_compute. eexists. reflexivity.
Defined.

(** The demonstration chain, with a log of an unknown event at block 6. *)
Definition parse_with_null (log : Log) : ParseResult :=
  if decide (transactionHash log = "0xt2") then ParseNull else demo_parse log.
Definition null_env : Env := scripted demo_chain parse_with_null (λ _, Some 11) always_done answers.
Lemma null_complete : logs_complete null_env demo_chain.
Proof. intros t a lo hi logs [= <-] log Hin Hb. by apply list_elem_of_filter. Qed.

Lemma null_log_blocks_scan_witness :
  let w := lives null_env demo_config [stopped 7] (boot empty_db) in
  checkpoints (db w) !! lower claims_addr = Some 3 ∧
  (∀ cp, checkpoints (db w) !! lower claims_addr = Some cp → cp < 6).
Proof.
  split; [vm_compute; reflexivity|].
  apply (null_log_blocks_scan null_env demo_config demo_chain ClaimRegistry
    (demo_log 2 claims_addr "0xt2" 6) [stopped 7] demo_config_ok demo_distinct null_complete).
  - apply list_elem_of_further, list_elem_of_here.
  - vm_compute. discriminate.
  - vm_compute. reflexivity.
Defined.

(** The same chain, decoded as ethers v6 does. *)
Definition parse_bigint (log : Log) : ParseResult :=
  match demo_event_of log with
  | Some ev => Parsed (event_name ev) (event_args VBigInt ev)
  | None => ParseThrows
  end.
Definition bigint_env : Env := scripted demo_chain parse_bigint (λ _, Some 11) always_done answers.
Lemma bigint_complete : logs_complete bigint_env demo_chain.
Proof. intros t a lo hi logs [= <-] log Hin Hb. by apply list_elem_of_filter. Qed.

Lemma bigint_status_blocks_scan_witness :
  let w := lives bigint_env demo_config [stopped 7] (boot empty_db) in
  checkpoints (db w) !! lower claims_addr = Some 3 ∧
  ∀ cp, checkpoints (db w) !! lower claims_addr = Some cp → cp < 6.
Proof.
  split; [vm_compute; reflexivity|].
  apply (bigint_status_blocks_scan bigint_env demo_config demo_chain
    (demo_log 2 claims_addr "0xt2" 6) 1 2 [stopped 7] demo_config_ok demo_distinct bigint_complete).
  - apply list_elem_of_further, list_elem_of_here.
  - vm_compute. discriminate.
  - vm_compute. reflexivity.
Defined.

(** The node serves claims but not policies. *)
Definition no_policies : Env :=
  mkEnv (λ _, Some 11)
    (λ _ a lo hi, if decide (a = policy_addr) then None
      else Some (filter (λ x, lo <= blockNumber x <= hi) (demo_chain a)))
    (λ _, demo_parse) pg_prepare undec always_done answers.
#[local] Instance no_policies_pg : PgLaws no_policies.
Proof. by split. Qed.

Lemma policy_failure_starves_claims_witness :
  let w := lives no_policies demo_config [stopped 5; crashed 5 30] (boot empty_db) in
  events (db w) = ∅ ∧ claims (db w) = ∅ ∧ checkpoints (db w) = ∅ ∧ sent w = [].
Proof.
  apply (policy_failure_starves_claims no_policies demo_config [stopped 5; crashed 5 30]).
  - reflexivity.
  - intros t head [= <-]. vm_compute. discriminate.
Defined.

Definition lossy : Env := scripted demo_chain demo_parse (λ _, Some 11) claim_insert_lost answers.

Lemma projection_failure_loses_claim_witness :
  let w := boot (mkDb true ∅ ∅ ∅ ∅) in
  let log := demo_log 1 claims_addr "0xt1" 5 in
  let w1 := (process_log lossy demo_config ClaimRegistry claims_addr log w).2 in
  claims (db w1) !! 1 = None ∧ is_Some (events (db w1) !! ("0xt1", 0)) ∧
  ∀ E2 config2 w2, PgLaws E2 → world_grows w1 w2 →
    db (process_log E2 config2 ClaimRegistry (claimRegistryAddress config2) log w2).2 = db w2.
Proof.
  apply (projection_failure_loses_claim lossy demo_config (demo_log 1 claims_addr "0xt1" 5)
    1 7 250 1000 "0xDeF" "0x99" (boot (mkDb true ∅ ∅ ∅ ∅))); try (vm_compute; reflexivity).
  unfold event_fits, int4, int8. simpl. lia.
Defined.

Lemma index_append_only_witness :
  let w := lives hostile demo_config [stopped 4] (boot empty_db) in
  events (db w) !! ("0xt0", 0) ≠ None ∧
  events (db w) ⊆ events (db (lives hostile demo_config [stopped 9] w)).
Proof.
  split; [vm_compute; discriminate|].
  apply (index_append_only hostile demo_config [stopped 9]).
Defined.
