(* ===== verification/IndexerTypes.v ===== *)
(** * What the indexer's tables can hold

    An integrity invariant of the database ([db_wf]): the ranges of the
    integer columns, the names and addresses that occur, and where every row
    comes from.  A claim or policy exists only as the projection of a recorded
    raw event: each of its columns is the one that event's JSON gives
    ([submitted_as], [registered_as]), and the transactions it names are those
    of recorded events.  It holds after any history of failures, kills,
    restarts and decoder answers: nothing of the chain or of ethers is
    assumed. *)

From S2P Require Import Prelude JsValue Zod IndexerConfig IndexerStore IndexerWorld BackendClient EventHandlers Listener IndexerMirror Scenario ScanSafety ScanInvariant.

(** ** The invariant *)
Definition json_field (k : string) (j : json) : option json :=
  match j with JObj fs => assoc k fs | _ => None end.

(** The text at [key] of a row's data, as [read] reads it. *)
Definition column {X} (read : string → option X) (key : string) (row : EventRow) (x : X) : Prop :=
  ∃ s, json_field key (ev_data row) = Some (JStr s) ∧ read s = Some x.
Definition bigint : string → option Z := λ s, int8_in (PText s).
Definition numeric : string → option Z := λ s, numeric_in (PText s).
Definition address : string → option string := λ s, Some (lower s).

(** A recorded event of [tx] with this name. *)
Definition recorded_event (name tx : string) (P : EventRow → Prop) (evs : gmap (string * Z) EventRow) : Prop :=
  ∃ i row, evs !! (tx, i) = Some row ∧ ev_name row = name ∧ P row.

Definition event_names : list string :=
  ["ClaimSubmitted"; "ClaimStatusChanged"; "ClaimPayout"; "PolicyRegistered"; "PolicyRevoked"].

Section integrity.
Context (config : Config) (to_timestamp : string → option Z).

Definition indexed_address (a : string) : Prop := ∃ c, a = lower (contract_address config c).

Definition event_wf (k : string * Z) (row : EventRow) : Prop :=
  int4 k.2 ∧ int8 (ev_block row) ∧ ev_name row ∈ event_names ∧ indexed_address (ev_contract row).

(** The claim's columns are those of the submission in [row].  (A Merkle root
    that the event did not give as a string has no text to compare.) *)
Definition submitted_as (id : Z) (r : ClaimRow) (row : EventRow) : Prop :=
  ev_block row = cl_submitted_block r ∧
  column bigint "claimId" row id ∧ column bigint "policyId" row (cl_policy r) ∧
  column address "claimant" row (cl_claimant r) ∧ column numeric "amount" row (cl_amount r) ∧
  ∀ s, json_field "merkleRoot" (ev_data row) = Some (JStr s) → cl_merkle_root r = s.

(** Its status is the last thing recorded about it. *)
Definition status_of (evs : gmap (string * Z) EventRow) (id : Z) (r : ClaimRow) : Prop :=
  (cl_status r = "submitted" ∧ cl_last_status_tx r = None ∧ cl_payout_tx r = None) ∨
  (cl_status r = "paid" ∧ is_Some (cl_payout_tx r)) ∨
  (∃ tx, cl_last_status_tx r = Some tx ∧ recorded_event "ClaimStatusChanged" tx
    (λ row, column bigint "claimId" row id ∧ column Some "statusName" row (cl_status r)) evs).

Definition claim_wf (evs : gmap (string * Z) EventRow) (id : Z) (r : ClaimRow) : Prop :=
  int8 id ∧ int8 (cl_policy r) ∧ int8 (cl_submitted_block r) ∧ lower (cl_claimant r) = cl_claimant r ∧
  recorded_event "ClaimSubmitted" (cl_submitted_tx r) (submitted_as id r) evs ∧
  (∀ tx, cl_last_status_tx r = Some tx →
    recorded_event "ClaimStatusChanged" tx (λ row, column bigint "claimId" row id) evs) ∧
  (∀ tx, cl_payout_tx r = Some tx →
    recorded_event "ClaimPayout" tx (λ row, column bigint "claimId" row id) evs) ∧
  status_of evs id r.

(** The policy's columns are those of the registration in [row]. *)
Definition registered_as (id : Z) (r : PolicyRow) (row : EventRow) : Prop :=
  column bigint "policyId" row id ∧ column address "holder" row (po_holder r) ∧
  column numeric "coverageAmount" row (po_coverage r) ∧
  column to_timestamp "validFrom" row (po_valid_from r) ∧
  column to_timestamp "validUntil" row (po_valid_until r).

Definition policy_wf (evs : gmap (string * Z) EventRow) (id : Z) (r : PolicyRow) : Prop :=
  int8 id ∧ lower (po_holder r) = po_holder r ∧
  recorded_event "PolicyRegistered" (po_registered_tx r) (registered_as id r) evs ∧
  (po_revoked r = true → ∃ tx,
    recorded_event "PolicyRevoked" tx (λ row, column bigint "policyId" row id) evs).

Record db_wf (d : Db) : Prop := {
  wf_checkpoints a n : checkpoints d !! a = Some n → int8 n ∧ indexed_address a;
  wf_events k row : events d !! k = Some row → event_wf k row;
  wf_claims id r : claims d !! id = Some r → claim_wf (events d) id r;
  wf_policies id r : policies d !! id = Some r → policy_wf (events d) id r;
}.

Lemma empty_db_wf : db_wf empty_db.
Proof. by split. Qed.

(** ** Rows survive new events *)
Lemma recorded_event_mono name tx P evs evs' :
  evs ⊆ evs' → recorded_event name tx P evs → recorded_event name tx P evs'.
Proof. intros Hsub (i & row & Hr & H). exists i, row. split; [by eapply lookup_weaken|done]. Qed.
#[local] Hint Resolve recorded_event_mono : core.
Lemma status_of_mono evs evs' id r : evs ⊆ evs' → status_of evs id r → status_of evs' id r.
Proof. intros Hsub [?|[?|(tx & ? & ?)]]; [by left|by right; left|right; right; eauto]. Qed.
#[local] Hint Resolve status_of_mono : core.
Lemma claim_wf_mono evs evs' id r : evs ⊆ evs' → claim_wf evs id r → claim_wf evs' id r.
Proof. unfold claim_wf. intros. destruct_and!. split_and!; eauto. Qed.
Lemma policy_wf_mono evs evs' id r : evs ⊆ evs' → policy_wf evs id r → policy_wf evs' id r.
Proof.
  intros Hsub (? & ? & ? & Hr). split_and!; eauto. intros [tx Htx]%Hr. eauto.
Qed.

Lemma wf_set_events d k row : db_wf d → event_wf k row → events d !! k = None →
  db_wf (set_events <[k := row]> d).
Proof.
  intros [Hc He Hcl Hp] Hrow Hk.
  assert (events d ⊆ <[k := row]> (events d)) as Hsub by by apply insert_subseteq.
  split; cbn; intros.
  - by eapply Hc.
  - match goal with H : <[_ := _]> _ !! _ = Some _ |- _ => apply lookup_insert_Some in H as [[<- <-]|[_ H]] end; eauto.
  - eapply claim_wf_mono; eauto.
  - eapply policy_wf_mono; eauto.
Qed.
Lemma wf_set_claims d f : db_wf d → (∀ id r, f (claims d) !! id = Some r → claim_wf (events d) id r) → db_wf (set_claims f d).
Proof. by intros [] Hf; split. Qed.
Lemma wf_set_policies d f : db_wf d → (∀ id r, f (policies d) !! id = Some r → policy_wf (events d) id r) →
  db_wf (set_policies f d).
Proof. by intros [] Hf; split. Qed.
Lemma wf_set_checkpoint d c n : db_wf d → int8 n → db_wf (set_checkpoints <[lower (contract_address config c) := n]> d).
Proof.
  intros [Hc He Hcl Hp] Hn. split; cbn; eauto. intros a m. rewrite lookup_insert_Some.
  intros [[<- <-]|[_ H]]; [split; [done|by exists c]|by eapply Hc].
Qed.
Lemma wf_schema d : db_wf d → db_wf (mkDb true (checkpoints d) (events d) (claims d) (policies d)).
Proof. by intros []; split. Qed.

(** Inserting a row, or changing one, in a map of good rows. *)
Lemma insert_if_absent_rows `{Countable K} {V} (P : K → V → Prop) k v (m : gmap K V) :
  (∀ k v, m !! k = Some v → P k v) → P k v → ∀ k' v', (insert_if_absent k v m).1 !! k' = Some v' → P k' v'.
Proof.
  intros Hm Hv k' v'. unfold insert_if_absent. destruct (m !! k); [apply Hm|].
  cbn. rewrite lookup_insert_Some. intros [[<- <-]|[_ Hk]]; eauto.
Qed.
Lemma update_row_rows `{Countable K} {V} (P : K → V → Prop) f k (m : gmap K V) :
  (∀ k v, m !! k = Some v → P k v) → (∀ v, m !! k = Some v → P k (f v)) →
  ∀ k' v', (update_row f k m).1 !! k' = Some v' → P k' v'.
Proof.
  intros Hm Hf k' v'. unfold update_row. destruct (m !! k) as [v|] eqn:Hk; [|apply Hm].
  cbn. rewrite lookup_insert_Some. intros [[<- <-]|[_ Hk']]; eauto.
Qed.
End integrity.

(** ** What [JSON.stringify] keeps of an object *)
Lemma stringify_field k v fs j jv :
  stringify (VObj fs) = Ok (Some j) → assoc k fs = Some v → stringify v = Ok (Some jv) →
  json_field k j = Some jv.
Proof.
  cbn [stringify]. match goal with |- (_ ← ?go _; _) = _ → _ => set (g := go) end.
  intros H Hk Hv. destruct (g fs) as [js|] eqn:Hg; [|done]. injection H as <-. simpl.
  revert js Hg. induction fs as [|[k' v'] fs IH]; intros js Hg; [done|]. simpl in Hg, Hk.
  destruct (stringify v') as [jo|] eqn:Hj; simpl in Hg; [|done].
  destruct (g fs) as [js'|]; [|done]. injection Hg as <-.
  case_decide as Hkk; [injection Hk as ->; rewrite Hv in Hj; injection Hj as <-; simpl; by rewrite decide_True|].
  destruct jo; simpl; [rewrite decide_False by done|]; by apply IH.
Qed.
Lemma stringify_field_inv k fs j jv :
  stringify (VObj fs) = Ok (Some j) → json_field k j = Some jv →
  ∃ v, (k, v) ∈ fs ∧ stringify v = Ok (Some jv).
Proof.
  cbn [stringify]. match goal with |- (_ ← ?go _; _) = _ → _ => set (g := go) end.
  intros H. destruct (g fs) as [js|] eqn:Hg; [|done]. injection H as <-. simpl.
  revert js Hg. induction fs as [|[k' v'] fs IH]; intros js Hg Hk; [by injection Hg as <-|]. simpl in Hg.
  destruct (stringify v') as [jo|] eqn:Hj; simpl in Hg; [|done].
  destruct (g fs) as [js'|]; [|done]. injection Hg as <-.
  destruct jo as [jo|]; simpl in Hk; [case_decide as Hkk|].
  - injection Hk as ->. subst k'. exists v'. split; [apply list_elem_of_here|done].
  - destruct (IH _ eq_refl Hk) as (v & Hin & Hv). exists v. split; [by apply list_elem_of_further|done].
  - destruct (IH _ eq_refl Hk) as (v & Hin & Hv). exists v. split; [by apply list_elem_of_further|done].
Qed.
Lemma stringify_str v s : stringify v = Ok (Some (JStr s)) → v = VStr s.
Proof.
  destruct v; simpl; try done.
  - unfold json_num. by destruct n as [|[]].
  - by intros [= ->].
  - by match goal with |- (_ ← ?e; _) = _ → _ => destruct e end.
  - by match goal with |- (_ ← ?e; _) = _ → _ => destruct e end.
Qed.

(** ** Statements *)
Section statements.
Context (config : Config) (to_timestamp : string → option Z).
#[local] Abbreviation wf := (db_wf config to_timestamp) (only parsing).

(** The raw event of the handler that runs is in the table. *)
Definition logged (name : string) (data : jsval) (log : Log) (d : Db) : Prop := ∃ row,
  events d !! log_key log = Some row ∧ ev_name row = name ∧
  stringify data = Ok (Some (ev_data row)) ∧ int8_in (PText (dec (blockNumber log))) = Some (ev_block row).

Lemma logged_event name data log d (P : EventRow → Prop) : logged name data log d →
  (∀ row, stringify data = Ok (Some (ev_data row)) →
    int8_in (PText (dec (blockNumber log))) = Some (ev_block row) → P row) →
  recorded_event name (transactionHash log) P (events d).
Proof. intros (row & Hr & Hn & Hj & Hb) HP. exists (index log), row. split_and!; eauto. Qed.

(** A field given as a string is a column. *)
Lemma string_column {X} (read : string → option X) key fs row s x :
  stringify (VObj fs) = Ok (Some (ev_data row)) → assoc key fs = Some (VStr s) → read s = Some x →
  column read key row x.
Proof. intros Hj Hk Hr. exists s. split; [by eapply stringify_field|done]. Qed.
Ltac columns := try (eapply string_column; [done|reflexivity|done]).

(** Open a statement that succeeded. *)
Ltac run_exec H :=
  unfold exec in H; cbn -[int8_in int4_in numeric_in timestamp_in] in H;
  destruct (negb _); [discriminate H|]; unopt H;
  repeat match goal with Hx : Some _ = Some _ |- _ => injection Hx as <- end;
  match type of H with (let '(_, _) := ?e in _) = _ =>
    let m := fresh "m" in let n := fresh "n" in let Hm := fresh "Hm" in
    let Hn := fresh "Hn" in
    destruct e as [m n] eqn:Hm; pose proof (f_equal snd Hm) as Hn; apply (f_equal fst) in Hm;
    cbn [fst snd] in Hm, Hn; subst m; injection H as <- <-
  end.

Definition submission_data (id policy claimant : string) (root : jsval) (amount timestamp : string) : jsval :=
  VObj [("claimId", VStr id); ("policyId", VStr policy); ("claimant", VStr claimant); ("merkleRoot", root);
    ("amount", VStr amount); ("timestamp", VStr timestamp)].

Lemma exec_claim_wf log id policy claimant rootv root amount ts d d' r :
  exec to_timestamp InsertClaim [PText id; PText policy; PText (lower claimant); root; PText amount;
    PText (transactionHash log); PText (dec (blockNumber log))] d = Some (d', r) →
  (∀ s, rootv = VStr s → root = PText s) →
  wf d → logged "ClaimSubmitted" (submission_data id policy claimant rootv amount ts) log d → wf d'.
Proof.
  intros H Hroot Hwf Hl. run_exec H. apply wf_set_claims; [done|].
  apply (insert_if_absent_rows (claim_wf (events d))); [apply Hwf|].
  split_and!; cbn; try done; eauto using int8_in_range, lower_idemp; [|by left].
  eapply logged_event; [done|]. unfold submission_data. intros row Hrow Hb. split_and!; columns; [cbn; congruence|].
  intros s Hs. destruct (stringify_field_inv _ _ _ _ Hrow Hs) as (v & Hin & ->%stringify_str).
  assert (rootv = VStr s) as ->%Hroot by (repeat (apply elem_of_cons in Hin as [[=]|Hin]); [done|by apply elem_of_nil in Hin]).
  simpl in *. congruence.
Qed.
Lemma exec_status_wf log id status name d d' r :
  exec to_timestamp UpdateClaimStatus [PText id; PText name; PText (transactionHash log)] d = Some (d', r) →
  wf d → logged "ClaimStatusChanged" (VObj [("claimId", VStr id); ("status", status); ("statusName", VStr name)]) log d → wf d'.
Proof.
  intros H Hwf Hl. run_exec H. apply wf_set_claims; [done|].
  apply (update_row_rows (claim_wf (events d))); [apply Hwf|].
  intros c (? & ? & ? & ? & ? & _ & ? & _)%(wf_claims config _ d Hwf). split_and!; cbn; try done.
  - intros tx [= <-]. eapply logged_event; [done|]. intros row Hrow _. columns.
  - right. right. exists (transactionHash log). split; [done|].
    eapply logged_event; [done|]. intros row Hrow _. split; columns.
Qed.
Lemma exec_paid_wf log id fs d d' r :
  exec to_timestamp UpdateClaimPaid [PText id; PText (transactionHash log)] d = Some (d', r) →
  wf d → logged "ClaimPayout" (VObj (("claimId", VStr id) :: fs)) log d → wf d'.
Proof.
  intros H Hwf Hl. run_exec H. apply wf_set_claims; [done|].
  apply (update_row_rows (claim_wf (events d))); [apply Hwf|].
  intros c (? & ? & ? & ? & ? & ? & _ & _)%(wf_claims config _ d Hwf). split_and!; cbn; try done.
  - intros tx [= <-]. eapply logged_event; [done|]. intros row Hrow _. columns.
  - right. left. eauto.
Qed.
Lemma exec_policy_wf log id holder coverage vfrom vuntil d d' r :
  exec to_timestamp InsertPolicy [PText id; PText (lower holder); PText coverage; PText vfrom; PText vuntil;
    PText (transactionHash log)] d = Some (d', r) →
  wf d → logged "PolicyRegistered" (VObj [("policyId", VStr id); ("holder", VStr holder); ("validFrom", VStr vfrom);
    ("validUntil", VStr vuntil); ("coverageAmount", VStr coverage)]) log d → wf d'.
Proof.
  intros H Hwf Hl. run_exec H. apply wf_set_policies; [done|].
  apply (insert_if_absent_rows (policy_wf to_timestamp (events d))); [apply Hwf|].
  split_and!; cbn; try done; eauto using int8_in_range, lower_idemp.
  eapply logged_event; [done|]. intros row Hrow _. split_and!; columns.
Qed.
Lemma exec_revoke_wf log id d d' r :
  exec to_timestamp RevokePolicy [PText id] d = Some (d', r) →
  wf d → logged "PolicyRevoked" (VObj [("policyId", VStr id)]) log d → wf d'.
Proof.
  intros H Hwf Hl. run_exec H. apply wf_set_policies; [done|].
  apply (update_row_rows (policy_wf to_timestamp (events d))); [apply Hwf|].
  intros c (? & ? & ? & _)%(wf_policies config _ d Hwf). split_and!; cbn; try done.
  intros _. exists (transactionHash log). eapply logged_event; [done|]. intros row Hrow _. columns.
Qed.

(** The raw event itself. *)
Lemma int_in_dec_inv lo hi z z' : int_in lo hi (PText (dec z)) = Some z' → z' = z.
Proof. rewrite int_in_dec. case_match; congruence. Qed.

Lemma exec_event_wf name c data j log d d' r :
  name ∈ event_names → stringify data = Ok (Some j) →
  exec to_timestamp InsertEvent [PText name; PText (lower (contract_address config c)); PText (transactionHash log);
    PText (dec (index log)); PText (dec (blockNumber log)); PJson j] d = Some (d', r) →
  wf d → wf d' ∧ (0 < rowCount r → logged name data log d').
Proof.
  intros Hname Hj H Hwf. run_exec H. pose proof (int4_in_range _ _ Hx) as Hi. pose proof (int8_in_range _ _ Hx0) as Hb.
  pose proof (int_in_dec_inv _ _ _ _ Hx) as ->. cbn [rowCount]. subst n.
  unfold insert_if_absent. destruct (events d !! _) as [row|] eqn:Hk; cbn [fst snd].
  - rewrite set_events_id. split; [done|lia].
  - split.
    + apply wf_set_events; [done| |done]. split_and!; try done. by exists c.
    + intros _. eexists. cbn. split; [by apply lookup_insert_eq|]. done.
Qed.
End statements.

(** ** Handlers *)
Definition keeps_db (I : Db → Prop) (w w' : World) : Prop := I (db w) → I (db w').
#[export] Instance keeps_db_preorder I : PreOrder (keeps_db I).
Proof. split; [intros w H; exact H|]. intros w1 w2 w3 H1 H2 H. apply H2, H1, H. Qed.

Section handlers.
Context (E : Env) {PL : PgLaws E} (config : Config).

Lemma query_keeps_db (I : Db → Prop) q vs :
  (∀ ps d d' r, mapM (prepareValue E) vs = Some ps → exec (to_timestamp E) q ps d = Some (d', r) → I d → I d') →
  moves (keeps_db I) (pool_query E q vs).
Proof.
  intros HI w H. unfold pool_query. destruct (mapM _ vs) as [ps|] eqn:Hps; [|done].
  destruct (exec _ q ps (db w)) as [[d r]|] eqn:Hx; destruct (db_outcome _ _ _); try done; cbn; by eapply HI.
Qed.
Lemma pure_keeps_db {A} I (m : Js World A) : pure_js m → moves (keeps_db I) m.
Proof. intros Hp w. by rewrite Hp. Qed.
Lemma report_keeps_db I event : moves (keeps_db I) (reportClaimEvent E config event).
Proof. intros w H. by rewrite (reportClaimEvent_same_db E config event w). Qed.

Definition wf_logged (name : string) (data : jsval) (log : Log) (d : Db) : Prop :=
  db_wf config (to_timestamp E) d ∧ logged name data log d.
Lemma logged_mono name data log d d' : db_grows d d' → logged name data log d → logged name data log d'.
Proof. intros [_ G _ _] (row & Hr & H). exists row. split; [by eapply lookup_weaken|done]. Qed.

(** A projection that runs on a logged event. *)
Lemma project_wf name data log q vs :
  (∀ ps d d' r, mapM (prepareValue E) vs = Some ps → exec (to_timestamp E) q ps d = Some (d', r) →
    db_wf config (to_timestamp E) d → logged name data log d → db_wf config (to_timestamp E) d') →
  moves (keeps_db (wf_logged name data log)) (pool_query E q vs).
Proof.
  intros HI. apply query_keeps_db. intros ps d d' r Hps Hx [Hwf Hl].
  split; [by eapply HI|eapply logged_mono; [by eapply exec_grows|done]].
Qed.

Lemma persisted_wf name fs c log (rest : Js World unit) :
  let data := VObj fs in name ∈ event_names → moves (keeps_db (wf_logged name data log)) rest →
  moves (keeps_db (db_wf config (to_timestamp E)))
    (isNew ← persistRawEventOnce E log name (contract_address config c) data;
     if negb isNew then mret tt else rest).
Proof.
  intros data Hname Hrest w Hwf. unfold persistRawEventOnce. rewrite bind_bind, bind_run.
  unfold pool_query. destruct (mapM (prepareValue E) _) as [ps|] eqn:Hps; [|done].
  apply persist_params in Hps as (pd & Hpd & ->); [|done]. unfold data in *. rewrite pg_obj in Hpd.
  destruct (stringify _) as [[j|]|] eqn:Hj; try done. injection Hpd as <-.
  destruct (exec _ InsertEvent _ (db w)) as [[d r]|] eqn:Hx; [|by destruct (db_outcome _ _ _)].
  apply (exec_event_wf config (to_timestamp E) name c (VObj fs) j log) in Hx as [Hd Hl]; [|done..].
  destruct (db_outcome _ _ _); try done. rewrite bind_ret. destruct (Z.ltb_spec 0 (rowCount r)); cbn [negb]; [|done].
  apply Hrest. split; [done|]. by apply Hl.
Qed.
End handlers.

(** The handlers keep the invariant. *)
Section dispatch.
Context (E : Env) {PL : PgLaws E} (config : Config) (c : Contract).

Lemma handler_wf name h log args : assoc name (HANDLERS E config) = Some h →
  moves (keeps_db (db_wf config (to_timestamp E))) (h log args (contract_address config c)).
Proof.
  assert (∀ k I, moves (keeps_db I) (arg args k)) as Harg by (intros; by apply pure_keeps_db).
  assert (∀ k I, moves (keeps_db I) (argText args k)) as Htext by (intros; apply pure_keeps_db, pure_argText).
  unfold HANDLERS. simpl. intros Hh. repeat (case_decide; [injection Hh as <-|]); [..|done].
  all: unfold handleClaimSubmitted, handleClaimStatusChanged, handleClaimPayout, handlePolicyRegistered, handlePolicyRevoked.
  all: repeat (apply moves_bind; [apply _|solve [apply Harg|apply Htext]|intros ?]).
  all: apply persisted_wf; [exact _|by eapply bool_decide_eq_true_1|].
  all: try (apply moves_bind_lift; [apply _|intros text Htxt]).
  all: apply moves_bind; [apply _| |intros r; try destruct (rows r); solve
    [apply report_keeps_db|apply moves_ret, _|intros w Hw; exact Hw]].
  all: apply project_wf; intros ps d d' r Hps Hx Hwf Hl; simpl in Hps; rewrite ?pg_str, ?pg_int in Hps.
  - destruct (prepareValue E a2) as [root|] eqn:Hroot; [|done]. injection Hps as <-.
    destruct a1; try done. injection Htxt as <-. eapply exec_claim_wf; [done| |done..].
    intros root_text ->. rewrite pg_str in Hroot. congruence.
  - injection Hps as <-. by eapply exec_status_wf.
  - injection Hps as <-. by eapply exec_paid_wf.
  - injection Hps as <-. destruct a0; try done. injection Htxt as <-. by eapply exec_policy_wf.
  - injection Hps as <-. by eapply exec_revoke_wf.
Qed.

Lemma process_logs_wf logs total : moves (keeps_db (db_wf config (to_timestamp E))) (process_logs E config c (contract_address config c) logs total).
Proof.
  revert total. induction logs as [|log logs IH]; intros total; simpl; [apply moves_ret, _|].
  apply moves_bind; [apply _| |intros n; apply IH].
  unfold process_log. destruct (parseLog _ _ _) as [| |name args]; [apply moves_ret, _|apply moves_throw, _|].
  destruct (assoc name _) as [h|] eqn:Hh; [|apply moves_ret, _].
  apply moves_bind; [apply _|by eapply handler_wf|intros _; apply moves_ret, _].
Qed.
End dispatch.

(** ** Scans and runs *)
Section runs.
Context (E : Env) {PL : PgLaws E} (config : Config) (Hchunk : 0 < blockRangeChunkSize config).

Lemma wf_same w w' : db_wf config (to_timestamp E) (db w) → same_state w w' → db_wf config (to_timestamp E) (db w').
Proof. by intros H [-> _ _]. Qed.

Lemma scan_wf c deployBlock w : db_wf config (to_timestamp E) (db w) → db_wf config (to_timestamp E) (db (scanContract E config c deployBlock w).2).
Proof.
  apply (scanContract_preserves E config c deployBlock Hchunk (λ w, db_wf config (to_timestamp E) (db w)) (λ _ w, db_wf config (to_timestamp E) (db w)));
    eauto using wf_same.
  - intros cursor toBlock t logs total w0 H _ _. by apply process_logs_wf.
  - intros cursor toBlock t logs total n w0 w1 w2 _ H _ _ _ _ _ -> Hb. by apply wf_set_checkpoint.
Qed.
Lemma schema_wf w : db_wf config (to_timestamp E) (db w) → db_wf config (to_timestamp E) (db (ensureSchema E w).2).
Proof.
  intros H. unfold ensureSchema. apply (moves_bind (keeps_db (db_wf config (to_timestamp E)))); [|intros r; apply moves_ret, _|exact H].
  apply query_keeps_db. intros ps d d' r [= <-] Hx Hd. unfold exec in Hx. injection Hx as <- _. by apply wf_schema.
Qed.
End runs.

Lemma lives_wf E {PL : PgLaws E} config ps w : 0 < blockRangeChunkSize config →
  db_wf config (to_timestamp E) (db w) → db_wf config (to_timestamp E) (db (lives E config ps w)).
Proof.
  intros Hchunk. apply (lives_preserves E config (λ w, db_wf config (to_timestamp E) (db w))); [by apply wf_same|..];
    intros p; rewrite <-(services_timestamp E p).
  - apply (runOnePass_preserves (services E p) config (λ w, db_wf config (to_timestamp (services E p)) (db w))).
    intros c w1. apply scan_wf; [apply _|done].
  - intros w1. apply schema_wf.
Qed.

(** C12: The tables have integrity.  Whatever the chain contains, however
    ethers decodes it, whichever calls fail and wherever processes are killed:
    every BIGINT and INTEGER column is in range; every claim is the projection
    of a ClaimSubmitted event recorded in the block and transaction it names,
    its id, policy, lower-cased claimant, amount and (given as a string)
    Merkle root being those of that event's JSON; every policy likewise of a
    PolicyRegistered event, with its lower-cased holder, coverage and
    validity; a claim's status is "submitted" while it names no later
    transaction, "paid" only with a payout transaction, and otherwise the
    status name of the recorded status event it names; status and payout
    transactions are those of recorded events about that claim, and a policy
    is revoked only if a revocation of it is recorded. *)
Theorem tables_have_integrity (E : Env) {PL : PgLaws E} (config : Config) (ps : list Process) (w : World) :
  ConfigOk config → db_wf config (to_timestamp E) (db w) →
  db_wf config (to_timestamp E) (db (lives E config ps w)).
Proof. intros Hcfg. apply (lives_wf E config), Hcfg. Qed.

Lemma tables_have_integrity_witness :
  let w := lives flaky demo_config [stopped 3; crashed 4 60; stopped 5] (boot empty_db) in
  db_wf demo_config undec (db w) ∧ dom (claims (db w)) = {[1]} ∧
  (cl_status <$> claims (db w) !! 1) = Some "paid".
Proof.
  split; [apply (tables_have_integrity flaky demo_config [stopped 3; crashed 4 60; stopped 5] (boot empty_db) demo_config_ok), empty_db_wf|].
  split; vm_compute; reflexivity.
Defined.
