(* ===== verification/IndexerHistory.v ===== *)
(** * The index as a history of the chain's logs

    A [History] lists the logs dispatched so far, oldest first, each with its
    [Fate]; [replay] is the index such a history leaves.  A world is [synced]
    with a history when it is that index, and the history has a prefix of each
    contract's logs.  The second half follows a batch of logs through
    listener.js: it extends the history, each log's fate being one the
    services' answers force. *)

From Stdlib Require Import Sorting.Sorted.
From S2P Require Import Prelude JsValue Zod IndexerConfig IndexerStore IndexerWorld BackendClient EventHandlers Listener IndexerMirror ScanSafety.

(** ** Slices of a list sorted by block *)
Section slices.
Definition upto (b : Z) (l : list Log) : list Log := filter (λ x, blockNumber x <= b) l.
Definition between (lo hi : Z) (l : list Log) : list Log :=
  filter (λ x, lo <= blockNumber x <= hi) l.

Definition by_block (x y : Log) : Prop := blockNumber x <= blockNumber y.

Lemma filter_all {A} (P : A → Prop) `{∀ x, Decision (P x)} l : Forall P l → filter P l = l.
Proof. induction 1; [done|]. rewrite filter_cons_True by done. by f_equal. Qed.
Lemma filter_none {A} (P : A → Prop) `{∀ x, Decision (P x)} l :
  Forall (λ x, ¬ P x) l → filter P l = [].
Proof. induction 1; [done|]. by rewrite filter_cons_False. Qed.

(** The logs up to [hi] are those up to [lo - 1] and then the slice. *)
Lemma upto_between lo hi l :
  StronglySorted by_block l → lo - 1 <= hi → upto hi l = upto (lo - 1) l ++ between lo hi l.
Proof.
  intros Hs Hle. induction Hs as [|x l Hs IH Hall]; [done|]. unfold upto, between in *.
  destruct (decide (blockNumber x <= lo - 1)) as [Hx|Hx].
  - rewrite (filter_cons_True _ _ l), (filter_cons_True _ _ l), (filter_cons_False _ _ l) by lia.
    by rewrite IH.
  - assert (filter (λ x, blockNumber x <= lo - 1) l = []) as Hnone.
    { apply filter_none. eapply Forall_impl; [exact Hall|]. unfold by_block. intros y. simpl. lia. }
    rewrite (filter_cons_False (λ x, blockNumber x <= lo - 1)) by done.
    rewrite Hnone in IH |- *. simpl in *.
    destruct (decide (blockNumber x <= hi)) as [Hh|Hh].
    + rewrite (filter_cons_True _ _ l), (filter_cons_True _ _ l) by lia. by rewrite IH.
    + by rewrite (filter_cons_False _ _ l), (filter_cons_False _ _ l), IH by lia.
Qed.

(** The logs up to a block are a prefix. *)
Lemma upto_prefix b l : StronglySorted by_block l → upto b l `prefix_of` l.
Proof.
  induction 1 as [|x l Hs IH Hall]; [done|]. unfold upto in *.
  destruct (decide (blockNumber x <= b)) as [Hx|Hx].
  - rewrite filter_cons_True by done. by apply prefix_cons.
  - rewrite filter_cons_False by done. rewrite filter_none; [apply prefix_nil|].
    eapply Forall_impl; [exact Hall|]. unfold by_block. intros y. simpl. lia.
Qed.

(** What is on chain before a log's block comes before that log. *)
Lemma upto_before l pre x post :
  l = pre ++ x :: post → StronglySorted by_block l → upto (blockNumber x - 1) l `prefix_of` pre.
Proof.
  intros ->. unfold upto. induction pre as [|y pre IH]; simpl; intros Hs; inversion_clear Hs as [|?? Hs' Hall].
  - rewrite filter_cons_False, filter_none; [apply prefix_nil| |lia].
    eapply Forall_impl; [exact Hall|]. unfold by_block. intros z. simpl. lia.
  - destruct (decide (blockNumber y <= blockNumber x - 1)) as [Hy|Hy].
    + rewrite filter_cons_True by done. by apply prefix_cons, IH.
    + rewrite Forall_app, Forall_cons in Hall. unfold by_block in Hall.
      destruct Hall as (Hpre & Hx & Hpost).
      rewrite filter_cons_False, filter_none; [apply prefix_nil| |done].
      rewrite Forall_app, Forall_cons. split_and!; [|lia|]; (eapply Forall_impl; [eassumption|]); intros z; simpl; lia.
Qed.

Lemma upto_upto b b' l : b <= b' → upto b (upto b' l) = upto b l.
Proof.
  intros Hb. unfold upto. rewrite list_filter_filter. apply list_filter_iff. intros x. lia.
Qed.

Lemma elem_of_upto x b l : x ∈ upto b l ↔ blockNumber x <= b ∧ x ∈ l.
Proof. unfold upto. by rewrite list_elem_of_filter. Qed.

Lemma sorted_filter (P : Log → Prop) `{∀ x, Decision (P x)} l :
  StronglySorted by_block l → StronglySorted by_block (filter P l).
Proof.
  induction 1 as [|x l Hs IH Hall]; [constructor|].
  destruct (decide (P x)); [rewrite filter_cons_True by done|by rewrite filter_cons_False].
  constructor; [done|]. apply Forall_forall. intros y [_ Hy]%list_elem_of_filter.
  rewrite Forall_forall in Hall. by apply Hall.
Qed.
End slices.

(** A dispatched log, and how far it got. *)
Abbreviation Entry := (Log * Fate)%type (only parsing).
Abbreviation History := (list (Contract * (Log * Fate))) (only parsing).

#[global] Instance Fate_eq_dec : EqDecision Fate.
Proof. solve_decision. Defined.

(** The ticks at which entries were cut short. *)
Definition cuts (l : list Entry) : list nat := omap (λ e, cut_tick e.2) l.

Section views.
Context (config : Config) (event_of : Log → option ChainEvent).

(** Claims and notifications, from the claim logs alone. *)
Definition claim_view (l : list Entry) : gmap Z ClaimRow * list Request :=
  foldl (λ st e, match event_of e.1 with
    | Some ev => (if is_projected e.2 then claims_step e.1 ev st.1 else st.1,
                  st.2 ++ if is_processed e.2 then notifications config e.1 ev st.1 else [])
    | None => st end) (∅, []) l.

(** Policies, from the policy logs alone. *)
Definition policy_view (l : list Entry) : gmap Z PolicyRow :=
  foldl (λ ps e, match event_of e.1 with
    | Some ev => if is_projected e.2 then policies_step e.1 ev ps else ps
    | None => ps end) ∅ l.

(** The index holds exactly what the entries [p] of the two contracts say. *)
Definition mirrors (p : Contract → list Entry) (w : World) : Prop :=
  (claims (db w), sent w) = claim_view (p ClaimRegistry) ∧
  policies (db w) = policy_view (p InsurancePolicy) ∧
  ∀ k row, events (db w) !! k = Some row ↔
    ∃ c log ev, log ∈ (p c).*1 ∧ event_of log = Some ev ∧ log_key log = k ∧
      row = event_row config c log ev.

(** An entry is cut short by a failure of the services at that tick, or by
    the end of a process killed at that tick. *)
Definition explained (E : Env) (ps : list Process) (e : Entry) : Prop :=
  match event_of e.1 with
  | Some ev => cause E ev e.2 ∨ ∃ p, p ∈ ps ∧ cut_tick e.2 = killed p
  | None => e.2 = Processed
  end.
End views.

Section history.
Context (config : Config).
(** The chain's logs per address, in block order. *)
Context (chain : string → list Log).
Context (event_of : Log → option ChainEvent).

(** The logs of [c] from its deploy block on: what a scan can see. *)
Definition onchain (c : Contract) : list Log :=
  filter (λ x, deploy_block config c <= blockNumber x) (chain (contract_address config c)).

(** The node returns the requested slice, when it returns. *)
Definition logs_exact (E : Env) : Prop := ∀ t a lo hi logs,
  getLogs E t a lo hi = Some logs → logs = between lo hi (chain a).

(** What the chain guarantees: block order, a key per log, decodable logs. *)
Record chain_ok (E : Env) : Prop := {
  ch_sorted a : StronglySorted by_block (chain a);
  ch_unique c c' i j l l' :
    onchain c !! i = Some l → onchain c' !! j = Some l' → log_key l = log_key l' → c = c' ∧ i = j;
  ch_decodes c l : l ∈ onchain c → decodes E config event_of c l;
}.

Definition replay (h : History) : Mirror :=
  foldl (λ m x, mirror_log config event_of x.1 x.2.1 x.2.2 m) empty_mirror h.

(** The entries of one contract in a history. *)
Definition entries_of (c : Contract) (h : History) : list Entry := (filter (λ x, x.1 = c) h).*2.
Definition logs_of (c : Contract) (h : History) : list Log := (entries_of c h).*1.

(** The world is the mirror of [h], which has a prefix of each contract's
    logs; what was cut was cut at different ticks, all in the past. *)
Record synced (h : History) (w : World) : Prop := {
  sy_mirror : mirror_of w = replay h;
  sy_prefix c : logs_of c h `prefix_of` onchain c;
  sy_nodup : NoDup (cuts h.*2);
  sy_past t : t ∈ cuts h.*2 → (t < clock w)%nat;
}.

(** [h] contains every log of [c] up to block [b]. *)
Definition covers (c : Contract) (b : Z) (h : History) : Prop :=
  upto b (onchain c) `prefix_of` logs_of c h.

Definition checkpoints_covered (h : History) (w : World) : Prop := ∀ c cp,
  checkpoints (db w) !! lower (contract_address config c) = Some cp →
  deploy_block config c <= cp ∧ covers c cp h.

Lemma entries_of_app c h h' : entries_of c (h ++ h') = entries_of c h ++ entries_of c h'.
Proof. unfold entries_of. by rewrite filter_app, fmap_app. Qed.
Lemma logs_of_app c h h' : logs_of c (h ++ h') = logs_of c h ++ logs_of c h'.
Proof. unfold logs_of. by rewrite entries_of_app, fmap_app. Qed.
Lemma logs_of_mono c h h' : logs_of c h `prefix_of` logs_of c (h ++ h').
Proof. rewrite logs_of_app. by apply prefix_app_r. Qed.
Lemma entries_of_snoc c e h : entries_of c (h ++ [(c, e)]) = entries_of c h ++ [e].
Proof. rewrite entries_of_app. unfold entries_of at 2. by rewrite filter_cons_True. Qed.
Lemma entries_of_snoc_ne c c' e h : c ≠ c' → entries_of c' (h ++ [(c, e)]) = entries_of c' h.
Proof.
  intros Hne. rewrite entries_of_app. unfold entries_of at 2. rewrite filter_cons_False by done.
  apply app_nil_r.
Qed.
Lemma elem_of_entries_of c e h : e ∈ entries_of c h ↔ (c, e) ∈ h.
Proof.
  unfold entries_of. rewrite list_elem_of_fmap. split.
  - intros ([c' l] & -> & [Hc Hin]%list_elem_of_filter). simpl in *. by subst.
  - intros Hin. exists (c, e). split; [done|]. by apply list_elem_of_filter.
Qed.
Lemma elem_of_logs_of c log h : log ∈ logs_of c h ↔ ∃ f, (c, (log, f)) ∈ h.
Proof.
  unfold logs_of. rewrite list_elem_of_fmap. setoid_rewrite <-elem_of_entries_of. split.
  - intros ([l f] & -> & H). by exists f.
  - intros [f H]. by exists (log, f).
Qed.
Lemma replay_snoc h c e : replay (h ++ [(c, e)]) = mirror_log config event_of c e.1 e.2 (replay h).
Proof. unfold replay. by rewrite foldl_app. Qed.

(** The cuts of a history are those of its contracts. *)
Lemma cuts_app l l' : cuts (l ++ l') = cuts l ++ cuts l'.
Proof. apply omap_app. Qed.
Lemma history_cuts h :
  cuts h.*2 ≡ₚ cuts (entries_of ClaimRegistry h ++ entries_of InsurancePolicy h).
Proof.
  unfold cuts. induction h as [|[c e] h IH]; [done|]. rewrite omap_app in *.
  destruct c; unfold entries_of in *; [rewrite filter_cons_True by done; rewrite (filter_cons_False _ (ClaimRegistry, e)) by done
    |rewrite (filter_cons_False _ (InsurancePolicy, e)) by done; rewrite filter_cons_True by done];
    simpl; destruct (cut_tick e.2); rewrite IH; simpl; solve_Permutation.
Qed.

(** The event table of a history: the keys of its mirrored logs. *)
Lemma replay_rows h k row :
  (∀ c l c' l', l ∈ logs_of c h → l' ∈ logs_of c' h → log_key l = log_key l' → c = c' ∧ l = l') →
  m_events (replay h) !! k = Some row ↔
  ∃ c log ev, log ∈ logs_of c h ∧ event_of log = Some ev ∧ log_key log = k ∧
    row = event_row config c log ev.
Proof.
  setoid_rewrite elem_of_logs_of.
  induction h as [|[c [log f]] h IH] using rev_ind; intros Hu.
  { split; [done|]. intros (? & ? & ? & [? H%elem_of_nil] & _). done. }
  rewrite replay_snoc. unfold mirror_log. setoid_rewrite elem_of_app.
  setoid_rewrite list_elem_of_singleton.
  assert (∀ c' l' f', (c', (l', f')) ∈ h → (c', (l', f')) ∈ h ++ [(c, (log, f))]) as Hl by (intros; apply elem_of_app; by left).
  assert ((c, (log, f)) ∈ h ++ [(c, (log, f))]) as Hr by (apply elem_of_app; right; apply list_elem_of_here).
  specialize (IH ltac:(intros ???? [??] [??]; apply Hu; eauto)).
  cbn [fst snd]. destruct (event_of log) as [ev|] eqn:Hev; simpl.
  - rewrite lookup_insert_Some. split.
    + intros [[<- <-]|[Hne Hrow]]; [exists c, log, ev; split_and!; eauto|].
      apply IH in Hrow as (c' & l' & ev' & [f' ?] & ?). exists c', l', ev'. split; [eauto|done].
    + intros (c' & l' & ev' & [f' [Hin|[= -> -> ->]]] & He & Hk & ->); [|left; by simplify_eq].
      destruct (decide (log_key log = k)) as [Hkk|Hkk].
      * destruct (Hu c' l' c log) as [-> ->]; [eauto|eauto|congruence|]. left. by simplify_eq.
      * right. split; [done|]. apply IH. exists c', l', ev'. split; [eauto|done].
  - rewrite IH. split; intros (c' & l' & ev' & [f' Hin] & ?); exists c', l', ev'; (split; [|done]); [eauto|].
    destruct Hin as [?|[= -> -> ->]]; [eauto|]. destruct_and!. congruence.
Qed.

Section synced.
Context (E : Env) (Hchain : chain_ok E).

Lemma synced_unique h w : synced h w → ∀ c l c' l',
  l ∈ logs_of c h → l' ∈ logs_of c' h → log_key l = log_key l' → c = c' ∧ l = l'.
Proof.
  intros Hs c l c' l' [i Hi]%list_elem_of_lookup_1 [j Hj]%list_elem_of_lookup_1 Hk.
  pose proof (prefix_lookup_Some _ _ _ _ Hi (sy_prefix _ _ Hs c)) as Hi'.
  pose proof (prefix_lookup_Some _ _ _ _ Hj (sy_prefix _ _ Hs c')) as Hj'.
  destruct (ch_unique _ Hchain _ _ _ _ _ _ Hi' Hj' Hk) as [-> ->]. split; congruence.
Qed.

Lemma synced_rows h w k row : synced h w →
  events (db w) !! k = Some row ↔
  ∃ c log ev, log ∈ logs_of c h ∧ event_of log = Some ev ∧ log_key log = k ∧
    row = event_row config c log ev.
Proof.
  intros Hs. change (events (db w)) with (m_events (mirror_of w)). rewrite (sy_mirror _ _ Hs).
  apply replay_rows. by eapply synced_unique.
Qed.

Lemma synced_recorded h w c log ev :
  synced h w → log ∈ logs_of c h → event_of log = Some ev → is_Some (events (db w) !! log_key log).
Proof. 
  intros Hs Hin Hev. exists (event_row config c log ev). apply (synced_rows h w _ _ Hs). by exists c, log, ev.
Qed.

(** A log right after the recorded prefix has not been recorded. *)
Lemma synced_fresh h w c log post :
  synced h w → onchain c = logs_of c h ++ log :: post → events (db w) !! log_key log = None.
Proof.
  intros Hs Hsplit. apply eq_None_not_Some. intros [row Hrow].
  apply (synced_rows h w _ _ Hs) in Hrow as (c' & log' & ev & Hin & _ & Hk & _).
  apply list_elem_of_lookup_1 in Hin as [j Hj].
  pose proof (prefix_lookup_Some _ _ _ _ Hj (sy_prefix _ _ Hs c')) as Hj'.
  assert (onchain c !! length (logs_of c h) = Some log) as Hi
    by (rewrite Hsplit; by apply list_lookup_middle).
  destruct (ch_unique _ Hchain _ _ _ _ _ _ Hj' Hi Hk) as [-> ->].
  apply lookup_lt_Some in Hj. lia.
Qed.

(** One more log in the history. *)
Lemma synced_snoc h w w' c log f post :
  synced h w → onchain c = logs_of c h ++ log :: post →
  mirror_of w' = mirror_log config event_of c log f (mirror_of w) →
  (∀ t, cut_tick f = Some t → (clock w <= t < clock w')%nat) → (clock w <= clock w')%nat →
  synced (h ++ [(c, (log, f))]) w'.
Proof.
  intros [Hm Hp Hn Hpast] Hsplit Hm' Ht Hcl.
  assert (cuts (h ++ [(c, (log, f))]).*2 = cuts h.*2 ++ option_list (cut_tick f)) as Hcuts.
  { by rewrite fmap_app, cuts_app. }
  split.
  - by rewrite replay_snoc, Hm', Hm.
  - intros c'. unfold logs_of. destruct (decide (c = c')) as [<-|Hne].
    + rewrite entries_of_snoc, fmap_app. fold (logs_of c h). rewrite Hsplit. exists post. by rewrite <-app_assoc.
    + rewrite entries_of_snoc_ne by done. apply Hp.
  - rewrite Hcuts. destruct (cut_tick f) as [t|] eqn:Hf; simpl; [|by rewrite app_nil_r].
    apply NoDup_app. split_and!; [done| |apply NoDup_singleton].
    intros t' Ht'%Hpast ->%list_elem_of_singleton. specialize (Ht t eq_refl). lia.
  - rewrite Hcuts. intros t [Hin%Hpast|Hin]%elem_of_app; [lia|].
    destruct (cut_tick f) as [t'|] eqn:Hf; simpl in Hin; [|by apply elem_of_nil in Hin].
    apply list_elem_of_singleton in Hin as ->. by apply Ht.
Qed.

Lemma synced_same h w w' : synced h w → same_state w w' → synced h w'.
Proof.
  intros [Hm Hp Hn Hpast] [Hd Hs Hc]. split; [|done|done|intros t Ht%Hpast; lia].
  unfold mirror_of in *. by rewrite Hd, Hs.
Qed.

(** ** A history, seen per contract *)

(** Each event belongs to its contract. *)
Definition sorted_out (h : History) : Prop :=
  ∀ c log f ev, (c, (log, f)) ∈ h → event_of log = Some ev → event_contract ev = c.

Lemma sorted_out_snoc h c log f : sorted_out (h ++ [(c, (log, f))]) →
  sorted_out h ∧ ∀ ev, event_of log = Some ev → event_contract ev = c.
Proof. intros H. split; [intros c' l f' ev Hin; apply (H _ _ f')|intros ev; apply (H _ _ f)]; set_solver. Qed.

Lemma replay_claims h : sorted_out h →
  (m_claims (replay h), m_sent (replay h)) = claim_view config event_of (entries_of ClaimRegistry h).
Proof.
  induction h as [|[c [log f]] h IH] using rev_ind; [done|].
  intros [Hh Hev]%sorted_out_snoc. specialize (IH Hh). rewrite replay_snoc. unfold mirror_log. cbn [fst snd].
  destruct (decide (c = ClaimRegistry)) as [->|Hne].
  - rewrite entries_of_snoc. unfold claim_view in *. rewrite foldl_snoc, <-IH. cbn [fst snd].
    by destruct (event_of log).
  - rewrite entries_of_snoc_ne, <-IH by done. destruct (event_of log) as [ev|]; [|done].
    specialize (Hev ev eq_refl). destruct ev, f; simpl in *; rewrite ?app_nil_r; congruence.
Qed.

Lemma replay_policies h : sorted_out h →
  m_policies (replay h) = policy_view event_of (entries_of InsurancePolicy h).
Proof.
  induction h as [|[c [log f]] h IH] using rev_ind; [done|].
  intros [Hh Hev]%sorted_out_snoc. specialize (IH Hh). rewrite replay_snoc. unfold mirror_log. cbn [fst snd].
  destruct (decide (c = InsurancePolicy)) as [->|Hne].
  - rewrite entries_of_snoc. unfold policy_view in *. rewrite foldl_snoc, <-IH. cbn [fst snd].
    by destruct (event_of log).
  - rewrite entries_of_snoc_ne, <-IH by done. destruct (event_of log) as [ev|]; [|done].
    specialize (Hev ev eq_refl). destruct ev, f; simpl in *; congruence.
Qed.

Lemma synced_sorted_out h w : synced h w → sorted_out h.
Proof.
  intros Hs c log f ev Hin Hev.
  assert (log ∈ onchain c) as Hon.
  { destruct (sy_prefix _ _ Hs c) as [post ->]. apply elem_of_app. left. apply elem_of_logs_of. eauto. }
  pose proof (ch_decodes _ Hchain c log Hon) as Hd. unfold decodes in Hd. rewrite Hev in Hd. apply Hd.
Qed.

Lemma synced_mirrors h w : synced h w → mirrors config event_of (λ c, entries_of c h) w.
Proof.
  intros Hs. pose proof (synced_sorted_out _ _ Hs) as Hso. split_and!.
  - rewrite <-replay_claims, <-(sy_mirror _ _ Hs) by done. done.
  - rewrite <-replay_policies, <-(sy_mirror _ _ Hs) by done. done.
  - intros k row. by apply synced_rows.
Qed.
End synced.

(** ** A batch extends the history

    [why] holds of every entry added: a log whose processing began at tick
    [start] or later is only cut as [cut_at] allows. *)
Section batches.
Context (E : Env) {PL : PgLaws E} (Hchain : chain_ok E).
Context (start : nat) (why : Entry → Prop).
Definition follows_services : Prop := ∀ log f t0, (start <= t0)%nat →
  match event_of log with Some ev => cut_at E ev t0 f | None => f = Processed end → why (log, f).
Context (Hwhy : follows_services).

(** What a run from [w] does to the history [h]: if it returned, the logs of
    [c] up to and including [upto] are in it. *)
Definition extends (h : History) (w w' : World) (ext : History) : Prop :=
  synced (h ++ ext) w' ∧ Forall why ext.*2 ∧ world_grows w w'.

Lemma extends_nothing h w w' : synced h w → same_state w w' → extends h w w' [].
Proof.
  intros Hs Hsame. unfold extends. rewrite app_nil_r. split_and!; [by eapply synced_same|constructor|].
  destruct Hsame as [Hd Hse Hc]. split; [done|by rewrite Hd|by rewrite Hse].
Qed.

(** One log at the frontier of the history or behind it. *)
Lemma process_log_synced c pre log post h w :
  onchain c = pre ++ log :: post → pre `prefix_of` logs_of c h → synced h w → (start <= clock w)%nat →
  let r := process_log E config c (contract_address config c) log w in
  ∃ ext, extends h w r.2 ext ∧
    (∀ n, r.1 = Ok n → (pre ++ [log]) `prefix_of` logs_of c (h ++ ext)) ∧
    (∀ e, r.1 = Throw e → troubled E c log w).
Proof.
  intros Hon [k Hk] Hsync Hstart r.
  assert (log ∈ onchain c) as Hin by (rewrite Hon; set_solver).
  pose proof (process_log_steps E config event_of c log w (ch_decodes _ Hchain c log Hin)) as Hstep.
  pose proof (keeps_grows _ (process_log_keeps E config c (contract_address config c) log) w) as Hg.
  fold r in Hstep, Hg. destruct k as [|x k].
  - (* at the frontier *)
    rewrite app_nil_r in Hk. rewrite <-Hk in Hon |- *.
    assert (∀ f, mirror_of r.2 = mirror_log config event_of c log f (mirror_of w) → why (log, f) →
      (∀ t, cut_tick f = Some t → (clock w <= t < clock r.2)%nat) →
      extends h w r.2 [(c, (log, f))] ∧
      ∀ n, r.1 = Ok n → (logs_of c h ++ [log]) `prefix_of` logs_of c (h ++ [(c, (log, f))])) as Hext.
    { intros f Hm Hw Ht. split; [split_and!; [|by repeat constructor|done]|].
      - eapply synced_snoc; [done..|apply Hg].
      - intros n _. unfold logs_of. by rewrite entries_of_snoc, fmap_app. }
    destruct Hstep as [e He Hs Htr|n Hn Hs [Hnone|Hrec]|ev f Hnew Hev Hm Hcut Htick Hcl Hend].
    + exists []. split_and!; [by apply extends_nothing|intros n Hn; congruence|done].
    + exists [(c, (log, Processed))]. destruct (Hext Processed) as [H1 H2]; [| |done|].
      * unfold mirror_log. rewrite Hnone. unfold mirror_of. by destruct Hs as [-> -> _].
      * apply (Hwhy log Processed (clock w) Hstart). by rewrite Hnone.
      * split_and!; [done|done|congruence].
    + exfalso. rewrite (synced_fresh E Hchain h w c log post Hsync Hon) in Hrec. by destruct Hrec.
    + exists [(c, (log, f))]. destruct (Hext f) as [H1 H2]; [done| | |].
      * apply (Hwhy log f (clock w) Hstart). by rewrite Hev.
      * intros t Ht. split; [by eapply cut_at_tick|by apply Htick].
      * split_and!; [done|done|]. intros e He. destruct Hend as [[[n Hn] _]|[_ Htr]]; [congruence|done].
  - (* behind it *)
    assert (x = log) as ->.
    { pose proof (sy_prefix _ _ Hsync c) as Hp. rewrite Hk, Hon in Hp.
      apply prefix_app_inv in Hp. by apply prefix_cons_inv_1 in Hp. }
    assert (log ∈ logs_of c h) as Hlog by (rewrite Hk; set_solver).
    exists []. rewrite app_nil_r. split_and!.
    + apply extends_nothing; [done|]. destruct Hstep as [e He Hs _|n Hn Hs _|ev f Hnew Hev]; [done..|].
      destruct (synced_recorded E Hchain h w c log ev Hsync Hlog Hev) as [y Hy]. congruence.
    + intros _ _. rewrite Hk, (cons_middle log pre k), app_assoc. by apply prefix_app_r.
    + intros e He. destruct Hstep as [? _ _ Htr|n Hn|ev f Hnew Hev]; [done|congruence|].
      destruct (synced_recorded E Hchain h w c log ev Hsync Hlog Hev) as [y Hy]. congruence.
Qed.

(** A batch; if it throws, at a log that its services or its decoding stop. *)
Lemma process_logs_synced c logs : ∀ pre post total h w,
  onchain c = pre ++ logs ++ post → pre `prefix_of` logs_of c h → synced h w → (start <= clock w)%nat →
  let r := process_logs E config c (contract_address config c) logs total w in
  ∃ ext, extends h w r.2 ext ∧
    (∀ n, r.1 = Ok n → (pre ++ logs) `prefix_of` logs_of c (h ++ ext)) ∧
    (∀ e, r.1 = Throw e → ∃ before log rest w', logs = before ++ log :: rest ∧
      (pre ++ before) `prefix_of` logs_of c (h ++ ext) ∧ world_grows w w' ∧ troubled E c log w').
Proof.
  induction logs as [|log logs IH]; intros pre post total h w Hon Hpre Hsync Hstart; simpl.
  { exists []. rewrite !app_nil_r. split_and!; [by apply extends_nothing|done|done]. }
  destruct (process_log_synced c pre log (logs ++ post) h w Hon Hpre Hsync Hstart)
    as (e1 & (Hs1 & Hw1 & Hg1) & Hok1 & Hthrow1).
  rewrite bind_run.
  destruct (process_log E config c _ log w) as [[n|e] w1]; simpl in *.
  2:{ exists e1. split_and!; [done|done|]. intros e' _. exists [], log, logs, w.
      rewrite app_nil_r. split_and!; [done| |done|by eapply Hthrow1]. etrans; [exact Hpre|apply logs_of_mono]. }
  destruct (IH (pre ++ [log]) post (total + n) (h ++ e1) w1) as (e2 & (Hs2 & Hw2 & Hg2) & Hok2 & Hthrow2);
    [by rewrite <-app_assoc|by eapply Hok1|done|destruct Hg1; lia|].
  exists (e1 ++ e2). rewrite app_assoc. split_and!.
  - unfold extends. rewrite app_assoc, fmap_app, Forall_app. split_and!; [done..|by etrans].
  - intros m Hm. rewrite (cons_middle log pre logs), app_assoc. by eapply Hok2.
  - intros e He. destruct (Hthrow2 e He) as (dn & log' & rest & w' & -> & Hp & Hg & Htr).
    exists (log :: dn), log', rest, w'. split_and!; [done| |by etrans|done].
    by rewrite (cons_middle log pre dn), app_assoc.
Qed.
End batches.
End history.
