(* ===== verification/IndexerRecovery.v ===== *)
(** * Exactly-once: the index is the mirror of a prefix of the chain

    Whatever fails and wherever processes are killed, the tables and the
    notifications sent are those of a history that contains, for each
    contract, a prefix of its logs, each once; the prefix reaches the
    checkpoint, and an entry that was cut short was cut by one failed call or
    one killed process of its own.  Once nothing fails any more, a pass
    appends entries that are processed whole, up to the safe head or to the
    first log that listener.js cannot process. *)

From Stdlib Require Import Sorting.Sorted.
From S2P Require Import Prelude JsValue Zod IndexerConfig IndexerStore IndexerWorld BackendClient EventHandlers Listener IndexerMirror Scenario ScanSafety ScanInvariant IndexerHistory.

(** ** A scan keeps the index caught up *)
Section recovery.
Context (E : Env) {PL : PgLaws E} (config : Config).
Context (Hchunk : 0 < blockRangeChunkSize config).
Context (Hdistinct :
  lower (claimRegistryAddress config) ≠ lower (insurancePolicyAddress config)).
Context (chain : string → list Log) (event_of : Log → option ChainEvent).
Context (Hlogs : logs_exact chain E) (Hchain : chain_ok config chain event_of E).
(** The history so far, and what is known of the entries that follow it. *)
Context (h0 : History) (start : nat) (why : Entry → Prop) (Hwhy : follows_services event_of E start why).

#[local] Abbreviation onchain := (onchain config chain) (only parsing).
#[local] Abbreviation covers := (covers config chain) (only parsing).

(** A history that goes on from [h0], has every log below the checkpoints,
    and of each contract those up to the blocks of [floor]. *)
Record history_of (floor : Contract → Z → Prop) (w : World) (h1 : History) : Prop := {
  hi_synced : synced config chain event_of (h0 ++ h1) w;
  hi_why : Forall why h1.*2;
  hi_start : (start <= clock w)%nat;
  hi_checkpoints : checkpoints_covered config chain (h0 ++ h1) w;
  hi_floor c b : floor c b → covers c b (h0 ++ h1);
}.
Definition caught_up (floor : Contract → Z → Prop) (w : World) : Prop := ∃ h1, history_of floor w h1.

(** The loop invariant of a scan of [c]. *)
Definition scanning (floor : Contract → Z → Prop) (c : Contract) (cursor : Z) (w : World) : Prop :=
  ∃ h1, history_of floor w h1 ∧ deploy_block config c <= cursor ∧ covers c (cursor - 1) (h0 ++ h1).

(** The slice a chunk asks for, in the logs the scan sees. *)
Lemma slice_onchain c cursor toBlock t logs :
  deploy_block config c <= cursor →
  getLogs E t (contract_address config c) cursor toBlock = Some logs →
  logs = between cursor toBlock (onchain c).
Proof.
  intros Hd ->%Hlogs. unfold between, IndexerHistory.onchain. rewrite list_filter_filter.
  apply list_filter_iff. intros x. lia.
Qed.

Lemma onchain_sorted c : StronglySorted by_block (onchain c).
Proof. apply sorted_filter, (ch_sorted _ _ _ _ Hchain). Qed.

Lemma onchain_split c lo hi : lo - 1 <= hi →
  ∃ post, onchain c = upto (lo - 1) (onchain c) ++ between lo hi (onchain c) ++ post.
Proof.
  intros Hle. destruct (upto_prefix hi _ (onchain_sorted c)) as [post Hpost]. exists post.
  rewrite app_assoc, <-upto_between; [done|apply onchain_sorted|done].
Qed.

Lemma covers_app c b h h' : covers c b h → covers c b (h ++ h').
Proof. unfold IndexerHistory.covers. intros ?. etrans; [done|apply logs_of_mono]. Qed.

(** Nothing is on chain below the deploy blocks. *)
Lemma covers_ground c b h : b <= deploy_block config c - 1 → covers c b h.
Proof.
  intros Hb. unfold IndexerHistory.covers, upto, IndexerHistory.onchain.
  rewrite list_filter_filter, filter_none; [apply prefix_nil|].
  apply Forall_forall. intros x _. lia.
Qed.

(** What extends the history keeps it. *)
Lemma history_extends floor w w' h1 ext :
  history_of floor w h1 → keeps_checkpoints w w' →
  extends config chain event_of why (h0 ++ h1) w w' ext → history_of floor w' (h1 ++ ext).
Proof.
  intros [Hs Hw Hst Hc Hf] [_ Hk] (Hs' & Hw' & Hg). split; rewrite ?app_assoc.
  - done.
  - rewrite fmap_app. by apply Forall_app.
  - destruct Hg; lia.
  - intros c cp Hcp. rewrite Hk in Hcp. apply Hc in Hcp as [? ?]. split; [done|by apply covers_app].
  - intros c b Hb. by apply covers_app, Hf.
Qed.
Lemma history_same floor w w' h1 : history_of floor w h1 → same_state w w' → history_of floor w' h1.
Proof.
  intros H Hsame. rewrite <-(app_nil_r h1). eapply history_extends; [exact H|by apply same_keeps|].
  apply extends_nothing; [apply H|done].
Qed.

Lemma caught_up_same floor w w' : caught_up floor w → same_state w w' → caught_up floor w'.
Proof. intros [h1 H] Hs. exists h1. by eapply history_same. Qed.
Lemma scanning_same floor c cursor w w' :
  scanning floor c cursor w → same_state w w' → scanning floor c cursor w'.
Proof. intros (h1 & H & ? & ?) Hs. exists h1. split; [by eapply history_same|done]. Qed.

Lemma scanning_init floor c w : caught_up floor w →
  scanning floor c (match checkpoints (db w) !! lower (contract_address config c) with
              | None => deploy_block config c | Some n => n + 1 end) w.
Proof.
  intros [h1 H]. exists h1. split; [done|]. pose proof (hi_checkpoints _ _ _ H c) as Hc.
  destruct (checkpoints (db w) !! _) as [cp|].
  - destruct (Hc cp eq_refl) as [? ?]. replace (cp + 1 - 1) with cp by lia. split; [lia|done].
  - split; [lia|]. apply covers_ground. lia.
Qed.

(** One batch, which goes through or stops at a log for a reason. *)
Lemma scanning_batch floor c cursor toBlock t logs total w :
  scanning floor c cursor w → cursor <= toBlock →
  getLogs E t (contract_address config c) cursor toBlock = Some logs →
  let r := process_logs E config c (contract_address config c) logs total w in
  ∃ h1, history_of floor r.2 h1 ∧ deploy_block config c <= cursor ∧ covers c (cursor - 1) (h0 ++ h1) ∧
    (∀ n, r.1 = Ok n → covers c toBlock (h0 ++ h1)) ∧
    (∀ e, r.1 = Throw e → ∃ log w', log ∈ onchain c ∧ blockNumber log <= toBlock ∧
      covers c (blockNumber log - 1) (h0 ++ h1) ∧ world_grows w w' ∧ troubled E c log w').
Proof.
  intros (h1 & H & Hd & Hcov) Hto Hget r.
  apply slice_onchain in Hget as ->; [|done].
  destruct (onchain_split c cursor toBlock) as [post Hon]; [lia|].
  destruct (process_logs_synced config chain event_of E Hchain start why Hwhy c _ _ _ total _ w Hon Hcov
    (hi_synced _ _ _ H) (hi_start _ _ _ H)) as (ext & Hext & Hok & Hthrow).
  fold r in Hext, Hok, Hthrow. exists (h1 ++ ext). rewrite !app_assoc.
  split_and!; [|done|by apply covers_app| |].
  - eapply history_extends; [exact H| |exact Hext]. apply process_logs_keeps, _.
  - intros n Hn. unfold IndexerHistory.covers. rewrite (upto_between cursor); [by eapply Hok|apply onchain_sorted|lia].
  - intros e He. destruct (Hthrow e He) as (before & log & rest & w' & Hb & Hp & Hg & Htr).
    assert (log ∈ between cursor toBlock (onchain c)) as [Hblk Hin]%list_elem_of_filter by (rewrite Hb; set_solver).
    exists log, w'. split_and!; [done|lia| |done..]. unfold IndexerHistory.covers. etrans; [|exact Hp].
    eapply upto_before; [|apply onchain_sorted]. rewrite Hon at 1. rewrite Hb. by rewrite <-!app_assoc.
Qed.

Lemma scanning_chunk floor c cursor toBlock t logs total n w w1 w2 :
  scanning floor c cursor w → cursor <= toBlock →
  getLogs E t (contract_address config c) cursor toBlock = Some logs →
  process_logs E config c (contract_address config c) logs total w = (Ok n, w1) →
  world_grows w1 w2 → sent w2 = sent w1 →
  db w2 = set_checkpoints <[lower (contract_address config c) := toBlock]> (db w1) →
  scanning floor c (toBlock + 1) w2.
Proof.
  intros Hsc Hto Hget Hproc Hg Hsent Hdb.
  destruct (scanning_batch floor c cursor toBlock t logs total w Hsc Hto Hget)
    as (h1 & H & Hd & _ & Hcov & _).
  rewrite Hproc in *. simpl in *. specialize (Hcov _ eq_refl). destruct H as [[Hm Hp Hn Hpast] Hw Hst Hc Hf].
  exists h1. split_and!; [|lia|by replace (toBlock + 1 - 1) with toBlock by lia]. destruct Hg as [Hcl _ _].
  split; [|done|lia| |done].
  - split; [|done|done|intros t' Ht%Hpast; lia]. rewrite <-Hm. unfold mirror_of. by rewrite Hdb, Hsent.
  - intros c' cp. rewrite Hdb. simpl. destruct (decide (c' = c)) as [->|Hne].
    + rewrite lookup_insert_eq. intros [= <-]. split; [lia|done].
    + rewrite lookup_insert_ne; [apply Hc|].
      intros ?%(address_inj config Hdistinct). congruence.
Qed.

Lemma scan_caught_up floor c w : caught_up floor w →
  caught_up floor (scanContract E config c (deploy_block config c) w).2.
Proof.
  apply (scanContract_preserves E config c (deploy_block config c) Hchunk (caught_up floor) (scanning floor c)).
  - apply scanning_same.
  - apply caught_up_same.
  - apply scanning_init.
  - intros cursor w' (h & ? & _). by exists h.
  - intros cursor toBlock t logs total w' Hsc Hto Hget.
    destruct (scanning_batch floor c cursor toBlock t logs total w' Hsc Hto Hget) as (h & ? & ? & ? & _). by exists h.
  - intros cursor toBlock t logs total n w' w1 w2 Hsc _ Hto Hget Hproc Hg Hsent Hdb _.
    by eapply scanning_chunk.
Qed.

Lemma pass_caught_up floor w : caught_up floor w → caught_up floor (runOnePass E config w).2.
Proof. revert w. apply runOnePass_preserves. intros c w. apply scan_caught_up. Qed.

Lemma schema_caught_up floor w : caught_up floor w → caught_up floor (ensureSchema E w).2.
Proof.
  intros [h1 [[Hm Hp Hn Hpast] Hw Hst Hc Hf]]. exists h1.
  assert (mirror_of (ensureSchema E w).2 = mirror_of w ∧
    checkpoints (db (ensureSchema E w).2) = checkpoints (db w)) as [Hm' Hc'].
  { unfold ensureSchema. rewrite bind_run. unfold pool_query. simpl. by destruct (db_outcome _ _ _). }
  pose proof (ensureSchema_keeps E w) as [[Hcl _ _] _]. split; [|done|lia| |done].
  - split; [by rewrite Hm'|done|done|intros t Ht%Hpast; lia].
  - unfold checkpoints_covered. by rewrite Hc'.
Qed.

(** ** When nothing fails *)

(** From tick [from] on every service answers and the head is [head]. *)
Record all_well (from : nat) (head : Z) : Prop := {
  aw_db t q : (from <= t)%nat → db_outcome E t q = DbDone;
  aw_fetch t r : (from <= t)%nat → ∃ status text, fetch_outcome E t r = FetchResponds status text;
  aw_head t : (from <= t)%nat → getBlockNumber E t = Some head;
  aw_logs t a lo hi : (from <= t)%nat → is_Some (getLogs E t a lo hi);
  aw_range : int8 head;
}.

(** Up to block [b] the contract has no log that listener.js cannot process. *)
Definition unobstructed (c : Contract) (b : Z) : Prop :=
  ∀ l, l ∈ onchain c → blockNumber l <= b → ¬ stuck E c l.

Section well.
Context (from : nat) (head : Z) (Hwell : all_well from head).
Context (Hreorg : 0 <= reorgSafetyBlocks config).
Definition safe_head : Z := Z.max 0 (head - reorgSafetyBlocks config).

Definition ready (w : World) : Prop := schema (db w) = true ∧ (from <= clock w)%nat.
Lemma ready_grows w w' : ready w → world_grows w w' → ready w'.
Proof. intros [H Hc] [Hcl [Hg _ _ _] _]. split; [by apply Hg|lia]. Qed.

(** Then only a stuck log throws. *)
Lemma ready_troubled c log w : ready w → troubled E c log w → stuck E c log.
Proof.
  intros [Hs Hc] [(t & Ht & [[q Hq]|[r Hr]])|[H|H]]; [|..|congruence|done]; exfalso.
  - apply Hq, (aw_db _ _ Hwell). lia.
  - destruct (aw_fetch _ _ Hwell t r) as (st & tx & Hf); [lia|]. by eapply Hr.
Qed.

Lemma setLastProcessedBlock_ok a n w : ready w → int8 n →
  ∃ w', setLastProcessedBlock E a n w = (Ok tt, w') ∧ ready w'.
Proof.
  intros Hw Hn. eexists. unfold setLastProcessedBlock. erewrite bind_ok.
  2:{ eapply pool_query_done; [simpl; by rewrite pg_str, pg_int|by apply (aw_db _ _ Hwell), Hw|].
      unfold exec. rewrite (proj1 Hw). simpl. by rewrite int8_in_dec. }
  split; [done|]. destruct Hw. split; simpl; [done|lia].
Qed.

Lemma getLastProcessedBlock_ok a w : ready w →
  ∃ w', getLastProcessedBlock E a w = (Ok (checkpoints (db w) !! lower a), w') ∧ same_state w w'.
Proof.
  intros Hw. pose proof (getLastProcessedBlock_same E a w) as Hsame. eexists. split; [|exact Hsame].
  rewrite (surjective_pairing (getLastProcessedBlock E a w)) at 1. f_equal.
  unfold getLastProcessedBlock. erewrite bind_ok.
  2:{ eapply pool_query_done; [simpl; by rewrite pg_str|by apply (aw_db _ _ Hwell), Hw|].
      unfold exec. rewrite (proj1 Hw). simpl. reflexivity. }
  destruct (checkpoints (db w) !! lower a) as [z|]; simpl; [|done].
  unfold block_of_row. simpl. by rewrite undec_dec.
Qed.

(** A scan that began at [w]: it has the logs of every block up to the safe
    head before which nothing obstructs it, and returns if nothing does. *)
Definition scanned (floor : Contract → Z → Prop) (c : Contract) {A} (r : outcome A * World) : Prop :=
  caught_up (λ c' b, floor c' b ∨ c' = c ∧ b <= safe_head ∧ unobstructed c b) r.2 ∧ ready r.2 ∧
  (unobstructed c safe_head → ∃ x, r.1 = Ok x).

Lemma scanned_all {A} floor c cursor w (x : A) : scanning floor c cursor w → safe_head < cursor → ready w →
  scanned floor c (Ok x, w).
Proof.
  intros (h1 & [Hs Hw Hst Hc Hf] & Hd & Hcov) Hlt Hr. split_and!; [|done|eauto].
  exists h1. split; try done. intros c' b [Hb|(-> & Hb & _)]; [by apply Hf|].
  unfold IndexerHistory.covers in *. etrans; [|exact Hcov]. rewrite <-(upto_upto b (cursor - 1)) by lia.
  apply upto_prefix, sorted_filter, onchain_sorted.
Qed.
Lemma scanned_stopped {A} floor c h1 w e log : history_of floor w h1 → ready w →
  log ∈ onchain c → blockNumber log <= safe_head → stuck E c log → covers c (blockNumber log - 1) (h0 ++ h1) →
  scanned floor c (@Throw A e, w).
Proof.
  intros [Hs Hw Hst Hc Hf] Hr Hin Hle Hstuck Hcov. split_and!; [|done|].
  - exists h1. split; try done. intros c' b [Hb|(-> & Hb & Hun)]; [by apply Hf|].
    assert (b < blockNumber log) as Hlt.
    { destruct (Z.lt_ge_cases b (blockNumber log)); [done|]. exfalso. eapply Hun; [exact Hin|lia|done]. }
    unfold IndexerHistory.covers in *. etrans; [|exact Hcov]. rewrite <-(upto_upto b (blockNumber log - 1)) by lia.
    apply upto_prefix, sorted_filter, onchain_sorted.
  - intros Hun. exfalso. by eapply Hun.
Qed.

Lemma scan_chunks_well floor c fuel : int8 safe_head → 0 <= deploy_block config c → ∀ cursor total w,
  (scan_fuel cursor safe_head <= fuel)%nat → scanning floor c cursor w → ready w →
  scanned floor c (scan_chunks E config fuel c (contract_address config c) cursor safe_head total w).
Proof.
  unfold scan_fuel. intros Hint Hd0. induction fuel as [|fuel IH]; intros cursor total w Hf Hsc Hw;
    simpl; (destruct (Z.leb_spec cursor safe_head); [|by eapply scanned_all]); [lia|].
  set (toBlock := Z.min _ _). assert (cursor <= toBlock <= safe_head) as Hto by lia.
  rewrite bind_run. unfold rpc_getLogs at 1.
  destruct (aw_logs _ _ Hwell (clock w) (contract_address config c) cursor toBlock (proj2 Hw)) as [logs Hl].
  assert (scanning floor c cursor (tick w)) as Hsc1 by (eapply scanning_same; [exact Hsc|apply tick_same]).
  assert (ready (tick w)) as Hw1 by (destruct Hw; split; simpl; [done|lia]).
  rewrite Hl, bind_run.
  destruct (scanning_batch floor c cursor toBlock (clock w) logs total (tick w) Hsc1 (proj1 Hto) Hl)
    as (h1 & H1 & Hd & _ & _ & Hthrow).
  pose proof (scanning_chunk floor c cursor toBlock (clock w) logs total) as Hchk.
  pose proof (keeps_grows _ (process_logs_keeps E config c (contract_address config c) logs total) (tick w)) as Hg.
  destruct (process_logs E config c _ logs total (tick w)) as [[n|e] w1] eqn:Hproc; simpl in *.
  2:{ destruct (Hthrow e eq_refl) as (log & w' & Hin & Hle & Hcov & Hg' & Htr).
      eapply scanned_stopped; [exact H1|by eapply ready_grows|exact Hin|lia| |exact Hcov].
      eapply ready_troubled; [|exact Htr]. by eapply ready_grows. }
  destruct (setLastProcessedBlock_effect E (contract_address config c) toBlock w1) as (Hg2 & Hs2 & Hdb).
  destruct (setLastProcessedBlock_ok (contract_address config c) toBlock w1) as (w2 & H2 & Hw2);
    [by eapply ready_grows|destruct Hsc as (? & _ & ? & _); unfold int8 in *; lia|].
  rewrite (bind_ok _ _ _ _ _ H2). rewrite H2 in Hg2, Hs2, Hdb. simpl in *.
  destruct Hdb as [[_ [? [=]]]|[Hdb _]]. apply IH; [lia| |done].
  by eapply (Hchk n (tick w) w1 w2 Hsc1 (proj1 Hto) Hl Hproc).
Qed.

Lemma scan_well floor c w : 0 <= deploy_block config c → ready w → caught_up floor w →
  scanned floor c (scanContract E config c (deploy_block config c) w).
Proof.
  intros Hd0 Hw Hcu. unfold scanContract. rewrite bind_run. unfold rpc_getBlockNumber.
  rewrite (aw_head _ _ Hwell) by apply Hw. fold safe_head.
  assert (ready (tick w)) as Hwt by (destruct Hw; split; simpl; [done|lia]).
  destruct (getLastProcessedBlock_ok (contract_address config c) (tick w) Hwt) as (w1 & H1 & Hsame).
  rewrite (bind_ok _ _ _ _ _ H1).
  assert (scanning floor c (match checkpoints (db w) !! lower (contract_address config c) with
      | None => deploy_block config c | Some n => n + 1 end) w1) as Hsc.
  { eapply scanning_same; [by apply scanning_init|]. etrans; [apply tick_same|exact Hsame]. }
  assert (ready w1) as Hw1 by (destruct Hwt, Hsame as [Hdb _ ?]; split; [by rewrite Hdb|lia]).
  change (checkpoints (db (tick w))) with (checkpoints (db w)).
  set (fromBlock := match checkpoints (db w) !! _ with None => _ | Some n => _ end) in *.
  destruct (Z.ltb_spec safe_head fromBlock) as [Hlt|_]; [by eapply scanned_all|].
  rewrite bind_run.
  assert (scanned floor c (scan_chunks E config (scan_fuel fromBlock safe_head) c (contract_address config c)
    fromBlock safe_head 0 w1)) as (H & Hr & Hok).
  { apply scan_chunks_well; try done. pose proof (aw_range _ _ Hwell). unfold int8, safe_head in *. lia. }
  destruct (scan_chunks _ _ _ _ _ _ _ _ w1) as [[n|e] w2]; split_and!; try done; [by eauto|].
  intros [x Hx]%Hok. done.
Qed.

(** A pass: the claims are reached if nothing obstructs the policies. *)
Definition reached (c : Contract) (b : Z) : Prop :=
  b <= safe_head ∧ unobstructed c b ∧ (c = ClaimRegistry → unobstructed InsurancePolicy safe_head).

Lemma caught_up_weaken (floor floor' : Contract → Z → Prop) w :
  (∀ c b, floor' c b → floor c b) → caught_up floor w → caught_up floor' w.
Proof. intros Hf [h1 [? ? ? ? ?]]. exists h1. split; auto. Qed.

Lemma pass_well floor w :
  0 <= claimRegistryDeployBlock config → 0 <= insurancePolicyDeployBlock config →
  ready w → caught_up floor w → caught_up reached (runOnePass E config w).2.
Proof.
  intros Hd1 Hd2 Hw Hcu. unfold runOnePass. rewrite bind_run.
  destruct (scan_well floor InsurancePolicy w Hd2 Hw Hcu) as (H1 & Hr1 & Hok1).
  change (insurancePolicyDeployBlock config) with (deploy_block config InsurancePolicy).
  destruct (scanContract E config InsurancePolicy _ w) as [[r1|e] w1]; simpl in *.
  2:{ eapply caught_up_weaken; [|exact H1]. intros c b (Hb & Hun & Hp). right. split_and!; [|done|].
      - destruct c; [exfalso; destruct (Hok1 (Hp eq_refl)); done|done].
      - destruct c; [exfalso; destruct (Hok1 (Hp eq_refl)); done|done]. }
  rewrite bind_run.
  destruct (scan_well _ ClaimRegistry w1 Hd1 Hr1 H1) as (H2 & Hr2 & Hok2).
  change (claimRegistryDeployBlock config) with (deploy_block config ClaimRegistry).
  assert (caught_up reached (scanContract E config ClaimRegistry (deploy_block config ClaimRegistry) w1).2) as H.
  { eapply caught_up_weaken; [|exact H2]. intros [] b (Hb & Hun & Hp); [by right|left; by right]. }
  by destruct (scanContract E config ClaimRegistry _ w1) as [[r2|e] w2].
Qed.

Lemma mainLoop_well floor n w :
  0 <= claimRegistryDeployBlock config → 0 <= insurancePolicyDeployBlock config →
  (from <= clock w)%nat → caught_up floor w → caught_up reached (mainLoop E config (S n) w).2.
Proof.
  intros Hd1 Hd2 Hfrom Hcu. apply schema_caught_up in Hcu. unfold mainLoop.
  assert (∃ w1, ensureSchema E w = (Ok tt, w1) ∧ ready w1) as (w1 & He & Hw1).
  { eexists. unfold ensureSchema. erewrite bind_ok;
      [|by eapply pool_query_done; [|apply (aw_db _ _ Hwell)|]].
    split; [done|]. split; simpl; [done|lia]. }
  rewrite He in Hcu. simpl in Hcu. rewrite (bind_ok _ _ _ _ _ He).
  unfold console_log at 1. js_simpl. set (w2 := print _ _ w1).
  assert (ready w2) as Hw2 by done.
  assert (caught_up floor w2) as Hc2 by (by eapply caught_up_same).
  assert (∃ w4, mainLoop_body E config w2 = (Ok tt, w4) ∧ same_state (runOnePass E config w2).2 w4) as (w4 & Hb & Hsame).
  { destruct (mainLoop_body_ok E config w2 Hchunk) as [w4 Hb]. exists w4. split; [done|]. revert Hb.
    unfold mainLoop_body, try_catch. rewrite bind_run.
    destruct (runOnePass E config w2) as [[[p c]|[]] w3]; simpl; try (by intros [= <-]);
      destruct (_ || _); by intros [= <-]. }
  simpl. rewrite (bind_ok _ _ _ _ _ Hb).
  apply (mainLoop_iterations_preserves E config (caught_up reached)).
  - apply caught_up_same.
  - apply pass_caught_up.
  - eapply caught_up_same; [by eapply pass_well|done].
Qed.
End well.
End recovery.

(** ** Any number of processes *)
Lemma services_exact chain E p : logs_exact chain E → logs_exact chain (services E p).
Proof. intros H t a lo hi logs Hl%services_logs. by eapply H. Qed.
Lemma services_chain config chain event_of E p :
  chain_ok config chain event_of E → chain_ok config chain event_of (services E p).
Proof. intros [Hs Hu Hd]. split; [done|done|]. intros c l Hl. by apply services_decodes, Hd. Qed.
Lemma services_follow event_of E ps p : p ∈ ps →
  follows_services event_of (services E p) 0 (explained event_of E ps).
Proof.
  intros Hp log f t0 _. unfold explained. cbn [fst snd].
  destruct (event_of log); [|done]. intros [?|?]%services_cause; [by left|right; eauto].
Qed.

Section lives.
Context (E : Env) {PL : PgLaws E} (config : Config) (chain : string → list Log) (event_of : Log → option ChainEvent).
Context (Hcfg : ConfigOk config).
Context (Hdistinct : lower (claimRegistryAddress config) ≠ lower (insurancePolicyAddress config)).
Context (Hlogs : logs_exact chain E) (Hchain : chain_ok config chain event_of E).

Lemma lives_caught_up ps :
  caught_up config chain event_of [] 0 (explained event_of E ps) (λ _ _, False) (lives E config ps (boot empty_db)).
Proof.
  set (J := caught_up config chain event_of [] 0 (explained event_of E ps) (λ _ _, False)).
  apply (lives_preserves_in E config J).
  - intros w w'. apply (caught_up_same config chain event_of).
  - intros p w Hp. apply (pass_caught_up (services E p)); [apply Hcfg|done| | |].
    + by apply services_exact.
    + by apply services_chain.
    + by apply services_follow.
  - intros p w _. apply (schema_caught_up (services E p)).
  - exists []. split; [|constructor|done|done|done].
    split; [done|intros c; apply prefix_nil|constructor|intros t Ht; by apply elem_of_nil in Ht].
Qed.

(** What the index of a run accounts for: it mirrors a prefix of each
    contract's logs; entries were cut short at different ticks, each by a
    failed call or a killed process. *)
Record accounts (ps : list Process) (p : Contract → list Entry) (w : World) : Prop := {
  ac_mirrors : mirrors config event_of p w;
  ac_prefix c : (p c).*1 `prefix_of` onchain config chain c;
  ac_cuts : NoDup (cuts (p ClaimRegistry ++ p InsurancePolicy));
  ac_explained c : Forall (explained event_of E ps) (p c);
}.

Lemma synced_accounts ps h w : synced config chain event_of h w → Forall (explained event_of E ps) h.*2 →
  accounts ps (λ c, entries_of c h) w.
Proof.
  intros Hs Hw. split.
  - by eapply synced_mirrors.
  - apply Hs.
  - rewrite <-history_cuts. apply Hs.
  - intros c. apply Forall_forall. intros e He%elem_of_entries_of. rewrite Forall_forall in Hw.
    apply Hw, list_elem_of_fmap. by exists (c, e).
Qed.

Lemma accounts_ext ps p p' w : (∀ c, p c = p' c) → accounts ps p w → accounts ps p' w.
Proof.
  intros H [[Hc [Hp He]] Hpre Hcut Hex]. split.
  - split_and!; [by rewrite <-H|by rewrite <-H|]. intros k row. rewrite He. by setoid_rewrite H.
  - intros c. by rewrite <-H.
  - by rewrite <-!H.
  - intros c. by rewrite <-H.
Qed.

(** A pass without failures, after any history. *)
Lemma recovered ps n from head :
  all_well E from head → (from <= clock (lives E config ps (boot empty_db)))%nat →
  let w0 := lives E config ps (boot empty_db) in
  let w := (mainLoop E config (S n) w0).2 in
  ∃ p0 p1 : Contract → list Entry,
    accounts ps p0 w0 ∧ accounts ps (λ c, p0 c ++ p1 c) w ∧
    (∀ c, Forall (λ e, e.2 = Processed) (p1 c)) ∧
    (∀ c b, reached E config chain head c b → upto b (onchain config chain c) `prefix_of` (p0 c ++ p1 c).*1).
Proof.
  intros Hwell Hfrom w0 w. destruct (lives_caught_up ps) as [h0 [Hs0 Hw0 _ Hc0 _]].
  rewrite app_nil_l in Hs0, Hc0. fold w0 in Hs0, Hc0.
  destruct (mainLoop_well E config (co_chunk _ Hcfg) Hdistinct chain event_of Hlogs Hchain h0 from
    (λ e, e.2 = Processed)) with (from := from) (head := head) (floor := λ (_ : Contract) (_ : Z), False) (n := n) (w := w0)
    as [h1 [Hs Hw _ _ Hr]]; try done; [|apply Hcfg..| |].
  - intros log f t0 Ht. simpl. destruct (event_of log) as [ev|]; [|done].
    pose proof (aw_db _ _ _ Hwell) as Hdb.
    destruct f as [|t|t]; cbn; [done|..]; intros [[-> H]|(-> & _ & H)];
      try (rewrite Hdb in H by lia; done).
    destruct H as [r H]. destruct (aw_fetch _ _ _ Hwell (S (S t0)) r) as (st & tx & Hf); [lia|]. by rewrite Hf in H.
  - exists []. split; rewrite ?app_nil_r; [done|constructor|done|done|done].
  - fold w in Hs. exists (λ c, entries_of c h0), (λ c, entries_of c h1). split_and!.
    + by apply synced_accounts.
    + eapply accounts_ext; [intros c; apply entries_of_app|]. apply synced_accounts; [done|].
      rewrite fmap_app. apply Forall_app. split; [done|].
      eapply Forall_impl; [exact Hw|]. intros [l f]. simpl. intros ->. unfold explained. cbn [fst snd].
      destruct (event_of l); [by left|done].
    + intros c. apply Forall_forall. intros e He%elem_of_entries_of. rewrite Forall_forall in Hw.
      apply Hw, list_elem_of_fmap. by exists (c, e).
    + intros c b Hb. rewrite <-entries_of_app. by apply (Hr c b).
Qed.
End lives.

(** ** The theorems *)

(** C1: Exactly once.  Whatever calls fail, and wherever processes are stopped
    or killed, the claims, policies, raw events and the notifications sent are
    exactly those of a prefix of each contract's logs, each log counted once,
    and the prefix reaches the stored checkpoint.  An event of the prefix that
    was not processed whole, so that its row or its notification is missing,
    was cut short at a tick of its own by a database or backend call of its
    handler that failed there, or by the process being killed there. *)
Theorem index_exactly_once (E : Env) {PL : PgLaws E} (config : Config)
    (chain : string → list Log) (event_of : Log → option ChainEvent) (ps : list Process) :
  ConfigOk config →
  lower (claimRegistryAddress config) ≠ lower (insurancePolicyAddress config) →
  logs_exact chain E → chain_ok config chain event_of E →
  let w := lives E config ps (boot empty_db) in
  ∃ p : Contract → list Entry,
    accounts E config chain event_of ps p w ∧
    (∀ c cp, checkpoints (db w) !! lower (contract_address config c) = Some cp →
      upto cp (onchain config chain c) `prefix_of` (p c).*1).
Proof.
  intros Hcfg Hne Hl Hc w.
  destruct (lives_caught_up E config chain event_of Hcfg Hne Hl Hc ps) as [h [Hs Hw _ Hcp _]].
  exists (λ c, entries_of c h). split; [by apply synced_accounts|].
  intros c cp H. by apply Hcp in H as [_ ?].
Qed.

(** C2: Recovery.  After any history of failures and kills, once every call is
    answered, one more pass keeps what the history left (an event it cut short
    stays cut short) and processes whole every further log it reaches.  It
    reaches the policy logs up to every block of the safe range before which
    no policy log is stuck; and, when no policy log of the safe range is
    stuck, the claim logs up to every block of it before which no claim log is
    stuck.  A log is stuck when [parseLog] returns null for it, or when it is
    a status change whose status arrives as a BigInt, as ethers v6 decodes
    it. *)
Theorem recovery_reaches_safe_head (E : Env) {PL : PgLaws E} (config : Config)
    (chain : string → list Log) (event_of : Log → option ChainEvent)
    (ps : list Process) (n from : nat) (head : Z) :
  ConfigOk config →
  lower (claimRegistryAddress config) ≠ lower (insurancePolicyAddress config) →
  logs_exact chain E → chain_ok config chain event_of E →
  all_well E from head →
  (from <= clock (lives E config ps (boot empty_db)))%nat →
  let w0 := lives E config ps (boot empty_db) in
  let w := (mainLoop E config (S n) w0).2 in
  ∃ p0 p1 : Contract → list Entry,
    accounts E config chain event_of ps p0 w0 ∧
    accounts E config chain event_of ps (λ c, p0 c ++ p1 c) w ∧
    (∀ c, Forall (λ e, e.2 = Processed) (p1 c)) ∧
    (∀ c b, reached E config chain head c b →
      upto b (onchain config chain c) `prefix_of` (p0 c ++ p1 c).*1).
Proof. intros Hcfg Hne Hl Hc. exact (recovered E config chain event_of Hcfg Hne Hl Hc ps n from head). Qed.

(** ** Witnesses *)
Section demo.
Context (parse : Log → ParseResult) (head : nat → option Z).
#[local] Abbreviation demo := (scripted demo_chain parse head flaky_db answers).

Lemma demo_logs_exact : logs_exact demo_chain demo.
Proof. intros t a lo hi logs [= <-]. done. Qed.

Lemma demo_onchain c : onchain demo_config demo_chain c =
  match c with ClaimRegistry => demo_claim_logs | InsurancePolicy => demo_policy_logs end.
Proof. destruct c; vm_compute; reflexivity. Qed.

(** A decoder of the demonstration chain. *)
Context (Hparse : ∀ log ev, demo_event_of log = Some ev →
  parse log = Parsed (event_name ev) (event_args as_number ev) ∨
  parse log = Parsed (event_name ev) (event_args VBigInt ev)).
Lemma demo_chain_ok : chain_ok demo_config demo_chain demo_event_of demo.
Proof.
  split.
  - intros a. unfold demo_chain. repeat case_decide; repeat constructor; by vm_compute.
  - intros c c' i j l l' H1 H2. rewrite demo_onchain in H1, H2. unfold log_key.
    destruct c, c'; destruct i as [|[|[|]]]; simpl in H1; simplify_eq;
      destruct j as [|[|[|]]]; simpl in H2; simplify_eq; simpl; intros; simplify_eq; done.
  - intros c l Hin. rewrite demo_onchain in Hin. unfold decodes. cbn [parseLog scripted].
    destruct (demo_event_of l) as [ev|] eqn:Hev; [specialize (Hparse l ev Hev)|];
      destruct c; unfold demo_claim_logs, demo_policy_logs in Hin;
      repeat (apply elem_of_cons in Hin as [->|Hin]); try (by apply elem_of_nil in Hin);
      vm_compute in Hev; try done; injection Hev as <-; (split; [done|split; [|done]]);
      unfold event_fits, int4, int8; simpl; split_and!; try lia; done.
Qed.

Lemma demo_all_well from h : (20 <= from)%nat → int8 h → (∀ t, (from <= t)%nat → head t = Some h) →
  all_well demo from h.
Proof.
  intros Hf Hh Hhead. split; cbn; [|eauto|done|eauto|done].
  intros t q Ht. unfold flaky_db. destruct q; try done; rewrite decide_False; [done|lia|done|lia].
Qed.
End demo.

Lemma demo_parse_number log ev : demo_event_of log = Some ev →
  demo_parse log = Parsed (event_name ev) (event_args as_number ev) ∨
  demo_parse log = Parsed (event_name ev) (event_args VBigInt ev).
Proof. intros H. left. unfold demo_parse. by rewrite H. Qed.
Lemma parse_bigint_decodes log ev : demo_event_of log = Some ev →
  parse_bigint log = Parsed (event_name ev) (event_args as_number ev) ∨
  parse_bigint log = Parsed (event_name ev) (event_args VBigInt ev).
Proof. intros H. right. unfold parse_bigint. by rewrite H. Qed.

(** The first process is killed between the raw row of the policy and its
    projection; the rest of the chain is indexed by the second. *)
Lemma index_exactly_once_witness :
  let w := lives flaky demo_config [crashed 9 14; stopped 5] (boot empty_db) in
  (∃ p, accounts flaky demo_config demo_chain demo_event_of [crashed 9 14; stopped 5] p w ∧
    (∀ c cp, checkpoints (db w) !! lower (contract_address demo_config c) = Some cp →
      upto cp (onchain demo_config demo_chain c) `prefix_of` (p c).*1)) ∧
  policies (db w) = ∅ ∧ cl_status <$> claims (db w) !! 1 = Some "paid" ∧ length (sent w) = 3%nat ∧
  checkpoints (db w) !! lower policy_addr = Some 9.
Proof.
  split.
  - apply (index_exactly_once flaky demo_config demo_chain demo_event_of [crashed 9 14; stopped 5]);
      [exact demo_config_ok|exact demo_distinct|exact (demo_logs_exact _ _)|exact (demo_chain_ok _ _ demo_parse_number)].
  - split_and!; vm_compute; reflexivity.
Defined.

(** Statuses decoded as by ethers v6; the claims are on chain after tick 60. *)
Definition growing_head (t : nat) : option Z :=
  if decide (t < 2)%nat then None else if decide (t < 60)%nat then Some 6 else Some 11.
Definition ethers_v6 : Env := scripted demo_chain parse_bigint growing_head flaky_db answers.

Lemma ethers_v6_well : all_well ethers_v6 60 11.
Proof.
  apply demo_all_well; [lia|unfold int8; lia|].
  intros t Ht. unfold growing_head. by rewrite !decide_False by lia.
Qed.
Lemma demo_reached c b : (c = ClaimRegistry → b <= 5) → b <= 9 → reached ethers_v6 demo_config demo_chain 11 c b.
Proof.
  intros Hc Hb. assert (unobstructed ethers_v6 demo_config demo_chain InsurancePolicy 9) as Hp.
  { intros l Hin _. rewrite demo_onchain in Hin. apply list_elem_of_singleton in Hin as ->.
    intros [H|(id & s & H)]; vm_compute in H; congruence. }
  split_and!; [done| |done]. intros l Hin Hle. destruct c; [|by apply Hp; [|lia]]. specialize (Hc eq_refl).
  rewrite demo_onchain in Hin. unfold demo_claim_logs in Hin.
  repeat (apply elem_of_cons in Hin as [->|Hin]); [|simpl in Hle; lia..|by apply elem_of_nil in Hin].
  intros [H|(id & s & H)]; vm_compute in H; congruence.
Qed.

(** The policy row stays lost; the claim is filed whole in the last pass,
    which then stops at the status change of block 6. *)
Lemma recovery_reaches_safe_head_witness :
  let ps := [crashed 9 14; crashed 20 60] in
  let w0 := lives ethers_v6 demo_config ps (boot empty_db) in
  let w := (mainLoop ethers_v6 demo_config 1 w0).2 in
  claims (db w0) = ∅ ∧ policies (db w) = ∅ ∧ cl_status <$> claims (db w) !! 1 = Some "submitted" ∧
  ∃ p0 p1, accounts ethers_v6 demo_config demo_chain demo_event_of ps p0 w0 ∧
    accounts ethers_v6 demo_config demo_chain demo_event_of ps (λ c, p0 c ++ p1 c) w ∧
    (∀ c, Forall (λ e, e.2 = Processed) (p1 c)) ∧
    upto 9 (onchain demo_config demo_chain InsurancePolicy) `prefix_of` (p0 InsurancePolicy ++ p1 InsurancePolicy).*1 ∧
    upto 5 (onchain demo_config demo_chain ClaimRegistry) `prefix_of` (p0 ClaimRegistry ++ p1 ClaimRegistry).*1.
Proof.
  split; [vm_compute; reflexivity|]. split; [vm_compute; reflexivity|]. split; [vm_compute; reflexivity|].
  destruct (recovery_reaches_safe_head ethers_v6 demo_config demo_chain demo_event_of [crashed 9 14; crashed 20 60] 0 60 11)
    as (p0 & p1 & H0 & H1 & Hp & Hr);
    [exact demo_config_ok|exact demo_distinct|exact (demo_logs_exact _ _)|exact (demo_chain_ok _ _ parse_bigint_decodes)
    |exact ethers_v6_well|vm_compute; lia|].
  exists p0, p1. split_and!; [done..|apply Hr, demo_reached; done|apply Hr, demo_reached; done].
Defined.
