(* ===== verification/Webhooks.v ===== *)
(** * What the indexer sends to the backend

    The shape of every request of every run, and the outcome of one
    notification. *)

From S2P Require Import Prelude JsValue Zod IndexerConfig IndexerStore IndexerWorld BackendClient EventHandlers Listener IndexerMirror Scenario ScanSafety ScanInvariant.

(** The request's only keys. *)
Definition notification_keys : list string :=
  ["eventName"; "onchainClaimId"; "merkleRoot"; "txHash"; "status"].

(** A notification: a POST to the webhook, authenticated with the configured
    key, with a JSON object of these keys. *)
Definition is_notification (config : Config) (r : Request) : Prop :=
  (∃ u, backendUrl config = Some u ∧ u ≠ "" ∧ rq_url r = u +:+ "/internal/onchain-events") ∧
  rq_method r = "POST" ∧
  assoc "X-Indexer-Webhook-Key" (rq_headers r) = Some (opt_str (backendWebhookApiKey config)) ∧
  ∃ j, rq_body r = Some j ∧ json_keys j ⊆ notification_keys.

Section sends.
Context (E : Env) (config : Config).

(** A step that sends notifications only. *)
Definition notifies (w w' : World) : Prop :=
  ∃ new, sent w' = sent w ++ new ∧ Forall (is_notification config) new.

#[global] Instance notifies_preorder : PreOrder notifies.
Proof.
  split.
  - intros w. exists []. by rewrite app_nil_r.
  - intros w1 w2 w3 (n1 & H1 & F1) (n2 & H2 & F2). exists (n1 ++ n2).
    rewrite H2, H1, app_assoc. split; [done|]. by apply Forall_app.
Qed.

Lemma quiet_notifies {A} (m : Js World A) : (∀ w, sent (m w).2 = sent w) → moves notifies m.
Proof. intros H w. exists []. by rewrite H, app_nil_r. Qed.

Lemma pool_query_notifies q vs : moves notifies (pool_query E q vs).
Proof. apply quiet_notifies. intros w. apply pool_query_sent. Qed.
Lemma rpc_getBlockNumber_notifies : moves notifies (rpc_getBlockNumber E).
Proof. apply quiet_notifies. intros w. apply rpc_getBlockNumber_same. Qed.
Lemma rpc_getLogs_notifies a lo hi : moves notifies (rpc_getLogs E a lo hi).
Proof. apply quiet_notifies. intros w. apply rpc_getLogs_same. Qed.
Lemma console_log_notifies l t : moves notifies (console_log l t).
Proof. by apply quiet_notifies. Qed.
Lemma set_warned_notifies b : moves notifies (modify (set_warned b)).
Proof. by apply quiet_notifies. Qed.

(** The keys [JSON.stringify] prints are among the object's. *)
Lemma stringify_keys fs j :
  stringify (VObj fs) = Ok (Some j) → json_keys j ⊆ fs.*1.
Proof.
  simpl. match goal with |- (_ ← ?go _; _) = _ → _ => set (g := go) end.
  intros H. destruct (g fs) as [js|] eqn:Hg; [|done]. injection H as <-. simpl.
  revert js Hg. induction fs as [|[k v] fs IH]; intros js Hg; simpl in Hg; [by injection Hg as <-|].
  destruct (stringify v) as [jv|]; simpl in Hg; [|done].
  destruct (g fs) as [js'|]; [|done]. injection Hg as <-. specialize (IH _ eq_refl).
  destruct jv as [jv|]; simpl.
  - intros x [->|Hx]%elem_of_cons; [left|right; by apply IH].
  - intros x Hx. right. by apply IH.
Qed.

Lemma report_notifies name id root log st :
  moves notifies (reportClaimEvent E config (claim_event name id root log st)).
Proof.
  intros w. unfold reportClaimEvent, backend_url.
  destruct (backendUrl config) as [u|] eqn:Hu.
  2:{ exists []. rewrite app_nil_r, bind_get. by destruct (warnedNoBackend w). }
  case_bool_decide as Hne.
  { exists []. rewrite app_nil_r, bind_get. by destruct (warnedNoBackend w). }
  rewrite bind_run. unfold lift at 1.
  destruct (stringify (claim_event name id root log st)) as [body|e] eqn:Hj;
    [|exists []; by rewrite app_nil_r].
  rewrite bind_run. unfold fetch.
  assert (is_notification config (webhook_request config u body)) as Hn.
  { split; [by exists u|]. split_and!; [done..|]. destruct body as [j|].
    - exists j. split; [done|]. by apply stringify_keys in Hj.
    - simpl in Hj. by destruct (stringify root) as [[jr|]|e]. }
  destruct (fetch_outcome _ _ _) as [| |s t]; [exists []; by rewrite app_nil_r|..];
    (exists [webhook_request config u body]; split; [|by constructor]); [done|]. by destruct (response_ok _).
Qed.
#[local] Hint Resolve pool_query_notifies rpc_getBlockNumber_notifies rpc_getLogs_notifies
  console_log_notifies set_warned_notifies report_notifies : moves.

Lemma handler_notifies name h log args a :
  assoc name (HANDLERS E config) = Some h → moves notifies (h log args a).
Proof.
  assert (∀ k, moves notifies (arg args k)) by (intros k w; reflexivity).
  assert (∀ k, moves notifies (argText args k)).
  { intros k. apply quiet_notifies. intros w. by rewrite pure_argText. }
  assert (∀ n d, moves notifies (persistRawEventOnce E log n a d)).
  { intros n d. unfold persistRawEventOnce. solve_moves. }
  unfold HANDLERS. simpl. intros Hh.
  repeat (case_decide; [injection Hh as <-;
    unfold handleClaimSubmitted, handleClaimStatusChanged, handleClaimPayout,
      handlePolicyRegistered, handlePolicyRevoked; solve_moves|]).
  done.
Qed.

Lemma process_log_notifies c a log : moves notifies (process_log E config c a log).
Proof.
  unfold process_log. destruct (parseLog _ _ _) as [| |name args]; [solve_moves..|].
  destruct (assoc name _) as [h|] eqn:Hh; [|solve_moves].
  apply moves_bind; [apply _|by eapply handler_notifies|intros ?; solve_moves].
Qed.

Lemma scan_notifies c d : moves notifies (scanContract E config c d).
Proof.
  assert (∀ a logs t, moves notifies (process_logs E config c a logs t)).
  { intros a logs. induction logs as [|log logs IH]; intros t; simpl; [solve_moves|].
    apply moves_bind; [apply _|apply process_log_notifies|intros ?; apply IH]. }
  assert (∀ a n, moves notifies (setLastProcessedBlock E a n)).
  { intros a n. unfold setLastProcessedBlock. solve_moves. }
  assert (∀ fuel a cur sh t, moves notifies (scan_chunks E config fuel c a cur sh t)).
  { intros fuel a. induction fuel as [|fuel IH]; intros cur sh t; simpl;
      (destruct (_ <=? _); [|solve_moves]); [solve_moves|].
    repeat (apply moves_bind; [apply _|solve_moves|intros ?]). apply IH. }
  unfold scanContract, getLastProcessedBlock.
  apply moves_bind; [apply _|solve_moves|intros head].
  apply moves_bind; [apply _|solve_moves|intros cp]. simpl. solve_moves.
Qed.
End sends.

(** C39: Every request of every run, whatever fails, is an authenticated POST
    to the configured backend whose body has no key beside eventName,
    onchainClaimId, merkleRoot, txHash and status: the snake-case fields the
    backend's request model requires (onchain_claim_id, merkle_root, tx_hash)
    are never among them. *)
Theorem requests_are_notifications (E : Env) (config : Config) (ps : list Process) :
  Forall (λ r, is_notification config r ∧
      ∀ j, rq_body r = Some j → ∀ k, k ∈ json_keys j →
        k ∉ ["onchain_claim_id"; "merkle_root"; "tx_hash"])
    (sent (lives E config ps (boot empty_db))).
Proof.
  assert (Forall (is_notification config) (sent (lives E config ps (boot empty_db)))) as H.
  { apply (lives_preserves E config (λ w, Forall (is_notification config) (sent w))); [| | |constructor].
    - by intros w w' H [_ -> _].
    - intros p. apply (runOnePass_preserves (services E p) config (λ w, Forall (is_notification config) (sent w))). intros c w H.
      destruct (scan_notifies (services E p) config c (deploy_block config c) w) as (new & -> & Hn).
      by apply Forall_app.
    - intros p w H. unfold ensureSchema. rewrite bind_run.
      pose proof (pool_query_sent (services E p) CreateSchema [] w) as Hs.
      by destruct (pool_query _ CreateSchema [] w) as [[r|e] w1]; simpl in *; rewrite Hs. }
  eapply Forall_impl; [exact H|]. intros r Hr. split; [done|].
  destruct Hr as (_ & _ & _ & j & Hj & Hk). intros j' Hj' k Hin Hbad. simplify_eq.
  apply Hk in Hin. unfold notification_keys in Hin.
  repeat (apply elem_of_cons in Hbad as [->|Hbad]); [..|by apply elem_of_nil in Hbad];
    repeat (apply elem_of_cons in Hin as [Hin|Hin]; [discriminate|]); by apply elem_of_nil in Hin.
Qed.

(** One notification.  With a backend configured, an event that can be
    serialised is sent once, unless the request never left; a refusal by the
    backend is logged and swallowed, a response of 2xx is silent, and a
    rejected [fetch] escapes to the caller.  The tables are untouched in every
    case. *)
Theorem report_outcome (E : Env) (config : Config) (event : jsval) (j : option json) (u : string)
    (w : World) :
  backend_url config = Some u → stringify event = Ok j →
  let r := reportClaimEvent E config event w in
  let rq := webhook_request config u j in
  db r.2 = db w ∧
  match fetch_outcome E (clock w) rq with
  | FetchUnsent => r.1 = Throw (ServiceError "fetch") ∧ sent r.2 = sent w ∧ console r.2 = console w
  | FetchRejects => r.1 = Throw (ServiceError "fetch") ∧ sent r.2 = sent w ++ [rq] ∧ console r.2 = console w
  | FetchResponds status text => r.1 = Ok tt ∧ sent r.2 = sent w ++ [rq] ∧
      console r.2 = console w ++ (if response_ok status then [] else
        [("error", "[backendClient] webhook failed (" +:+ dec status +:+ "): " +:+ default "" text)])
  end.
Proof.
  intros Hu Hj r rq. unfold r, reportClaimEvent. rewrite Hu, Hj. js_simpl. rewrite bind_run. unfold fetch. fold rq.
  destruct (fetch_outcome E (clock w) rq) as [| |status text]; simpl; [done|done|].
  destruct (response_ok status); simpl; by rewrite ?app_nil_r.
Qed.

Lemma report_outcome_witness :
  let ev := claim_event "ClaimPayout" "1" (VStr "0x99") (demo_log 3 claims_addr "0xt3" 9) "paid" in
  let w := boot empty_db in
  console (reportClaimEvent hostile demo_config ev (tick w)).2 =
    [("error", "[backendClient] webhook failed (500): ")] ∧
  sent (reportClaimEvent hostile demo_config ev w).2 =
    sent w ++ [webhook_request demo_config "http://localhost:8000"
      (Some (webhook_body (demo_log 3 claims_addr "0xt3" 9) "ClaimPayout" 1 "0x99" "paid"))].
Proof.
  split; [vm_compute; reflexivity|].
  exact (proj1 (proj2 (proj2 (report_outcome hostile demo_config
    (claim_event "ClaimPayout" "1" (VStr "0x99") (demo_log 3 claims_addr "0xt3" 9) "paid")
    (Some (webhook_body (demo_log 3 claims_addr "0xt3" 9) "ClaimPayout" 1 "0x99" "paid"))
    "http://localhost:8000" (boot empty_db) eq_refl eq_refl)))).
Defined.
