(* ===== verification/IndexerClients.v ===== *)
(** * The indexer's clients: db.js's pool and rpcClient.js's provider

    Two module variables, filled on first use.  [made] records what was
    created and ended; whether ending the pool succeeds is the service's
    answer.  The rest of the indexer uses the pool and the provider through
    [IndexerWorld], where the object behind them is not visible. *)

From S2P Require Import Prelude JsValue Zod IndexerConfig Scenario.

Inductive ClientEvent :=
  | NewPool (connectionString : string)
  | EndPool (ok : bool)                                  (** [_pool.end()] *)
  | NewProvider (url : string) (chainId : Z).

Record Clients := mkClients { _pool : bool; _provider : bool; made : list ClientEvent }.
Definition clients_start : Clients := mkClients false false [].

Section clients.
Context (end_ok : nat → bool) (config : Config).

Definition getPool : Js Clients unit := λ s,
  if _pool s then (Ok tt, s)
  else (Ok tt, mkClients true (_provider s) (made s ++ [NewPool (databaseUrl config)])).

(** A rejected [end()] leaves the variable as it is. *)
Definition closePool : Js Clients unit := λ s,
  if _pool s then
    if end_ok (length (made s)) then (Ok tt, mkClients false (_provider s) (made s ++ [EndPool true]))
    else (Throw (ServiceError "postgres"), mkClients true (_provider s) (made s ++ [EndPool false]))
  else (Ok tt, s).

Definition getProvider : Js Clients unit := λ s,
  if _provider s then (Ok tt, s)
  else (Ok tt, mkClients (_pool s) true (made s ++ [NewProvider (rpcUrl config) (chainId config)])).

(** ** What is open *)
Definition pools_open (l : list ClientEvent) : Z :=
  foldl (λ n ev, match ev with NewPool _ => n + 1 | EndPool true => n - 1 | _ => n end) 0 l.
Definition providers (l : list ClientEvent) : Z :=
  foldl (λ n ev, match ev with NewProvider _ _ => n + 1 | _ => n end) 0 l.
Definition from_config (ev : ClientEvent) : Prop :=
  match ev with NewPool u => u = databaseUrl config | NewProvider u c => u = rpcUrl config ∧ c = chainId config | EndPool _ => True end.

Record clients_ok (s : Clients) : Prop := {
  ck_pool : pools_open (made s) = if _pool s then 1 else 0;
  ck_provider : providers (made s) = if _provider s then 1 else 0;
  ck_config : Forall from_config (made s);
}.
Definition keeps_clients (s s' : Clients) : Prop := clients_ok s → clients_ok s'.
#[global] Instance keeps_clients_preorder : PreOrder keeps_clients.
Proof. split; [intros s H; exact H|]. intros s1 s2 s3 H1 H2 H. apply H2, H1, H. Qed.

Lemma clients_snoc s p q ev : clients_ok s → from_config ev →
  pools_open (made s ++ [ev]) = (if p : bool then 1 else 0) → providers (made s ++ [ev]) = (if q : bool then 1 else 0) →
  clients_ok (mkClients p q (made s ++ [ev])).
Proof. intros [_ _ Hc] Hev Hp Hq. split; [done|done|]. apply Forall_app. by rewrite Forall_singleton. Qed.
Lemma getPool_keeps : moves keeps_clients getPool.
Proof. intros [[] q l] [Hp Hq Hc]; unfold getPool; cbn in *; [done|]. apply (clients_snoc (mkClients false q l)); [by split|done|..];
  cbn; unfold pools_open, providers in *; rewrite foldl_snoc; lia. Qed.
Lemma closePool_keeps : moves keeps_clients closePool.
Proof.
  intros [[] q l] [Hp Hq Hc]; unfold closePool; cbn in *; [|done].
  destruct (end_ok _); cbn; apply (clients_snoc (mkClients true q l)); try (by split); try done;
    cbn; unfold pools_open, providers in *; rewrite foldl_snoc; lia.
Qed.
Lemma getProvider_keeps_clients : moves keeps_clients getProvider.
Proof. intros [p [] l] [Hp Hq Hc]; unfold getProvider; cbn in *; [done|]. apply (clients_snoc (mkClients p false l)); [by split|done|..];
  cbn; unfold pools_open, providers in *; rewrite foldl_snoc; lia. Qed.

Inductive ClientOp := GetPool | ClosePool | GetProvider.
Definition client_op (op : ClientOp) : Js Clients unit :=
  match op with GetPool => getPool | ClosePool => closePool | GetProvider => getProvider end.

Lemma ops_keep ops s : clients_ok s → clients_ok (foldl (λ s op, (client_op op s).2) s ops).
Proof.
  revert s. induction ops as [|op ops IH]; intros s Hs; [done|]. apply IH.
  destruct op; [by apply getPool_keeps|by apply closePool_keeps|by apply getProvider_keeps_clients].
Qed.
Lemma getPool_open s : _pool (getPool s).2 = true.
Proof. unfold getPool. by destruct (_pool s) eqn:H. Qed.
End clients.

(** One pool, one provider.  Whatever is called in whatever order, and
    whether or not ending the pool succeeds, at most one pool is open and at
    most one provider was made, with the configured addresses; after a
    [getPool] there is exactly one. *)
Theorem one_pool_one_provider (end_ok : nat → bool) (config : Config) (ops : list ClientOp) :
  let s := foldl (λ s op, (client_op end_ok config op s).2) clients_start ops in
  0 <= pools_open (made s) <= 1 ∧ 0 <= providers (made s) <= 1 ∧ Forall (from_config config) (made s) ∧
  pools_open (made (getPool config s).2) = 1.
Proof.
  intros s. assert (clients_ok config s) as Hs by (by apply ops_keep).
  pose proof (getPool_keeps config s Hs) as [Hopen _ _]. destruct Hs as [Hp Hq Hc].
  rewrite Hp, Hq, Hopen, getPool_open. split_and!; try done; by destruct (_pool s), (_provider s).
Qed.
