(* ===== verification/Buffer.v ===== *)
(** * Buffers, hexadecimal text and big-endian integers

    The part of Node's [Buffer] and of the BigInt/string conversions that
    safe-ops uses: indexing and [subarray] with any Number, hex in both
    directions, [BigInt("0x...")], [toString(16)] and [padStart].  Bytes are
    [Byte.byte]; an index or length is [option Z], [None] being [NaN] (or, for
    a value read out of range, [undefined]). *)

From S2P Require Import Prelude JsValue.
From Stdlib Require Import Strings.Byte Strings.Ascii.

Definition b2z (b : byte) : Z := Z.of_N (Byte.to_N b).
Definition z2b (z : Z) : byte :=
  match Byte.of_N (Z.to_N (z mod 256)) with Some b => b | None => x00 end.

Lemma b2z_range b : 0 <= b2z b < 256.
Proof. unfold b2z. pose proof (Byte.to_N_bounded b). lia. Qed.
Lemma b2z_z2b z : b2z (z2b z) = z mod 256.
Proof.
  unfold b2z, z2b. pose proof (Z.mod_pos_bound z 256).
  destruct (Byte.of_N (Z.to_N (z mod 256))) as [b|] eqn:Hb.
  - apply Byte.to_of_N in Hb. rewrite Hb. lia.
  - apply Byte.of_N_None_iff in Hb. lia.
Qed.
Lemma z2b_b2z b : z2b (b2z b) = b.
Proof.
  unfold z2b, b2z. pose proof (Byte.to_N_bounded b).
  rewrite Z.mod_small by lia. by rewrite N2Z.id, Byte.of_to_N.
Qed.
#[global] Instance b2z_inj : Inj (=) (=) b2z.
Proof. intros x y H. by rewrite <-(z2b_b2z x), H, z2b_b2z. Qed.

#[global] Instance byte_eq_dec : EqDecision byte.
Proof. intros x y. destruct (decide (b2z x = b2z y)) as [H|H]; [left; by apply (inj b2z)|right; congruence]. Defined.

Abbreviation buffer := (list byte).
Definition blen (b : buffer) : Z := Z.of_nat (length b).

(** [a + b] where [NaN] absorbs. *)
Definition nan_add (a b : option Z) : option Z := x ← a; y ← b; Some (x + y).

(** [buf[i]]: [undefined] out of range, at a negative index or at [NaN]. *)
Definition byte_at (buf : buffer) (i : option Z) : option Z :=
  i ← i; if 0 <=? i then b2z <$> buf !! Z.to_nat i else None.

(** [buf.subarray(start, end)]: [NaN] counts as 0, a negative index counts
    from the end, and both are clamped to the buffer. *)
Definition clamp_index (len : Z) (i : option Z) : Z :=
  let i := default 0 i in
  if i <? 0 then Z.max (len + i) 0 else Z.min i len.
Definition subarray (buf : buffer) (start stop : option Z) : buffer :=
  let a := clamp_index (blen buf) start in
  let b := clamp_index (blen buf) stop in
  take (Z.to_nat (b - a)) (drop (Z.to_nat a) buf).

(** ** Int32 operators *)

(** ToInt32. *)
Definition to_int32 (z : Z) : Z := (z + 2 ^ 31) mod 2 ^ 32 - 2 ^ 31.
Definition int32 (z : Z) : Prop := - 2 ^ 31 <= z < 2 ^ 31.

Lemma to_int32_range z : int32 (to_int32 z).
Proof. unfold int32, to_int32. pose proof (Z.mod_pos_bound (z + 2 ^ 31) (2 ^ 32)). lia. Qed.
Lemma to_int32_small z : int32 z → to_int32 z = z.
Proof. unfold int32, to_int32. intros H. rewrite Z.mod_small; lia. Qed.
Lemma to_int32_mod z : to_int32 z mod 2 ^ 32 = z mod 2 ^ 32.
Proof.
  unfold to_int32. rewrite Zminus_mod_idemp_l. f_equal. lia.
Qed.
Lemma to_int32_eq z z' : z mod 2 ^ 32 = z' mod 2 ^ 32 → to_int32 z = to_int32 z'.
Proof.
  intros H. unfold to_int32. f_equal. by rewrite Zplus_mod, H, <-Zplus_mod.
Qed.

(** [(a << 8) | b] for a byte [b]. *)
Definition shift_in (a b : Z) : Z := Z.lor (to_int32 (Z.shiftl a 8)) b.

Lemma lor_byte x b : 0 <= b < 256 → Z.lor (x * 256) b = x * 256 + b.
Proof.
  intros Hb. rewrite <-Z.add_lor_land.
  enough (Z.land (x * 256) b = 0) as -> by lia.
  apply Z.bits_inj'. intros n Hn. rewrite Z.land_spec, Z.bits_0.
  destruct (Z.lt_ge_cases n 8) as [Hlt|Hge].
  - change 256 with (2 ^ 8). by rewrite Z.mul_pow2_bits_low.
  - rewrite andb_comm. destruct (decide (b = 0)) as [->|Hb0]; [by rewrite Z.bits_0|].
    rewrite Z.bits_above_log2; [done|lia|]. apply Z.log2_lt_pow2; [lia|].
    assert (2 ^ 8 <= 2 ^ n) by (apply Z.pow_le_mono_r; lia). lia.
Qed.

(** One step of the big-endian accumulation, on 32 bits. *)
Lemma shift_in_spec a b : 0 <= b < 256 → shift_in a b = to_int32 (a * 256 + b).
Proof.
  intros Hb. unfold shift_in. rewrite Z.shiftl_mul_pow2 by lia. change (2 ^ 8) with 256.
  set (t := to_int32 (a * 256)).
  assert (t = (t / 256) * 256) as Ht.
  { assert (t mod 256 = 0) as H; [|pose proof (Z.div_mod t 256 ltac:(lia)); lia].
    unfold t, to_int32. change (2 ^ 32) with (2 ^ 24 * 256). change (2 ^ 31) with (2 ^ 23 * 256).
    rewrite <-Z.mul_add_distr_r, Z.mul_mod_distr_r by lia.
    rewrite <-Z.mul_sub_distr_r. apply Z.mod_mul. lia. }
  rewrite Ht at 1. rewrite lor_byte, <-Ht by done.
  assert (int32 (t + b)) as Hr.
  { pose proof (to_int32_range (a * 256)) as Hr. fold t in Hr. unfold int32 in *. lia. }
  rewrite <-(to_int32_small (t + b)) by done. apply to_int32_eq.
  rewrite <-(Zplus_mod_idemp_l t). unfold t. by rewrite to_int32_mod, Zplus_mod_idemp_l.
Qed.

(** ** Big-endian integers *)

Definition of_be (bs : buffer) : Z := foldl (λ acc b, acc * 256 + b2z b) 0 bs.

Fixpoint be (w : nat) (n : Z) : buffer :=
  match w with
  | O => []
  | S w => be w (n / 256) ++ [z2b n]
  end.

Lemma of_be_snoc bs b : of_be (bs ++ [b]) = of_be bs * 256 + b2z b.
Proof. unfold of_be. by rewrite foldl_snoc. Qed.

Lemma foldl_be bs acc :
  foldl (λ acc b, acc * 256 + b2z b) acc bs = acc * 256 ^ Z.of_nat (length bs) + of_be bs.
Proof.
  induction bs as [|b bs IH] using rev_ind; [unfold of_be; simpl; lia|].
  rewrite foldl_snoc, IH, of_be_snoc, length_app. simpl.
  replace (Z.of_nat (length bs + 1)) with (Z.succ (Z.of_nat (length bs))) by lia.
  rewrite Z.pow_succ_r by lia. lia.
Qed.

Lemma of_be_app bs bs' : of_be (bs ++ bs') = of_be bs * 256 ^ Z.of_nat (length bs') + of_be bs'.
Proof. unfold of_be at 1. rewrite foldl_app. fold (of_be bs). apply foldl_be. Qed.

Lemma of_be_range bs : 0 <= of_be bs < 256 ^ Z.of_nat (length bs).
Proof.
  induction bs as [|b bs IH] using rev_ind; [unfold of_be; simpl; lia|].
  rewrite of_be_snoc, length_app. simpl. pose proof (b2z_range b).
  replace (Z.of_nat (length bs + 1)) with (Z.succ (Z.of_nat (length bs))) by lia.
  rewrite Z.pow_succ_r by lia. lia.
Qed.

Lemma length_be w n : length (be w n) = w.
Proof. revert n. induction w as [|w IH]; intros n; simpl; [done|]. rewrite length_app, IH. simpl. lia. Qed.

Lemma of_be_be w n : 0 <= n < 256 ^ Z.of_nat w → of_be (be w n) = n.
Proof.
  revert n. induction w as [|w IH]; intros n Hn; [unfold of_be; simpl in *; lia|].
  replace (Z.of_nat (S w)) with (Z.succ (Z.of_nat w)) in Hn by lia.
  rewrite Z.pow_succ_r in Hn by lia. simpl. rewrite of_be_snoc, b2z_z2b, IH.
  - pose proof (Z.div_mod n 256 ltac:(lia)). lia.
  - split; [apply Z.div_pos; lia|apply Z.div_lt_upper_bound; lia].
Qed.

Lemma z2b_add_mul x b : z2b (x * 256 + b2z b) = b.
Proof.
  apply (inj b2z). rewrite b2z_z2b. pose proof (b2z_range b).
  rewrite Z.add_comm, Z.mod_add by lia. by apply Z.mod_small.
Qed.

Lemma be_of_be bs : be (length bs) (of_be bs) = bs.
Proof.
  induction bs as [|b bs IH] using rev_ind; [done|].
  rewrite length_app, Nat.add_1_r, of_be_snoc. simpl. rewrite z2b_add_mul. f_equal.
  pose proof (b2z_range b). by rewrite Z.div_add_l, Z.div_small, Z.add_0_r by lia.
Qed.

(** Leading zeros do not change the value. *)
Lemma of_be_zeros n bs : of_be (repeat x00 n ++ bs) = of_be bs.
Proof.
  rewrite of_be_app. enough (of_be (repeat x00 n) = 0) as -> by lia.
  induction n as [|n IH]; [done|]. rewrite <-rev_repeat. simpl. rewrite of_be_snoc.
  rewrite rev_repeat, IH. done.
Qed.
Lemma of_be_cons b bs : of_be (b :: bs) = b2z b * 256 ^ Z.of_nat (length bs) + of_be bs.
Proof. exact (of_be_app [b] bs). Qed.

(** ** Hexadecimal text *)

Definition hex_digit (n : Z) : ascii :=
  default "0"%char (String.get (Z.to_nat n) "0123456789abcdef").

(** A digit in either case. *)
Definition unhex (c : ascii) : option Z :=
  let n := Z.of_N (N_of_ascii c) in
  if (48 <=? n) && (n <=? 57) then Some (n - 48)
  else if (97 <=? n) && (n <=? 102) then Some (n - 87)
  else if (65 <=? n) && (n <=? 70) then Some (n - 55)
  else None.

(** [buf.toString('hex')] *)
Fixpoint hex_of (bs : buffer) : string :=
  match bs with
  | [] => ""
  | b :: bs => String (hex_digit (b2z b / 16)) (String (hex_digit (b2z b mod 16)) (hex_of bs))
  end.

(** [Buffer.from(s, 'hex')]: pairs of digits up to the first that is not. *)
Fixpoint bytes_of_hex (s : string) : buffer :=
  match s with
  | String a (String b s) =>
      match unhex a, unhex b with
      | Some x, Some y => z2b (x * 16 + y) :: bytes_of_hex s
      | _, _ => []
      end
  | _ => []
  end.

(** [s.slice(2)] *)
Definition slice2 (s : string) : string :=
  match s with String _ (String _ s) => s | _ => "" end.

(** [BigInt('0x' + s)]; [None]: a SyntaxError. *)
Fixpoint hex_acc (s : string) (acc : Z) : option Z :=
  match s with
  | EmptyString => Some acc
  | String c s => d ← unhex c; hex_acc s (acc * 16 + d)
  end.
Definition bigint_of_hex (s : string) : option Z :=
  match s with EmptyString => None | _ => hex_acc s 0 end.

(** [z.toString(16)] *)
Fixpoint hex_digits (fuel : nat) (z : Z) (acc : string) : string :=
  match fuel with
  | O => acc
  | S fuel =>
      let acc := String (hex_digit (z mod 16)) acc in
      if z <? 16 then acc else hex_digits fuel (z / 16) acc
  end.
Definition hex_fuel (z : Z) : nat := S (Z.to_nat (Z.log2 z)).
Definition toString16 (z : Z) : string :=
  if z <? 0 then "-" +:+ hex_digits (hex_fuel (- z)) (- z) "" else hex_digits (hex_fuel z) z "".

(** [s.padStart(n, c)] for a single character [c] *)
Definition padStart (n : Z) (c : ascii) (s : string) : string :=
  repeat_char c (Z.to_nat (n - strlen s)) +:+ s.

Lemma unhex_digit n : 0 <= n < 16 → unhex (hex_digit n) = Some n.
Proof.
  intros H. assert (n ∈ seqZ 0 16) as Hin by (apply elem_of_seqZ; lia).
  vm_compute in Hin.
  repeat (apply elem_of_cons in Hin as [->|Hin]; [reflexivity|]). by apply elem_of_nil in Hin.
Qed.

Lemma bytes_of_hex_of bs : bytes_of_hex (hex_of bs) = bs.
Proof.
  induction bs as [|b bs IH]; [done|]. cbn [hex_of bytes_of_hex].
  pose proof (b2z_range b). pose proof (Z.div_mod (b2z b) 16 ltac:(lia)).
  pose proof (Z.mod_pos_bound (b2z b) 16 ltac:(lia)).
  rewrite !unhex_digit by (try apply Z.mod_pos_bound; lia).
  rewrite IH. f_equal. rewrite <-(z2b_b2z b) at 3. f_equal. lia.
Qed.

Lemma hex_acc_of bs acc :
  hex_acc (hex_of bs) acc = Some (acc * 256 ^ Z.of_nat (length bs) + of_be bs).
Proof.
  revert acc. induction bs as [|b bs IH]; intros acc; cbn [hex_of hex_acc].
  { unfold of_be. simpl. f_equal. lia. }
  pose proof (b2z_range b). pose proof (Z.div_mod (b2z b) 16 ltac:(lia)).
  pose proof (Z.mod_pos_bound (b2z b) 16 ltac:(lia)).
  rewrite !unhex_digit by (try apply Z.mod_pos_bound; lia). simpl.
  rewrite IH, of_be_cons. f_equal. cbn [length].
  replace (Z.of_nat (S (length bs))) with (Z.succ (Z.of_nat (length bs))) by lia.
  rewrite Z.pow_succ_r by lia. nia.
Qed.

Lemma bigint_of_hex_of bs : bs ≠ [] → bigint_of_hex (hex_of bs) = Some (of_be bs).
Proof.
  intros Hne. destruct bs as [|b bs]; [done|]. unfold bigint_of_hex. cbn [hex_of].
  change (String _ (String _ (hex_of bs))) with (hex_of (b :: bs)).
  rewrite hex_acc_of. done.
Qed.

Lemma hex_digits_S fuel z acc : hex_digits (S fuel) z acc =
  let acc := String (hex_digit (z mod 16)) acc in
  if z <? 16 then acc else hex_digits fuel (z / 16) acc.
Proof. done. Qed.

Lemma hex_digits_acc fuel : ∀ z s, 0 <= z < 16 ^ Z.of_nat (S fuel) →
  hex_acc (hex_digits (S fuel) z s) 0 = hex_acc s z.
Proof.
  induction fuel as [|fuel IH]; intros z s Hz; rewrite hex_digits_S; cbv zeta;
    pose proof (Z.mod_pos_bound z 16 ltac:(lia)); pose proof (Z.div_mod z 16 ltac:(lia));
    destruct (Z.ltb_spec z 16) as [Hlt|Hge].
  1, 3: cbn [hex_acc]; rewrite unhex_digit by lia; simpl; rewrite Z.mod_small by lia; done.
  - simpl in Hz. lia.
  - assert (z / 16 < 16 ^ Z.of_nat (S fuel)) as Hlt.
    { apply Z.div_lt_upper_bound; [lia|].
      replace (Z.of_nat (S (S fuel))) with (Z.succ (Z.of_nat (S fuel))) in Hz by lia.
      rewrite Z.pow_succ_r in Hz by lia. lia. }
    rewrite IH by lia. cbn [hex_acc]. rewrite unhex_digit by lia. simpl. f_equal. lia.
Qed.

Lemma hex_fuel_enough z : 0 <= z → 0 <= z < 16 ^ Z.of_nat (hex_fuel z).
Proof.
  intros Hz. split; [done|]. unfold hex_fuel.
  destruct (decide (z = 0)) as [->|Hne]; [reflexivity|].
  pose proof (Z.log2_spec z ltac:(lia)) as [_ Hlt]. pose proof (Z.log2_nonneg z).
  replace (Z.of_nat (S (Z.to_nat (Z.log2 z)))) with (Z.succ (Z.log2 z)) by lia.
  assert (2 ^ Z.succ (Z.log2 z) <= 16 ^ Z.succ (Z.log2 z)); [|lia].
  apply Z.pow_le_mono_l. lia.
Qed.

Lemma toString16_acc z : 0 <= z → hex_acc (toString16 z) 0 = Some z.
Proof.
  intros Hz. unfold toString16. rewrite (proj2 (Z.ltb_ge _ _)) by lia.
  pose proof (hex_fuel_enough z Hz) as H. unfold hex_fuel in *. by rewrite hex_digits_acc.
Qed.

Lemma hex_digits_length fuel : ∀ z s w, 0 <= z < 16 ^ Z.of_nat w → (0 < w)%nat →
  (String.length (hex_digits fuel z s) <= w + String.length s)%nat.
Proof.
  induction fuel as [|fuel IH]; intros z s w Hz Hw; cbn [hex_digits]; [lia|].
  destruct (Z.ltb_spec z 16) as [Hlt|Hge]; [simpl; lia|].
  destruct w as [|w]; [lia|]. destruct w as [|w]; [simpl in Hz; lia|].
  assert (0 <= z / 16 < 16 ^ Z.of_nat (S w)) as Hd.
  { split; [apply Z.div_pos; lia|]. apply Z.div_lt_upper_bound; [lia|].
    replace (Z.of_nat (S (S w))) with (Z.succ (Z.of_nat (S w))) in Hz by lia.
    rewrite Z.pow_succ_r in Hz by lia. lia. }
  pose proof (IH (z / 16) (String (hex_digit (z mod 16)) s) (S w) Hd ltac:(lia)) as H.
  simpl in H |- *. lia.
Qed.

Lemma length_append s t : String.length (s +:+ t) = (String.length s + String.length t)%nat.
Proof. induction s as [|c s IH]; simpl; [done|]. by rewrite IH. Qed.
Lemma length_repeat_char c n : String.length (repeat_char c n) = n.
Proof. induction n as [|n IH]; simpl; congruence. Qed.
Lemma hex_acc_zeros n s : hex_acc (repeat_char "0"%char n +:+ s) 0 = hex_acc s 0.
Proof. induction n as [|n IH]; simpl; [done|]. exact IH. Qed.

(** Digits two at a time are bytes. *)
Lemma bytes_of_hex_acc n : ∀ s acc v, String.length s = (2 * n)%nat → hex_acc s acc = Some v →
  length (bytes_of_hex s) = n ∧ v = acc * 256 ^ Z.of_nat n + of_be (bytes_of_hex s).
Proof.
  induction n as [|n IH]; intros s acc v Hl Hv.
  { destruct s; [|done]. injection Hv as <-. unfold of_be. simpl. split; [done|lia]. }
  destruct s as [|a [|b s]]; simpl in Hl; [lia..|]. cbn [hex_acc] in Hv.
  destruct (unhex a) as [x|] eqn:Ha; [|done]. simpl in Hv.
  destruct (unhex b) as [y|] eqn:Hb; [|done]. simpl in Hv.
  destruct (IH s _ v ltac:(lia) Hv) as [IHl IHv]. cbn [bytes_of_hex]. rewrite Ha, Hb.
  cbn [length]. split; [by rewrite IHl|]. rewrite of_be_cons, b2z_z2b, IHl, IHv.
  assert (∀ c d, unhex c = Some d → 0 <= d < 16) as Hr.
  { intros c d. unfold unhex. repeat case_match; intros; simplify_eq; lia. }
  pose proof (Hr _ _ Ha). pose proof (Hr _ _ Hb). rewrite Z.mod_small by lia.
  replace (Z.of_nat (S n)) with (Z.succ (Z.of_nat n)) by lia. rewrite Z.pow_succ_r by lia. nia.
Qed.

(** A 256-bit integer printed in 64 digits. *)
Lemma padded_hex z : 0 <= z < 2 ^ 256 →
  let h := padStart 64 "0"%char (toString16 z) in
  strlen h = 64 ∧ bigint_of_hex h = Some z ∧ bytes_of_hex h = be 32 z.
Proof.
  intros Hz h.
  assert (String.length (toString16 z) <= 64)%nat as Hl.
  { unfold toString16. rewrite (proj2 (Z.ltb_ge _ _)) by lia.
    pose proof (hex_digits_length (hex_fuel z) z "" 64) as H. simpl in H. apply H; lia. }
  assert (String.length h = 64%nat) as Hlen.
  { unfold h, padStart, strlen. rewrite length_append, length_repeat_char. lia. }
  assert (hex_acc h 0 = Some z) as Hv by (unfold h, padStart; by rewrite hex_acc_zeros, toString16_acc by lia).
  split_and!.
  - unfold strlen. by rewrite Hlen.
  - unfold bigint_of_hex. by destruct h.
  - destruct (bytes_of_hex_acc 32 h 0 z Hlen Hv) as [Hbl Hbv].
    rewrite <-(be_of_be (bytes_of_hex h)), Hbl. f_equal. lia.
Qed.
