(* ===== verification/DerUtils.v ===== *)
(** * safe-ops/src/derUtils.js: reading KMS's DER

    The header reader with its 32-bit length arithmetic, the public-key and
    signature extractors, and their correctness against a DER encoder
    ([der_tlv], [spki], [ecdsa_sig]): both extractors invert it.  The rest of
    the theorems say what the reader does outside that format. *)

From S2P Require Import Prelude JsValue Buffer.
From Stdlib Require Import Strings.Byte.

(** ** The code *)

(** What [readTlvHeader] returns: [None] is [undefined] for the tag and the
    length, [NaN] for the offset. *)
Record TlvHeader := mkTlv {
  tag : option Z;
  tlv_length : option Z;
  valueOffset : option Z;
}.

(** The loop of the long form: [length = (length << 8) | buf[offset + 2 + i]]. *)
Definition long_length (buf : buffer) (offset : option Z) (numLengthBytes : Z) : Z :=
  foldl (λ len i, shift_in len (default 0 (byte_at buf (nan_add offset (Some (2 + i)))))) 0
    (seqZ 0 numLengthBytes).

Definition readTlvHeader (buf : buffer) (offset : option Z) : TlvHeader :=
  let tag := byte_at buf offset in
  let lengthByte := byte_at buf (nan_add offset (Some 1)) in
  (* [undefined & 0x80] is 0 *)
  if Z.land (default 0 lengthByte) 128 =? 0 then
    mkTlv tag lengthByte (nan_add offset (Some 2))
  else
    let numLengthBytes := Z.land (default 0 lengthByte) 127 in
    mkTlv tag (Some (long_length buf offset numLengthBytes))
      (nan_add offset (Some (2 + numLengthBytes))).

Definition tag_is (h : TlvHeader) (t : Z) : bool := bool_decide (tag h = Some t).

Definition publicKeyFromKmsDer (derBuffer : buffer) : outcome buffer :=
  let outer := readTlvHeader derBuffer (Some 0) in
  if negb (tag_is outer 48) then
    Throw (JsError "Expected outer SEQUENCE (0x30) in KMS public key DER")
  else
    let algIdHeader := readTlvHeader derBuffer (valueOffset outer) in
    let bitStringOffset := nan_add (valueOffset algIdHeader) (tlv_length algIdHeader) in
    let bitString := readTlvHeader derBuffer bitStringOffset in
    if negb (tag_is bitString 3) then
      Throw (JsError "Expected BIT STRING (0x03) for the public key point")
    else
      let pointStart := nan_add (valueOffset bitString) (Some 2) in
      let rawPoint := subarray derBuffer pointStart (nan_add pointStart (Some 64)) in
      if negb (blen rawPoint =? 64) then
        Throw (JsError ("Expected a 64-byte uncompressed EC point, got " +:+ dec (blen rawPoint) +:+ " bytes"))
      else Ok rawPoint.

Definition toPadded32 (rawBytes : buffer) : outcome buffer :=
  let bytes :=
    if (blen rawBytes =? 33) && bool_decide (head rawBytes = Some x00)
    then drop 1 rawBytes else rawBytes in
  if 32 <? blen bytes then
    Throw (JsError ("Integer value too long after stripping sign byte: " +:+ dec (blen bytes) +:+ " bytes"))
  else Ok (repeat x00 (32 - length bytes) ++ bytes).

Definition signatureFromKmsDer (derBuffer : buffer) : outcome (buffer * buffer) :=
  let outer := readTlvHeader derBuffer (Some 0) in
  if negb (tag_is outer 48) then
    Throw (JsError "Expected outer SEQUENCE (0x30) in KMS signature DER")
  else
    let rHeader := readTlvHeader derBuffer (valueOffset outer) in
    let sOffset := nan_add (valueOffset rHeader) (tlv_length rHeader) in
    let rRaw := subarray derBuffer (valueOffset rHeader) sOffset in
    let sHeader := readTlvHeader derBuffer sOffset in
    let sRaw := subarray derBuffer (valueOffset sHeader)
      (nan_add (valueOffset sHeader) (tlv_length sHeader)) in
    r ← toPadded32 rRaw; s ← toPadded32 sRaw; mret (r, s).

(** ** DER, as the standard encodes it *)

(** The shortest big-endian encoding of a positive length, in [n] bytes. *)
Definition der_length (len : Z) : buffer :=
  if len <? 128 then [z2b len]
  else let n := Z.to_nat (Z.log2 len / 8 + 1) in z2b (128 + Z.of_nat n) :: be n len.

Definition der_tlv (t : byte) (body : buffer) : buffer := t :: der_length (blen body) ++ body.

(** INTEGER: big-endian, no superfluous leading zero, a zero byte before a
    high bit. *)
Fixpoint strip_zeros (bs : buffer) : buffer :=
  match bs with
  | x00 :: bs' => strip_zeros bs'
  | _ => bs
  end.
Definition der_integer_body (w : nat) (n : Z) : buffer :=
  match strip_zeros (be w n) with
  | [] => [x00]
  | b :: bs => if 128 <=? b2z b then x00 :: b :: bs else b :: bs
  end.

(** SubjectPublicKeyInfo with any algorithm identifier, and ECDSA-Sig-Value. *)
Definition spki (algorithm point : buffer) : buffer :=
  der_tlv x30 (der_tlv x30 algorithm ++ der_tlv x03 (x00 :: x04 :: point)).
Definition ecdsa_sig (r s : Z) : buffer :=
  der_tlv x30 (der_tlv x02 (der_integer_body 32 r) ++ der_tlv x02 (der_integer_body 32 s)).

#[global] Arguments der_tlv : simpl never.
#[global] Arguments der_length : simpl never.
#[global] Arguments readTlvHeader : simpl never.

(** ** The header reader *)

Lemma byte_at_app pre b post : byte_at (pre ++ b :: post) (Some (blen pre)) = Some (b2z b).
Proof.
  unfold byte_at, blen. simpl. rewrite (proj2 (Z.leb_le _ _)) by lia.
  rewrite Nat2Z.id, list_lookup_middle by done. done.
Qed.

Lemma blen_app a b : blen (a ++ b) = blen a + blen b.
Proof. unfold blen. rewrite length_app. lia. Qed.
Lemma blen_cons x b : blen (x :: b) = 1 + blen b.
Proof. unfold blen. simpl. lia. Qed.
Lemma blen_nonneg b : 0 <= blen b.
Proof. unfold blen. lia. Qed.

(** The loop reads the big-endian value of the length bytes, modulo 2^32. *)
Lemma long_length_spec pre lb post :
  long_length (pre ++ lb ++ post) (Some (blen pre - 2)) (blen lb) = to_int32 (of_be lb).
Proof.
  unfold long_length. induction lb as [|b lb IH] using rev_ind; [done|].
  rewrite blen_app. change (blen [b]) with 1.
  rewrite seqZ_app by (try apply blen_nonneg; lia).
  rewrite foldl_app, <-(app_assoc lb).
  assert (∀ acc l, (∀ i, i ∈ l → i < blen lb ∧ 0 <= i) →
    foldl (λ len i, shift_in len (default 0 (byte_at (pre ++ lb ++ [b] ++ post) (nan_add (Some (blen pre - 2)) (Some (2 + i)))))) acc l =
    foldl (λ len i, shift_in len (default 0 (byte_at (pre ++ lb ++ post) (nan_add (Some (blen pre - 2)) (Some (2 + i)))))) acc l) as Hext.
  { intros acc l. revert acc. induction l as [|i l IHl]; intros acc Hl; [done|]. simpl.
    rewrite IHl by (intros j Hj; apply Hl; by right). do 3 f_equal.
    destruct (Hl i ltac:(left)) as [Hi1 Hi2].
    unfold byte_at. simpl. pose proof (blen_nonneg pre).
    rewrite (proj2 (Z.leb_le _ _)) by lia. f_equal. unfold blen in *.
    by rewrite !(lookup_app_r pre), !(lookup_app_l lb) by lia. }
  rewrite (Hext 0 (seqZ 0 (blen lb))), IH.
  2:{ intros i Hi%elem_of_seqZ. lia. }
  assert (byte_at (pre ++ lb ++ [b] ++ post) (nan_add (Some (blen pre - 2)) (Some (2 + blen lb))) =
    Some (b2z b)) as Hb.
  { rewrite app_assoc. simpl nan_add. replace (blen pre - 2 + (2 + blen lb)) with (blen (pre ++ lb)).
    - apply byte_at_app.
    - rewrite blen_app. lia. }
  replace (seqZ (0 + blen lb) 1) with [blen lb] by (unfold seqZ; simpl; f_equal; lia).
  cbn [foldl]. rewrite Hb.
  simpl. rewrite shift_in_spec by apply b2z_range. rewrite of_be_snoc. apply to_int32_eq.
  rewrite <-Zplus_mod_idemp_l, <-Zmult_mod_idemp_l, to_int32_mod.
  by rewrite Zmult_mod_idemp_l, Zplus_mod_idemp_l.
Qed.

Lemma land_128 b : (Z.land (b2z b) 128 =? 0) = (b2z b <? 128).
Proof. by destruct b. Qed.
Lemma land_127 b : 128 <= b2z b → Z.land (b2z b) 127 = b2z b - 128.
Proof. destruct b; vm_compute; intros H; first [reflexivity | by destruct H]. Qed.

Lemma blen_be n z : blen (be n z) = Z.of_nat n.
Proof. unfold blen. by rewrite length_be. Qed.

(** The length bytes are enough for the length. *)
Lemma length_bytes_enough len : 0 < len → len < 256 ^ Z.of_nat (Z.to_nat (Z.log2 len / 8 + 1)).
Proof.
  intros Hlen. pose proof (Z.log2_nonneg len). pose proof (Z.log2_spec len Hlen) as [_ Hlt].
  pose proof (Z.div_pos (Z.log2 len) 8 ltac:(lia) ltac:(lia)).
  rewrite Z2Nat.id by lia. eapply Z.lt_le_trans; [exact Hlt|].
  change 256 with (2 ^ 8). rewrite <-Z.pow_mul_r by lia. apply Z.pow_le_mono_r; [lia|].
  pose proof (Z.div_mod (Z.log2 len) 8 ltac:(lia)). pose proof (Z.mod_pos_bound (Z.log2 len) 8). lia.
Qed.

(** A header in the short form. *)
Lemma readTlvHeader_short pre t l post :
  b2z l < 128 →
  readTlvHeader (pre ++ t :: l :: post) (Some (blen pre)) =
    mkTlv (Some (b2z t)) (Some (b2z l)) (Some (blen pre + 2)).
Proof.
  intros Hl. unfold readTlvHeader. rewrite byte_at_app.
  replace (nan_add (Some (blen pre)) (Some 1)) with (Some (blen (pre ++ [t])))
    by (simpl; f_equal; rewrite blen_app; reflexivity).
  rewrite (cons_middle t pre), app_assoc, byte_at_app. simpl default.
  by rewrite land_128, (proj2 (Z.ltb_lt _ _)).
Qed.

(** A header in the long form: the big-endian length, as an int32. *)
Lemma readTlvHeader_long pre t lb post :
  0 <= blen lb < 128 →
  readTlvHeader (pre ++ t :: z2b (128 + blen lb) :: lb ++ post) (Some (blen pre)) =
    mkTlv (Some (b2z t)) (Some (to_int32 (of_be lb))) (Some (blen pre + 2 + blen lb)).
Proof.
  intros Hn. unfold readTlvHeader. rewrite byte_at_app.
  replace (nan_add (Some (blen pre)) (Some 1)) with (Some (blen (pre ++ [t])))
    by (simpl; f_equal; rewrite blen_app; reflexivity).
  assert (b2z (z2b (128 + blen lb)) = 128 + blen lb) as Hb by (rewrite b2z_z2b, Z.mod_small; lia).
  rewrite (cons_middle t pre), app_assoc, byte_at_app. simpl default. rewrite land_128, Hb.
  rewrite (proj2 (Z.ltb_ge _ _)) by lia. rewrite <-Hb, land_127, Hb by lia.
  replace (128 + blen lb - 128) with (blen lb) by lia.
  rewrite (cons_middle (z2b _)), app_assoc.
  replace (Some (blen pre)) with (Some (blen ((pre ++ [t]) ++ [z2b (128 + blen lb)]) - 2))
    by (f_equal; rewrite !blen_app; unfold blen; simpl; lia).
  rewrite long_length_spec. simpl. do 2 f_equal. rewrite !blen_app, !blen_cons.
  change (blen []) with 0. lia.
Qed.

(** Reading the header of a well-formed element, wherever it stands. *)
Lemma readTlvHeader_der pre t body post :
  blen body < 2 ^ 1000 →
  readTlvHeader (pre ++ der_tlv t body ++ post) (Some (blen pre)) =
    mkTlv (Some (b2z t)) (Some (to_int32 (blen body)))
      (Some (blen pre + 1 + blen (der_length (blen body)))).
Proof.
  intros Hlen. unfold der_tlv. rewrite <-app_comm_cons, <-app_assoc.
  pose proof (blen_nonneg body). unfold der_length.
  destruct (Z.ltb_spec (blen body) 128) as [Hs|Hl].
  - assert (b2z (z2b (blen body)) = blen body) as Hb by (rewrite b2z_z2b, Z.mod_small; lia).
    rewrite <-app_comm_cons, readTlvHeader_short by lia.
    rewrite Hb, to_int32_small by (unfold int32; lia). do 2 f_equal.
    change (blen [_]) with 1. lia.
  - set (n := Z.to_nat (Z.log2 (blen body) / 8 + 1)).
    assert (0 < Z.of_nat n < 128) as Hn.
    { pose proof (Z.log2_nonneg (blen body)).
      assert (Z.log2 (blen body) < 1000) by (apply Z.log2_lt_pow2; lia).
      pose proof (Z.div_pos (Z.log2 (blen body)) 8 ltac:(lia) ltac:(lia)).
      assert (Z.log2 (blen body) / 8 < 126) by (apply Z.div_lt_upper_bound; lia). lia. }
    pose proof (readTlvHeader_long pre t (be n (blen body)) (body ++ post)) as Hr.
    rewrite blen_be, of_be_be in Hr by (split; [lia|apply length_bytes_enough; lia]).
    rewrite <-app_comm_cons, Hr by lia. do 2 f_equal. rewrite blen_cons, blen_be. lia.
Qed.

Lemma blen_der_tlv t body : blen (der_tlv t body) = 1 + blen (der_length (blen body)) + blen body.
Proof. unfold der_tlv. rewrite blen_cons, blen_app. lia. Qed.

Lemma tag_is_true h t : tag h = Some t → tag_is h t = true.
Proof. intros H. by apply bool_decide_eq_true_2. Qed.

(** A slice of a concatenation. *)
Lemma subarray_mid pre mid post :
  subarray (pre ++ mid ++ post) (Some (blen pre)) (Some (blen pre + blen mid)) = mid.
Proof.
  unfold subarray, clamp_index. simpl. pose proof (blen_nonneg pre). pose proof (blen_nonneg mid).
  rewrite !blen_app. pose proof (blen_nonneg post).
  rewrite !(proj2 (Z.ltb_ge _ 0)) by lia. rewrite !Z.min_l by lia.
  replace (Z.to_nat (blen pre)) with (length pre) by (unfold blen; lia).
  replace (Z.to_nat (blen pre + blen mid - blen pre)) with (length mid) by (unfold blen; lia).
  rewrite drop_app_length. by rewrite take_app_length.
Qed.

(** ** The extractors *)

(** An element read at its offset inside a buffer, its value sliced out. *)
Lemma read_value pre t body post :
  blen body < 2 ^ 31 →
  let buf := pre ++ der_tlv t body ++ post in
  let h := readTlvHeader buf (Some (blen pre)) in
  tag h = Some (b2z t) ∧ nan_add (valueOffset h) (tlv_length h) = Some (blen (pre ++ der_tlv t body)) ∧
  subarray buf (valueOffset h) (nan_add (valueOffset h) (tlv_length h)) = body.
Proof.
  intros Hb buf h. pose proof (blen_nonneg body).
  assert (2 ^ 31 < 2 ^ 1000) by (apply Z.pow_lt_mono_r; lia).
  assert (h = mkTlv (Some (b2z t)) (Some (blen body))
    (Some (blen (pre ++ t :: der_length (blen body))))) as Hh.
  { unfold h, buf. rewrite readTlvHeader_der by lia. f_equal.
    - by rewrite to_int32_small by (unfold int32; lia).
    - f_equal. rewrite blen_app, blen_cons. lia. }
  rewrite Hh. simpl. split_and!; [done| |].
  - f_equal. rewrite !blen_app, blen_der_tlv, blen_cons. lia.
  - replace buf with ((pre ++ t :: der_length (blen body)) ++ body ++ post).
    + apply subarray_mid.
    + unfold buf, der_tlv. by rewrite <-app_assoc, <-!app_comm_cons, <-app_assoc.
Qed.

(** The value's start, for a container whose content is parsed in place. *)
Lemma read_container t body post :
  blen body < 2 ^ 31 →
  let h := readTlvHeader (der_tlv t body ++ post) (Some 0) in
  tag h = Some (b2z t) ∧ valueOffset h = Some (blen (t :: der_length (blen body))).
Proof.
  intros Hb h. pose proof (blen_nonneg body).
  assert (2 ^ 31 < 2 ^ 1000) by (apply Z.pow_lt_mono_r; lia).
  pose proof (readTlvHeader_der [] t body post ltac:(lia)) as Hh.
  change (blen []) with 0 in Hh. rewrite app_nil_l in Hh. unfold h. rewrite Hh.
  split; [done|]. simpl. f_equal. rewrite blen_cons. lia.
Qed.

Lemma length_der_length n : 0 <= n < 2 ^ 31 → blen (der_length n) <= 5.
Proof.
  intros Hn. unfold der_length. destruct (Z.ltb_spec n 128); [by vm_compute|].
  rewrite blen_cons, blen_be. assert (Z.log2 n < 31) by (apply Z.log2_lt_pow2; lia).
  pose proof (Z.log2_nonneg n). assert (Z.log2 n / 8 < 4) by (apply Z.div_lt_upper_bound; lia).
  pose proof (Z.div_pos (Z.log2 n) 8 ltac:(lia) ltac:(lia)). lia.
Qed.

Lemma toPadded32_length raw bs : toPadded32 raw = Ok bs → length bs = 32%nat.
Proof.
  unfold toPadded32. set (b := if _ : bool then _ else raw).
  destruct (Z.ltb_spec 32 (blen b)) as [|Hle]; [done|]. intros [= <-].
  rewrite length_app, repeat_length. unfold blen in Hle. lia.
Qed.

(** Stripping leading zeros keeps the value; what is left has no leading zero. *)
Lemma strip_zeros_spec bs : of_be (strip_zeros bs) = of_be bs ∧ (length (strip_zeros bs) <= length bs)%nat.
Proof.
  induction bs as [|b bs [IH1 IH2]]; [done|].
  destruct b; try (split; [reflexivity|simpl; lia]).
  simpl strip_zeros. simpl length. split; [|lia]. by rewrite IH1, of_be_cons.
Qed.

Lemma toPadded32_value raw : of_be raw < 2 ^ 256 → (length raw <= 32)%nat ∨
    (length raw = 33%nat ∧ head raw = Some x00) →
  toPadded32 raw = Ok (be 32 (of_be raw)).
Proof.
  intros Hv Hl. unfold toPadded32, blen.
  set (b := if _ : bool then _ else raw).
  assert (of_be b = of_be raw ∧ (length b <= 32)%nat) as [Hb1 Hb2].
  { unfold b. destruct Hl as [Hl|[Hl Hh]].
    - destruct (Z.eqb_spec (Z.of_nat (length raw)) 33); [lia|done].
    - rewrite Hl, bool_decide_eq_true_2 by done. simpl.
      destruct raw as [|x raw]; [done|]. injection Hh as ->. simpl in Hl. simpl. rewrite drop_0. split; [|lia].
      by rewrite of_be_cons. }
  destruct (Z.ltb_spec 32 (Z.of_nat (length b))); [lia|]. f_equal.
  rewrite <-Hb1, <-(of_be_zeros (32 - length b)).
  replace 32%nat with (length (repeat x00 (32 - length b) ++ b)) at 2
    by (rewrite length_app, repeat_length; lia).
  by rewrite be_of_be.
Qed.

Lemma der_integer_body_spec n : 0 <= n < 2 ^ 256 →
  let raw := der_integer_body 32 n in
  of_be raw = n ∧ ((length raw <= 32)%nat ∨ (length raw = 33%nat ∧ head raw = Some x00)) ∧
  (1 <= length raw)%nat.
Proof.
  intros Hn raw. unfold raw, der_integer_body.
  destruct (strip_zeros_spec (be 32 n)) as [Hv Hl]. rewrite length_be in Hl.
  rewrite of_be_be in Hv by (exact Hn).
  destruct (strip_zeros (be 32 n)) as [|b bs] eqn:Hs.
  - split_and!; [exact Hv|left; simpl; lia|simpl; lia].
  - cbn [length] in Hl. destruct (128 <=? b2z b).
    + split_and!; [by rewrite of_be_cons| |cbn [length]; lia]. cbn [length].
      destruct (decide (length bs = 31%nat)); [right; split; [lia|done]|left; lia].
    + split_and!; [done|left; exact Hl|cbn [length]; lia].
Qed.

(** C24: Public keys round-trip: from the SubjectPublicKeyInfo of any 64-byte
    point, under any algorithm identifier, [publicKeyFromKmsDer] returns the
    point. *)
Theorem publicKeyFromKmsDer_spki (algorithm point : buffer) :
  blen algorithm < 2 ^ 30 → blen point = 64 →
  publicKeyFromKmsDer (spki algorithm point) = Ok point.
Proof.
  intros Ha Hp. unfold spki. set (bits := x00 :: x04 :: point).
  assert (blen bits = 66) as Hbits by (unfold bits; rewrite !blen_cons; lia).
  assert (blen (der_tlv x30 algorithm ++ der_tlv x03 bits) < 2 ^ 31) as Hlen.
  { rewrite blen_app, !blen_der_tlv, Hbits. change (blen (der_length 66)) with 1.
    pose proof (blen_nonneg algorithm). pose proof (length_der_length (blen algorithm)). lia. }
  set (body := der_tlv x30 algorithm ++ der_tlv x03 bits) in *.
  set (pre := x30 :: der_length (blen body)).
  assert (der_tlv x30 body = pre ++ der_tlv x30 algorithm ++ der_tlv x03 bits) as Hbuf.
  { unfold der_tlv at 1. unfold pre. by rewrite <-app_comm_cons. }
  unfold publicKeyFromKmsDer.
  destruct (read_container x30 body [] Hlen) as [Ht Ho]. rewrite app_nil_r in Ht, Ho.
  change (b2z x30) with 48 in Ht. fold pre in Ho. rewrite (tag_is_true _ _ Ht), Ho. cbn [negb].
  destruct (read_value pre x30 algorithm (der_tlv x03 bits) ltac:(lia)) as (_ & Hoff & _).
  rewrite Hbuf, Hoff. set (pre2 := pre ++ der_tlv x30 algorithm).
  replace (pre ++ der_tlv x30 algorithm ++ der_tlv x03 bits) with (pre2 ++ der_tlv x03 bits)
    by (unfold pre2; by rewrite <-app_assoc).
  pose proof (readTlvHeader_der pre2 x03 bits []) as Hh. rewrite app_nil_r, Hbits in Hh.
  rewrite Hh by (apply (Z.lt_trans _ (2 ^ 7)); [lia|by apply Z.pow_lt_mono_r]).
  rewrite tag_is_true by reflexivity. cbn [negb valueOffset].
  change (blen (der_length 66)) with 1. cbn [nan_add mbind option_bind].
  set (pre3 := pre2 ++ [x03; z2b 66; x00; x04]).
  replace (pre2 ++ der_tlv x03 bits) with (pre3 ++ point ++ []).
  2:{ unfold pre3. rewrite app_nil_r, <-app_assoc. f_equal. unfold der_tlv. by rewrite Hbits. }
  replace (blen pre2 + 1 + 1 + 2) with (blen pre3)
    by (unfold pre3; rewrite blen_app, !blen_cons; change (blen []) with 0; lia).
  rewrite <-Hp, subarray_mid, Z.eqb_refl. done.
Qed.

(** Two elements of any tag in a SEQUENCE are read as (r, s). *)
Lemma signature_of_elements (t1 t2 : byte) (rb sb : buffer) :
  blen rb < 2 ^ 29 → blen sb < 2 ^ 29 →
  signatureFromKmsDer (der_tlv x30 (der_tlv t1 rb ++ der_tlv t2 sb)) =
    (r ← toPadded32 rb; s ← toPadded32 sb; mret (r, s)).
Proof.
  intros Hrl Hsl. pose proof (blen_nonneg rb). pose proof (blen_nonneg sb).
  set (body := der_tlv t1 rb ++ der_tlv t2 sb).
  assert (blen body < 2 ^ 31) as Hlen.
  { unfold body. rewrite blen_app, !blen_der_tlv.
    pose proof (length_der_length (blen rb)). pose proof (length_der_length (blen sb)). lia. }
  set (pre := x30 :: der_length (blen body)).
  assert (der_tlv x30 body = pre ++ der_tlv t1 rb ++ der_tlv t2 sb) as Hbuf.
  { unfold der_tlv at 1. unfold pre. by rewrite <-app_comm_cons. }
  unfold signatureFromKmsDer.
  destruct (read_container x30 body [] Hlen) as [Ht Ho]. rewrite app_nil_r in Ht, Ho.
  change (b2z x30) with 48 in Ht. fold pre in Ho. rewrite (tag_is_true _ _ Ht), Ho. cbn [negb].
  destruct (read_value pre t1 rb (der_tlv t2 sb) ltac:(lia)) as (_ & Hoff & Hrr).
  rewrite Hbuf, Hoff in *. rewrite Hrr.
  set (pre2 := pre ++ der_tlv t1 rb) in *.
  assert (pre ++ der_tlv t1 rb ++ der_tlv t2 sb = pre2 ++ der_tlv t2 sb ++ []) as ->
    by (unfold pre2; by rewrite app_nil_r, <-app_assoc).
  destruct (read_value pre2 t2 sb [] ltac:(lia)) as (_ & _ & Hss). by rewrite Hss.
Qed.

(** The encoding of [r, s] reads back as both, in 32 bytes each. *)
Lemma signature_of_ecdsa (r s : Z) :
  0 <= r < 2 ^ 256 → 0 <= s < 2 ^ 256 →
  signatureFromKmsDer (ecdsa_sig r s) = Ok (be 32 r, be 32 s).
Proof.
  intros Hr Hs. unfold ecdsa_sig.
  destruct (der_integer_body_spec r Hr) as (Hr1 & Hr2 & _).
  destruct (der_integer_body_spec s Hs) as (Hs1 & Hs2 & _).
  rewrite signature_of_elements by (unfold blen; lia).
  rewrite (toPadded32_value (der_integer_body 32 r)) by (rewrite ?Hr1; first [apply Hr|exact Hr2]).
  rewrite (toPadded32_value (der_integer_body 32 s)) by (rewrite ?Hs1; first [apply Hs|exact Hs2]).
  by rewrite Hr1, Hs1.
Qed.

(** C7: Signatures round-trip: from the DER of any [r, s] below 2^256 the
    extractor returns two buffers of exactly 32 bytes that denote r and s,
    whether or not the encoding carried a sign byte or dropped leading
    zeros. *)
Theorem signatureFromKmsDer_roundtrip (r s : Z) :
  0 <= r < 2 ^ 256 → 0 <= s < 2 ^ 256 →
  ∃ rb sb, signatureFromKmsDer (ecdsa_sig r s) = Ok (rb, sb) ∧
    length rb = 32%nat ∧ length sb = 32%nat ∧ of_be rb = r ∧ of_be sb = s.
Proof.
  intros Hr Hs. exists (be 32 r), (be 32 s). rewrite !length_be, !of_be_be by (exact Hr || exact Hs).
  split_and!; [by apply signature_of_ecdsa|done..].
Qed.

(** C35: The header reader's arithmetic.  Whatever the buffer and wherever it
    reads, the length is [undefined] or a signed 32-bit integer; for a
    long-form header of [n] length bytes it is their big-endian value wrapped
    to 32 bits, hence the encoded length exactly when that is below 2^31. *)
Theorem readTlvHeader_length (pre lb post : buffer) (t : byte) (offset : option Z) :
  0 < blen lb < 128 →
  (∀ buf l, tlv_length (readTlvHeader buf offset) = Some l → int32 l) ∧
  (let h := readTlvHeader (pre ++ t :: z2b (128 + blen lb) :: lb ++ post) (Some (blen pre)) in
   h = mkTlv (Some (b2z t)) (Some (to_int32 (of_be lb))) (Some (blen pre + 2 + blen lb)) ∧
   (tlv_length h = Some (of_be lb) ↔ of_be lb < 2 ^ 31)).
Proof.
  intros Hn. split.
  - intros buf l. unfold readTlvHeader. destruct (_ =? 0); simpl tlv_length.
    + unfold byte_at. intros (i & _ & H)%bind_Some. destruct (0 <=? i); [|done].
      apply fmap_Some in H as (b & _ & ->). pose proof (b2z_range b). unfold int32. lia.
    + intros [= <-]. unfold long_length.
      destruct (seqZ 0 _) as [|i il] using rev_ind; [by unfold int32|].
      rewrite foldl_snoc, shift_in_spec; [apply to_int32_range|].
      unfold byte_at. destruct (nan_add _ _) as [k|]; simpl; [|lia].
      destruct (0 <=? k); [|simpl; lia]. destruct (buf !! _) as [b|]; simpl; [apply b2z_range|lia].
  - intros h. assert (h = mkTlv (Some (b2z t)) (Some (to_int32 (of_be lb))) (Some (blen pre + 2 + blen lb)))
      as Hh by (apply readTlvHeader_long; lia).
    split; [done|]. rewrite Hh. simpl. pose proof (of_be_range lb). split.
    + intros [= H']. pose proof (to_int32_range (of_be lb)) as Hr. rewrite H' in Hr. apply Hr.
    + intros H'. by rewrite to_int32_small by (unfold int32; lia).
Qed.

Lemma Ok_inj {A} (a b : A) : Ok a = Ok b → a = b.
Proof. by intros [= ->]. Qed.

Lemma signature_inv der r s :
  signatureFromKmsDer der = Ok (r, s) → ∃ a b, toPadded32 a = Ok r ∧ toPadded32 b = Ok s.
Proof.
  unfold signatureFromKmsDer. destruct (negb _); [done|].
  match goal with |- (toPadded32 ?a ≫= λ _, toPadded32 ?b ≫= _) = _ → _ =>
    destruct (toPadded32 a) as [r'|] eqn:Hr; [|done]; cbn [mbind outcome_bind];
    destruct (toPadded32 b) as [s'|] eqn:Hs; [|done]; intros [= <- <-]; by exists a, b
  end.
Qed.

(** Fixed widths.  On any bytes whatever, a key the extractor returns has
    64 bytes and a signature two halves of 32: nothing shorter or longer
    reaches the signer. *)
Theorem extractors_fixed_width (der : buffer) :
  (∀ point, publicKeyFromKmsDer der = Ok point → length point = 64%nat) ∧
  (∀ r s, signatureFromKmsDer der = Ok (r, s) →
    length r = 32%nat ∧ length s = 32%nat ∧ of_be r < 2 ^ 256 ∧ of_be s < 2 ^ 256).
Proof.
  split.
  - intros point. unfold publicKeyFromKmsDer. destruct (negb (tag_is _ 48)); [done|].
    destruct (negb (tag_is _ 3)); [done|].
    match goal with |- (if negb (blen ?p =? 64) then _ else _) = _ → _ => 
      set (q := p); destruct (Z.eqb_spec (blen q) 64) as [Hq|]; [|done] end.
    clearbody q. cbn [negb]. intros H%Ok_inj. subst point. by apply Nat2Z.inj.
  - intros r s (a & b & Hr & Hs)%signature_inv. apply toPadded32_length in Hr, Hs.
    pose proof (of_be_range r) as [_ Hrr]. pose proof (of_be_range s) as [_ Hss].
    rewrite Hr in Hrr. rewrite Hs in Hss. split_and!; [exact Hr|exact Hs|exact Hrr|exact Hss].
Qed.

(** What the signature reader does not check.  Any two elements in a
    SEQUENCE are taken for r and s, whatever their tags, and the single byte
    0x30 is accepted as the signature (0, 0). *)
Theorem signatureFromKmsDer_lenient (t1 t2 : byte) (rb sb : buffer) :
  (length rb <= 32)%nat → (length sb <= 32)%nat →
  signatureFromKmsDer (der_tlv x30 (der_tlv t1 rb ++ der_tlv t2 sb)) =
    Ok (be 32 (of_be rb), be 32 (of_be sb)) ∧
  signatureFromKmsDer [x30] = Ok (be 32 0, be 32 0).
Proof.
  intros Hr Hs. split; [|reflexivity].
  assert (∀ b, (length b <= 32)%nat → of_be b < 2 ^ 256) as Hlt.
  { intros b Hb. pose proof (of_be_range b) as [_ Hlt]. eapply Z.lt_le_trans; [exact Hlt|].
    change (2 ^ 256) with (256 ^ 32). apply Z.pow_le_mono_r; lia. }
  rewrite signature_of_elements by (unfold blen; lia).
  by rewrite !toPadded32_value by (first [by apply Hlt|by left]).
Qed.

(** ** Witnesses *)

(** id-ecPublicKey and secp256k1, as KMS sends them; the points 0, 1, ..., 63. *)
Definition secp256k1_algorithm : buffer :=
  [x06; x07; x2a; x86; x48; xce; x3d; x02; x01; x06; x05; x2b; x81; x04; x00; x0a].
Definition counting_point : buffer := z2b <$> seqZ 0 64.

Lemma publicKeyFromKmsDer_spki_witness :
  blen (spki secp256k1_algorithm counting_point) = 88 ∧
  publicKeyFromKmsDer (spki secp256k1_algorithm counting_point) = Ok counting_point.
Proof.
  split; [vm_compute; reflexivity|].
  apply (publicKeyFromKmsDer_spki secp256k1_algorithm counting_point); vm_compute; reflexivity.
Defined.

Lemma signatureFromKmsDer_roundtrip_witness :
  blen (ecdsa_sig (2 ^ 255) 291) = 41 ∧
  ∃ rb sb, signatureFromKmsDer (ecdsa_sig (2 ^ 255) 291) = Ok (rb, sb) ∧
    length rb = 32%nat ∧ length sb = 32%nat ∧ of_be rb = 2 ^ 255 ∧ of_be sb = 291.
Proof.
  split; [vm_compute; reflexivity|].
  apply (signatureFromKmsDer_roundtrip (2 ^ 255) 291); split; vm_compute; first [reflexivity|discriminate].
Defined.

Lemma readTlvHeader_length_witness :
  tlv_length (readTlvHeader (x30 :: x84 :: x80 :: x00 :: x00 :: x00 :: []) (Some 0)) = Some (- 2 ^ 31) ∧
  readTlvHeader ([] ++ x30 :: z2b (128 + blen [x01; x00]) :: [x01; x00] ++ []) (Some (blen [])) =
    mkTlv (Some (b2z x30)) (Some (to_int32 (of_be [x01; x00]))) (Some (blen [] + 2 + blen [x01; x00])).
Proof.
  split; [vm_compute; reflexivity|].
  apply (readTlvHeader_length [] [x01; x00] [] x30 (Some 0)). vm_compute. split; reflexivity.
Defined.

Lemma signatureFromKmsDer_lenient_witness :
  signatureFromKmsDer (der_tlv x30 (der_tlv x04 [x05] ++ der_tlv xff [x07])) =
    Ok (be 32 (of_be [x05]), be 32 (of_be [x07])) ∧
  signatureFromKmsDer [x30] = Ok (be 32 0, be 32 0).
Proof. apply (signatureFromKmsDer_lenient x04 xff [x05] [x07]); vm_compute; lia. Defined.
