(* ===== verification/KmsSigner.v ===== *)
(** * safe-ops/src/kmsSigner.js: an Ethereum signer backed by KMS

    The signer's state is its cached address; every call to KMS is recorded
    in [requests].  KMS and ethers are parameters ([Services]): what they
    answer, call by call, is arbitrary, and the theorems that need more name
    it ([EcdsaLaws]). *)

From S2P Require Import Prelude JsValue Buffer DerUtils.
From Stdlib Require Import Strings.Byte Strings.Ascii.

Definition SECP256K1_N : Z := 0xFFFFFFFFFFFFFFFFFFFFFFFFFFFFFFFEBAAEDCE6AF48A03BBFD25E8CD0364141.
Definition SECP256K1_HALF_N : Z := SECP256K1_N / 2.

(** ** The services *)

(** The commands sent to KMS; a key id is [undefined] when a caller indexes
    its list of keys out of range. *)
Inductive KmsRequest :=
  | GetPublicKeyCommand (KeyId : option string)
  | SignCommand (KeyId : option string) (Message : buffer) (MessageType SigningAlgorithm : string).

(** An ethers [Signature]. *)
Record Sig := mkSig { sig_r : string; sig_s : string; sig_v : Z }.

Record Services := mkServices {
  (** KMS's answer to the n-th command: the DER of a key or a signature. *)
  kms_send : nat → KmsRequest → option buffer;
  computeAddress : string → outcome string;
  Signature_from : Sig → outcome Sig;
  recoverAddress : string → Sig → outcome string;
  serialized : Sig → string;
  hashMessage : string + buffer → outcome string;   (** text or bytes *)
  TypedDataEncoder_hash : jsval → jsval → jsval → outcome string;
  (** [resolveProperties(copyRequest(tx))] *)
  resolveRequest : jsval → outcome (list (string * jsval));
  (** [keccak256(Transaction.from(tx).unsignedSerialized)], and
      [.serialized] once the signature is set *)
  unsigned_digest : jsval → outcome string;
  signed_serialized : jsval → Sig → string;
}.

Record KmsWorld := mkKms {
  kms_clock : nat;
  requests : list KmsRequest;
  cachedAddress : option string;          (** [_cachedAddress]; [None]: [null] *)
}.

Definition set_cachedAddress (a : string) (w : KmsWorld) : KmsWorld :=
  mkKms (kms_clock w) (requests w) (Some a).

(** ** The signer *)
Section signer.
Context (S : Services) (keyId : option string).

(** [this.kmsClient.send(command)] *)
Definition send (c : KmsRequest) : Js KmsWorld buffer := λ w,
  let w' := mkKms (Datatypes.S (kms_clock w)) (requests w ++ [c]) (cachedAddress w) in
  match kms_send S (kms_clock w) c with
  | Some der => (Ok der, w')
  | None => (Throw (ServiceError "kms"), w')
  end.

(** [if (this._cachedAddress)]: a string that is not empty. *)
Definition cached (w : KmsWorld) : option string :=
  match cachedAddress w with
  | Some a => if bool_decide (a = "") then None else Some a
  | None => None
  end.

Definition getAddress : Js KmsWorld string :=
  w ← get;
  match cached w with
  | Some a => mret a
  | None =>
      response ← send (GetPublicKeyCommand keyId);
      rawPoint ← lift (publicKeyFromKmsDer response);
      address ← lift (computeAddress S ("0x04" +:+ hex_of rawPoint));
      modify (set_cachedAddress address) ;;
      mret address
  end.

(** [connect(provider)]: a new signer over the same client and key, with
    nothing cached yet; the provider only serves ethers. *)
Definition connect (w : KmsWorld) : KmsWorld := mkKms (kms_clock w) (requests w) None.

(** The loop [for (const recoveryId of [0, 1])]. *)
Fixpoint try_recovery (ids : list Z) (digestHex rHex sHex expectedAddress : string) : outcome Z :=
  match ids with
  | [] => Throw (JsError
      "Could not determine a valid recovery id — signature does not match this signer's address")
  | recoveryId :: ids =>
      candidateSignature ← Signature_from S (mkSig rHex sHex (27 + recoveryId));
      recovered ← recoverAddress S digestHex candidateSignature;
      if bool_decide (lower recovered = lower expectedAddress) then Ok recoveryId
      else try_recovery ids digestHex rHex sHex expectedAddress
  end.
Definition _findRecoveryId := try_recovery [0; 1].

(** [if (s > HALF_N) s = N - s] *)
Definition normalize_s (s : Z) : Z := if SECP256K1_HALF_N <? s then SECP256K1_N - s else s.

(** ['0x' + s.toString(16).padStart(64, '0')] *)
Definition s_hex (s : Z) : string := "0x" +:+ padStart 64 "0"%char (toString16 s).

Definition _signDigest (digestHex : string) : Js KmsWorld Sig :=
  let digestBytes := bytes_of_hex (slice2 digestHex) in
  if negb (blen digestBytes =? 32) then
    throw (JsError ("_signDigest expects a 32-byte digest, got " +:+ dec (blen digestBytes) +:+ " bytes"))
  else
    response ← send (SignCommand keyId digestBytes "DIGEST" "ECDSA_SHA_256");
    rs ← lift (signatureFromKmsDer response);
    match bigint_of_hex (hex_of rs.2) with
    | None => throw (JsError "SyntaxError: Cannot convert 0x to a BigInt")
    | Some sRaw =>
        let sHex := s_hex (normalize_s sRaw) in
        let rHex := "0x" +:+ hex_of rs.1 in
        address ← getAddress;
        recoveryId ← lift (_findRecoveryId digestHex rHex sHex address);
        lift (Signature_from S (mkSig rHex sHex (27 + recoveryId)))
    end.

Definition signMessage (message : string + buffer) : Js KmsWorld string :=
  digest ← lift (hashMessage S message);
  signature ← _signDigest digest;
  mret (serialized S signature).

Definition signTypedData (domain types value : jsval) : Js KmsWorld string :=
  digest ← lift (TypedDataEncoder_hash S domain types value);
  signature ← _signDigest digest;
  mret (serialized S signature).

(** [delete resolvedTx.from], when it is neither null nor undefined *)
Definition without_from (fields : list (string * jsval)) : list (string * jsval) :=
  match assoc "from" fields with
  | Some VUndef | Some VNull | None => fields
  | Some _ => filter (λ kv, kv.1 ≠ "from") fields
  end.

Definition signTransaction (tx : jsval) : Js KmsWorld string :=
  resolvedTx ← lift (resolveRequest S tx);
  let unsignedTx := VObj (without_from resolvedTx) in
  digest ← lift (unsigned_digest S unsignedTx);
  signature ← _signDigest digest;
  mret (signed_serialized S unsignedTx signature).
End signer.

(** ** The theorems' vocabulary *)

(** A signature in the form the signer submits: [rb] and [s] in 64 digits. *)
Definition sig_of (rb : buffer) (s v : Z) : Sig := mkSig ("0x" +:+ hex_of rb) (s_hex s) v.

(** The commands the signer of [keyId] may send. *)
Inductive own_request (keyId : option string) : KmsRequest → Prop :=
  | own_key : own_request keyId (GetPublicKeyCommand keyId)
  | own_sign m : length m = 32%nat → own_request keyId (SignCommand keyId m "DIGEST" "ECDSA_SHA_256").

(** The signer's public operations. *)
Inductive SignerOp :=
  | OpGetAddress
  | OpSignMessage (message : string + buffer)
  | OpSignTypedData (domain types value : jsval)
  | OpSignTransaction (tx : jsval).

Definition run_op (S : Services) (keyId : option string) (op : SignerOp) : Js KmsWorld string :=
  match op with
  | OpGetAddress => getAddress S keyId
  | OpSignMessage m => signMessage S keyId m
  | OpSignTypedData d t v => signTypedData S keyId d t v
  | OpSignTransaction tx => signTransaction S keyId tx
  end.

(** The digest ethers computes for an operation. *)
Definition op_digest (S : Services) (op : SignerOp) : outcome string :=
  match op with
  | OpGetAddress => Throw (JsError "no digest")
  | OpSignMessage m => hashMessage S m
  | OpSignTypedData d t v => TypedDataEncoder_hash S d t v
  | OpSignTransaction tx =>
      resolved ← resolveRequest S tx; unsigned_digest S (VObj (without_from resolved))
  end.

Section signer_props.
Context (S : Services) (keyId : option string).

Lemma normalize_s_low s : normalize_s s <= SECP256K1_HALF_N.
Proof.
  unfold normalize_s. destruct (Z.ltb_spec SECP256K1_HALF_N s) as [H|H]; [|done].
  assert (SECP256K1_N = 2 * SECP256K1_HALF_N + 1) by reflexivity. lia.
Qed.
Lemma normalize_s_range s : 0 < s < SECP256K1_N → 0 < normalize_s s < SECP256K1_N.
Proof. unfold normalize_s. destruct (Z.ltb_spec SECP256K1_HALF_N s); lia. Qed.

Lemma cached_set a w : a ≠ "" → cached (set_cachedAddress a w) = Some a.
Proof. intros H. unfold cached. simpl. by rewrite bool_decide_eq_false_2. Qed.

Lemma getAddress_cached a w : cached w = Some a → getAddress S keyId w = (Ok a, w).
Proof. intros H. unfold getAddress. rewrite bind_get. by rewrite H. Qed.

(** What a successful [getAddress] did. *)
Lemma getAddress_ok_inv w a w' :
  getAddress S keyId w = (Ok a, w') →
  cachedAddress w' = Some a ∧
  requests w' = requests w ++ match cached w with Some _ => [] | None => [GetPublicKeyCommand keyId] end.
Proof.
  unfold getAddress. rewrite bind_get. destruct (cached w) as [c|] eqn:Hc.
  - intros [= <- <-]. rewrite app_nil_r. split; [|done]. unfold cached in Hc.
    destruct (cachedAddress w) as [x|]; [|done]. case_bool_decide; by simplify_eq.
  - intros H. apply bind_ok_inv in H as (der & w1 & H1 & H).
    apply bind_ok_inv in H as (p & w2 & H2 & H). injection H2 as Hp <-.
    apply bind_ok_inv in H as (x & w3 & H3 & H). injection H3 as Hx <-.
    rewrite bind_modify in H. injection H as <- <-. simpl. split; [done|].
    unfold send in H1. destruct (kms_send _ _ _); by simplify_eq/=.
Qed.

(** What [getAddress] sends, however it ends. *)
Lemma getAddress_requests w :
  requests (getAddress S keyId w).2 =
    requests w ++ match cached w with Some _ => [] | None => [GetPublicKeyCommand keyId] end.
Proof.
  unfold getAddress. rewrite bind_get. destruct (cached w); [by rewrite app_nil_r|].
  rewrite bind_run. unfold send. destruct (kms_send _ _ _) as [der|]; [|done].
  rewrite bind_run. unfold lift at 1. destruct (publicKeyFromKmsDer der) as [p|]; [|done].
  rewrite bind_run. unfold lift. by destruct (computeAddress _ _).
Qed.

(** The address comes from KMS's public key when none was cached. *)
Lemma getAddress_fresh_inv w a w' :
  cached w = None → getAddress S keyId w = (Ok a, w') →
  ∃ n der p, kms_send S n (GetPublicKeyCommand keyId) = Some der ∧
    publicKeyFromKmsDer der = Ok p ∧ computeAddress S ("0x04" +:+ hex_of p) = Ok a.
Proof.
  intros Hc. unfold getAddress. rewrite bind_get, Hc. intros H.
  apply bind_ok_inv in H as (der & w1 & H1 & H). unfold send in H1.
  destruct (kms_send S (kms_clock w) _) as [d|] eqn:Hd; [|done]. injection H1 as -> <-.
  apply bind_ok_inv in H as (p & w2 & H2 & H). injection H2 as Hp <-.
  apply bind_ok_inv in H as (x & w3 & H3 & H). injection H3 as Hx <-.
  rewrite bind_modify in H. injection H as <- _. eauto 10.
Qed.

Lemma try_recovery_ok ids d r s a v :
  try_recovery S ids d r s a = Ok v →
  v ∈ ids ∧ ∃ c rec, Signature_from S (mkSig r s (27 + v)) = Ok c ∧
    recoverAddress S d c = Ok rec ∧ lower rec = lower a.
Proof.
  induction ids as [|i ids IH]; [done|]. simpl.
  destruct (Signature_from S (mkSig r s (27 + i))) as [c|] eqn:Hc; simpl; [|by intros ?].
  destruct (recoverAddress S d c) as [rec|] eqn:Hr; simpl; [|by intros ?]. case_bool_decide as Hl.
  - intros [= <-]. split; [left|]. by exists c, rec.
  - intros [? ?]%IH. split; [by right|done].
Qed.

Lemma try_recovery_some ids d r s a :
  (∀ v, v ∈ ids → ∃ c rec, Signature_from S (mkSig r s (27 + v)) = Ok c ∧ recoverAddress S d c = Ok rec) →
  (∃ v c rec, v ∈ ids ∧ Signature_from S (mkSig r s (27 + v)) = Ok c ∧
    recoverAddress S d c = Ok rec ∧ lower rec = lower a) →
  ∃ v, try_recovery S ids d r s a = Ok v.
Proof.
  induction ids as [|i ids IH]; intros Hall (v & c & rec & Hin & Hc & Hr & Hl);
    [by apply elem_of_nil in Hin|]. simpl.
  destruct (Hall i ltac:(left)) as (ci & ri & Hci & Hri). rewrite Hci. simpl. rewrite Hri. simpl.
  case_bool_decide as Hm; [by exists i|].
  apply IH; [intros x Hx; apply Hall; by right|].
  apply elem_of_cons in Hin as [->|Hin]; [congruence|]. eauto 10.
Qed.

(** A run of [_signDigest] that returned. *)
Lemma signDigest_ok_inv d w sig w' :
  _signDigest S keyId d w = (Ok sig, w') →
  let m := bytes_of_hex (slice2 d) in
  length m = 32%nat ∧
  requests w' = requests w ++ SignCommand keyId m "DIGEST" "ECDSA_SHA_256" ::
    match cached w with Some _ => [] | None => [GetPublicKeyCommand keyId] end ∧
  ∃ a rb sb v rec, cachedAddress w' = Some a ∧ length rb = 32%nat ∧ length sb = 32%nat ∧
    (v = 0 ∨ v = 1) ∧ Signature_from S (sig_of rb (normalize_s (of_be sb)) (27 + v)) = Ok sig ∧
    recoverAddress S d sig = Ok rec ∧ lower rec = lower a.
Proof.
  unfold _signDigest. set (m := bytes_of_hex (slice2 d)).
  destruct (Z.eqb_spec (blen m) 32) as [Hm|]; [|done]. cbn [negb]. intros H.
  apply bind_ok_inv in H as (der & w1 & H1 & H).
  apply bind_ok_inv in H as ([rb sb] & w2 & H2 & H). injection H2 as Hrs <-.
  apply signature_inv in Hrs as (x & y & Hr%toPadded32_length & Hs%toPadded32_length). simpl in H.
  rewrite bigint_of_hex_of in H by (by intros ->).
  apply bind_ok_inv in H as (a & w2 & H2 & H).
  apply bind_ok_inv in H as (v & w3 & H3 & H). injection H3 as Hv <-. injection H as Hsig <-.
  apply try_recovery_ok in Hv as (Hin & c & rec & Hc & Hrec & Hl).
  apply getAddress_ok_inv in H2 as [Ha Hreq].
  assert (requests w1 = requests w ++ [SignCommand keyId m "DIGEST" "ECDSA_SHA_256"] ∧
    cached w1 = cached w) as [Hw1 Hcw].
  { unfold send in H1. destruct (kms_send _ _ _); by simplify_eq/=. }
  split_and!; [by apply Nat2Z.inj|by rewrite Hreq, Hw1, Hcw, <-app_assoc|].
  exists a, rb, sb, v, rec. split_and!; try done; [|congruence].
  apply elem_of_cons in Hin as [->|Hin]; [by left|]. apply list_elem_of_singleton in Hin. by right.
Qed.
End signer_props.

(** ** The laws of ECDSA recovery, and completeness *)

(** [valid m r s]: (r, s) is an ECDSA signature of the 32 bytes [m] under the
    key [keyId], whose address is [address].  KMS signs what it is given and
    keeps serving the same key; (r, N - s) is valid when (r, s) is; ethers
    accepts a canonical signature with either recovery id, recovers some
    address from it, and with one of the two the signer's. *)
Record EcdsaLaws (S : Services) (keyId : option string) (address : string) (valid : buffer → Z → Z → Prop) : Prop := {
  el_key n : ∃ der p, kms_send S n (GetPublicKeyCommand keyId) = Some der ∧
    publicKeyFromKmsDer der = Ok p ∧ computeAddress S ("0x04" +:+ hex_of p) = Ok address;
  el_sign n m : length m = 32%nat → ∃ r s, valid m r s ∧
    kms_send S n (SignCommand keyId m "DIGEST" "ECDSA_SHA_256") = Some (ecdsa_sig r s);
  el_range m r s : valid m r s → 0 < r < SECP256K1_N ∧ 0 < s < SECP256K1_N;
  el_negate m r s : valid m r s → valid m r (SECP256K1_N - s);
  el_canonical m r s v : valid m r s → s <= SECP256K1_HALF_N → v ∈ [0; 1] →
    Signature_from S (sig_of (be 32 r) s (27 + v)) = Ok (sig_of (be 32 r) s (27 + v));
  el_total d r s v : valid (bytes_of_hex (slice2 d)) r s → s <= SECP256K1_HALF_N → v ∈ [0; 1] →
    ∃ a, recoverAddress S d (sig_of (be 32 r) s (27 + v)) = Ok a;
  el_recover d r s : valid (bytes_of_hex (slice2 d)) r s → s <= SECP256K1_HALF_N →
    ∃ v, v ∈ [0; 1] ∧ recoverAddress S d (sig_of (be 32 r) s (27 + v)) = Ok address;
}.

Lemma normalize_valid S keyId address valid m r s :
  EcdsaLaws S keyId address valid → valid m r s → valid m r (normalize_s s).
Proof.
  intros L H. unfold normalize_s. destruct (_ <? _); [by apply (el_negate _ _ _ _ L)|done].
Qed.

(** What the signature's [s] text denotes. *)
Lemma s_hex_spec s : 0 <= s < 2 ^ 256 →
  strlen (s_hex s) = 66 ∧ bigint_of_hex (slice2 (s_hex s)) = Some s.
Proof.
  intros Hs. destruct (padded_hex s Hs) as (Hl & Hv & _). unfold s_hex. split; [|done].
  unfold strlen in *. rewrite length_append. change (String.length "0x") with 2%nat. lia.
Qed.

Lemma getAddress_complete S keyId address valid w :
  EcdsaLaws S keyId address valid → cached w = None ∨ cached w = Some address →
  ∃ w', getAddress S keyId w = (Ok address, w').
Proof.
  intros L [Hc|Hc]; [|eexists; by apply getAddress_cached].
  unfold getAddress. rewrite bind_get, Hc. rewrite bind_run. unfold send.
  destruct (el_key _ _ _ _ L (kms_clock w)) as (der & p & -> & Hp & Ha).
  rewrite Hp, bind_lift_ok, Ha. by eexists.
Qed.

(** A connected copy has the address of the signer it was made from. *)
Lemma connect_address S keyId address valid w : EcdsaLaws S keyId address valid →
  ∃ w', getAddress S keyId (connect w) = (Ok address, w').
Proof. intros L. apply (getAddress_complete S keyId address valid); [done|by left]. Qed.

(** C6: Sound signing.  Whatever KMS and ethers answer, a signature that
    [_signDigest] returns was obtained from one SignCommand with MessageType
    DIGEST over exactly the 32 bytes of the digest, has s at most half the
    curve order, and recovers to the signer's own address; at most one other
    command was sent, to read the public key. *)
Theorem signDigest_sound (S : Services) (keyId : option string) (d : string) (w : KmsWorld) (sig : Sig) (w' : KmsWorld) :
  _signDigest S keyId d w = (Ok sig, w') →
  let m := bytes_of_hex (slice2 d) in
  length m = 32%nat ∧
  requests w' = requests w ++ SignCommand keyId m "DIGEST" "ECDSA_SHA_256" ::
    match cached w with Some _ => [] | None => [GetPublicKeyCommand keyId] end ∧
  ∃ a rb s v rec, cachedAddress w' = Some a ∧ length rb = 32%nat ∧ s <= SECP256K1_HALF_N ∧
    (v = 0 ∨ v = 1) ∧ Signature_from S (sig_of rb s (27 + v)) = Ok sig ∧
    recoverAddress S d sig = Ok rec ∧ lower rec = lower a.
Proof.
  intros (Hm & Hreq & a & rb & sb & v & rec & Ha & Hrb & _ & Hv & Hc & Hrec & Hl)%signDigest_ok_inv.
  split_and!; [done|done|].
  exists a, rb, (normalize_s (of_be sb)), v, rec.
  split_and!; [exact Ha|exact Hrb|apply normalize_s_low|exact Hv|exact Hc|exact Hrec|exact Hl].
Qed.

(** C23: Complete signing.  When KMS signs with the key its public-key command
    serves and recovery obeys the ECDSA laws, signing any 32-byte digest
    succeeds, also when KMS returns a high s: the result is the low-s
    signature in 66 characters, and recovers to the signer's address. *)
Theorem signDigest_complete (S : Services) (keyId : option string) (address d : string)
    (valid : buffer → Z → Z → Prop) (w : KmsWorld) :
  EcdsaLaws S keyId address valid →
  cached w = None ∨ cached w = Some address →
  length (bytes_of_hex (slice2 d)) = 32%nat →
  ∃ sig w' s rec, _signDigest S keyId d w = (Ok sig, w') ∧
    recoverAddress S d sig = Ok rec ∧ lower rec = lower address ∧
    strlen (sig_s sig) = 66 ∧ bigint_of_hex (slice2 (sig_s sig)) = Some s ∧
    0 < s <= SECP256K1_HALF_N ∧ (sig_v sig = 27 ∨ sig_v sig = 28).
Proof.
  intros L Hc Hm. unfold _signDigest. set (m := bytes_of_hex (slice2 d)) in *.
  assert ((blen m =? 32) = true) as -> by (apply Z.eqb_eq; unfold blen; by rewrite Hm). cbn [negb].
  rewrite bind_run. unfold send at 1.
  destruct (el_sign _ _ _ _ L (kms_clock w) m Hm) as (r & s & Hv & ->).
  destruct (el_range _ _ _ _ L m r s Hv) as [Hr Hs].
  assert (SECP256K1_N < 2 ^ 256) as HN by reflexivity.
  rewrite signature_of_ecdsa by lia. rewrite bind_lift_ok. cbn [fst snd].
  rewrite bigint_of_hex_of, of_be_be by (try lia; by intros ?%(f_equal length)).
  destruct (getAddress_complete S keyId address valid (mkKms (Datatypes.S (kms_clock w))
    (requests w ++ [SignCommand keyId m "DIGEST" "ECDSA_SHA_256"]) (cachedAddress w)) L Hc) as (w2 & H2).
  rewrite (bind_ok _ _ _ _ _ H2).
  pose proof (normalize_valid _ _ _ _ _ _ _ L Hv) as Hv'.
  pose proof (normalize_s_low s) as Hlow. pose proof (normalize_s_range s Hs) as Hrange.
  set (s' := normalize_s s) in *.
  change (mkSig ("0x" +:+ hex_of (be 32 r)) (s_hex s')) with (sig_of (be 32 r) s').
  destruct (try_recovery_some S [0; 1] d ("0x" +:+ hex_of (be 32 r)) (s_hex s') address) as [v Hrec].
  - intros v Hin. destruct (el_total _ _ _ _ L d r s' v Hv' Hlow Hin) as [a Ha].
    eexists _, a. split; [by apply (el_canonical _ _ _ _ L m)|exact Ha].
  - destruct (el_recover _ _ _ _ L d r s' Hv' Hlow) as (v & Hin & Ha).
    exists v. eexists _, address. split_and!; [done|by apply (el_canonical _ _ _ _ L m)|exact Ha|done].
  - unfold _findRecoveryId. rewrite Hrec, bind_lift_ok.
    apply try_recovery_ok in Hrec as (Hin & c & rec & Hc' & Hr' & Hl').
    pose proof (el_canonical _ _ _ _ L m r s' v Hv' Hlow Hin) as Hcan.
    rewrite Hcan. change (mkSig _ _ _) with (sig_of (be 32 r) s' (27 + v)) in Hc'.
    rewrite Hcan in Hc'. injection Hc' as <-.
    destruct (s_hex_spec s' ltac:(lia)) as [Hlen Hval].
    eexists _, w2, s', rec. split_and!; [reflexivity|exact Hr'|exact Hl'|exact Hlen|exact Hval|apply Hrange|exact Hlow|].
    cbn [sig_v].
    apply elem_of_cons in Hin as [->|Hin]; [by left|]. apply list_elem_of_singleton in Hin as ->. by right.
Qed.

(** How any operation moves the world. *)
Definition sends_own (keyId : option string) (w w' : KmsWorld) : Prop :=
  ∃ new, requests w' = requests w ++ new ∧ Forall (own_request keyId) new ∧
    ∀ a, cached w = Some a → cached w' = Some a ∧ GetPublicKeyCommand keyId ∉ new.

#[global] Instance sends_own_preorder keyId : PreOrder (sends_own keyId).
Proof.
  split.
  - intros w. exists []. rewrite app_nil_r. split_and!; [done|constructor|].
    intros a Ha. split; [done|apply not_elem_of_nil].
  - intros w1 w2 w3 (n1 & H1 & F1 & C1) (n2 & H2 & F2 & C2). exists (n1 ++ n2).
    rewrite H2, H1, app_assoc. split_and!; [done|by apply Forall_app|].
    intros a Ha. destruct (C1 a Ha) as [Ha2 N1]. destruct (C2 a Ha2) as [Ha3 N2].
    split; [done|]. by rewrite not_elem_of_app.
Qed.

Lemma getAddress_sends_own S keyId : moves (sends_own keyId) (getAddress S keyId).
Proof.
  intros w. destruct (cached w) as [a|] eqn:Hc; [by rewrite (getAddress_cached S keyId a)|].
  exists [GetPublicKeyCommand keyId]. split_and!; [|by repeat constructor|congruence].
  unfold getAddress. rewrite bind_get, Hc, bind_run. unfold send.
  destruct (kms_send _ _ _) as [der|]; [|done]. rewrite bind_run. unfold lift at 1.
  destruct (publicKeyFromKmsDer der) as [p|]; [|done]. rewrite bind_run. unfold lift.
  by destruct (computeAddress _ _).
Qed.

Lemma signDigest_sends_own S keyId d : moves (sends_own keyId) (_signDigest S keyId d).
Proof.
  unfold _signDigest. set (m := bytes_of_hex (slice2 d)).
  destruct (Z.eqb_spec (blen m) 32) as [Hm|]; cbn [negb]; [|solve_moves].
  apply moves_bind; [apply _| |intros der].
  { intros w. exists [SignCommand keyId m "DIGEST" "ECDSA_SHA_256"].
    unfold send. destruct (kms_send _ _ _); cbn; (split_and!; [done| |]);
      try (constructor; [constructor; by apply Nat2Z.inj|constructor]);
      intros a Ha; (split; [exact Ha|]); by rewrite list_elem_of_singleton. }
  apply moves_bind; [apply _|solve_moves|intros [r s]]. destruct (bigint_of_hex _); [|solve_moves].
  apply moves_bind; [apply _|apply getAddress_sends_own|intros a]. solve_moves.
Qed.

Lemma run_op_sends_own S keyId op : moves (sends_own keyId) (run_op S keyId op).
Proof.
  pose proof (getAddress_sends_own S keyId). pose proof (signDigest_sends_own S keyId).
  destruct op; unfold run_op, signMessage, signTypedData, signTransaction; solve_moves.
Qed.

(** Only digests, only its own key.  Every command any operation sends,
    however it ends, is a public-key read or a SignCommand with MessageType
    DIGEST over 32 bytes, for the signer's key; and once the address is
    cached no operation reads the key again or changes the cached address. *)
Theorem operations_send_digests (S : Services) (keyId : option string) (op : SignerOp) (w : KmsWorld) :
  let w' := (run_op S keyId op w).2 in
  ∃ new, requests w' = requests w ++ new ∧ Forall (own_request keyId) new ∧
    ∀ a, cached w = Some a → cached w' = Some a ∧ GetPublicKeyCommand keyId ∉ new.
Proof.
  exact (run_op_sends_own S keyId op w).
Qed.

(** C28: Each operation signs its own digest.  An operation that returns sent
    exactly one SignCommand, over the bytes of the digest ethers computed for
    its argument (and the transaction is hashed without its [from] field). *)
Theorem operation_signs_its_digest (S : Services) (keyId : option string) (op : SignerOp)
    (w : KmsWorld) (out : string) (w' : KmsWorld) :
  op ≠ OpGetAddress → run_op S keyId op w = (Ok out, w') →
  ∃ d sig rest, op_digest S op = Ok d ∧
    requests w' = requests w ++ SignCommand keyId (bytes_of_hex (slice2 d)) "DIGEST" "ECDSA_SHA_256" :: rest ∧
    Forall (λ r, r = GetPublicKeyCommand keyId) rest ∧
    out = match op with
          | OpSignTransaction tx =>
              match resolveRequest S tx with
              | Ok fields => signed_serialized S (VObj (without_from fields)) sig
              | Throw _ => ""
              end
          | _ => serialized S sig
          end.
Proof.
  intros Hop Hrun.
  assert (∃ d sig, op_digest S op = Ok d ∧ _signDigest S keyId d w = (Ok sig, w') ∧
    out = match op with
          | OpSignTransaction tx =>
              match resolveRequest S tx with
              | Ok fields => signed_serialized S (VObj (without_from fields)) sig
              | Throw _ => ""
              end
          | _ => serialized S sig end) as (d & sig & Hd & Hs & Hout).
  { destruct op as [|m|dm t v|tx]; [done|..]; unfold run_op, op_digest in *;
      unfold signMessage, signTypedData, signTransaction in Hrun;
      repeat (apply bind_ok_inv in Hrun as (?x & ?u & ?H & Hrun));
      repeat match goal with H : lift _ _ = (Ok _, _) |- _ => injection H as ? <- end;
      injection Hrun as <- <-; eexists _, _; split_and!; try eassumption; try reflexivity.
    - rewrite H. exact H0.
    - by rewrite H. }
  destruct (signDigest_ok_inv S keyId d w sig w' Hs) as (_ & Hreq & _).
  eexists d, sig, _. split_and!; [done|exact Hreq| |done].
  destruct (cached w); repeat constructor.
Qed.

(** ** Witnesses: a toy curve with one signature per key

    KMS always returns the high-s form; ethers recovers the signer's address
    with recovery id 1 only. *)
Definition toy_services : Services := {|
  kms_send _ c := match c with
    | GetPublicKeyCommand _ => Some (spki secp256k1_algorithm counting_point)
    | SignCommand _ _ _ _ => Some (ecdsa_sig 1 (SECP256K1_N - 5)) end;
  computeAddress _ := Ok "0xAbC";
  Signature_from s := Ok s;
  recoverAddress _ s := Ok (if sig_v s =? 28 then "0xAbC" else "0xdead");
  serialized s := sig_s s;
  hashMessage _ := Ok ("0x" +:+ hex_of (be 32 77));
  TypedDataEncoder_hash _ _ _ := Ok ("0x" +:+ hex_of (be 32 78));
  resolveRequest tx := match tx with VObj fs => Ok fs | _ => Throw (TypeError "tx") end;
  unsigned_digest _ := Ok ("0x" +:+ hex_of (be 32 79));
  signed_serialized _ s := sig_s s;
|}.

Definition toy_valid (m : buffer) (r s : Z) : Prop := r = 1 ∧ (s = 5 ∨ s = SECP256K1_N - 5).

Lemma toy_laws : EcdsaLaws toy_services (Some "key-1") "0xAbC" toy_valid.
Proof.
  split.
  - intros n. exists (spki secp256k1_algorithm counting_point), counting_point.
    split_and!; vm_compute; reflexivity.
  - intros n m _. exists 1, (SECP256K1_N - 5). split; [|reflexivity]. split; [done|by right].
  - intros m r s [-> [-> | ->]]; unfold SECP256K1_N; lia.
  - intros m r s [-> [-> | ->]]; split; [done|by right|done|left; lia].
  - done.
  - intros d r s v _ _ _. simpl. eauto.
  - intros d r s _ _. exists 1. split; [right; left|]. reflexivity.
Qed.

Definition toy_digest : string := "0x" +:+ hex_of (be 32 77).
Definition toy_world : KmsWorld := mkKms 0 [] None.

Lemma signDigest_complete_witness :
  ∃ sig w' s rec, _signDigest toy_services (Some "key-1") toy_digest toy_world = (Ok sig, w') ∧
    recoverAddress toy_services toy_digest sig = Ok rec ∧ lower rec = lower "0xAbC" ∧
    strlen (sig_s sig) = 66 ∧ bigint_of_hex (slice2 (sig_s sig)) = Some s ∧
    0 < s <= SECP256K1_HALF_N ∧ (sig_v sig = 27 ∨ sig_v sig = 28).
Proof.
  apply (signDigest_complete toy_services (Some "key-1") "0xAbC" toy_digest toy_valid toy_world toy_laws).
  - left. reflexivity.
  - vm_compute. reflexivity.
Defined.

Definition toy_signature : Sig := sig_of (be 32 1) 5 28.
Definition toy_after : KmsWorld :=
  mkKms 2 [SignCommand (Some "key-1") (be 32 77) "DIGEST" "ECDSA_SHA_256"; GetPublicKeyCommand (Some "key-1")] (Some "0xAbC").

Lemma signDigest_sound_witness :
  let m := bytes_of_hex (slice2 toy_digest) in
  length m = 32%nat ∧
  requests toy_after = requests toy_world ++ SignCommand (Some "key-1") m "DIGEST" "ECDSA_SHA_256" ::
    match cached toy_world with Some _ => [] | None => [GetPublicKeyCommand (Some "key-1")] end ∧
  ∃ a rb s v rec, cachedAddress toy_after = Some a ∧ length rb = 32%nat ∧ s <= SECP256K1_HALF_N ∧
    (v = 0 ∨ v = 1) ∧ Signature_from toy_services (sig_of rb s (27 + v)) = Ok toy_signature ∧
    recoverAddress toy_services toy_digest toy_signature = Ok rec ∧ lower rec = lower a.
Proof.
  apply (signDigest_sound toy_services (Some "key-1") toy_digest toy_world toy_signature toy_after).
  vm_compute. reflexivity.
Defined.

(** The world after signing a transaction. *)
Definition toy_after' : KmsWorld :=
  mkKms 2 [SignCommand (Some "key-1") (be 32 79) "DIGEST" "ECDSA_SHA_256"; GetPublicKeyCommand (Some "key-1")] (Some "0xAbC").

Lemma operation_signs_its_digest_witness :
  let tx := VObj [("from", VStr "0xAbC"); ("to", VStr "0x01")] in
  ∃ d sig rest, op_digest toy_services (OpSignTransaction tx) = Ok d ∧
    requests toy_after' = requests toy_world ++
      SignCommand (Some "key-1") (bytes_of_hex (slice2 d)) "DIGEST" "ECDSA_SHA_256" :: rest ∧
    Forall (λ r, r = GetPublicKeyCommand (Some "key-1")) rest ∧
    s_hex 5 = signed_serialized toy_services (VObj (without_from [("from", VStr "0xAbC"); ("to", VStr "0x01")])) sig.
Proof.
  apply (operation_signs_its_digest toy_services (Some "key-1")
    (OpSignTransaction (VObj [("from", VStr "0xAbC"); ("to", VStr "0x01")])) toy_world (s_hex 5) toy_after').
  - discriminate.
  - vm_compute. reflexivity.
Defined.
