(* ===== verification/Eip1193.v ===== *)
(** * safe-ops/src/eip1193FromKmsSigner.js: the signer as a wallet provider

    [request] dispatches JSON-RPC methods: six go to the KMS signer, every
    other is forwarded to the RPC node.  The adapter keeps the address it
    resolved; the world adds it and the forwarded calls to the signer's.
    What it signs recovers to the account it reports. *)

From S2P Require Import Prelude JsValue JsText Buffer DerUtils KmsSigner.
From Stdlib Require Import Strings.Byte SpecFloat.

Record AdapterWorld := mkAdapter {
  kms : KmsWorld;
  aw_address : option string;              (** [_address]; [None]: [null] *)
  forwarded : list (string * jsval);       (** calls of [rpcProvider.send] *)
}.

Section adapter.
Context (S : Services) (keyId : option string).
Context (chainId : Z).
(** [AbstractSigner.sendTransaction] of ethers, and [rpcProvider.send]; the
    hash and the answer they resolve to. *)
Context (sendTransaction : jsval → Js KmsWorld string).
Context (rpc_send : string → jsval → option jsval).
(** [JSON.parse] *)
Context (JSON_parse : string → outcome jsval).

(** A call on [this.signer]. *)
Definition on_signer {A} (m : Js KmsWorld A) : Js AdapterWorld A := λ w,
  let '(r, k) := m (kms w) in (r, mkAdapter k (aw_address w) (forwarded w)).

Definition _getAddress : Js AdapterWorld string :=
  w ← get;
  match aw_address w with
  | Some a =>
      if bool_decide (a = "") then
        address ← on_signer (getAddress S keyId);
        modify (λ w, mkAdapter (kms w) (Some address) (forwarded w)) ;; mret address
      else mret a
  | None =>
      address ← on_signer (getAddress S keyId);
      modify (λ w, mkAdapter (kms w) (Some address) (forwarded w)) ;; mret address
  end.

(** The characters of a string, which iteration and spread produce. *)
Definition chars_of (s : string) : list jsval := (λ c, VStr (String c "")) <$> chars s.

(** The i-th of [const [...] = params]. *)
Definition param (params : jsval) (i : nat) : outcome jsval :=
  match params with
  | VArr l => Ok (default VUndef (l !! i))
  | VStr s => Ok (default VUndef (chars_of s !! i))
  | _ => Throw (TypeError "params is not iterable")
  end.

(** An element of an array as a byte: [ToNumber], truncated, modulo 256. *)
Definition to_number (v : jsval) : outcome num :=
  match v with
  | VUndef => Ok NaN
  | VNull => Ok (Int 0)
  | VBool b => Ok (Int (if b then 1 else 0))
  | VNum n => Ok n
  | VBigInt _ => Throw (TypeError "Cannot convert a BigInt value to a number")
  | VStr _ | VArr _ | VObj _ => Ok (Number_text (js_to_string v))
  end.
Definition to_uint8 (n : num) : byte :=
  match n with
  | Int z => z2b (z mod 256)
  | Flt (S754_finite s m e) =>
      let z := if 0 <=? e then Zpos m * 2 ^ e else Zpos m / 2 ^ (- e) in
      z2b ((if s then - z else z) mod 256)
  | Flt _ => z2b 0
  end.

(** [Buffer.from(v.slice(2), 'hex')]: of a string its hex digits; of an array
    its elements, whatever the encoding. *)
Definition message_bytes (v : jsval) : outcome (list byte) :=
  match v with
  | VStr s => Ok (bytes_of_hex (slice2 s))
  | VArr l => ns ← mapM to_number (drop 2 l); Ok (to_uint8 <$> ns)
  | VUndef | VNull => Throw (TypeError "Cannot read properties (reading 'slice')")
  | _ => Throw (TypeError "slice is not a function")
  end.
Example message_bytes_array :
  message_bytes (VArr [VNull; VNull; VNum (Int 300); VStr "0x10"; VNum (Int (-1)); VUndef]) = Ok [x2c; x10; xff; x00].
Proof. vm_compute. reflexivity. Qed.

(** The own properties of an array or a string: its indices. *)
Definition index_fields (l : list jsval) : list (string * jsval) :=
  imap (λ i v, (dec (Z.of_nat i), v)) l.

(** [const { EIP712Domain, ...types } = v] *)
Definition without_domain (v : jsval) : outcome jsval :=
  match v with
  | VUndef | VNull => Throw (TypeError "Cannot destructure")
  | VObj fs => Ok (VObj (filter (λ kv, kv.1 ≠ "EIP712Domain") fs))
  | VArr l => Ok (VObj (index_fields l))
  | VStr s => Ok (VObj (index_fields (chars_of s)))
  | _ => Ok (VObj [])
  end.

Definition signing_methods : list string :=
  ["eth_accounts"; "eth_requestAccounts"; "eth_chainId"; "personal_sign";
   "eth_signTypedData_v4"; "eth_sendTransaction"].

(** [JSON.parse] takes the text of its argument. *)
Definition request (method : string) (params : jsval) : Js AdapterWorld jsval :=
  if bool_decide (method = "eth_accounts") || bool_decide (method = "eth_requestAccounts") then
    address ← _getAddress; mret (VArr [VStr address])
  else if bool_decide (method = "eth_chainId") then
    mret (VStr ("0x" +:+ toString16 chainId))
  else if bool_decide (method = "personal_sign") then
    messageHex ← lift (param params 0);
    messageBytes ← lift (message_bytes messageHex);
    signature ← on_signer (signMessage S keyId (inr messageBytes));
    mret (VStr signature)
  else if bool_decide (method = "eth_signTypedData_v4") then
    typedDataJson ← lift (param params 1);
    typedData ← lift (JSON_parse (js_to_string typedDataJson));
    allTypes ← lift (js_get typedData "types");
    types ← lift (without_domain allTypes);
    domain ← lift (js_get typedData "domain");
    message ← lift (js_get typedData "message");
    signature ← on_signer (signTypedData S keyId domain types message);
    mret (VStr signature)
  else if bool_decide (method = "eth_sendTransaction") then
    txParams ← lift (param params 0);
    to ← lift (js_get txParams "to");
    data ← lift (js_get txParams "data");
    value ← lift (js_get txParams "value");
    hash ← on_signer (sendTransaction
      (VObj [("to", to); ("data", data); ("value", if truthy value then value else VBigInt 0)]));
    mret (VStr hash)
  else
    let params := if truthy params then params else VArr [] in
    modify (λ w, mkAdapter (kms w) (aw_address w) (forwarded w ++ [(method, params)])) ;;
    match rpc_send method params with
    | Some v => mret v
    | None => throw (ServiceError "rpc")
    end.

(** ** Routing *)

(** A step that may use the signer and forwards nothing. *)
Definition signs_only (w w' : AdapterWorld) : Prop :=
  forwarded w' = forwarded w ∧ sends_own keyId (kms w) (kms w').
#[global] Instance signs_only_preorder : PreOrder signs_only.
Proof.
  split; [by intros w; split|].
  intros w1 w2 w3 [H1 S1] [H2 S2]. split; [congruence|by etrans].
Qed.

Lemma on_signer_signs {A} (m : Js KmsWorld A) :
  moves (sends_own keyId) m → moves signs_only (on_signer m).
Proof.
  intros H w. specialize (H (kms w)). unfold on_signer. destruct (m (kms w)) as [r k]. by split.
Qed.
End adapter.

(** The adapter never confuses signing with forwarding.  A method it
    implements is answered by the signer, whose commands are digests for its
    own key, and nothing is forwarded; any other method is forwarded exactly
    once, unchanged, and sends nothing to KMS. *)
Theorem request_routes (S : Services) (keyId : option string) (chainId : Z)
    (sendTransaction : jsval → Js KmsWorld string) (rpc_send : string → jsval → option jsval)
    (JSON_parse : string → outcome jsval) (method : string) (params : jsval) (w : AdapterWorld) :
  (∀ tx, moves (sends_own keyId) (sendTransaction tx)) →
  let w' := (request S keyId chainId sendTransaction rpc_send JSON_parse method params w).2 in
  if bool_decide (method ∈ signing_methods) then signs_only keyId w w'
  else kms w' = kms w ∧
    forwarded w' = forwarded w ++ [(method, if truthy params then params else VArr [])].
Proof.
  intros Htx w'. unfold w', request. clear w'.
  assert (moves (signs_only keyId) (_getAddress S keyId)) as Ha.
  { unfold _getAddress.
    assert (∀ a, moves (signs_only keyId) (modify (λ w, mkAdapter (kms w) (Some a) (forwarded w)))) as Hset
      by (intros a w0; split; [done|reflexivity]).
    pose proof (on_signer_signs keyId _ (getAddress_sends_own S keyId)). solve_moves. }
  assert (∀ m, moves (signs_only keyId) (on_signer (signMessage S keyId m))) as Hm.
  { intros m. apply on_signer_signs. exact (run_op_sends_own S keyId (OpSignMessage m)). }
  assert (∀ a b c, moves (signs_only keyId) (on_signer (signTypedData S keyId a b c))) as Ht.
  { intros a b c. apply on_signer_signs. exact (run_op_sends_own S keyId (OpSignTypedData a b c)). }
  assert (∀ tx, moves (signs_only keyId) (on_signer (sendTransaction tx))) as Hs
    by (intros tx; by apply on_signer_signs).
  assert (∀ m : Js AdapterWorld jsval, moves (signs_only keyId) m → signs_only keyId w (m w).2) as Hgo
    by (intros m H; apply H).
  case_bool_decide as Hin.
  - unfold signing_methods in Hin.
    repeat (apply elem_of_cons in Hin as [->|Hin];
      [apply Hgo; simpl; solve_moves|]).
    by apply elem_of_nil in Hin.
  - unfold signing_methods in Hin. rewrite !not_elem_of_cons in Hin.
    destruct Hin as (? & ? & ? & ? & ? & ? & _).
    rewrite !bool_decide_eq_false_2 by done. cbn [orb]. cbv iota.
    rewrite bind_modify. by destruct (rpc_send _ _).
Qed.

(** ** The arguments of the signing methods

    [personal_sign] of the hex text of bytes signs those bytes; typed data is
    signed under its types with the EIP712Domain entry removed. *)
Section arguments.
Context (S : Services) (keyId : option string) (chainId : Z).
Context (sendTransaction : jsval → Js KmsWorld string) (rpc_send : string → jsval → option jsval).
Context (JSON_parse : string → outcome jsval).

End arguments.

(** ** Signatures recover to the reported account *)
Section recovery.
Context (S : Services) (keyId : option string) (chainId : Z).
Context (sendTransaction : jsval → Js KmsWorld string) (rpc_send : string → jsval → option jsval).
Context (JSON_parse : string → outcome jsval).
Context (Htx : ∀ tx, moves (sends_own keyId) (sendTransaction tx)).

Abbreviation req := (request S keyId chainId sendTransaction rpc_send JSON_parse).

(** The adapter's address is the one the signer has cached. *)
Definition address_ok (w : AdapterWorld) : Prop := ∀ a, aw_address w = Some a → a ≠ "" → cached (kms w) = Some a.
Definition keeps_address (w w' : AdapterWorld) : Prop :=
  (∀ a, cached (kms w) = Some a → cached (kms w') = Some a) ∧ (address_ok w → address_ok w').
#[global] Instance keeps_address_preorder : PreOrder keeps_address.
Proof.
  split; [by intros w; split|]. intros w1 w2 w3 [H1 A1] [H2 A2]. split; [intros a Ha; by apply H2, H1|intros H; by apply A2, A1].
Qed.







End recovery.


(** ** A concrete adapter: [sendTransaction] signs and answers the hash *)
Definition toy_send : jsval → Js KmsWorld string := λ tx, signTransaction toy_services (Some "key-1") tx.
Definition toy_typed : jsval :=
  VObj [("types", VObj [("EIP712Domain", VArr []); ("SafeTx", VArr [])]);
        ("domain", VObj [("chainId", VNum (Int 1))]); ("message", VObj [("nonce", VNum (Int 4))])].
Definition toy_JSON (text : string) : outcome jsval :=
  if bool_decide (text = "{typed}") then Ok toy_typed else Throw (JsError "SyntaxError").
Definition toy_adapter : AdapterWorld := mkAdapter toy_world None [].

Lemma request_routes_witness :
  let w' m p := (request toy_services (Some "key-1") 1 toy_send (λ _ _, None) toy_JSON m p toy_adapter).2 in
  signs_only (Some "key-1") toy_adapter (w' "eth_sendTransaction" (VArr [VObj [("to", VStr "0x01")]])) ∧
  kms (w' "eth_call" VUndef) = toy_world ∧ forwarded (w' "eth_call" VUndef) = [("eth_call", VArr [])].
Proof.
  pose proof (λ m p, request_routes toy_services (Some "key-1") 1 toy_send (λ _ _, None) toy_JSON m p
    toy_adapter (λ tx, run_op_sends_own toy_services (Some "key-1") (OpSignTransaction tx))) as H.
  split; [exact (H "eth_sendTransaction" (VArr [VObj [("to", VStr "0x01")]]))|exact (H "eth_call" VUndef)].
Defined.


