(* ===== verification/SafeConfig.v ===== *)
(** * safe-ops/src/config.js: the scripts' environment

    [loadConfig] reads [process.env]; the theorems say which variable it
    complains about and what the list of owner keys holds. *)

From S2P Require Import Prelude JsValue JsText.
From Stdlib Require Import Strings.Ascii.

(** [process.env]: [None] is [undefined]. *)
Definition ProcessEnv : Type := string → option string.

(** A string that is truthy. *)
Definition nonempty (o : option string) : option string :=
  match o with
  | Some v => if bool_decide (v = "") then None else Some v
  | None => None
  end.

Definition requireEnv (env : ProcessEnv) (name : string) : outcome string :=
  match nonempty (env name) with
  | None => Throw (JsError ("Required environment variable " +:+ name +:+ " is not set"))
  | Some value => Ok value
  end.

Record SafeConfig := mkSafeConfig {
  rpcUrl : string;
  chainId : num;
  claimRegistryAddress : string;
  awsRegion : string;
  ownerKmsKeyIds : list string;
  safeThreshold : num;
  safeAddress : option string;                  (** [None]: [null] *)
  safeProxyFactoryAddress : option string;
  safeSingletonAddress : option string;
  safeFallbackHandlerAddress : option string;
}.

Definition loadConfig (env : ProcessEnv) : outcome SafeConfig :=
  rpcUrl ← requireEnv env "RPC_URL";
  let chainId := parseInt (default "1337" (nonempty (env "CHAIN_ID"))) in
  claimRegistryAddress ← requireEnv env "CLAIM_REGISTRY_ADDRESS";
  awsRegion ← requireEnv env "AWS_REGION";
  owners ← requireEnv env "OWNER_KMS_KEY_IDS";
  Ok {| rpcUrl := rpcUrl;
        chainId := chainId;
        claimRegistryAddress := claimRegistryAddress;
        awsRegion := awsRegion;
        ownerKmsKeyIds := trim <$> split "," owners;
        safeThreshold := parseInt (default "2" (nonempty (env "SAFE_THRESHOLD")));
        safeAddress := nonempty (env "UNDERWRITER_SAFE_ADDRESS");
        safeProxyFactoryAddress := nonempty (env "SAFE_PROXY_FACTORY_ADDRESS");
        safeSingletonAddress := nonempty (env "SAFE_SINGLETON_ADDRESS");
        safeFallbackHandlerAddress := nonempty (env "SAFE_FALLBACK_HANDLER_ADDRESS") |}.

(** ** Required variables *)
Definition required_vars : list string :=
  ["RPC_URL"; "CLAIM_REGISTRY_ADDRESS"; "AWS_REGION"; "OWNER_KMS_KEY_IDS"].

(** The first required variable that is unset or empty. *)
Definition first_missing (env : ProcessEnv) : option string :=
  head (filter (λ k, nonempty (env k) = None) required_vars).

Lemma requireEnv_value env k v : nonempty (env k) = Some v → requireEnv env k = Ok v.
Proof. unfold requireEnv. by intros ->. Qed.

(** ** Key ids that survive the environment *)

(** What can be written between two commas and read back. *)
Definition plain_id (s : string) : Prop := ","%char ∉ chars s ∧ Forall (λ c, is_space c = false) (chars s).

Lemma split_plain c s : c ∉ chars s → split c s = [s].
Proof.
  induction s as [|x s IH]; [done|]. cbn [chars split]. rewrite not_elem_of_cons. intros [Hx Hs].
  rewrite decide_False by done. by rewrite IH.
Qed.
Lemma split_app c s t : c ∉ chars s → split c (s +:+ String c t) = s :: split c t.
Proof.
  induction s as [|x s IH]; cbn [chars].
  - intros _. change ("" +:+ String c t) with (String c t). simpl. by rewrite decide_True.
  - rewrite not_elem_of_cons. intros [Hx Hs]. change (String x s +:+ String c t) with (String x (s +:+ String c t)).
    simpl. rewrite decide_False by done. by rewrite IH.
Qed.
Lemma split_join c l : l ≠ [] → Forall (λ s, c ∉ chars s) l → split c (join c l) = l.
Proof.
  intros Hl H. induction H as [|s l Hs H IH]; [done|]. destruct l as [|t l]; [by apply split_plain|].
  change (join c (s :: t :: l)) with (s +:+ String c (join c (t :: l))).
  by rewrite split_app, IH.
Qed.

(** An id as a person may write it: with blanks around. *)
Definition padded (blanks : nat) (id : string) (blanks' : nat) : string :=
  repeat_char " " blanks +:+ id +:+ repeat_char " " blanks'.

Lemma trimStart_blanks n s : trimStart (repeat_char " " n +:+ s) = trimStart s.
Proof. by induction n. Qed.
Lemma trimEnd_blanks n : trimEnd (repeat_char " " n) = "".
Proof. induction n as [|n IH]; [done|]. simpl. by rewrite IH. Qed.
Lemma trimEnd_solid s n : Forall (λ c, is_space c = false) (chars s) →
  trimEnd (s +:+ repeat_char " " n) = s.
Proof.
  induction s as [|x s IH]; intros H; [apply trimEnd_blanks|]. apply Forall_cons in H as [Hx H].
  change (String x s +:+ repeat_char " " n) with (String x (s +:+ repeat_char " " n)).
  cbn [trimEnd]. rewrite IH by done. destruct s; [by rewrite Hx|done].
Qed.
Lemma trim_padded n s m : Forall (λ c, is_space c = false) (chars s) → trim (padded n s m) = s.
Proof.
  intros H. unfold trim, padded. rewrite trimStart_blanks.
  destruct s as [|x s].
  - change ("" +:+ repeat_char " " m) with (repeat_char " " m).
    assert (trimStart (repeat_char " " m) = "") as -> by (by induction m). done.
  - assert (trimStart (String x s +:+ repeat_char " " m) = String x s +:+ repeat_char " " m) as ->.
    { apply Forall_cons in H as [Hx _]. simpl. by rewrite Hx. }
    by apply trimEnd_solid.
Qed.

Lemma chars_app s t : chars (s +:+ t) = chars s ++ chars t.
Proof. induction s as [|x s IH]; [done|]. cbn [chars app]. by rewrite <-IH. Qed.
Lemma chars_blanks n c : c ∈ chars (repeat_char " " n) → c = " "%char.
Proof. induction n; simpl; [by intros ?%elem_of_nil|]. intros [->|]%elem_of_cons; auto. Qed.
Lemma padded_plain n s m : plain_id s → ","%char ∉ chars (padded n s m).
Proof.
  intros [Hs _]. unfold padded. rewrite !chars_app, !elem_of_app.
  intros [H|[H|H]]; [by apply chars_blanks in H|done|by apply chars_blanks in H].
Qed.

Lemma trimEnd_chars s c : c ∈ chars (trimEnd s) → c ∈ chars s.
Proof.
  induction s as [|x s IH]; [done|]. cbn [trimEnd chars]. rewrite elem_of_cons.
  destruct (trimEnd s) as [|y t] eqn:Ht.
  - destruct (is_space x); cbn [chars]; [by intros ?%elem_of_nil|].
    intros ->%list_elem_of_singleton. by left.
  - cbn [chars]. rewrite elem_of_cons. intros [->|H]; [by left|right; by apply IH].
Qed.
Lemma trim_chars s c : c ∈ chars (trim s) → c ∈ chars s.
Proof.
  unfold trim. intros H%trimEnd_chars. induction s as [|x s IH]; [done|]. cbn [trimStart] in H.
  destruct (is_space x); [|done]. right. by apply IH.
Qed.

(** A configuration that loads. *)
Lemma safe_config_loads env : first_missing env = None →
  ∃ c o, loadConfig env = Ok c ∧ nonempty (env "OWNER_KMS_KEY_IDS") = Some o ∧
    ownerKmsKeyIds c = trim <$> split "," o.
Proof.
  unfold first_missing, required_vars, loadConfig, requireEnv. rewrite !filter_cons, filter_nil.
  destruct (nonempty (env "RPC_URL")); simpl; [|done].
  destruct (nonempty (env "CLAIM_REGISTRY_ADDRESS")); simpl; [|done].
  destruct (nonempty (env "AWS_REGION")); simpl; [|done].
  destruct (nonempty (env "OWNER_KMS_KEY_IDS")); simpl; [|done]. eauto 10.
Qed.

(** Configuration errors name the first missing variable, in the order
    the code reads them; when none is missing the configuration loads, its
    owner list is not empty, and every key id in it is free of commas and of
    surrounding white space. *)
Lemma loadConfig_cases (env : ProcessEnv) :
  match first_missing env with
  | Some k => loadConfig env = Throw (JsError ("Required environment variable " +:+ k +:+ " is not set"))
  | None => ∃ c, loadConfig env = Ok c ∧ ownerKmsKeyIds c ≠ [] ∧
      ∀ id, id ∈ ownerKmsKeyIds c →
        ","%char ∉ chars id ∧ (∀ x t, id = String x t → is_space x = false) ∧
        (∀ x, last (chars id) = Some x → is_space x = false)
  end.
Proof.
  unfold first_missing, required_vars, loadConfig, requireEnv. rewrite !filter_cons, filter_nil.
  destruct (nonempty (env "RPC_URL")) as [u|] eqn:H1; simpl; rewrite ?H1; [|done].
  destruct (nonempty (env "CLAIM_REGISTRY_ADDRESS")) as [a|] eqn:H2; simpl; [|done].
  destruct (nonempty (env "AWS_REGION")) as [r|] eqn:H3; simpl; [|done].
  destruct (nonempty (env "OWNER_KMS_KEY_IDS")) as [o|] eqn:H4; simpl; [|done].
  eexists. split_and!; [reflexivity| |]; simpl.
  - pose proof (split_nonempty "," o). by destruct (split "," o).
  - intros id (s & -> & Hs)%list_elem_of_fmap. split; [|apply trim_ends].
    intros Hc%trim_chars. by apply (split_pieces "," o s).
Qed.

(** Writing the owners' key ids and reading them back: any list of ids
    without commas or white space, joined by commas with any number of blanks
    around each id, is read back as the same list in the same order. *)
Theorem ownerKmsKeyIds_roundtrip (env : ProcessEnv) (ids : list (nat * string * nat)) :
  ids ≠ [] → Forall (λ '(_, id, _), plain_id id) ids → first_missing env = None →
  env "OWNER_KMS_KEY_IDS" = Some (join "," ((λ '(n, id, m), padded n id m) <$> ids)) →
  ∃ c, loadConfig env = Ok c ∧ ownerKmsKeyIds c = (λ '(_, id, _), id) <$> ids.
Proof.
  intros Hne Hp Hm Ho. destruct (safe_config_loads env Hm) as (c & o & Hc & Hn & Hk).
  exists c. split; [done|]. unfold nonempty in Hn. rewrite Ho in Hn. case_bool_decide; [done|].
  injection Hn as <-. rewrite Hk, split_join.
  - rewrite <-list_fmap_compose. clear -Hp. induction Hp as [|[[n id] m] l [_ H] Hp IH]; [done|].
    cbn [fmap list_fmap compose]. f_equal; [by apply trim_padded|exact IH].
  - by destruct ids.
  - clear -Hp. induction Hp as [|[[n id] m] l H Hp IH]; [constructor|].
    cbn [fmap list_fmap]. constructor; [by apply padded_plain|exact IH].
Qed.

Definition demo_env : ProcessEnv := λ k,
  assoc k [("RPC_URL", "http://besu:8545"); ("CLAIM_REGISTRY_ADDRESS", "0xc1a1");
    ("AWS_REGION", "eu-west-1"); ("OWNER_KMS_KEY_IDS", "key-1, key-2 ,key-3");
    ("UNDERWRITER_SAFE_ADDRESS", "0x5afe"); ("SAFE_THRESHOLD", "2");
    ("SAFE_PROXY_FACTORY_ADDRESS", "0xfac"); ("SAFE_SINGLETON_ADDRESS", "0x51");
    ("DEPLOYER_PRIVATE_KEY", "0xd3b1")].

Lemma ownerKmsKeyIds_roundtrip_witness :
  ∃ c, loadConfig demo_env = Ok c ∧ ownerKmsKeyIds c = ["key-1"; "key-2"; "key-3"].
Proof.
  apply (ownerKmsKeyIds_roundtrip demo_env [(0%nat, "key-1", 0%nat); (1%nat, "key-2", 1%nat); (0%nat, "key-3", 0%nat)]).
  - discriminate.
  - repeat (constructor; [split; [|repeat constructor];
      cbn [chars]; rewrite !not_elem_of_cons; repeat (split; [discriminate|]); apply not_elem_of_nil|]).
    constructor.
  - reflexivity.
  - reflexivity.
Defined.
