(* ===== verification/SafeOps.v ===== *)
(** * safe-ops/src/signAndExecute.js: collecting owners' signatures

    The world of the scripts: every call to KMS, to the Safe protocol kit and
    to the chain is recorded in [trace] in the order it was made; [OpsEnv]
    answers it, call by call ([None]: the promise rejects).  A kit is known
    by the arguments [Safe.init] made it from. *)

From S2P Require Import Prelude JsValue JsText Buffer DerUtils KmsSigner SafeConfig.
From Stdlib Require Import Strings.Byte.

(** The arguments of [Safe.init]; absent members are [undefined]. *)
Record InitArgs := mkInit {
  ia_provider : string;
  ia_signer : option string;
  ia_safeAddress : option string;
  ia_predictedSafe : option (list string * num);   (** owners, threshold *)
}.

(** The transactions the kit builds and passes back to itself are opaque. *)
Record ExecResponse := mkExec {
  ex_hash : option string;
  ex_waits : bool;                   (** [transactionResponse?.wait] exists *)
}.

(** The description a transaction is created from. *)
Inductive TxRequest :=
  | TxCall (to value data : string)
  | TxAddOwner (ownerAddress : string) (threshold : option num)
  | TxRemoveOwner (ownerAddress : string) (threshold : num)
  | TxDeploySafe.

Inductive OpsCall :=
  | CKms (c : KmsRequest)
  | CInit (a : InitArgs)
  | CGetThreshold (kit : InitArgs)
  | CGetOwners (kit : InitArgs)
  | CGetAddress (kit : InitArgs)
  | CCreate (kit : InitArgs) (r : TxRequest)
  | CSign (kit : InitArgs) (tx : jsval)
  | CExecute (kit : InitArgs) (tx : jsval)
  | CWait
  | CDeploy (bytecode : string)                        (** [factory.deploy()] *)
  | CSend (from : string) (to data value : jsval)       (** a wallet's [sendTransaction] *)
  | CView (contract method : string) (args : list jsval)
  | CInvoke (from contract method : string) (args : list jsval).

(** What [@safe-global/safe-deployments] knows of a contract: the bytecode
    under [deployments.canonical] and under [deployments.eip155]. *)
Record Artifact := mkArtifact { canonical_data : option string; eip155_data : option string }.

Record OpsEnv := mkOpsEnv {
  services : Services;
  init_ok : nat → InitArgs → bool;
  getThreshold : nat → InitArgs → option Z;
  getOwners : nat → InitArgs → option (list string);
  predictAddress : nat → InitArgs → option string;
  createTx : nat → InitArgs → TxRequest → option jsval;
  signTx : nat → InitArgs → jsval → option jsval;
  executeTx : nat → InitArgs → jsval → option ExecResponse;
  waitTx : nat → option (option string);        (** the receipt's hash; [None]: no receipt *)
  deployContract : nat → string → option string;
  sendTx : nat → OpsCall → bool;
  viewContract : nat → OpsCall → option jsval;
  (** constructors and pure functions of ethers and of the artifacts *)
  JsonRpcProvider : string → num → outcome unit;
  walletAddress : string → outcome string;
  encodeFunctionData : list string → string → list jsval → outcome string;
  artifact : string → string → option Artifact;
}.

Record OpsWorld := mkOps {
  ops_clock : nat;
  trace : list OpsCall;
  console : list string;
}.

Section ops.
Context (E : OpsEnv).

(** One call outside: recorded, then answered. *)
Definition call {A} (c : OpsCall) (answer : nat → option A) : Js OpsWorld A := λ w,
  let w' := mkOps (S (ops_clock w)) (trace w ++ [c]) (console w) in
  match answer (ops_clock w) with
  | Some a => (Ok a, w')
  | None => (Throw (ServiceError "safe-ops"), w')
  end.

Definition accept (b : bool) : option unit := if b then Some tt else None.

Definition console_log (line : string) : Js OpsWorld unit :=
  modify (λ w, mkOps (ops_clock w) (trace w) (console w ++ [line])).

(** [new KmsSigner(kmsClient, keyId, provider)]: a signer with an empty
    address cache, whose commands join the trace. *)
Definition with_signer {A} (m : Js KmsWorld A) : Js OpsWorld A := λ w,
  let '(r, k) := m (mkKms (ops_clock w) [] None) in
  (r, mkOps (kms_clock k) (trace w ++ (CKms <$> requests k)) (console w)).

Definition Safe_init (a : InitArgs) : Js OpsWorld InitArgs :=
  call (CInit a) (λ n, accept (init_ok E n a)) ;; mret a.

Section signAndExecute.
Context (config : SafeConfig).

(** The kit of an owner or of the executor. *)
Definition owner_kit (address : string) : InitArgs :=
  mkInit (rpcUrl config) (Some address) (safeAddress config) None.

(** [config.ownerKmsKeyIds[i]] *)
Definition owner_key (i : nat) : option string := ownerKmsKeyIds config !! i.

(** The loop from owner [i] on, with [n] owners left to sign. *)
Fixpoint collect (threshold : Z) (n : nat) (i : nat) (signedTransaction : jsval) : Js OpsWorld jsval :=
  match n with
  | O => mret signedTransaction
  | S n =>
      ownerAddress ← with_signer (getAddress (services E) (owner_key i));
      ownerProtocolKit ← Safe_init (owner_kit ownerAddress);
      signedTransaction ← call (CSign ownerProtocolKit signedTransaction)
        (λ t, signTx E t ownerProtocolKit signedTransaction);
      console_log ("  signed by owner " +:+ dec (Z.of_nat i + 1) +:+ "/" +:+ dec threshold +:+ ": " +:+ ownerAddress) ;;
      collect threshold n (S i) signedTransaction
  end.

Definition signAndExecute (unsignedSafeTransaction : jsval) : Js OpsWorld (option string) :=
  executorAddress ← with_signer (getAddress (services E) (owner_key 0));
  executorProtocolKit ← Safe_init (owner_kit executorAddress);
  threshold ← call (CGetThreshold executorProtocolKit) (λ t, getThreshold E t executorProtocolKit);
  console_log ("Safe threshold: " +:+ dec threshold +:+ ". Collecting signatures from " +:+ dec threshold +:+ " owner(s)...") ;;
  signedTransaction ← collect threshold (Z.to_nat threshold) 0 unsignedSafeTransaction;
  console_log "Executing..." ;;
  executeTxResponse ← call (CExecute executorProtocolKit signedTransaction)
    (λ t, executeTx E t executorProtocolKit signedTransaction);
  receipt_hash ← (if ex_waits executeTxResponse then call CWait (waitTx E) else mret None);
  let hash := match nonempty receipt_hash with Some h => Some h | None => ex_hash executeTxResponse end in
  console_log ("Executed. Transaction: " +:+ default "undefined" hash) ;;
  mret hash.
End signAndExecute.
End ops.

(** ** What a run adds to the trace *)

(** Every call a run makes satisfies [P]. *)
Definition calls_only (P : OpsCall → Prop) (w w' : OpsWorld) : Prop :=
  ∃ new, trace w' = trace w ++ new ∧ Forall P new.
#[global] Instance calls_only_preorder P : PreOrder (calls_only P).
Proof.
  split.
  - intros w. exists []. by rewrite app_nil_r.
  - intros w1 w2 w3 (n1 & H1 & F1) (n2 & H2 & F2). exists (n1 ++ n2).
    rewrite H2, H1, app_assoc. split; [done|by apply Forall_app].
Qed.

Lemma call_calls {A} (P : OpsCall → Prop) c (answer : nat → option A) :
  P c → moves (calls_only P) (call c answer).
Proof.
  intros H w. exists [c]. unfold call. destruct (answer _); simpl; split; try done; by repeat constructor.
Qed.
Lemma console_log_calls P l : moves (calls_only P) (console_log l).
Proof. intros w. exists []. simpl. by rewrite app_nil_r. Qed.
Lemma Safe_init_calls (P : OpsCall → Prop) E a : P (CInit a) → moves (calls_only P) (Safe_init E a).
Proof. intros H. unfold Safe_init. apply moves_bind; [apply _|by apply call_calls|intros ?; solve_moves]. Qed.
#[export] Hint Resolve console_log_calls : moves.

Lemma with_getAddress_calls (P : OpsCall → Prop) E k :
  P (CKms (GetPublicKeyCommand k)) → moves (calls_only P) (with_signer (getAddress (services E) k)).
Proof.
  intros H w. unfold with_signer.
  destruct (getAddress _ k _) as [r kw] eqn:Hg. simpl.
  pose proof (getAddress_requests (services E) k (mkKms (ops_clock w) [] None)) as Hr.
  rewrite Hg in Hr. simpl in Hr. exists [CKms (GetPublicKeyCommand k)]. rewrite Hr. split; [done|by repeat constructor].
Qed.

(** The key [k] answers with a public key whose address is [a]. *)
Definition key_address (E : OpsEnv) (k : option string) (a : string) : Prop :=
  ∃ n der p, kms_send (services E) n (GetPublicKeyCommand k) = Some der ∧
    publicKeyFromKmsDer der = Ok p ∧ computeAddress (services E) ("0x04" +:+ hex_of p) = Ok a.

Lemma with_getAddress_ok E k w a w' :
  with_signer (getAddress (services E) k) w = (Ok a, w') →
  key_address E k a ∧ trace w' = trace w ++ [CKms (GetPublicKeyCommand k)].
Proof.
  unfold with_signer. destruct (getAddress _ k _) as [r kw] eqn:Hg. intros H. injection H as -> <-.
  pose proof (getAddress_requests (services E) k (mkKms (ops_clock w) [] None)) as Hr.
  rewrite Hg in Hr. simpl in Hr. simpl. rewrite Hr. split; [|done].
  by eapply getAddress_fresh_inv in Hg.
Qed.

Lemma call_ok {A} c (answer : nat → option A) w a w' :
  call c answer w = (Ok a, w') → (∃ n, answer n = Some a) ∧ trace w' = trace w ++ [c].
Proof. unfold call. destruct (answer _) eqn:Ha; [|done]. intros H. injection H as <- <-. eauto. Qed.
Lemma Safe_init_ok E a w a' w' :
  Safe_init E a w = (Ok a', w') → a' = a ∧ trace w' = trace w ++ [CInit a].
Proof.
  unfold Safe_init. intros H. apply bind_ok_inv in H as ([] & w1 & H1 & H).
  injection H as <- <-. split; [done|]. by apply call_ok in H1 as [_ ?].
Qed.

(** ** Quorum *)
Section quorum.
Context (E : OpsEnv) (config : SafeConfig).

(** [rs]: the owners that signed from the i-th on, each with the transaction
    it was handed, starting from [tx] and ending with [tx']. *)
Inductive collected : nat → jsval → list (string * jsval) → jsval → Prop :=
  | collected_nil i tx : collected i tx [] tx
  | collected_cons i a tx n tx1 rs tx' :
      key_address E (owner_key config i) a →
      signTx E n (owner_kit config a) tx = Some tx1 →
      collected (S i) tx1 rs tx' → collected i tx ((a, tx) :: rs) tx'.

(** The calls of those owners. *)
Fixpoint rounds (i : nat) (rs : list (string * jsval)) : list OpsCall :=
  match rs with
  | [] => []
  | (a, tx) :: rs =>
      CKms (GetPublicKeyCommand (owner_key config i)) :: CInit (owner_kit config a) ::
      CSign (owner_kit config a) tx :: rounds (S i) rs
  end.

Lemma collect_ok_inv t n i tx w tx' w' :
  collect E config t n i tx w = (Ok tx', w') →
  ∃ rs, length rs = n ∧ collected i tx rs tx' ∧ trace w' = trace w ++ rounds i rs.
Proof.
  revert i tx w. induction n as [|n IH]; intros i tx w H; simpl in H.
  { injection H as <- <-. exists []. rewrite app_nil_r. split_and!; [done|constructor|done]. }
  apply bind_ok_inv in H as (a & w1 & [Ha T1]%with_getAddress_ok & H).
  apply bind_ok_inv in H as (k & w2 & [-> T2]%Safe_init_ok & H).
  apply bind_ok_inv in H as (tx1 & w3 & [[m Hs] T3]%call_ok & H).
  unfold console_log in H. rewrite bind_modify in H.
  apply IH in H as (rs & Hl & Hc & T4). simpl in T4. exists ((a, tx) :: rs).
  split_and!; [simpl; by rewrite Hl|by econstructor|].
  rewrite T4, T3, T2, T1, <-!app_assoc. done.
Qed.

(** The i-th owner of a collection signed with the i-th key. *)
Lemma collected_lookup i tx rs tx' j a x :
  collected i tx rs tx' → rs !! j = Some (a, x) → key_address E (owner_key config (i + j)) a.
Proof.
  intros H. revert j. induction H as [|i b tx n tx1 rs tx' Hb Hs H IH]; intros j Hj; [done|].
  destruct j as [|j]; [injection Hj as <- <-; by rewrite Nat.add_0_r|].
  apply IH in Hj. by rewrite Nat.add_succ_r.
Qed.
Lemma rounds_sign i rs j a x : rs !! j = Some (a, x) → CSign (owner_kit config a) x ∈ rounds i rs.
Proof.
  revert i j. induction rs as [|[b y] rs IH]; intros i j Hj; [done|].
  destruct j as [|j]; [injection Hj as -> ->; simpl; set_solver|]. simpl. right; right; right. by eapply IH.
Qed.

(** Calls made before the execution. *)
Definition not_execute (c : OpsCall) : Prop := match c with CExecute _ _ => False | _ => True end.

Lemma collect_calls t n i tx : moves (calls_only not_execute) (collect E config t n i tx).
Proof.
  revert i tx. induction n as [|n IH]; intros i tx; simpl; [solve_moves|].
  apply moves_bind; [apply _|by apply with_getAddress_calls|intros a].
  apply moves_bind; [apply _|by apply Safe_init_calls|intros k].
  apply moves_bind; [apply _|by apply call_calls|intros tx1].
  apply moves_bind; [apply _|apply console_log_calls|intros _]. apply IH.
Qed.

(** Everything before the execution, and the execution. *)
Definition gather (tx : jsval) : Js OpsWorld (InitArgs * jsval) :=
  executorAddress ← with_signer (getAddress (services E) (owner_key config 0));
  kit ← Safe_init E (owner_kit config executorAddress);
  threshold ← call (CGetThreshold kit) (λ t, getThreshold E t kit);
  console_log ("Safe threshold: " +:+ dec threshold +:+ ". Collecting signatures from " +:+ dec threshold +:+ " owner(s)...") ;;
  signed ← collect E config threshold (Z.to_nat threshold) 0 tx;
  mret (kit, signed).

Definition finish (kit : InitArgs) (signed : jsval) : Js OpsWorld (option string) :=
  console_log "Executing..." ;;
  response ← call (CExecute kit signed) (λ t, executeTx E t kit signed);
  receipt_hash ← (if ex_waits response then call CWait (waitTx E) else mret None);
  let hash := match nonempty receipt_hash with Some h => Some h | None => ex_hash response end in
  console_log ("Executed. Transaction: " +:+ default "undefined" hash) ;;
  mret hash.

Lemma signAndExecute_split tx w :
  signAndExecute E config tx w = (r ← gather tx; finish r.1 r.2) w.
Proof.
  unfold signAndExecute, gather. rewrite !bind_bind, !bind_run.
  destruct (with_signer _ w) as [[a|e] w1]; [|done]. rewrite !bind_bind, !bind_run.
  destruct (Safe_init _ _ w1) as [[k|e] w2]; [|done]. rewrite !bind_bind, !bind_run.
  destruct (call _ _ w2) as [[t|e] w3]; [|done]. rewrite !bind_bind, !bind_run.
  destruct (console_log _ w3) as [[u|e] w4]; [|done]. rewrite !bind_bind, !bind_run.
  by destruct (collect _ _ _ _ _ _ w4) as [[s|e] w5].
Qed.

Lemma gather_calls tx : moves (calls_only not_execute) (gather tx).
Proof.
  unfold gather. apply moves_bind; [apply _|by apply with_getAddress_calls|intros a].
  apply moves_bind; [apply _|by apply Safe_init_calls|intros k].
  apply moves_bind; [apply _|by apply call_calls|intros t].
  apply moves_bind; [apply _|apply console_log_calls|intros _].
  apply moves_bind; [apply _|apply collect_calls|intros s]. solve_moves.
Qed.

(** A completed gathering: [t] owners, with the first [t] keys in order. *)
Lemma gather_ok_inv tx w kit signed w' :
  gather tx w = (Ok (kit, signed), w') →
  ∃ a t n rs, key_address E (owner_key config 0) a ∧ kit = owner_kit config a ∧
    getThreshold E n kit = Some t ∧ length rs = Z.to_nat t ∧ collected 0 tx rs signed ∧
    trace w' = trace w ++ [CKms (GetPublicKeyCommand (owner_key config 0)); CInit kit; CGetThreshold kit]
      ++ rounds 0 rs.
Proof.
  unfold gather. intros H.
  apply bind_ok_inv in H as (a & w1 & [Ha T1]%with_getAddress_ok & H).
  apply bind_ok_inv in H as (k & w2 & [-> T2]%Safe_init_ok & H).
  apply bind_ok_inv in H as (t & w3 & [[n Ht] T3]%call_ok & H).
  unfold console_log in H. rewrite bind_modify in H.
  apply bind_ok_inv in H as (s & w4 & (rs & Hl & Hc & T4)%collect_ok_inv & H).
  injection H as <- <- <-. simpl in T4. exists a, t, n, rs. split_and!; try done.
  rewrite T4, T3, T2, T1, <-!app_assoc. done.
Qed.

Lemma finish_trace kit signed w :
  ∃ tail, trace (finish kit signed w).2 = trace w ++ CExecute kit signed :: tail ∧ (tail = [] ∨ tail = [CWait]).
Proof.
  unfold finish, console_log. rewrite bind_modify, bind_run. unfold call at 1. simpl.
  destruct (executeTx _ _ _ _) as [r|]; [|by exists []; auto]. rewrite bind_run.
  destruct (ex_waits r); simpl; [|by exists []; auto].
  unfold call. destruct (waitTx E _) as [h|]; simpl; exists [CWait]; rewrite <-app_assoc; auto.
Qed.
End quorum.

(** [signed] is [tx] after as many owners as the threshold signed it in
    turn, the i-th with the i-th configured key; [kit] is the executor's. *)
Definition quorum_signed (E : OpsEnv) (config : SafeConfig) (tx : jsval) (kit : InitArgs) (signed : jsval) : Prop :=
  ∃ a t n rs, key_address E (owner_key config 0) a ∧ kit = owner_kit config a ∧
    getThreshold E n kit = Some t ∧ length rs = Z.to_nat t ∧ collected E config 0 tx rs signed.

(** What a run adds to the trace: nothing executed, or one full collection. *)
Lemma signAndExecute_trace E config tx w :
  ∃ new, trace (signAndExecute E config tx w).2 = trace w ++ new ∧
    (Forall not_execute new ∨
     ∃ a t n rs signed tail, let kit := owner_kit config a in
       key_address E (owner_key config 0) a ∧ getThreshold E n kit = Some t ∧
       length rs = Z.to_nat t ∧ collected E config 0 tx rs signed ∧ (tail = [] ∨ tail = [CWait]) ∧
       new = [CKms (GetPublicKeyCommand (owner_key config 0)); CInit kit; CGetThreshold kit] ++
         rounds config 0 rs ++ CExecute kit signed :: tail).
Proof.
  rewrite signAndExecute_split, bind_run.
  pose proof (gather_calls E config tx w) as (new & Hn & Hf).
  destruct (gather E config tx w) as [[[kit signed]|e] w1] eqn:Hg; [|exists new; auto].
  apply gather_ok_inv in Hg as (a & t & n & rs & Ha & -> & Ht & Hl & Hc & Hw).
  destruct (finish_trace E (owner_kit config a) signed w1) as (tail & Hw' & Htail).
  eexists. split; [cbn [fst snd]; by rewrite Hw', Hw, <-!app_assoc|]. right. by exists a, t, n, rs, signed, tail.
Qed.

(** A run that returned: every owner up to the threshold signed. *)
Lemma signAndExecute_ok E config tx w h w' :
  signAndExecute E config tx w = (Ok h, w') →
  ∃ a t n rs signed pre tail, getThreshold E n (owner_kit config a) = Some t ∧ length rs = Z.to_nat t ∧
    collected E config 0 tx rs signed ∧
    trace w' = trace w ++ pre ++ rounds config 0 rs ++ CExecute (owner_kit config a) signed :: tail.
Proof.
  rewrite signAndExecute_split. intros H. apply bind_ok_inv in H as ([kit signed] & w1 & H1 & H2).
  apply gather_ok_inv in H1 as (a & t & n & rs & Ha & -> & Ht & Hl & Hc & Hw).
  destruct (finish_trace E (owner_kit config a) signed w1) as (tail & Hw' & _).
  cbn [fst snd] in H2. rewrite H2 in Hw'. cbn [snd] in Hw'.
  exists a, t, n, rs, signed,
    [CKms (GetPublicKeyCommand (owner_key config 0)); CInit (owner_kit config a); CGetThreshold (owner_kit config a)], tail.
  split_and!; [exact Ht|exact Hl|exact Hc|]. by rewrite Hw', Hw, <-!app_assoc.
Qed.

(** Any property of calls that holds of the executor's and the owners' calls
    and of a quorum-signed execution holds of every call of a run. *)
Lemma signAndExecute_calls (P : OpsCall → Prop) E config tx :
  (∀ i, P (CKms (GetPublicKeyCommand (owner_key config i)))) →
  (∀ kit, P (CInit kit)) → (∀ kit, P (CGetThreshold kit)) → (∀ kit x, P (CSign kit x)) → P CWait →
  (∀ kit signed, quorum_signed E config tx kit signed → P (CExecute kit signed)) →
  moves (calls_only P) (signAndExecute E config tx).
Proof.
  intros Hkey Hi Ht Hs Hw He.
  assert (∀ t n i x, moves (calls_only P) (collect E config t n i x)) as Hcol.
  { intros t n. induction n as [|n IH]; intros i x; simpl; [solve_moves|].
    apply moves_bind; [apply _|by apply with_getAddress_calls|intros a].
    apply moves_bind; [apply _|by apply Safe_init_calls|intros k].
    apply moves_bind; [apply _|by apply call_calls|intros tx1].
    apply moves_bind; [apply _|apply console_log_calls|intros _]. apply IH. }
  intros w. rewrite signAndExecute_split. revert w.
  apply moves_bind_ok; [apply _| |intros [kit signed] w w' Hg].
  { unfold gather. apply moves_bind; [apply _|by apply with_getAddress_calls|intros a].
    apply moves_bind; [apply _|by apply Safe_init_calls|intros k].
    apply moves_bind; [apply _|by apply call_calls|intros t].
    apply moves_bind; [apply _|apply console_log_calls|intros _].
    apply moves_bind; [apply _|apply Hcol|intros s]. solve_moves. }
  apply gather_ok_inv in Hg as (a & t & n & rs & Ha & Hk & Hth & Hl & Hc & _).
  unfold finish. apply moves_bind; [apply _|apply console_log_calls|intros _].
  apply moves_bind; [apply _|apply call_calls, He; by exists a, t, n, rs|intros r].
  apply moves_bind; [apply _|destruct (ex_waits r); [by apply call_calls|solve_moves]|intros h].
  apply moves_bind; [apply _|apply console_log_calls|intros _]. solve_moves.
Qed.

(** C8: Quorum.  However a run of [signAndExecute] ends, it makes at most one
    execution, and only of a transaction that exactly as many owners as the
    Safe's threshold have signed in turn, the i-th with the i-th configured
    key, starting from the transaction it was given; nothing but the wait for
    the receipt follows. *)
Theorem execute_needs_quorum (E : OpsEnv) (config : SafeConfig) (tx : jsval) (w : OpsWorld) :
  ∃ new, trace (signAndExecute E config tx w).2 = trace w ++ new ∧
    (Forall not_execute new ∨
     ∃ a t n rs signed tail, let kit := owner_kit config a in
       key_address E (owner_key config 0) a ∧ getThreshold E n kit = Some t ∧
       length rs = Z.to_nat t ∧ collected E config 0 tx rs signed ∧ (tail = [] ∨ tail = [CWait]) ∧
       new = [CKms (GetPublicKeyCommand (owner_key config 0)); CInit kit; CGetThreshold kit] ++
         rounds config 0 rs ++ CExecute kit signed :: tail).
Proof. exact (signAndExecute_trace E config tx w). Qed.

(** C33: KMS only hands out public keys: whatever happens, the only KMS
    commands of [signAndExecute] are public-key reads of configured keys, so
    no digest is ever signed in KMS; the signatures are whatever the protocol
    kit produces from an address and the RPC URL alone. *)
Theorem signing_uses_no_kms_key (E : OpsEnv) (config : SafeConfig) (tx : jsval) (w : OpsWorld) :
  ∃ new, trace (signAndExecute E config tx w).2 = trace w ++ new ∧
    ∀ c, CKms c ∈ new → ∃ i, c = GetPublicKeyCommand (owner_key config i).
Proof.
  set (P := λ c, match c with CKms c => ∃ i, c = GetPublicKeyCommand (owner_key config i) | _ => True end).
  destruct (signAndExecute_calls P E config tx) with (s := w) as (new & Hn & Hf); try done.
  { intros i. by exists i. }
  exists new. split; [done|]. intros c Hc. rewrite Forall_forall in Hf. by apply Hf in Hc.
Qed.

(** Too few keys.  When the Safe's threshold exceeds the number of
    configured keys and KMS rejects a command without a key id, nothing is
    ever executed: the run stops at the first missing key. *)
Theorem short_key_list_never_executes (E : OpsEnv) (config : SafeConfig) (tx : jsval) (w : OpsWorld) :
  (∀ n, kms_send (services E) n (GetPublicKeyCommand None) = None) →
  (∀ n kit t, getThreshold E n kit = Some t → Z.of_nat (length (ownerKmsKeyIds config)) < t) →
  (∃ e, (signAndExecute E config tx w).1 = Throw e) ∧
  ∃ new, trace (signAndExecute E config tx w).2 = trace w ++ new ∧ Forall not_execute new.
Proof.
  intros Hk Ht. rewrite signAndExecute_split, bind_run.
  pose proof (gather_calls E config tx w) as (new & Hn & Hf).
  destruct (gather E config tx w) as [[[kit signed]|e] w1] eqn:Hg; [exfalso|by eauto].
  apply gather_ok_inv in Hg as (a & t & n & rs & Ha & -> & Hth & Hl & Hc & _).
  apply Ht in Hth. destruct (lookup_lt_is_Some_2 rs (length (ownerKmsKeyIds config))) as [[b y] Hb]; [lia|].
  eapply collected_lookup in Hb as (m & der & p & Hd & _); [|exact Hc].
  unfold owner_key in Hd. rewrite Nat.add_0_l, (lookup_ge_None_2 (ownerKmsKeyIds config)) in Hd by lia.
  by rewrite Hk in Hd.
Qed.

(** ** A concrete Safe: three owners, threshold two

    The address of a key is the last byte of its id; the kit appends the
    signer's address to the transaction. *)
Definition demo_point (k : option string) : buffer :=
  be 64 (match k with Some k => match last (chars k) with
                                | Some c => Z.of_nat (Ascii.nat_of_ascii c) | None => 0 end | None => 0 end).
Definition demo_keys : Services := {|
  kms_send _ c := match c with
    | GetPublicKeyCommand None | SignCommand None _ _ _ => None
    | GetPublicKeyCommand k => Some (spki secp256k1_algorithm (demo_point k))
    | SignCommand _ _ _ _ => Some (ecdsa_sig 1 5) end;
  computeAddress s := Ok ("0x" +:+ String.substring 130 2 s);
  Signature_from := Ok;
  recoverAddress _ _ := Ok "0x31";
  serialized s := sig_s s;
  hashMessage _ := Ok ("0x" +:+ hex_of (be 32 77));
  TypedDataEncoder_hash _ _ _ := Ok ("0x" +:+ hex_of (be 32 78));
  resolveRequest _ := Ok [];
  unsigned_digest _ := Ok ("0x" +:+ hex_of (be 32 79));
  signed_serialized _ s := sig_s s;
|}.

Definition demo_tx : jsval := VObj [("to", VStr "0xc1a1"); ("data", VStr "0x"); ("value", VStr "0")].
Definition demo_ops (threshold : Z) : OpsEnv := {|
  services := demo_keys;
  init_ok _ _ := true;
  getThreshold _ _ := Some threshold;
  getOwners _ _ := Some ["0x31"; "0x32"; "0x33"];
  predictAddress _ _ := Some "0x5afe";
  createTx _ _ _ := Some demo_tx;
  signTx _ kit tx := Some (VArr [tx; match ia_signer kit with Some a => VStr a | None => VUndef end]);
  executeTx _ _ _ := Some (mkExec (Some "0xhash") true);
  waitTx _ := Some (Some "0xmined");
  deployContract _ b := Some ("0x" +:+ b);
  sendTx _ _ := true;
  viewContract _ _ := Some (VBool false);
  JsonRpcProvider _ _ := Ok tt;
  walletAddress k := Ok ("0xdeb" +:+ k);
  encodeFunctionData _ f _ := Ok f;
  artifact _ _ := Some (mkArtifact (Some "6080") None);
|}.
Definition demo_safe : SafeConfig :=
  mkSafeConfig "http://besu:8545" (Int 1337) "0xc1a1" "eu-west-1" ["key-1"; "key-2"; "key-3"] (Int 2)
    (Some "0x5afe") None None None.
Definition demo_start : OpsWorld := mkOps 0 [] [].

Lemma short_key_list_never_executes_witness :
  (∃ e, (signAndExecute (demo_ops 4) demo_safe demo_tx demo_start).1 = Throw e) ∧
  ∃ new, trace (signAndExecute (demo_ops 4) demo_safe demo_tx demo_start).2 = trace demo_start ++ new ∧
    Forall not_execute new.
Proof.
  apply (short_key_list_never_executes (demo_ops 4) demo_safe demo_tx demo_start).
  - reflexivity.
  - intros n kit t H. injection H as <-. vm_compute. reflexivity.
Defined.

(** With threshold two, the first two keys' owners sign and the result is
    executed and awaited. *)
Example demo_run :
  trace (signAndExecute (demo_ops 2) demo_safe demo_tx demo_start).2 =
    let kit a := owner_kit demo_safe a in
    [CKms (GetPublicKeyCommand (Some "key-1")); CInit (kit "0x31"); CGetThreshold (kit "0x31");
     CKms (GetPublicKeyCommand (Some "key-1")); CInit (kit "0x31"); CSign (kit "0x31") demo_tx;
     CKms (GetPublicKeyCommand (Some "key-2")); CInit (kit "0x32"); CSign (kit "0x32") (VArr [demo_tx; VStr "0x31"]);
     CExecute (kit "0x31") (VArr [VArr [demo_tx; VStr "0x31"]; VStr "0x32"]); CWait].
Proof. vm_compute. reflexivity. Qed.
