(* ===== verification/SafeScripts.v ===== *)
(** * safe-ops/scripts: deploying and operating the underwriter Safe

    One [main_*] per script, over the world of [SafeOps]; [run_main] is the
    [main().catch(...)] of every script and gives the exit code. *)

From S2P Require Import Prelude JsValue JsText Buffer DerUtils KmsSigner SafeConfig SafeOps.

(** [main().catch(err => { console.error(label, err); process.exit(1) })];
    [process.exit] inside [main] ends the process with its own code. *)
Definition run_main (label : string) (main : Js OpsWorld unit) (w : OpsWorld) : Z * OpsWorld :=
  match main w with
  | (Ok _, w') => (0, w')
  | (Throw (ProcessExit c), w') => (c, w')
  | (Throw _, w') => (1, (console_log label w').2)
  end.

Section scripts.
Context (E : OpsEnv) (env : ProcessEnv) (argv : list string).

(** [const x = process.argv[i]] as the guards use it. *)
Definition arg (i : nat) : option string := nonempty (argv !! i).

(** [receipt.hash] *)
Definition receipt_hash (receipt : option string) : outcome string :=
  match receipt with
  | Some h => Ok h
  | None => Throw (TypeError "Cannot read properties of null (reading 'hash')")
  end.

(** [new ethers.JsonRpcProvider(config.rpcUrl, config.chainId)] *)
Definition new_provider (config : SafeConfig) : Js OpsWorld unit :=
  lift (JsonRpcProvider E (rpcUrl config) (chainId config)).

(** ** 01-deploy-safe-infrastructure.js *)
Definition SAFE_VERSION : string := "1.4.1".

Definition deployFromArtifact (label : string) : Js OpsWorld string :=
  match artifact E label SAFE_VERSION with
  | None => throw (JsError ("No " +:+ label +:+ " deployment artifact found for Safe version " +:+ SAFE_VERSION))
  | Some deployment =>
      let bytecode := match nonempty (canonical_data deployment) with
        | Some b => Some b | None => nonempty (eip155_data deployment) end in
      match bytecode with
      | None => throw (JsError ("No deployable bytecode found in the " +:+ label +:+ " artifact"))
      | Some bytecode =>
          console_log ("Deploying " +:+ label +:+ " (Safe v" +:+ SAFE_VERSION +:+ ")...") ;;
          address ← call (CDeploy bytecode) (λ t, deployContract E t bytecode);
          _ ← call CWait (waitTx E);
          console_log ("  -> " +:+ label +:+ " deployed at " +:+ address) ;;
          mret address
      end
  end.

Definition main_deploy_infrastructure : Js OpsWorld unit :=
  config ← lift (loadConfig env);
  deployerPrivateKey ← lift (requireEnv env "DEPLOYER_PRIVATE_KEY");
  new_provider config ;;
  wallet ← lift (walletAddress E deployerPrivateKey);
  console_log ("Deploying Safe infrastructure to " +:+ rpcUrl config +:+ " (chainId " +:+ num_to_string (chainId config) +:+ ")") ;;
  console_log ("Deployer: " +:+ wallet) ;;
  singletonAddress ← deployFromArtifact "Safe singleton";
  proxyFactoryAddress ← deployFromArtifact "SafeProxyFactory";
  fallbackHandlerAddress ← deployFromArtifact "CompatibilityFallbackHandler";
  console_log "Done. Add these to your .env before running any other script:" ;;
  console_log ("SAFE_SINGLETON_ADDRESS=" +:+ singletonAddress) ;;
  console_log ("SAFE_PROXY_FACTORY_ADDRESS=" +:+ proxyFactoryAddress) ;;
  console_log ("SAFE_FALLBACK_HANDLER_ADDRESS=" +:+ fallbackHandlerAddress).

(** ** 02-create-underwriter-safe.js *)

(** The loop that resolves the owners' addresses. *)
Fixpoint resolve_owners (keyIds : list string) : Js OpsWorld (list string) :=
  match keyIds with
  | [] => mret []
  | keyId :: keyIds =>
      address ← with_signer (getAddress (services E) (Some keyId));
      console_log ("  KMS key " +:+ keyId +:+ " -> " +:+ address) ;;
      addresses ← resolve_owners keyIds;
      mret (address :: addresses)
  end.

(** The kit that describes the Safe to be. *)
Definition predicted_kit (config : SafeConfig) (deployerPrivateKey : string) (owners : list string) : InitArgs :=
  mkInit (rpcUrl config) (Some deployerPrivateKey) None (Some (owners, safeThreshold config)).

Definition main_create_safe : Js OpsWorld unit :=
  config ← lift (loadConfig env);
  match safeProxyFactoryAddress config, safeSingletonAddress config with
  | Some _, Some _ =>
      deployerPrivateKey ← lift (requireEnv env "DEPLOYER_PRIVATE_KEY");
      new_provider config ;;
      deployerWallet ← lift (walletAddress E deployerPrivateKey);
      console_log ("Resolving " +:+ dec (Z.of_nat (length (ownerKmsKeyIds config))) +:+ " owner addresses from KMS...") ;;
      ownerAddresses ← resolve_owners (ownerKmsKeyIds config);
      let count := Z.of_nat (length ownerAddresses) in
      if num_gt (safeThreshold config) count then
        throw (JsError ("SAFE_THRESHOLD (" +:+ num_to_string (safeThreshold config) +:+
          ") cannot exceed the number of owners (" +:+ dec count +:+ ")"))
      else
        console_log ("Deploying Safe: " +:+ dec count +:+ " owners, threshold " +:+ num_to_string (safeThreshold config)) ;;
        protocolKit ← Safe_init E (predicted_kit config deployerPrivateKey ownerAddresses);
        predictedAddress ← call (CGetAddress protocolKit) (λ t, predictAddress E t protocolKit);
        console_log ("Predicted Safe address: " +:+ predictedAddress) ;;
        deploymentTransaction ← call (CCreate protocolKit TxDeploySafe) (λ t, createTx E t protocolKit TxDeploySafe);
        to ← lift (js_get deploymentTransaction "to");
        data ← lift (js_get deploymentTransaction "data");
        value ← lift (js_get deploymentTransaction "value");
        call (CSend deployerWallet to data value) (λ t, accept (sendTx E t (CSend deployerWallet to data value))) ;;
        receipt ← call CWait (waitTx E);
        hash ← lift (receipt_hash receipt);
        console_log ("Deployment transaction mined: " +:+ hash) ;;
        console_log "Done. Add this to your .env before running any other script:" ;;
        console_log ("UNDERWRITER_SAFE_ADDRESS=" +:+ predictedAddress) ;;
        for_each (λ p, console_log (p.2 +:+ " (KMS key: " +:+ p.1 +:+ ")")) (zip (ownerKmsKeyIds config) ownerAddresses) ;;
        console_log ("Threshold: " +:+ num_to_string (safeThreshold config) +:+ " of " +:+ dec count)
  | _, _ => throw (JsError "SAFE_PROXY_FACTORY_ADDRESS / SAFE_SINGLETON_ADDRESS are not set")
  end.

(** ** 03-grant-underwriter-role.js *)
Definition CLAIM_REGISTRY_ABI : list string :=
  ["function UNDERWRITER_ROLE() external view returns (bytes32)";
   "function grantRole(bytes32 role, address account) external";
   "function hasRole(bytes32 role, address account) external view returns (bool)"].

Definition main_grant_role : Js OpsWorld unit :=
  config ← lift (loadConfig env);
  match safeAddress config with
  | None => throw (JsError "UNDERWRITER_SAFE_ADDRESS is not set — run 02-create-underwriter-safe.js first")
  | Some safe =>
      deployerPrivateKey ← lift (requireEnv env "DEPLOYER_PRIVATE_KEY");
      new_provider config ;;
      wallet ← lift (walletAddress E deployerPrivateKey);
      let registry := claimRegistryAddress config in
      let view m args := call (CView registry m args) (λ t, viewContract E t (CView registry m args)) in
      underwriterRole ← view "UNDERWRITER_ROLE" [];
      console_log ("UNDERWRITER_ROLE = " +:+ js_to_string underwriterRole) ;;
      console_log ("Granting to Safe: " +:+ safe) ;;
      console_log "Calldata for this exact call (for a Timelock proposal, if the direct send below reverts):" ;;
      calldata ← lift (encodeFunctionData E CLAIM_REGISTRY_ABI "grantRole" [underwriterRole; VStr safe]);
      console_log ("  target: " +:+ registry) ;;
      console_log ("  data:   " +:+ calldata) ;;
      alreadyGranted ← view "hasRole" [underwriterRole; VStr safe];
      if truthy alreadyGranted then console_log "Already granted — nothing to do."
      else
        let grant := CInvoke wallet registry "grantRole" [underwriterRole; VStr safe] in
        call grant (λ t, accept (sendTx E t grant)) ;;
        receipt ← call CWait (waitTx E);
        hash ← lift (receipt_hash receipt);
        console_log ("Granted. Transaction: " +:+ hash) ;;
        confirmed ← view "hasRole" [underwriterRole; VStr safe];
        console_log ("Confirmed on-chain: hasRole(UNDERWRITER_ROLE, " +:+ safe +:+ ") = " +:+ js_to_string confirmed)
  end.

(** ** 04-propose-and-execute-transaction.js *)
Definition CLAIM_REGISTRY_WRITE_ABI : list string :=
  ["function setClaimStatus(uint256 claimId, uint8 status) external";
   "function payoutClaim(uint256 claimId) external"].

Definition CLAIM_STATUS : list (string * Z) :=
  [("SUBMITTED", 0); ("UNDER_REVIEW", 1); ("APPROVED", 2); ("PAID", 3); ("REJECTED", 4)].

(** [CLAIM_STATUS.NAME] *)
Definition claim_status (name : string) : jsval :=
  match assoc name CLAIM_STATUS with Some code => VNum (Int code) | None => VUndef end.

(** The double quote character. *)
Definition quote : string := String (Ascii.ascii_of_nat 34) "".

Definition buildCalldata (action : string) (claimId : num) : outcome string :=
  let encode := encodeFunctionData E CLAIM_REGISTRY_WRITE_ABI in
  if bool_decide (action = "approve") then encode "setClaimStatus" [VNum claimId; claim_status "APPROVED"]
  else if bool_decide (action = "reject") then encode "setClaimStatus" [VNum claimId; claim_status "REJECTED"]
  else if bool_decide (action = "payout") then encode "payoutClaim" [VNum claimId]
  else Throw (JsError ("Unknown action " +:+ quote +:+ action +:+ quote +:+ " — expected approve, reject, or payout")).

(** The kit the scripts build transactions with: no signer. *)
Definition bootstrap_kit (config : SafeConfig) : InitArgs :=
  mkInit (rpcUrl config) None (safeAddress config) None.

Definition main_propose : Js OpsWorld unit :=
  match arg 2, arg 3 with
  | Some claimIdArg, Some action =>
      let claimId := parseInt claimIdArg in
      config ← lift (loadConfig env);
      match safeAddress config with
      | None => throw (JsError "UNDERWRITER_SAFE_ADDRESS is not set — run 02-create-underwriter-safe.js first")
      | Some _ =>
          new_provider config ;;
          calldata ← lift (buildCalldata action claimId);
          console_log ("Building Safe transaction: claim " +:+ num_to_string claimId +:+ ", action " +:+ action) ;;
          console_log ("  target:   " +:+ claimRegistryAddress config) ;;
          console_log ("  calldata: " +:+ calldata) ;;
          kit ← Safe_init E (bootstrap_kit config);
          let request := TxCall (claimRegistryAddress config) "0" calldata in
          safeTransaction ← call (CCreate kit request) (λ t, createTx E t kit request);
          _ ← signAndExecute E config safeTransaction;
          console_log "The indexer should pick up the resulting ClaimStatusChanged/ClaimPayout event on its next poll"
      end
  | _, _ =>
      console_log "Usage: node scripts/04-propose-and-execute-transaction.js <claimId> <approve|reject|payout>" ;;
      throw (ProcessExit 1)
  end.

(** ** 05-add-owner.js *)
Definition main_add_owner : Js OpsWorld unit :=
  match arg 2 with
  | None =>
      console_log "Usage: node scripts/05-add-owner.js <newOwnerKmsKeyId> [newThreshold]" ;;
      throw (ProcessExit 1)
  | Some newOwnerKmsKeyId =>
      config ← lift (loadConfig env);
      new_provider config ;;
      newOwnerAddress ← with_signer (getAddress (services E) (Some newOwnerKmsKeyId));
      console_log ("New owner: KMS key " +:+ newOwnerKmsKeyId +:+ " -> " +:+ newOwnerAddress) ;;
      kit ← Safe_init E (bootstrap_kit config);
      let request := TxAddOwner newOwnerAddress (parseInt <$> arg 3) in
      addOwnerTx ← call (CCreate kit request) (λ t, createTx E t kit request);
      _ ← signAndExecute E config addOwnerTx;
      console_log ("Done. Remember to also add " +:+ newOwnerKmsKeyId +:+ " to OWNER_KMS_KEY_IDS")
  end.

(** ** 06-remove-owner.js *)
Definition is_owner (address : string) (owners : list string) : bool :=
  bool_decide (lower address ∈ lower <$> owners).

Definition main_remove_owner : Js OpsWorld unit :=
  match arg 2 with
  | None =>
      console_log "Usage: node scripts/06-remove-owner.js <departingOwnerAddress> [newThreshold]" ;;
      throw (ProcessExit 1)
  | Some departingOwnerAddress =>
      config ← lift (loadConfig env);
      new_provider config ;;
      kit ← Safe_init E (bootstrap_kit config);
      currentOwners ← call (CGetOwners kit) (λ t, getOwners E t kit);
      if negb (is_owner departingOwnerAddress currentOwners) then
        throw (JsError (departingOwnerAddress +:+ " is not currently an owner of this Safe — nothing to remove"))
      else
        currentThreshold ← call (CGetThreshold kit) (λ t, getThreshold E t kit);
        let remainingOwnerCount := Z.of_nat (length currentOwners) - 1 in
        let newThreshold := match arg 3 with Some a => parseInt a | None => num_of_Z currentThreshold end in
        if num_gt newThreshold remainingOwnerCount then
          throw (JsError ("Threshold " +:+ num_to_string newThreshold +:+ " would exceed the remaining " +:+
            dec remainingOwnerCount +:+ " owner(s) after removal — pass an explicit lower newThreshold argument"))
        else
          console_log ("Removing owner: " +:+ departingOwnerAddress) ;;
          console_log ("Owners before: " +:+ dec (Z.of_nat (length currentOwners)) +:+ ", threshold " +:+ dec currentThreshold) ;;
          console_log ("Owners after:  " +:+ dec remainingOwnerCount +:+ ", threshold " +:+ num_to_string newThreshold) ;;
          let request := TxRemoveOwner departingOwnerAddress newThreshold in
          removeOwnerTx ← call (CCreate kit request) (λ t, createTx E t kit request);
          _ ← signAndExecute E config removeOwnerTx;
          console_log "Done on-chain. Now also revoke this person's IAM access to their KMS key directly in AWS"
  end.
End scripts.
