(* ===== verification/SafeRuns.v ===== *)
(** * What the Safe scripts can do

    For the scripts that build a Safe transaction: which requests they may
    make, and that nothing else is ever executed.  For the others: what is
    deployed, granted, and when. *)

From S2P Require Import Prelude JsValue JsText Buffer DerUtils KmsSigner SafeConfig SafeOps SafeScripts.

(** ** Authorised requests *)
Inductive Script := Propose | AddOwner | RemoveOwner.

Definition main_of (E : OpsEnv) (env : ProcessEnv) (argv : list string) (s : Script) : Js OpsWorld unit :=
  match s with
  | Propose => main_propose E env argv
  | AddOwner => main_add_owner E env argv
  | RemoveOwner => main_remove_owner E env argv
  end.



Section runs.
Context (E : OpsEnv) (env : ProcessEnv) (argv : list string).

Lemma with_getAddress_known (P : OpsCall → Prop) k {B} (next : string → Js OpsWorld B) :
  P (CKms (GetPublicKeyCommand k)) → (∀ a, key_address E k a → moves (calls_only P) (next a)) →
  moves (calls_only P) (with_signer (getAddress (services E) k) ≫= next).
Proof.
  intros HP Hn. apply moves_bind_ok; [apply _|by apply with_getAddress_calls|].
  intros a w w' [Ha _]%with_getAddress_ok. by apply Hn.
Qed.
Lemma call_known (P : OpsCall → Prop) {A B} c (answer : nat → option A) (next : A → Js OpsWorld B) :
  P c → (∀ a n, answer n = Some a → moves (calls_only P) (next a)) →
  moves (calls_only P) (call c answer ≫= next).
Proof.
  intros HP Hn. apply moves_bind_ok; [apply _|by apply call_calls|].
  intros a w w' [[n Ha] _]%call_ok. by eapply Hn.
Qed.
Lemma Safe_init_known (P : OpsCall → Prop) {B} a (next : InitArgs → Js OpsWorld B) :
  P (CInit a) → moves (calls_only P) (next a) → moves (calls_only P) (Safe_init E a ≫= next).
Proof.
  intros HP Hn. apply moves_bind_ok; [apply _|by apply Safe_init_calls|].
  by intros b w w' [-> _]%Safe_init_ok.
Qed.
Lemma console_known (P : OpsCall → Prop) {B} l (next : unit → Js OpsWorld B) :
  (∀ u, moves (calls_only P) (next u)) → moves (calls_only P) (console_log l ≫= next).
Proof. intros Hn. apply moves_bind; [apply _|apply console_log_calls|done]. Qed.
Lemma lift_known (P : OpsCall → Prop) {A B} (o : outcome A) (next : A → Js OpsWorld B) :
  (∀ a, o = Ok a → moves (calls_only P) (next a)) → moves (calls_only P) (lift o ≫= next).
Proof. apply moves_bind_lift. apply _. Qed.


End runs.

(** ** Setting up *)
Inductive Setup := DeployInfrastructure | CreateSafe | GrantRole.

Definition setup_main (E : OpsEnv) (env : ProcessEnv) (s : Setup) : Js OpsWorld unit :=
  match s with
  | DeployInfrastructure => main_deploy_infrastructure E env
  | CreateSafe => main_create_safe E env
  | GrantRole => main_grant_role E env
  end.

(** The address of the deployer's key. *)
Definition deployer (E : OpsEnv) (env : ProcessEnv) (key address : string) : Prop :=
  requireEnv env "DEPLOYER_PRIVATE_KEY" = Ok key ∧ walletAddress E key = Ok address.

(** The kit describes a Safe owned by the addresses of the configured keys,
    in order, with the configured threshold, which does not exceed them. *)
Definition describes_owners (E : OpsEnv) (env : ProcessEnv) (kit : InitArgs) : Prop :=
  ∃ config key owners, loadConfig env = Ok config ∧ requireEnv env "DEPLOYER_PRIVATE_KEY" = Ok key ∧
    kit = predicted_kit config key owners ∧
    Forall2 (λ k a, key_address E (Some k) a) (ownerKmsKeyIds config) owners ∧
    num_gt (safeThreshold config) (Z.of_nat (length (ownerKmsKeyIds config))) = false.

(** The calls of the set-up scripts. *)
Definition setup_call (E : OpsEnv) (env : ProcessEnv) (s : Setup) (c : OpsCall) : Prop :=
  match s, c with
  | _, CWait => True
  | DeployInfrastructure, CDeploy bytecode => ∃ label a,
      label ∈ ["Safe singleton"; "SafeProxyFactory"; "CompatibilityFallbackHandler"] ∧
      artifact E label SAFE_VERSION = Some a ∧ bytecode ≠ "" ∧
      (canonical_data a = Some bytecode ∨ nonempty (canonical_data a) = None ∧ eip155_data a = Some bytecode)
  | CreateSafe, CKms c => ∃ config k, loadConfig env = Ok config ∧ k ∈ ownerKmsKeyIds config ∧
      c = GetPublicKeyCommand (Some k)
  | CreateSafe, (CInit kit | CGetAddress kit) => describes_owners E env kit
  | CreateSafe, CCreate kit r => describes_owners E env kit ∧ r = TxDeploySafe
  | CreateSafe, CSend from to data value => ∃ key kit n tx, deployer E env key from ∧
      describes_owners E env kit ∧ createTx E n kit TxDeploySafe = Some tx ∧
      js_get tx "to" = Ok to ∧ js_get tx "data" = Ok data ∧ js_get tx "value" = Ok value
  | GrantRole, CView registry m args => ∃ config, loadConfig env = Ok config ∧
      registry = claimRegistryAddress config ∧ m ∈ ["UNDERWRITER_ROLE"; "hasRole"]
  | GrantRole, CInvoke from registry m args => ∃ config safe key role n v n', loadConfig env = Ok config ∧
      safeAddress config = Some safe ∧ deployer E env key from ∧ registry = claimRegistryAddress config ∧
      m = "grantRole" ∧ args = [role; VStr safe] ∧
      viewContract E n (CView registry "UNDERWRITER_ROLE" []) = Some role ∧
      viewContract E n' (CView registry "hasRole" [role; VStr safe]) = Some v ∧ truthy v = false
  | _, _ => False
  end.

Section setup.
Context (E : OpsEnv) (env : ProcessEnv).

Lemma nonempty_some o v : nonempty o = Some v → o = Some v ∧ v ≠ "".
Proof. unfold nonempty. destruct o; [|done]. case_bool_decide; [done|]. intros H1. by injection H1 as <-. Qed.

Lemma deploy_calls label :
  label ∈ ["Safe singleton"; "SafeProxyFactory"; "CompatibilityFallbackHandler"] →
  moves (calls_only (setup_call E env DeployInfrastructure)) (deployFromArtifact E label).
Proof.
  intros Hl. unfold deployFromArtifact. destruct (artifact E label SAFE_VERSION) as [a|] eqn:Ha; [|solve_moves].
  assert (∀ b, match nonempty (canonical_data a) with Some b => Some b | None => nonempty (eip155_data a) end = Some b →
    setup_call E env DeployInfrastructure (CDeploy b)) as Hb.
  { intros b H. exists label, a. destruct (nonempty (canonical_data a)) as [x|] eqn:Hx.
    - injection H as ->. apply nonempty_some in Hx as [? ?]. auto.
    - apply nonempty_some in H as [? ?]. auto 10. }
  destruct (match nonempty _ with Some b => _ | None => _ end) as [b|]; [|solve_moves].
  apply console_known; intros _. apply call_known; [by apply Hb|intros x n _].
  apply call_known; [done|intros _ _ _]. apply console_known; intros _. solve_moves.
Qed.

Lemma resolve_owners_calls (P : OpsCall → Prop) ks :
  (∀ k, k ∈ ks → P (CKms (GetPublicKeyCommand (Some k)))) → moves (calls_only P) (resolve_owners E ks).
Proof.
  induction ks as [|k ks IH]; intros HP; simpl; [solve_moves|].
  apply with_getAddress_known; [apply HP; left|intros a _]. apply console_known; intros _.
  apply moves_bind; [apply _|apply IH; intros x Hx; apply HP; by right|intros l]. solve_moves.
Qed.
Lemma resolve_owners_ok ks w l w' :
  resolve_owners E ks w = (Ok l, w') → Forall2 (λ k a, key_address E (Some k) a) ks l.
Proof.
  revert w l w'. induction ks as [|k ks IH]; intros w l w' H; simpl in H; [injection H as <- _; constructor|].
  apply bind_ok_inv in H as (a & w1 & [Ha _]%with_getAddress_ok & H).
  unfold console_log in H. rewrite bind_modify in H.
  apply bind_ok_inv in H as (l' & w2 & H1%IH & H). injection H as <- _. by constructor.
Qed.

Lemma create_safe_calls : moves (calls_only (setup_call E env CreateSafe)) (main_create_safe E env).
Proof.
  unfold main_create_safe. apply lift_known; intros config Hc.
  destruct (safeProxyFactoryAddress config); [|solve_moves]. destruct (safeSingletonAddress config); [|solve_moves].
  apply lift_known; intros key Hk. apply lift_known; intros _ _. apply lift_known; intros wallet Hw.
  apply console_known; intros _. apply moves_bind_ok; [apply _| |].
  { apply resolve_owners_calls. intros k Hin. by exists config, k. }
  intros owners w w' Ho%resolve_owners_ok. destruct (num_gt _ _) eqn:Hg; cbv iota; [solve_moves|].
  apply console_known; intros _. pose proof (Forall2_length _ _ _ Ho) as Hlen. rewrite <-Hlen in Hg.
  assert (describes_owners E env (predicted_kit config key owners)) as Hd by (by exists config, key, owners).
  apply Safe_init_known; [done|]. apply call_known; [done|intros x n _]. apply console_known; intros _.
  apply call_known; [done|intros tx m Htx].
  apply lift_known; intros to Hto. apply lift_known; intros data Hdata. apply lift_known; intros value Hv.
  apply call_known; [by exists key, (predicted_kit config key owners), m, tx|intros _ _ _].
  apply call_known; [done|intros r _ _]. apply lift_known; intros h _.
  do 3 (apply console_known; intros _).
  apply moves_bind; [apply _|apply moves_for_each; [apply _|intros; apply console_log_calls]|intros _].
  apply console_log_calls.
Qed.

Lemma grant_calls : moves (calls_only (setup_call E env GrantRole)) (main_grant_role E env).
Proof.
  unfold main_grant_role. apply lift_known; intros config Hc. destruct (safeAddress config) as [safe|] eqn:Hs; [|solve_moves].
  apply lift_known; intros key Hk. apply lift_known; intros _ _. apply lift_known; intros wallet Hw.
  assert (∀ m args, m ∈ ["UNDERWRITER_ROLE"; "hasRole"] →
    setup_call E env GrantRole (CView (claimRegistryAddress config) m args)) as Hv by (by exists config).
  apply call_known; [apply Hv; left|intros role n Hr]. do 3 (apply console_known; intros _).
  apply lift_known; intros data _. do 2 (apply console_known; intros _).
  apply call_known; [apply Hv; right; left|intros v n' Hv']. destruct (truthy v) eqn:Ht; cbv iota;
    [apply console_log_calls|].
  apply call_known; [by exists config, safe, key, role, n, v, n'|intros _ _ _].
  apply call_known; [done|intros r _ _]. apply lift_known; intros h _. apply console_known; intros _.
  apply call_known; [apply Hv; right; left|intros v' _ _]. apply console_log_calls.
Qed.

Lemma infrastructure_calls :
  moves (calls_only (setup_call E env DeployInfrastructure)) (main_deploy_infrastructure E env).
Proof.
  unfold main_deploy_infrastructure. apply lift_known; intros config Hc. apply lift_known; intros key Hk.
  apply lift_known; intros _ _. apply lift_known; intros wallet Hw. do 2 (apply console_known; intros _).
  pose proof deploy_calls as Hd.
  apply moves_bind; [apply _|apply Hd; left|intros a]. apply moves_bind; [apply _|apply Hd; right; left|intros b].
  apply moves_bind; [apply _|apply Hd; right; right; left|intros c].
  do 3 (apply console_known; intros _). apply console_log_calls.
Qed.
End setup.

(** C30: Setting up.  However a set-up script ends: 01 deploys only the
    published bytecode of the three Safe contracts; 02 only describes and
    deploys a Safe owned by the configured keys' addresses, in order, with a
    threshold not above their number, and only the deployer's wallet sends;
    03 sends [grantRole] to the registry only for the configured Safe and only
    after the registry answered that the role is not held (so a run against a
    registry that reports the role sends nothing). *)
Theorem setup_scripts_calls (E : OpsEnv) (env : ProcessEnv) (s : Setup) (w : OpsWorld) :
  ∃ new, trace (setup_main E env s w).2 = trace w ++ new ∧ Forall (setup_call E env s) new.
Proof.
  destruct s; simpl; [apply infrastructure_calls|apply create_safe_calls|apply grant_calls].
Qed.


(** ** Leaving *)

(** C34: A departing owner's signature is used.  If the departing owner's key
    is among the first [threshold] configured keys, a removal that succeeds
    had that very owner sign it, with a kit made for that owner's address. *)
Theorem departing_owner_signs (E : OpsEnv) (env : ProcessEnv) (argv : list string) (config : SafeConfig)
    (address : string) (j : nat) (w w' : OpsWorld) :
  loadConfig env = Ok config →
  (∀ a, key_address E (owner_key config j) a → a = address) →
  (∀ n kit t, getThreshold E n kit = Some t → Z.of_nat j < t) →
  main_remove_owner E env argv w = (Ok tt, w') →
  ∃ new tx, trace w' = trace w ++ new ∧ CSign (owner_kit config address) tx ∈ new.
Proof.
  intros Hc Hj Ht. unfold main_remove_owner. destruct (arg argv 2) as [dep|] eqn:H2.
  2: { unfold console_log. rewrite bind_modify. done. }
  rewrite Hc, bind_lift_ok. intros H.
  apply bind_ok_inv in H as (u & w1 & H1 & H). injection H1 as _ <-.
  apply bind_ok_inv in H as (kit & w2 & [-> T1]%Safe_init_ok & H).
  apply bind_ok_inv in H as (owners & w3 & [_ T2]%call_ok & H).
  destruct (negb _); cbv iota in H; [done|].
  apply bind_ok_inv in H as (t & w4 & [_ T3]%call_ok & H). destruct (num_gt _ _); cbv iota in H; [done|].
  unfold console_log in H. rewrite !bind_modify in H.
  apply bind_ok_inv in H as (tx & w5 & [_ T4]%call_ok & H).
  apply bind_ok_inv in H as (h & w6 & H5 & H). injection H as <-.
  apply signAndExecute_ok in H5 as (a & t' & n & rs & signed & pre & tail & Hth & Hl & Hcol & T5).
  apply Ht in Hth. destruct (lookup_lt_is_Some_2 rs j) as [[b x] Hb]; [lia|].
  pose proof (collected_lookup _ _ _ _ _ _ _ _ _ Hcol Hb) as ->%Hj.
  cbn [trace] in T4 |- *. rewrite T4, T3, T2, T1, <-!app_assoc in T5. eexists _, x. split; [exact T5|].
  pose proof (rounds_sign config 0 rs j address x Hb) as Hin. rewrite !elem_of_app. tauto.
Qed.

Definition demo_argv (a b : string) : list string := ["node"; "script.js"; a; b].
Definition removal_end : OpsWorld :=
  (main_remove_owner (demo_ops 2) demo_env (demo_argv "0x32" "") demo_start).2.

Lemma departing_owner_signs_witness :
  ∃ new tx, trace removal_end = trace demo_start ++ new ∧ CSign (owner_kit demo_safe "0x32") tx ∈ new.
Proof.
  assert (loadConfig demo_env = Ok (mkSafeConfig "http://besu:8545" (Int 1337) "0xc1a1" "eu-west-1"
    ["key-1"; "key-2"; "key-3"] (Int 2) (Some "0x5afe") (Some "0xfac") (Some "0x51") None)) as Hc by reflexivity.
  apply (departing_owner_signs (demo_ops 2) demo_env (demo_argv "0x32" "") _ "0x32" 1%nat demo_start removal_end Hc).
  - intros a (n & der & p & Hk & Hp & Ha).
    assert (der = spki secp256k1_algorithm (demo_point (Some "key-2"))) as -> by (symmetry; exact (inj Some _ _ Hk)).
    assert (publicKeyFromKmsDer (spki secp256k1_algorithm (demo_point (Some "key-2"))) =
      Ok (demo_point (Some "key-2"))) as Hp' by (vm_compute; reflexivity).
    rewrite Hp' in Hp. apply Ok_inj in Hp as <-.
    assert (computeAddress (services (demo_ops 2)) ("0x04" +:+ hex_of (demo_point (Some "key-2"))) = Ok "0x32") as Ha'
      by (vm_compute; reflexivity).
    rewrite Ha' in Ha. by apply Ok_inj in Ha.
  - intros n kit t H. injection H as <-. vm_compute. reflexivity.
  - vm_compute. reflexivity.
Defined.

(** ** Refused invocations *)

(** The arguments and the environment a script starts from are refused. *)
Inductive refused (env : ProcessEnv) (argv : list string) : Script → Prop :=
  | refused_argument s : arg argv 2 = None → refused env argv s
  | refused_action : arg argv 3 = None → refused env argv Propose
  | refused_environment s k : first_missing env = Some k → refused env argv s
  | refused_safe : nonempty (env "UNDERWRITER_SAFE_ADDRESS") = None → refused env argv Propose
  | refused_unknown a : arg argv 3 = Some a → a ∉ ["approve"; "reject"; "payout"] → refused env argv Propose.

Lemma loadConfig_missing env k : first_missing env = Some k → ∃ e, loadConfig env = Throw e.
Proof.
  intros H. pose proof (loadConfig_cases env) as Hc. rewrite H in Hc. eauto.
Qed.
Lemma loadConfig_safeAddress env c : loadConfig env = Ok c → safeAddress c = nonempty (env "UNDERWRITER_SAFE_ADDRESS").
Proof.
  unfold loadConfig. intros H.
  destruct (requireEnv env "RPC_URL"); [|done]. destruct (requireEnv env "CLAIM_REGISTRY_ADDRESS"); [|done].
  destruct (requireEnv env "AWS_REGION"); [|done]. destruct (requireEnv env "OWNER_KMS_KEY_IDS"); [|done].
  by apply Ok_inj in H as <-.
Qed.
Lemma buildCalldata_unknown E a id : a ∉ ["approve"; "reject"; "payout"] → ∃ e, buildCalldata E a id = Throw e.
Proof.
  rewrite !not_elem_of_cons. intros (? & ? & ? & _). unfold buildCalldata.
  rewrite !bool_decide_eq_false_2 by done. by eexists.
Qed.

(** Refused before anything happens.  With a missing argument, a missing
    variable, no Safe address or an unknown claim action, a script fails
    without a single call to KMS, the kit or the chain. *)
Theorem refused_runs_call_nothing (E : OpsEnv) (env : ProcessEnv) (argv : list string) (s : Script) (w : OpsWorld) :
  refused env argv s →
  (∃ e, (main_of E env argv s w).1 = Throw e) ∧ trace (main_of E env argv s w).2 = trace w.
Proof.
  assert (∀ s k, first_missing env = Some k → (∃ e, (main_of E env argv s w).1 = Throw e) ∧
    trace (main_of E env argv s w).2 = trace w) as Henv.
  { intros s' k [e He]%loadConfig_missing.
    destruct s'; simpl; unfold main_propose, main_add_owner, main_remove_owner, console_log; rewrite ?He;
      destruct (arg argv 2); simpl; [destruct (arg argv 3)|..]; simpl; eauto. }
  intros [s' H|H|s' k H|H|a H Ha]; [..|clear Henv].
  - destruct s'; simpl; unfold main_propose, main_add_owner, main_remove_owner; rewrite H; simpl; eauto.
  - simpl. unfold main_propose. rewrite H. destruct (arg argv 2); simpl; eauto.
  - by apply (Henv s' k).
  - simpl. unfold main_propose. destruct (arg argv 2); [|simpl; eauto]. destruct (arg argv 3); [|simpl; eauto].
    destruct (loadConfig env) as [c|e] eqn:Hc; [|simpl; eauto].
    apply loadConfig_safeAddress in Hc. rewrite bind_lift_ok, Hc, H. simpl. eauto.
  - simpl. unfold main_propose. rewrite H. destruct (arg argv 2) as [id|]; [|simpl; eauto].
    destruct (loadConfig env) as [c|e] eqn:Hc; [|simpl; eauto]. rewrite bind_lift_ok.
    destruct (safeAddress c); [|simpl; eauto]. unfold new_provider.
    destruct (JsonRpcProvider E _ _); [|simpl; eauto]. rewrite bind_lift_ok.
    destruct (buildCalldata_unknown E a (parseInt id) Ha) as [e He]. rewrite He. simpl. eauto.
Qed.

Lemma refused_runs_call_nothing_witness :
  (∃ e, (main_propose (demo_ops 2) demo_env (demo_argv "7" "approved") demo_start).1 = Throw e) ∧
  trace (main_propose (demo_ops 2) demo_env (demo_argv "7" "approved") demo_start).2 = [].
Proof.
  apply (refused_runs_call_nothing (demo_ops 2) demo_env (demo_argv "7" "approved") Propose demo_start).
  apply (refused_unknown _ _ "approved"); [reflexivity|].
  rewrite !not_elem_of_cons. split_and!; try discriminate. apply not_elem_of_nil.
Defined.
