(* ===== verification/OracleConfig.v ===== *)
(** * oracle-service/src/config.js and auth.js

    The validated configuration, and the API-key check in front of
    [POST /verify]. *)

From S2P Require Import Prelude JsValue Zod Buffer.
From Stdlib Require Import Strings.Ascii Strings.Byte.

Definition address_re : string := "^0x[a-fA-F0-9]{40}$".
Definition key_re : string := "^0x[a-fA-F0-9]{64}$".

Definition envSchema : list (string * ZodType) := [
  ("RPC_URL", ZString [CUrl]);
  ("CHAIN_ID", ZNumber true [CInt; CPositive]);
  ("ORACLE_ADAPTER_ADDRESS", ZString [CRegex address_re]);
  ("ORACLE_SIGNER_PRIVATE_KEY", ZString [CRegex key_re]);
  ("RELAYER_PRIVATE_KEY", ZOr (ZOptional (ZString [CRegex key_re])) (ZLiteral (VStr "")));
  ("PORT", ZDefault (ZNumber true [CInt; CPositive]) (VNum (Int 4100)));
  ("EIP712_DOMAIN_NAME", ZString [CMin 1]);
  ("EIP712_DOMAIN_VERSION", ZString [CMin 1]);
  ("ORACLE_SERVICE_API_KEY", ZString [CMin 16])
].

Record OracleConfig := mkOracleConfig {
  rpcUrl : string;
  chainId : Z;
  oracleAdapterAddress : string;
  signerPrivateKey : string;
  relayerPrivateKey : string;
  port : Z;
  eip712_name : string;
  eip712_version : string;
  apiKey : string;
}.

(** The configuration, and whether the shared-key warning was printed. *)
Definition loadConfig `{Zod} (process_env : jsval) : outcome (OracleConfig * bool) :=
  match safeParse (ZObject envSchema) process_env with
  | None => Throw (ProcessExit 1)
  | Some env =>
      let relayer := member env "RELAYER_PRIVATE_KEY" in
      let signer := member env "ORACLE_SIGNER_PRIVATE_KEY" in
      let relayerKey := text_of (if truthy relayer then relayer else signer) in
      let warned := bool_decide (relayerKey = text_of signer) in
      Ok ({| rpcUrl := text_of (member env "RPC_URL");
             chainId := Z_of (member env "CHAIN_ID");
             oracleAdapterAddress := text_of (member env "ORACLE_ADAPTER_ADDRESS");
             signerPrivateKey := text_of signer;
             relayerPrivateKey := relayerKey;
             port := Z_of (member env "PORT");
             eip712_name := text_of (member env "EIP712_DOMAIN_NAME");
             eip712_version := text_of (member env "EIP712_DOMAIN_VERSION");
             apiKey := text_of (member env "ORACLE_SERVICE_API_KEY") |}, warned)
  end.

(** ** What an accepted configuration guarantees *)
Record OracleConfigOk (c : OracleConfig) (warned : bool) : Prop := {
  oc_chain : 0 < chainId c;
  oc_port : 0 < port c;
  oc_name : 1 <= strlen (eip712_name c);
  oc_version : 1 <= strlen (eip712_version c);
  oc_key : 16 <= strlen (apiKey c);
  oc_warned : warned = bool_decide (relayerPrivateKey c = signerPrivateKey c);
}.

Lemma oracle_config_inv `{Zod} p c warned :
  loadConfig p = Ok (c, warned) → ∃ env, safeParse (ZObject envSchema) p = Some env ∧
    chainId c = Z_of (member env "CHAIN_ID") ∧ port c = Z_of (member env "PORT") ∧
    eip712_name c = text_of (member env "EIP712_DOMAIN_NAME") ∧
    eip712_version c = text_of (member env "EIP712_DOMAIN_VERSION") ∧
    apiKey c = text_of (member env "ORACLE_SERVICE_API_KEY") ∧
    signerPrivateKey c = text_of (member env "ORACLE_SIGNER_PRIVATE_KEY") ∧
    warned = bool_decide (relayerPrivateKey c = signerPrivateKey c) ∧
    relayerPrivateKey c = text_of (if truthy (member env "RELAYER_PRIVATE_KEY")
      then member env "RELAYER_PRIVATE_KEY" else member env "ORACLE_SIGNER_PRIVATE_KEY").
Proof.
  unfold loadConfig. destruct (safeParse _ p) as [env|]; [|done].
  intros H1. injection H1 as <- <-. by exists env.
Qed.

Lemma string_min `{ZL : ZodLaws} n v d : safeParse (ZString [CMin n]) v = Some d → n <= strlen (text_of d).
Proof. intros (s & -> & Hs)%zod_string. apply Hs. left. Qed.

(** An accepted oracle configuration has positive chain id and port, a
    non-empty EIP-712 name and version and an API key of at least 16
    characters; it relays with the configured relayer key, or with the
    signer's key when that one is absent or empty, and warns exactly when the
    two are the same. *)
Theorem oracle_config_ok {Zd : Zod} {ZL : ZodLaws Zd} (p : jsval) (c : OracleConfig) (warned : bool) :
  loadConfig p = Ok (c, warned) →
  OracleConfigOk c warned ∧
  ∃ env, safeParse (ZObject envSchema) p = Some env ∧
    relayerPrivateKey c = (if truthy (member env "RELAYER_PRIVATE_KEY")
      then text_of (member env "RELAYER_PRIVATE_KEY") else signerPrivateKey c).
Proof.
  intros (env & Hp & Hci & Hpo & Hn & Hv & Hk & Hs & Hw & Hr)%oracle_config_inv.
  split; [|exists env; split; [done|]; rewrite Hr, Hs; by destruct (truthy _)].
  assert (∀ k t, assoc k envSchema = Some t → safeParse t (member p k) = Some (member env k)) as Hm
    by (intros k t; by apply zod_object).
  split; [| | | | |exact Hw].
  - rewrite Hci. schema_of envSchema Hm "CHAIN_ID" as H.
    eapply zod_int_pos in H; first [exact H | elem_tac | done].
  - rewrite Hpo. schema_of envSchema Hm "PORT" as H.
    eapply default_int_pos in H; first [exact H | elem_tac | done].
  - rewrite Hn. schema_of envSchema Hm "EIP712_DOMAIN_NAME" as H. by apply string_min in H.
  - rewrite Hv. schema_of envSchema Hm "EIP712_DOMAIN_VERSION" as H. by apply string_min in H.
  - rewrite Hk. schema_of envSchema Hm "ORACLE_SERVICE_API_KEY" as H. by apply string_min in H.
Qed.

Definition sample_env : jsval := VObj [
  ("RPC_URL", VStr "http://127.0.0.1:8545"); ("CHAIN_ID", VStr "1337");
  ("ORACLE_ADAPTER_ADDRESS", VStr "0x1111111111111111111111111111111111111111");
  ("ORACLE_SIGNER_PRIVATE_KEY", VStr "0x22"); ("RELAYER_PRIVATE_KEY", VStr "");
  ("EIP712_DOMAIN_NAME", VStr "DICS-OracleAdapter"); ("EIP712_DOMAIN_VERSION", VStr "1");
  ("ORACLE_SERVICE_API_KEY", VStr "0123456789abcdef")].

Definition sample_config : OracleConfig :=
  mkOracleConfig "http://127.0.0.1:8545" 1337 "0x1111111111111111111111111111111111111111" "0x22" "0x22"
    4100 "DICS-OracleAdapter" "1" "0123456789abcdef".

Lemma oracle_config_ok_witness :
  OracleConfigOk sample_config true ∧ relayerPrivateKey sample_config = signerPrivateKey sample_config.
Proof.
  split; [|reflexivity].
  apply (oracle_config_ok (Zd := Reference.zod (λ _, true) (λ _ _, true)) sample_env).
  vm_compute. reflexivity.
Defined.

(** ** auth.js *)

(** The UTF-8 bytes of a text whose characters are code points below 256. *)
Definition utf8_char (c : ascii) : buffer :=
  let n := Z.of_N (N_of_ascii c) in
  if n <? 128 then [z2b n] else [z2b (192 + n / 64); z2b (128 + n mod 64)].
(** [Buffer.from(text)] *)
Fixpoint Buffer_from (s : string) : buffer :=
  match s with EmptyString => [] | String c s => utf8_char c ++ Buffer_from s end.

(** [crypto.timingSafeEqual]: raises on buffers of different lengths. *)
Definition timingSafeEqual (a b : buffer) : outcome bool :=
  if (length a =? length b)%nat then Ok (bool_decide (a = b))
  else Throw (JsError "Input buffers must have the same byte length").

Record Response := mkResponse { status : Z; json_body : jsval }.

(** [Some r]: answered here; [None]: [next()]. *)
Definition requireApiKey (config : OracleConfig) (provided : option string) : outcome (option Response) :=
  match provided with
  | None | Some "" => Ok (Some (mkResponse 401 (VObj [("error", VStr "missing_api_key")])))
  | Some provided =>
      let providedBuf := Buffer_from provided in
      let expectedBuf := Buffer_from (apiKey config) in
      valuesMatch ← (if blen providedBuf =? blen expectedBuf
                     then timingSafeEqual providedBuf expectedBuf else Ok false);
      if negb valuesMatch then Ok (Some (mkResponse 401 (VObj [("error", VStr "invalid_api_key")])))
      else Ok None
  end.

(** ** The key check is exact *)

Lemma utf8_char_prefix c d t u : utf8_char c ++ t = utf8_char d ++ u → c = d ∧ t = u.
Proof.
  unfold utf8_char.
  assert (∀ e, 0 <= Z.of_N (N_of_ascii e) < 256) as Hr
    by (intros e; pose proof (N_ascii_bounded e); lia).
  pose proof (Hr c) as Hc. pose proof (Hr d) as Hd.
  assert (∀ a b t u, z2b a :: t = z2b b :: u → 0 <= a < 256 → 0 <= b < 256 → a = b ∧ t = u) as Hz.
  { intros a b t' u' H Ha Hb. injection H as H <-. split; [|done].
    apply (f_equal b2z) in H. by rewrite !b2z_z2b, !Z.mod_small in H. }
  assert (Z.of_N (N_of_ascii c) = Z.of_N (N_of_ascii d) → c = d) as Hinj.
  { intros H. apply N2Z.inj in H. by rewrite <-(ascii_N_embedding c), H, ascii_N_embedding. }
  assert (∀ n, n = 64 * (n / 64) + n mod 64 ∧ 0 <= n mod 64 < 64) as Hdm
    by (intros n; split; [by apply Z.div_mod|by apply Z.mod_pos_bound]).
  pose proof (Hdm (Z.of_N (N_of_ascii c))). pose proof (Hdm (Z.of_N (N_of_ascii d))).
  destruct (Z.ltb_spec (Z.of_N (N_of_ascii c)) 128), (Z.ltb_spec (Z.of_N (N_of_ascii d)) 128);
    cbn [app]; intros E; (apply Hz in E as [E1 E2]; [|lia..]); [auto|lia|lia|].
  apply Hz in E2 as [E2 ->]; [|lia..]. split; [|done]. apply Hinj. lia.
Qed.

#[global] Instance Buffer_from_inj : Inj (=) (=) Buffer_from.
Proof.
  assert (∀ c s, utf8_char c ++ s ≠ []) as Hne by (intros c s; unfold utf8_char; by destruct (_ <? 128)).
  intros s. induction s as [|c s IH]; intros [|d t] H; cbn [Buffer_from] in H; [done| | |].
  - symmetry in H. by apply Hne in H.
  - by apply Hne in H.
  - apply utf8_char_prefix in H as [-> H]. f_equal. by apply IH.
Qed.

(** Every outcome of the check. *)
Lemma requireApiKey_cases (config : OracleConfig) (provided : option string) :
  match requireApiKey config provided with
  | Ok None => provided = Some (apiKey config) ∧ apiKey config ≠ ""
  | Ok (Some r) => status r = 401 ∧ (provided = Some (apiKey config) → apiKey config = "")
  | Throw _ => False
  end.
Proof.
  destruct provided as [[|c s]|]; [by split; [|intros H; injection H as ->]| |by split].
  cbn [requireApiKey].
  set (p := Buffer_from (String c s)). set (q := Buffer_from (apiKey config)).
  assert (p = q → Some (String c s) = Some (apiKey config)) as Hpq by (by intros ->%(inj Buffer_from)).
  change (utf8_char c ++ Buffer_from s) with p.
  destruct (Z.eqb_spec (blen p) (blen q)) as [Hl|Hl]; simpl.
  - unfold timingSafeEqual. apply Nat2Z.inj in Hl. rewrite Hl, Nat.eqb_refl. simpl.
    case_bool_decide as Hb; simpl; [apply Hpq in Hb; split; [done|congruence]|].
    split; [done|]. intros H. injection H as H. by destruct Hb; unfold p, q; rewrite H.
  - split; [done|]. intros H. injection H as H. by destruct Hl; unfold p, q; rewrite H.
Qed.

(** C25: The API key check lets a request through exactly when its header is
    the configured key, answers 401 to every other and never raises: the
    length test protects [timingSafeEqual], and UTF-8 encoding loses
    nothing. *)
Theorem requireApiKey_exact (config : OracleConfig) (provided : option string) :
  match requireApiKey config provided with
  | Ok None => provided = Some (apiKey config) ∧ apiKey config ≠ ""
  | Ok (Some r) => status r = 401 ∧ (provided = Some (apiKey config) → apiKey config = "")
  | Throw _ => False
  end.
Proof. exact (requireApiKey_cases config provided). Qed.
