(* ===== verification/OracleServer.v ===== *)
(** * oracle-service: verificationLogic.js, signer.js, chainClient.js, server.js

    [POST /verify] from the API key to the mined transaction.  The world is
    what the process keeps ([issuedRequestIds], the provider singleton) and
    the record of the signatures it made and the transactions it sent;
    [OracleEnv] is ethers, the chain, the clock and the random source. *)

From S2P Require Import Prelude JsValue JsText Zod Buffer OracleConfig.
From Stdlib Require Import SpecFloat.

(** ** verificationLogic.js *)

(** [n <= z]: false on [NaN]. *)
Definition num_le (n : num) (z : Z) : bool :=
  match n with Flt S754_nan => false | _ => negb (num_gt n z) end.

Definition MOCK_APPROVAL_THRESHOLD : Z := 100000.

Record Decision := mkDecision { approved : bool; reason : string }.

Definition evaluateClaim (evidence : jsval) : Decision :=
  match member evidence "declaredAmount" with
  | VNum declaredAmount =>
      if num_le declaredAmount 0 then mkDecision false "MOCK: missing or non-positive declaredAmount"
      else if num_gt declaredAmount MOCK_APPROVAL_THRESHOLD then
        mkDecision false ("MOCK: declaredAmount " +:+ num_to_string declaredAmount +:+
          " exceeds placeholder threshold " +:+ dec MOCK_APPROVAL_THRESHOLD)
      else mkDecision true "MOCK: within placeholder threshold, no red flags"
  | _ => mkDecision false "MOCK: missing or non-positive declaredAmount"
  end.

(** ** The world *)
Record Payload := mkPayload {
  claimId : jsval;
  requestId : string;
  p_approved : bool;
  timestamp : Z;
}.

Definition payload_value (p : Payload) : jsval :=
  VObj [("claimId", claimId p); ("requestId", VStr (requestId p));
        ("approved", VBool (p_approved p)); ("timestamp", VNum (num_of_Z (timestamp p)))].

(** [signTypedData] of a wallet, and [contract.submitVerification] sent by
    the relayer's. *)
Inductive OracleCall :=
  | SignTypedData (key : string) (domain types : jsval) (payload : Payload)
  | SubmitVerification (relayerKey contract : string) (response : Payload) (signature : string).

Record Receipt := mkReceipt { receipt_hash : jsval; receipt_blockNumber : jsval }.

Record OracleEnv := mkOracleEnv {
  randomBytes : nat → buffer;                         (** the n-th [randomBytes(32)] *)
  Date_now : nat → Z;
  JsonRpcProvider : string → Z → outcome unit;
  Wallet : string → outcome unit;                     (** [new ethers.Wallet(key, provider)] *)
  answer_sign : nat → OracleCall → outcome string;
  answer_submit : nat → OracleCall → outcome unit;
  answer_wait : nat → outcome (option Receipt);       (** [tx.wait(1)]; [None]: [null] *)
  format_error : jsval → jsval;                       (** [parsed.error.format()] *)
}.

Record OracleWorld := mkOracleWorld {
  oracle_clock : nat;
  draws : nat;                                        (** calls of [randomBytes] *)
  issuedRequestIds : gset string;
  provider_made : bool;                               (** [_provider] *)
  calls : list OracleCall;
  errors_logged : nat;
}.

Record Request := mkReq { header : option string; body : jsval }.

Section oracle.
Context {Zd : Zod} (E : OracleEnv) (config : OracleConfig).

Definition tick (w : OracleWorld) : OracleWorld :=
  mkOracleWorld (S (oracle_clock w)) (draws w) (issuedRequestIds w) (provider_made w) (calls w) (errors_logged w).

(** A recorded call and its answer. *)
Definition call_out {A} (c : OracleCall) (answer : nat → outcome A) : Js OracleWorld A := λ w,
  (answer (oracle_clock w), tick (mkOracleWorld (oracle_clock w) (draws w) (issuedRequestIds w)
     (provider_made w) (calls w ++ [c]) (errors_logged w))).
(** An answer of the chain to nothing new. *)
Definition await_answer {A} (answer : nat → outcome A) : Js OracleWorld A := λ w,
  (answer (oracle_clock w), tick w).

(** ** signer.js *)
Definition ORACLE_RESPONSE_TYPES : list (string * list (string * string)) :=
  [("OracleResponse", [("claimId", "uint256"); ("requestId", "bytes32"); ("approved", "bool"); ("timestamp", "uint256")])].

(** The object literal of the types. *)
Definition types_value : jsval :=
  VObj ((λ '(n, fs), (n, VArr ((λ '(f, t), VObj [("name", VStr f); ("type", VStr t)]) <$> fs))) <$> ORACLE_RESPONSE_TYPES).

Definition buildDomain : jsval :=
  VObj [("name", VStr (eip712_name config)); ("version", VStr (eip712_version config));
        ("chainId", VNum (num_of_Z (chainId config))); ("verifyingContract", VStr (oracleAdapterAddress config))].

Definition signOracleResponse (key : string) (payload : Payload) : Js OracleWorld string :=
  let c := SignTypedData key buildDomain types_value payload in
  call_out c (λ t, answer_sign E t c).

(** [verifyTypedData] is ethers'. *)
Definition recoverSigner (verifyTypedData : jsval → jsval → Payload → string → outcome string)
    (payload : Payload) (signature : string) : outcome string :=
  verifyTypedData buildDomain types_value payload signature.

Definition getSigningWallet : Js OracleWorld string :=
  lift (Wallet E (signerPrivateKey config)) ;; mret (signerPrivateKey config).
Definition getRelayerWallet : Js OracleWorld string :=
  lift (Wallet E (relayerPrivateKey config)) ;; mret (relayerPrivateKey config).

(** ** chainClient.js *)
Definition ORACLE_ADAPTER_ABI : list string :=
  ["function submitVerification((uint256 claimId, bytes32 requestId, bool approved, uint256 timestamp) response, bytes signature) external";
   "event VerificationSubmitted(uint256 indexed claimId, bytes32 indexed requestId, bool approved, address indexed signer)"].

Definition getProvider : Js OracleWorld unit :=
  w ← get;
  if provider_made w then mret tt
  else
    lift (JsonRpcProvider E (rpcUrl config) (chainId config)) ;;
    modify (λ w, mkOracleWorld (oracle_clock w) (draws w) (issuedRequestIds w) true (calls w) (errors_logged w)).

Definition getOracleAdapterContract : Js OracleWorld string :=
  getProvider ;; getRelayerWallet.

(** Up to the sent transaction, and the wait for its confirmation. *)
Definition send_verification (response : Payload) (signature : string) : Js OracleWorld unit :=
  relayer ← getOracleAdapterContract;
  let c := SubmitVerification relayer (oracleAdapterAddress config) response signature in
  call_out c (λ t, answer_submit E t c).
Definition submitVerificationOnChain (response : Payload) (signature : string) : Js OracleWorld (option Receipt) :=
  send_verification response signature ;; await_answer (answer_wait E).

(** ** server.js *)
Definition verifyRequestSchema : ZodType := ZObject [
  ("claimId", ZNumber false [CInt; CPositive]);
  ("declaredAmount", ZNumber false [CPositive]);
  ("evidenceSummary", ZOptional (ZString []))].

(** The loop [do { id = ... } while (issuedRequestIds.has(id))]. *)
Fixpoint draw_id (fuel : nat) : Js OracleWorld string :=
  match fuel with
  | O => throw OutOfFuel
  | S fuel => λ w,
      let id := "0x" +:+ hex_of (randomBytes E (draws w)) in
      let drawn s := mkOracleWorld (oracle_clock w) (S (draws w)) s (provider_made w) (calls w) (errors_logged w) in
      if decide (id ∈ issuedRequestIds w) then draw_id fuel (drawn (issuedRequestIds w))
      else (Ok id, drawn ({[id]} ∪ issuedRequestIds w))
  end.
Definition generateRequestId : Js OracleWorld string :=
  w ← get; draw_id (S (size (issuedRequestIds w))).

Definition health : Response :=
  mkResponse 200 (VObj [("status", VStr "ok"); ("oracleAdapter", VStr (oracleAdapterAddress config));
                        ("chainId", VNum (num_of_Z (chainId config)))]).

(** [receipt.hash], [receipt.blockNumber] *)
Definition receipt_fields (r : option Receipt) : outcome Receipt :=
  match r with Some r => Ok r | None => Throw (TypeError "Cannot read properties of null (reading 'hash')") end.

Definition exn_message (e : exn) : string :=
  match e with
  | JsError m | TypeError m => m
  | ServiceError who => who
  | ProcessExit _ | OutOfFuel => "unknown error"
  end.

(** The [catch] block. *)
Definition failed (err : exn) : Js OracleWorld Response :=
  modify (λ w, mkOracleWorld (oracle_clock w) (draws w) (issuedRequestIds w) (provider_made w) (calls w) (S (errors_logged w))) ;;
  mret (mkResponse 502 (VObj [("error", VStr "verification_or_relay_failed"); ("message", VStr (exn_message err))])).

(** Auth, validation: an answer, or the validated data. *)
Definition admit_request (req : Request) : outcome (Response + jsval) :=
  r ← requireApiKey config (header req);
  match r with
  | Some response => Ok (inl response)
  | None =>
      match safeParse verifyRequestSchema (body req) with
      | None => Ok (inl (mkResponse 400 (VObj [("error", VStr "invalid_request"); ("details", format_error E (body req))])))
      | Some data => Ok (inr data)
      end
  end.

(** [{ claimId, declaredAmount, evidenceSummary }] *)
Definition evidence_of (data : jsval) : jsval :=
  VObj [("claimId", member data "claimId"); ("declaredAmount", member data "declaredAmount");
        ("evidenceSummary", member data "evidenceSummary")].

(** [Math.floor(Date.now() / 1000)] of an integral number of milliseconds. *)
Definition now_seconds : Js OracleWorld Z := λ w, (Ok (Date_now E (oracle_clock w) / 1000), w).

Definition make_payload (data : jsval) : Js OracleWorld Payload :=
  requestId ← generateRequestId;
  timestamp ← now_seconds;
  mret (mkPayload (member data "claimId") requestId (approved (evaluateClaim (evidence_of data))) timestamp).

Definition sign_payload (payload : Payload) : Js OracleWorld string :=
  getProvider ;;
  signerWallet ← getSigningWallet;
  signOracleResponse signerWallet payload.

Definition success (data : jsval) (payload : Payload) (r : option Receipt) : outcome Response :=
  receipt ← receipt_fields r;
  Ok (mkResponse 200 (VObj [
    ("claimId", claimId payload); ("requestId", VStr (requestId payload));
    ("approved", VBool (p_approved payload)); ("reason", VStr (reason (evaluateClaim (evidence_of data))));
    ("txHash", receipt_hash receipt); ("blockNumber", receipt_blockNumber receipt)])).

Definition verify (req : Request) : Js OracleWorld Response :=
  admitted ← lift (admit_request req);
  match admitted with
  | inl response => mret response
  | inr data =>
      try_catch (
        payload ← make_payload data;
        signature ← sign_payload payload;
        receipt ← submitVerificationOnChain payload signature;
        lift (success data payload receipt)) failed
  end.

(** ** Interleaving

    Handlers run concurrently and give way to each other at each [await].
    [advance] is the code between two awaits. *)
Inductive Phase :=
  | Received (req : Request)
  | Evaluated (data : jsval)
  | Signed (data : jsval) (payload : Payload) (signature : string)
  | Submitted (data : jsval) (payload : Payload)
  | Answered (r : Response).

Definition caught (m : Js OracleWorld Phase) : Js OracleWorld Phase :=
  try_catch m (λ e, r ← failed e; mret (Answered r)).

Definition advance (ph : Phase) : Js OracleWorld Phase :=
  match ph with
  | Received req =>
      admitted ← lift (admit_request req);
      mret (match admitted with inl r => Answered r | inr data => Evaluated data end)
  | Evaluated data => caught (
      payload ← make_payload data;
      signature ← sign_payload payload;
      mret (Signed data payload signature))
  | Signed data payload signature => caught (
      send_verification payload signature ;; mret (Submitted data payload))
  | Submitted data payload => caught (
      receipt ← await_answer (answer_wait E);
      r ← lift (success data payload receipt); mret (Answered r))
  | Answered r => mret (Answered r)
  end.

(** One handler run alone. *)
Fixpoint advance_n (n : nat) (ph : Phase) : Js OracleWorld Phase :=
  match n with O => mret ph | S n => ph ← advance ph; advance_n n ph end.

(** The server: the handlers in flight, any of which may run next; a
    handler whose fuel ran out stays where it is. *)
Inductive server_step : list Phase * OracleWorld → list Phase * OracleWorld → Prop :=
  | step_request phs w req : server_step (phs, w) (phs ++ [Received req], w)
  | step_advance phs w i ph ph' w' :
      phs !! i = Some ph → advance ph w = (Ok ph', w') →
      server_step (phs, w) (<[i := ph']> phs, w').
End oracle.
