(* ===== verification/OracleRuns.v ===== *)
(** * What the oracle service does with a request

    Request identifiers and the outcome of [POST /verify] on every branch. *)

From S2P Require Import Prelude JsValue JsText Zod Buffer OracleConfig OracleServer.
From Stdlib Require Import Strings.Byte.

(** ** Request identifiers *)
Section ids.
Context (E : OracleEnv).

(** The identifier of the n-th draw. *)
Definition id_at (n : nat) : string := "0x" +:+ hex_of (randomBytes E n).

Lemma hex_of_inj : Inj (=) (=) hex_of.
Proof. intros a b H. by rewrite <-(bytes_of_hex_of a), H, bytes_of_hex_of. Qed.

(** What drawing changes: the counter and the set. *)
Definition drawn (w : OracleWorld) (k : nat) (s : gset string) : OracleWorld :=
  mkOracleWorld (oracle_clock w) (draws w + k) s (provider_made w) (calls w) (errors_logged w).

Lemma drawn_S w k s : drawn (drawn w 1 (issuedRequestIds w)) k s = drawn w (S k) s.
Proof. unfold drawn. simpl. f_equal. lia. Qed.

Lemma draw_id_cases fuel w :
  (∃ k, (k < fuel)%nat ∧ id_at (draws w + k) ∉ issuedRequestIds w ∧
     draw_id E fuel w = (Ok (id_at (draws w + k)),
       drawn w (S k) ({[id_at (draws w + k)]} ∪ issuedRequestIds w))) ∨
  (∀ k, (k < fuel)%nat → id_at (draws w + k) ∈ issuedRequestIds w) ∧
     draw_id E fuel w = (Throw OutOfFuel, drawn w fuel (issuedRequestIds w)).
Proof.
  revert w. induction fuel as [|fuel IH]; intros w; simpl.
  { right. split; [lia|]. unfold throw, drawn. rewrite Nat.add_0_r. by destruct w. }
  change ("0x" +:+ hex_of (randomBytes E (draws w))) with (id_at (draws w)).
  assert (drawn w 1 (issuedRequestIds w) = mkOracleWorld (oracle_clock w) (S (draws w)) (issuedRequestIds w)
    (provider_made w) (calls w) (errors_logged w)) as Hd by (unfold drawn; f_equal; lia).
  case_decide as Hin.
  - rewrite <-Hd. destruct (IH (drawn w 1 (issuedRequestIds w))) as [(k & Hk & Hf & ->)|[Hall ->]]; simpl in *.
    + left. exists (S k). split; [lia|]. rewrite drawn_S.
      replace (draws w + 1 + k)%nat with (draws w + S k)%nat in * by lia. done.
    + right. rewrite drawn_S. split; [|done]. intros [|k] Hk; [by rewrite Nat.add_0_r|].
      replace (draws w + S k)%nat with (draws w + 1 + k)%nat by lia. apply Hall. lia.
  - left. exists 0%nat. rewrite Nat.add_0_r. split_and!; [lia|done|]. unfold drawn. do 2 f_equal. lia.
Qed.

(** Distinct draws cannot all have been issued. *)
Lemma draws_exceed w :
  NoDup (randomBytes E <$> seq (draws w) (S (size (issuedRequestIds w)))) →
  ¬ ∀ k, (k < S (size (issuedRequestIds w)))%nat → id_at (draws w + k) ∈ issuedRequestIds w.
Proof.
  set (n := S (size (issuedRequestIds w))). intros Hnd Hall.
  assert (NoDup (id_at <$> seq (draws w) n)) as Hid.
  { change (id_at <$> seq (draws w) n) with ((λ i, "0x" +:+ hex_of (randomBytes E i)) <$> seq (draws w) n).
    rewrite (list_fmap_compose (randomBytes E) (λ b, "0x" +:+ hex_of b)).
    apply NoDup_fmap_2; [|done]. intros a b H. apply hex_of_inj. by injection H. }
  assert (list_to_set (C := gset string) (id_at <$> seq (draws w) n) ⊆ issuedRequestIds w) as Hsub.
  { intros x. rewrite elem_of_list_to_set. intros (i & -> & Hi)%list_elem_of_fmap.
    apply elem_of_seq in Hi. replace i with (draws w + (i - draws w))%nat by lia. apply Hall. lia. }
  apply subseteq_size in Hsub. rewrite size_list_to_set in Hsub by done.
  rewrite length_fmap, length_seq in Hsub. lia.
Qed.
End ids.

Section verify_runs.
Context {Zd : Zod} (E : OracleEnv) (config : OracleConfig).

(** A request that reaches the handler's body. *)
Definition admitted (req : Request) (data : jsval) : Prop :=
  header req = Some (apiKey config) ∧ apiKey config ≠ "" ∧ safeParse verifyRequestSchema (body req) = Some data.

Lemma admit_cases req :
  (∃ data, admit_request E config req = Ok (inr data) ∧ admitted req data) ∨
  (∃ r, admit_request E config req = Ok (inl r) ∧ (status r = 400 ∨ status r = 401)).
Proof.
  pose proof (requireApiKey_cases config (header req)) as H. unfold admit_request.
  destruct (requireApiKey config (header req)) as [[r|]|e]; simpl; [| |done].
  - right. exists r. split; [done|]. right. apply H.
  - destruct H as [H Hne]. destruct (safeParse _ _) as [data|] eqn:Hp; [left; by exists data|right; eauto].
Qed.

Lemma admitted_passes req data : admitted req data → admit_request E config req = Ok (inr data).
Proof.
  intros (Hh & Hk & Hp). pose proof (requireApiKey_cases config (header req)) as H. unfold admit_request.
  destruct (requireApiKey config (header req)) as [[r|]|e]; simpl; [|by rewrite Hp|done].
  destruct H as [_ H]. by destruct Hk; apply H.
Qed.

(** No draw of one more than were issued is new. *)
Definition draws_exhausted (w : OracleWorld) : Prop :=
  ∀ k, (k <= size (issuedRequestIds w))%nat → id_at E (draws w + k) ∈ issuedRequestIds w.

(** What the services and ethers throw are errors of JavaScript. *)
Record ordinary_errors : Prop := {
  provider_error url chain : JsonRpcProvider E url chain ≠ Throw OutOfFuel;
  wallet_error key : Wallet E key ≠ Throw OutOfFuel;
  sign_error t c : answer_sign E t c ≠ Throw OutOfFuel;
  submit_error t c : answer_submit E t c ≠ Throw OutOfFuel;
  wait_error t : answer_wait E t ≠ Throw OutOfFuel;
}.

(** What signing leaves behind. *)
Lemma make_payload_ok data w p w' :
  make_payload E data w = (Ok p, w') →
  requestId p ∉ issuedRequestIds w ∧ issuedRequestIds w' = {[requestId p]} ∪ issuedRequestIds w ∧
  calls w' = calls w ∧ claimId p = member data "claimId" ∧
  p_approved p = approved (evaluateClaim (evidence_of data)) ∧
  timestamp p = Date_now E (oracle_clock w) / 1000 ∧ (∃ k, requestId p = id_at E k).
Proof.
  unfold make_payload, generateRequestId. intros H. rewrite bind_run, bind_get in H.
  destruct (draw_id_cases E (S (size (issuedRequestIds w))) w) as [(k & _ & Hf & Hr)|[_ Hr]]; rewrite Hr in H; [|done].
  unfold now_seconds in H. rewrite bind_run in H. injection H as <- <-. simpl. eauto 10.
Qed.
Lemma make_payload_throws data w e w' :
  make_payload E data w = (Throw e, w') → e = OutOfFuel ∧ calls w' = calls w ∧
  issuedRequestIds w' = issuedRequestIds w ∧ draws_exhausted w.
Proof.
  unfold make_payload, generateRequestId. intros H. rewrite bind_run, bind_get in H.
  destruct (draw_id_cases E (S (size (issuedRequestIds w))) w) as [(k & _ & Hf & Hr)|[Hall Hr]]; rewrite Hr in H; [done|].
  injection H as <- <-. split_and!; [done..|]. intros k Hk. apply Hall. lia.
Qed.

Lemma getProvider_keeps w : calls (getProvider E config w).2 = calls w ∧
  issuedRequestIds (getProvider E config w).2 = issuedRequestIds w.
Proof.
  unfold getProvider. rewrite bind_get. destruct (provider_made w); [done|].
  rewrite bind_run. unfold lift. by destruct (JsonRpcProvider E _ _).
Qed.

(** The one signature a payload gets, or none. *)
Lemma sign_payload_cases p w :
  let c := SignTypedData (signerPrivateKey config) (buildDomain config) types_value p in
  let '(r, w') := sign_payload E config p w in
  issuedRequestIds w' = issuedRequestIds w ∧
  ((calls w' = calls w ∧ ∃ e, r = Throw e) ∨
   (calls w' = calls w ++ [c] ∧ ∃ t, r = answer_sign E t c)).
Proof.
  intros c. unfold sign_payload, getSigningWallet, signOracleResponse. pose proof (getProvider_keeps w) as [Hc Hi].
  rewrite bind_run. destruct (getProvider E config w) as [[[]|e] w1]; simpl in *; [|eauto 10].
  rewrite bind_bind, bind_run. unfold lift. destruct (Wallet E _) as [|e]; simpl; [|eauto 10].
  unfold call_out. simpl. rewrite Hc, Hi. eauto 10.
Qed.

Lemma send_cases p s w :
  let c := SubmitVerification (relayerPrivateKey config) (oracleAdapterAddress config) p s in
  let '(r, w') := send_verification E config p s w in
  issuedRequestIds w' = issuedRequestIds w ∧
  ((calls w' = calls w ∧ ∃ e, r = Throw e) ∨ (calls w' = calls w ++ [c] ∧ ∃ t, r = answer_submit E t c)).
Proof.
  intros c. unfold send_verification, getOracleAdapterContract, getRelayerWallet.
  pose proof (getProvider_keeps w) as [Hc Hi]. rewrite bind_bind, bind_run.
  destruct (getProvider E config w) as [[[]|e] w1]; simpl in *; [|eauto 10].
  rewrite bind_bind, bind_run. unfold lift. destruct (Wallet E _) as [|e]; simpl; [|eauto 10].
  unfold call_out. simpl. rewrite Hc, Hi. eauto 10.
Qed.

Lemma failed_run e w : ∃ w', failed e w = (Ok (mkResponse 502 (VObj [("error", VStr "verification_or_relay_failed");
    ("message", VStr (exn_message e))])), w') ∧ calls w' = calls w ∧ issuedRequestIds w' = issuedRequestIds w.
Proof. eexists. split; [reflexivity|done]. Qed.

(** The [try] block. *)
Definition attempt (data : jsval) : Js OracleWorld Response :=
  payload ← make_payload E data;
  signature ← sign_payload E config payload;
  receipt ← submitVerificationOnChain E config payload signature;
  lift (success data payload receipt).

(** Only the identifiers' loop can run out of fuel. *)
Lemma attempt_fuel data w w' : ordinary_errors → attempt data w = (Throw OutOfFuel, w') →
  draws_exhausted w ∧ calls w' = calls w.
Proof.
  intros [Hprov Hwal Hsign Hsub Hwait] H. apply bind_throw_inv in H as [H|(p & w1 & _ & H)];
    [by apply make_payload_throws in H as (_ & ? & _ & ?)|exfalso].
  assert (∀ c w, (call_out c (λ t, answer_sign E t c) w).1 ≠ Throw OutOfFuel) as H1 by (intros; apply Hsign).
  assert (∀ c w, (call_out c (λ t, answer_submit E t c) w).1 ≠ Throw OutOfFuel) as H2 by (intros; apply Hsub).
  assert (∀ w, (await_answer (answer_wait E) w).1 ≠ Throw OutOfFuel) as H3 by (intros; apply Hwait).
  assert (∀ rc, success data p rc ≠ Throw OutOfFuel) as H4 by (by intros [rc|]).
  assert (no_fuel (getProvider E config)) as Hget.
  { unfold getProvider. apply no_fuel_bind; [apply no_fuel_get|intros w2]. destruct (provider_made w2); [apply no_fuel_ret|].
    apply no_fuel_bind; [by apply no_fuel_lift|intros _; apply no_fuel_modify]. }
  enough (no_fuel (signature ← sign_payload E config p;
    receipt ← submitVerificationOnChain E config p signature; lift (success data p receipt))) as Hn
    by (apply (Hn w1); by rewrite H).
  unfold sign_payload, getSigningWallet, submitVerificationOnChain, send_verification, getOracleAdapterContract,
    getRelayerWallet, signOracleResponse. apply no_fuel_bind.
  - apply no_fuel_bind; [done|intros _]. apply no_fuel_bind; [|intros key; intros w2; apply H1].
    apply no_fuel_bind; [by apply no_fuel_lift|intros _; apply no_fuel_ret].
  - intros s. apply no_fuel_bind; [|intros rc; by apply no_fuel_lift].
    apply no_fuel_bind; [|intros _ w2; apply H3]. apply no_fuel_bind; [|intros key w2; apply H2].
    apply no_fuel_bind; [done|intros _]. apply no_fuel_bind; [by apply no_fuel_lift|intros _; apply no_fuel_ret].
Qed.

Lemma verify_run req w :
  (∃ r, verify E config req w = (Ok r, w) ∧ (status r = 400 ∨ status r = 401) ∧ ∀ data, ¬ admitted req data) ∨
  (∃ data, admitted req data ∧ verify E config req w = try_catch (attempt data) failed w).
Proof.
  unfold verify. destruct (admit_cases req) as [(data & Hadm & Ha)|(r & Hadm & Hr)];
    rewrite Hadm, bind_lift_ok; [right; eauto|left]. exists r. split_and!; [done|done|].
  intros data Ha%admitted_passes. congruence.
Qed.

(** The calls of a request's [try] block. *)
Definition attempt_calls (new : list OracleCall) : Prop :=
  new = [] ∨ ∃ p, let sign := SignTypedData (signerPrivateKey config) (buildDomain config) types_value p in
    new = [sign] ∨ ∃ s, new = [sign; SubmitVerification (relayerPrivateKey config) (oracleAdapterAddress config) p s] ∧
      ∃ t, answer_sign E t sign = Ok s.

Lemma attempt_trace data w : ∃ new, calls (attempt data w).2 = calls w ++ new ∧ attempt_calls new.
Proof.
  unfold attempt, attempt_calls. rewrite bind_run. destruct (make_payload E data w) as [[p|e] w1] eqn:Hp.
  2: { apply make_payload_throws in Hp as (_ & Hc1 & _ & _). exists []. rewrite app_nil_r. auto. }
  apply make_payload_ok in Hp as (_ & _ & Hc1 & _).
  rewrite bind_run. pose proof (sign_payload_cases p w1) as Hs.
  destruct (sign_payload E config p w1) as [r w2]. destruct Hs as [_ [[Hc2 [e ->]]|[Hc2 [t ->]]]].
  { exists []. simpl. rewrite Hc2, Hc1, app_nil_r. auto. }
  destruct (answer_sign E t _) as [s|e] eqn:Hans; [|eexists; split; [simpl; rewrite Hc2, Hc1; reflexivity|eauto]].
  rewrite bind_run. unfold submitVerificationOnChain. rewrite bind_run.
  pose proof (send_cases p s w2) as Hs. destruct (send_verification E config p s w2) as [r w3].
  destruct Hs as [_ [[Hc3 [e ->]]|[Hc3 [t' ->]]]].
  { eexists. split; [simpl; rewrite Hc3, Hc2, Hc1; reflexivity|eauto]. }
  eexists [_; _]. split; [|right; exists p; right; exists s; split; [reflexivity|eauto]].
  assert (calls w3 = calls w ++ [SignTypedData (signerPrivateKey config) (buildDomain config) types_value p;
    SubmitVerification (relayerPrivateKey config) (oracleAdapterAddress config) p s]) as Hw3
    by (rewrite Hc3, Hc2, Hc1, <-app_assoc; reflexivity).
  destruct (answer_submit E t' _); [|exact Hw3]. unfold await_answer.
  destruct (answer_wait E _) as [rc|e]; exact Hw3.
Qed.

Lemma attempt_ok data w r w' :
  attempt data w = (Ok r, w') → ∃ p s rc t t',
    let sign := SignTypedData (signerPrivateKey config) (buildDomain config) types_value p in
    claimId p = member data "claimId" ∧ p_approved p = approved (evaluateClaim (evidence_of data)) ∧
    requestId p ∉ issuedRequestIds w ∧ requestId p ∈ issuedRequestIds w' ∧
    answer_sign E t sign = Ok s ∧ answer_wait E t' = Ok (Some rc) ∧
    calls w' = calls w ++ [sign; SubmitVerification (relayerPrivateKey config) (oracleAdapterAddress config) p s] ∧
    success data p (Some rc) = Ok r.
Proof.
  unfold attempt. intros H. apply bind_ok_inv in H as (p & w1 & H1 & H).
  apply make_payload_ok in H1 as (Hf & Hi & Hc1 & Hcl & Hap & _).
  apply bind_ok_inv in H as (s & w2 & H2 & H). pose proof (sign_payload_cases p w1) as Hs.
  rewrite H2 in Hs. destruct Hs as [Hi2 [[_ [e He]]|[Hc2 [t Ht]]]]; [done|].
  apply bind_ok_inv in H as (rc & w3 & H3 & H). injection H as H <-.
  unfold submitVerificationOnChain in H3. apply bind_ok_inv in H3 as ([] & w4 & H4 & H3).
  pose proof (send_cases p s w2) as Hs. rewrite H4 in Hs. destruct Hs as [Hi4 [[_ [e He]]|[Hc4 _]]]; [done|].
  unfold await_answer in H3. injection H3 as Hw <-.
  destruct rc as [rc|]; [|done]. exists p, s, rc, t, (oracle_clock w4).
  split_and!; try done; simpl.
  - rewrite Hi4, Hi2, Hi. apply elem_of_union. left. by apply elem_of_singleton.
  - by rewrite Hc4, Hc2, Hc1, <-app_assoc.
Qed.
End verify_runs.

Lemma num_pos_not_le n : num_pos n = true → num_le n 0 = false.
Proof.
  destruct n as [z|[s|s| |s m e]]; unfold num_pos, num_le, num_gt; [|done|by destruct s|done|].
  - by intros ->.
  - destruct s; [done|]. intros _. destruct (Z.leb_spec 0 e).
    + replace (0 <? Z.pos m * 2 ^ e) with true; [done|]. symmetry. apply Z.ltb_lt.
      apply Z.mul_pos_pos; [done|]. by apply Z.pow_pos_nonneg.
    + done.
Qed.

(** The decision on validated data. *)
Lemma decision_valid {Zd : Zod} {ZL : ZodLaws Zd} v data :
  safeParse verifyRequestSchema v = Some data →
  ∃ n, member data "declaredAmount" = VNum n ∧ num_pos n = true ∧
    approved (evaluateClaim (evidence_of data)) = negb (num_gt n MOCK_APPROVAL_THRESHOLD).
Proof.
  intros Hp. apply (zod_object _ _ _ "declaredAmount" (ZNumber false [CPositive])) in Hp; [|done].
  apply zod_number in Hp as (n & Hn & Hc). exists n. split; [done|].
  specialize (Hc CPositive ltac:(left)). simpl in Hc. split; [done|].
  unfold evaluateClaim. change (member (evidence_of data) "declaredAmount") with (member data "declaredAmount").
  rewrite Hn, num_pos_not_le by done. by destruct (num_gt n _).
Qed.

(** C3: A successful verification.  A 200 answer means: the caller had the
    API key and a valid body; exactly one signature and one submission were
    made, the submission of the very payload that was signed, to the
    configured adapter; the payload has the body's claim, an identifier never
    issued before, and is approved exactly when the positive declared amount
    is at most the threshold; and the answer repeats the payload with the
    receipt's hash and block. *)
Theorem verify_ok {Zd : Zod} {ZL : ZodLaws Zd} (E : OracleEnv) (config : OracleConfig) (req : Request)
    (w : OracleWorld) (r : Response) (w' : OracleWorld) :
  verify E config req w = (Ok r, w') → status r = 200 →
  ∃ data p s rc n t, let sign := SignTypedData (signerPrivateKey config) (buildDomain config) types_value p in
    admitted config req data ∧ member data "declaredAmount" = VNum n ∧ num_pos n = true ∧
    claimId p = member data "claimId" ∧ p_approved p = negb (num_gt n MOCK_APPROVAL_THRESHOLD) ∧
    requestId p ∉ issuedRequestIds w ∧ requestId p ∈ issuedRequestIds w' ∧ answer_sign E t sign = Ok s ∧
    calls w' = calls w ++ [sign; SubmitVerification (relayerPrivateKey config) (oracleAdapterAddress config) p s] ∧
    json_body r = VObj [("claimId", claimId p); ("requestId", VStr (requestId p)); ("approved", VBool (p_approved p));
      ("reason", VStr (reason (evaluateClaim (evidence_of data)))); ("txHash", receipt_hash rc);
      ("blockNumber", receipt_blockNumber rc)].
Proof.
  intros H Hst. destruct (verify_run E config req w) as [(r' & Hv & Hr & _)|(data & Ha & Hv)]; rewrite Hv in H.
  { injection H as <- <-. lia. }
  apply try_catch_ok in H as [H|(e & w1 & _ & H)]; [|injection H as <- _; done].
  apply attempt_ok in H as (p & s & rc & t & t' & Hc & Hap & Hf & Hi & Hs & Hwt & Hcalls & Hok).
  destruct (decision_valid (body req) data) as (n & Hn & Hpos & Hd); [apply Ha|].
  injection Hok as <-. exists data, p, s, rc, n, t. rewrite <-Hd. by split_and!.
Qed.

(** C14: Every outcome of [POST /verify].  The handler answers: 200 or 502 to
    a request with the API key and a valid body, 400 or 401 to any other,
    which leaves the process untouched.  The one exception is a valid request
    whose identifier cannot be chosen: every draw of one more than there are
    identifiers issued has been issued before, impossible while the random
    source does not repeat itself (C27), and nothing is signed or sent then.
    A signature is made only for a request with the key and a valid body, at
    most one per request and never retried, and only the signed payload is
    submitted, at most once, with that signature. *)
Theorem verify_outcomes {Zd : Zod} (E : OracleEnv) (config : OracleConfig) (req : Request) (w : OracleWorld) :
  ordinary_errors E →
  let '(res, w') := verify E config req w in
  match res with
  | Ok r => (status r = 200 ∨ status r = 502) ∧ (∃ data, admitted config req data) ∨
            (status r = 400 ∨ status r = 401) ∧ w' = w ∧ ∀ data, ¬ admitted config req data
  | Throw e => e = OutOfFuel ∧ (∃ data, admitted config req data) ∧ draws_exhausted E w ∧ calls w' = calls w
  end ∧
  ∃ new, calls w' = calls w ++ new ∧ attempt_calls E config new ∧ (new ≠ [] → ∃ data, admitted config req data).
Proof.
  intros HE. destruct (verify_run E config req w) as [(r & -> & Hr & Hno)|(data & Ha & ->)].
  { split; [by right|]. exists []. rewrite app_nil_r. by split_and!; [|left|]. }
  destruct (attempt_trace E config data w) as (new & Hn & Hc).
  assert (∀ r w1, attempt E config data w = (Ok r, w1) → status r = 200) as H200.
  { intros r w1 H. apply attempt_ok in H as (p & s & rc & t & t' & _ & _ & _ & _ & _ & _ & _ & Hok).
    by injection Hok as <-. }
  unfold try_catch. destruct (attempt E config data w) as [[r|e] w1] eqn:Hrun; cbn [snd] in Hn.
  - split; [left; eauto|by exists new; eauto].
  - destruct e; (split; [|by exists new; eauto]); [left; split; [by right|eauto]..|].
    destruct (attempt_fuel E config data w w1 HE Hrun). split_and!; eauto.
Qed.

(** C26: A fresh identifier is always found.  If the random source does not
    repeat itself within one draw more than the identifiers already issued,
    the loop ends within that many draws with an identifier that was not
    issued before, and records it. *)
Theorem generateRequestId_total (E : OracleEnv) (w : OracleWorld) :
  NoDup (randomBytes E <$> seq (draws w) (S (size (issuedRequestIds w)))) →
  ∃ k, (k <= size (issuedRequestIds w))%nat ∧ id_at E (draws w + k) ∉ issuedRequestIds w ∧
    generateRequestId E w = (Ok (id_at E (draws w + k)),
      drawn w (S k) ({[id_at E (draws w + k)]} ∪ issuedRequestIds w)).
Proof.
  intros Hnd. unfold generateRequestId. rewrite bind_get.
  destruct (draw_id_cases E (S (size (issuedRequestIds w))) w) as [(k & Hk & Hf & Hr)|[Hall _]].
  - exists k. split_and!; [lia|done|exact Hr].
  - by apply draws_exceed in Hall.
Qed.

(** ** A concrete service: the n-th draw is n, every call is answered *)
Definition demo_oracle : OracleEnv := {|
  randomBytes n := be 32 (Z.of_nat n);
  Date_now n := 1700000000123 + Z.of_nat n;
  JsonRpcProvider _ _ := Ok tt;
  Wallet _ := Ok tt;
  answer_sign _ _ := Ok "0xsig";
  answer_submit _ _ := Ok tt;
  answer_wait _ := Ok (Some (mkReceipt (VStr "0xmined") (VNum (Int 12))));
  format_error _ := VUndef;
|}.
#[global] Instance demo_zod : Zod := Reference.zod (λ _, true) (λ _ _, true).
Definition demo_request : Request :=
  mkReq (Some "0123456789abcdef") (VObj [("claimId", VNum (Int 7)); ("declaredAmount", VNum (Int 100000))]).
(** The first identifier was issued before. *)
Definition demo_oracle_world : OracleWorld := mkOracleWorld 0 0 {[id_at demo_oracle 0]} false [] 0.
Definition demo_answer : outcome Response * OracleWorld :=
  verify demo_oracle sample_config demo_request demo_oracle_world.
Definition demo_response : Response := match demo_answer.1 with Ok r => r | Throw _ => mkResponse 0 VUndef end.

Lemma verify_ok_witness :
  ∃ data p s rc n t, let sign := SignTypedData "0x22" (buildDomain sample_config) types_value p in
    admitted sample_config demo_request data ∧ member data "declaredAmount" = VNum n ∧ num_pos n = true ∧
    claimId p = member data "claimId" ∧ p_approved p = negb (num_gt n MOCK_APPROVAL_THRESHOLD) ∧
    requestId p ∉ issuedRequestIds demo_oracle_world ∧ requestId p ∈ issuedRequestIds demo_answer.2 ∧
    answer_sign demo_oracle t sign = Ok s ∧
    calls demo_answer.2 = [] ++ [sign; SubmitVerification "0x22" (oracleAdapterAddress sample_config) p s] ∧
    json_body demo_response = VObj [("claimId", claimId p); ("requestId", VStr (requestId p));
      ("approved", VBool (p_approved p)); ("reason", VStr (reason (evaluateClaim (evidence_of data))));
      ("txHash", receipt_hash rc); ("blockNumber", receipt_blockNumber rc)].
Proof.
  apply (verify_ok demo_oracle sample_config demo_request demo_oracle_world demo_response demo_answer.2).
  - vm_compute. reflexivity.
  - vm_compute. reflexivity.
Defined.

Lemma verify_outcomes_witness :
  verify demo_oracle sample_config demo_request demo_oracle_world = (Ok demo_response, demo_answer.2) ∧
  ((status demo_response = 200 ∨ status demo_response = 502) ∧ (∃ data, admitted sample_config demo_request data) ∨
   (status demo_response = 400 ∨ status demo_response = 401) ∧ demo_answer.2 = demo_oracle_world ∧
   ∀ data, ¬ admitted sample_config demo_request data).
Proof.
  assert (verify demo_oracle sample_config demo_request demo_oracle_world = (Ok demo_response, demo_answer.2)) as Hrun
    by (vm_compute; reflexivity).
  split; [exact Hrun|]. pose proof (verify_outcomes demo_oracle sample_config demo_request demo_oracle_world) as H.
  rewrite Hrun in H. apply H. by split.
Defined.

Lemma generateRequestId_total_witness :
  ∃ k, (k <= size (issuedRequestIds demo_oracle_world))%nat ∧
    id_at demo_oracle (0 + k) ∉ issuedRequestIds demo_oracle_world ∧
    generateRequestId demo_oracle demo_oracle_world = (Ok (id_at demo_oracle (0 + k)),
      drawn demo_oracle_world (S k) ({[id_at demo_oracle (0 + k)]} ∪ issuedRequestIds demo_oracle_world)).
Proof.
  apply (generateRequestId_total demo_oracle demo_oracle_world).
  apply (bool_decide_unpack _). vm_compute. exact I.
Defined.
