(* ===== verification/OracleInterleave.v ===== *)
(** * Concurrent verifications

    A handler run alone, segment by segment, is the handler ([verify]); and
    however handlers interleave at their awaits, no identifier is signed or
    submitted twice and only signed payloads are submitted. *)

From S2P Require Import Prelude JsValue JsText Zod Buffer OracleConfig OracleServer OracleRuns.
From stdpp Require Import fin_sets.

(** Every throw but fuel exhaustion is caught, by segment or as a whole. *)
Lemma caught_run m w :
  caught m w = match m w with
               | (Throw OutOfFuel, w') => (Throw OutOfFuel, w')
               | (Throw e, w') => match failed e w' with (Ok r, w'') => (Ok (Answered r), w'')
                                                        | (Throw e', w'') => (Throw e', w'') end
               | r => r end.
Proof. unfold caught, try_catch. by destruct (m w) as [[a|[]] w1]. Qed.

Section segments.
Context {Zd : Zod} (E : OracleEnv) (config : OracleConfig).

(** The answer of a run, as the final phase. *)
Definition answered (res : outcome Response * OracleWorld) : outcome Phase * OracleWorld :=
  match res with (Ok r, w) => (Ok (Answered r), w) | (Throw e, w) => (Throw e, w) end.

Lemma advance_answered n r w : advance_n E config n (Answered r) w = (Ok (Answered r), w).
Proof. revert w. induction n as [|n IH]; intros w; [done|]. simpl. rewrite bind_run. apply IH. Qed.

Lemma failed_answered n (e : exn) w :
  (ph ← (λ w, match failed e w with (Ok r, w) => (Ok (Answered r), w) | (Throw e, w) => (Throw e, w) end);
   advance_n E config n ph) w = answered (failed e w).
Proof. rewrite bind_run. destruct (failed_run e w) as (w' & -> & _ & _). apply advance_answered. Qed.

(** The rest of a handler, from each of its awaits. *)
Definition finish_wait (data : jsval) (p : Payload) : Js OracleWorld Response :=
  receipt ← await_answer (answer_wait E); lift (success data p receipt).
Definition finish_send (data : jsval) (p : Payload) (s : string) : Js OracleWorld Response :=
  send_verification E config p s ;; finish_wait data p.

Lemma run_submitted n data p w :
  advance_n E config (S n) (Submitted data p) w = answered (try_catch (finish_wait data p) failed w).
Proof.
  cbn [advance_n advance]. rewrite bind_run, caught_run. unfold finish_wait, try_catch.
  rewrite !bind_run. destruct (await_answer _ w) as [[rc|e] w1].
  - rewrite bind_run. unfold lift. destruct (success data p rc) as [r|[]]; try done; apply advance_answered.
  - destruct e; try done; apply advance_answered.
Qed.
Lemma run_signed n data p s w :
  advance_n E config (S (S n)) (Signed data p s) w = answered (try_catch (finish_send data p s) failed w).
Proof.
  change (advance_n E config (S (S n)) (Signed data p s))
    with (ph ← advance E config (Signed data p s); advance_n E config (S n) ph).
  cbn [advance]. rewrite bind_run, caught_run. unfold finish_send, try_catch. rewrite !bind_run.
  destruct (send_verification E config p s w) as [[[]|e] w1].
  - simpl. change ((ph ← caught _; advance_n E config n ph) w1) with (advance_n E config (S n) (Submitted data p) w1).
    rewrite run_submitted. done.
  - destruct e; try done; apply advance_answered.
Qed.

(** The handler is its segments.  Running the four pieces of code between
    the awaits of [POST /verify] one after the other, each with its own
    [catch], is the handler: same answer, same calls, same state. *)
Lemma verify_is_its_segments (req : Request) (w : OracleWorld) :
  advance_n E config 4 (Received req) w = answered (verify E config req w).
Proof.
  change (advance_n E config 4 (Received req))
    with (ph ← advance E config (Received req); advance_n E config 3 ph).
  unfold verify. cbn [advance]. rewrite bind_run.
  destruct (admit_cases E config req) as [(data & -> & _)|(r & -> & _)]; rewrite !bind_lift_ok;
    [|apply advance_answered].
  transitivity ((ph ← advance E config (Evaluated data); advance_n E config 2 ph) w); [done|].
  cbn [advance]. rewrite bind_run, caught_run. unfold try_catch. rewrite !bind_run.
  destruct (make_payload E data w) as [[p|e] w1]; [|destruct e; try done; apply advance_answered].
  rewrite !bind_run. destruct (sign_payload E config p w1) as [[s|e] w2];
    [|destruct e; try done; apply advance_answered].
  rewrite bind_run. unfold submitVerificationOnChain. rewrite bind_run.
  pose proof (run_signed 0 data p s w2) as H. cbn [mret js_ret]. rewrite H. unfold try_catch, finish_send, finish_wait.
  rewrite !bind_run. by destruct (send_verification E config p s w2) as [[[]|e] w3].
Qed.
End segments.

(** ** Interleaved handlers *)

(** The payloads signed, and submitted, in the order of the calls. *)
Definition signed_of (c : OracleCall) : option Payload :=
  match c with SignTypedData _ _ _ p => Some p | _ => None end.
Definition submitted_of (c : OracleCall) : option Payload :=
  match c with SubmitVerification _ _ p _ => Some p | _ => None end.
Definition signed_ids (w : OracleWorld) : list string := requestId <$> omap signed_of (calls w).
Definition submitted_ids (w : OracleWorld) : list string := requestId <$> omap submitted_of (calls w).

(** A handler that has a signature it has not submitted. *)
Definition pending (ph : Phase) : option (Payload * string) :=
  match ph with Signed _ p s => Some (p, s) | _ => None end.

Section interleaving.
Context {Zd : Zod} (E : OracleEnv) (config : OracleConfig).

Definition sign_call (p : Payload) : OracleCall :=
  SignTypedData (signerPrivateKey config) (buildDomain config) types_value p.
Definition submit_call (p : Payload) (s : string) : OracleCall :=
  SubmitVerification (relayerPrivateKey config) (oracleAdapterAddress config) p s.

(** The signature was the signer's answer for that payload. *)
Definition signature_of (p : Payload) (s : string) : Prop := ∃ t, answer_sign E t (sign_call p) = Ok s.

(** What one segment does to the calls and the identifiers. *)
Inductive effect (w w' : OracleWorld) : Phase → Phase → Prop :=
  | effect_none ph ph' :
      calls w' = calls w → issuedRequestIds w ⊆ issuedRequestIds w' → pending ph' = None → effect w w' ph ph'
  | effect_sign data ph' p : claimId p = member data "claimId" → p_approved p = approved (evaluateClaim (evidence_of data)) →
      requestId p ∉ issuedRequestIds w → issuedRequestIds w' = {[requestId p]} ∪ issuedRequestIds w →
      calls w' = calls w ++ [sign_call p] →
      (∀ q s, pending ph' = Some (q, s) → q = p ∧ signature_of p s) → effect w w' (Evaluated data) ph'
  | effect_submit ph ph' p s :
      pending ph = Some (p, s) → issuedRequestIds w' = issuedRequestIds w →
      calls w' = calls w ++ [submit_call p s] → pending ph' = None → effect w w' ph ph'.

Lemma caught_ok m w ph' w' : caught m w = (Ok ph', w') →
  m w = (Ok ph', w') ∨ ∃ e w1, m w = (Throw e, w1) ∧ pending ph' = None ∧
    calls w' = calls w1 ∧ issuedRequestIds w' = issuedRequestIds w1.
Proof.
  rewrite caught_run. destruct (m w) as [[a|e] w1]; [by left|]. intros H. right. exists e, w1.
  destruct e; [..|done]; by injection H as <- <-.
Qed.
Lemma caught_502 m w ph' w' : caught m w = (Ok ph', w') →
  m w = (Ok ph', w') ∨ ∃ r, ph' = Answered r ∧ status r = 502%Z.
Proof.
  rewrite caught_run. destruct (m w) as [[a|e] w1]; [by left|]. intros H. right.
  destruct e; [..|done]; injection H as <- _; by eexists.
Qed.

Lemma advance_effect ph w ph' w' :
  advance E config ph w = (Ok ph', w') → effect w w' ph ph'.
Proof.
  destruct ph as [req|data|data p s|data p|r]; cbn [advance]; intros H.
  - destruct (admit_cases E config req) as [(data & Ha & _)|(r & Ha & _)]; rewrite Ha, bind_lift_ok in H;
      injection H as <- <-; by apply effect_none.
  - apply caught_ok in H as [H|(e & w1 & H & Hph & Hc & Hi)].
    + apply bind_ok_inv in H as (p & w1 & (Hf & Hi1 & Hc1 & Hcl & Hap & _)%make_payload_ok & H).
      apply bind_ok_inv in H as (s & w2 & H2 & H). injection H as <- <-.
      pose proof (sign_payload_cases E config p w1) as Hs. rewrite H2 in Hs.
      destruct Hs as [Hi2 [[_ [e He]]|[Hc2 [t Ht]]]]; [done|].
      apply (effect_sign _ _ _ _ p); [done|done|done|by rewrite Hi2|by rewrite Hc2, Hc1|].
      intros q s' Hq. injection Hq as <- <-. split; [done|by exists t].
    + apply bind_throw_inv in H as [(_ & Hc1 & Hi1 & _)%make_payload_throws|(p & w2 & H1 & H)].
      { apply effect_none; [congruence|by rewrite Hi, Hi1|done]. }
      apply make_payload_ok in H1 as (Hf & Hi1 & Hc1 & Hcl & Hap & _).
      apply bind_throw_inv in H as [H|(s & w3 & _ & H)]; [|done].
      pose proof (sign_payload_cases E config p w2) as Hs. rewrite H in Hs.
      destruct Hs as [Hi2 [[Hc2 _]|[Hc2 _]]].
      * apply effect_none; [congruence| |done]. rewrite Hi, Hi2, Hi1. apply union_subseteq_r.
      * apply (effect_sign _ _ _ _ p); [done|done|done|by rewrite Hi, Hi2|by rewrite Hc, Hc2, Hc1|].
        intros q s Hq. by rewrite Hph in Hq.
  - pose proof (send_cases E config p s w) as Hs.
    apply caught_ok in H as [H|(e & w1 & H & Hph & Hc & Hi)].
    + apply bind_ok_inv in H as ([] & w1 & H1 & H). injection H as <- <-. rewrite H1 in Hs.
      destruct Hs as [Hi [[_ [e He]]|[Hc _]]]; [done|]. by apply (effect_submit _ _ _ _ p s).
    + apply bind_throw_inv in H as [H|(u & w2 & _ & H)]; [|done]. rewrite H in Hs.
      destruct Hs as [Hi2 [[Hc2 _]|[Hc2 _]]].
      * apply effect_none; [congruence|by rewrite Hi, Hi2|done].
      * apply (effect_submit _ _ _ _ p s); [done|congruence|by rewrite Hc, Hc2|done].
  - apply caught_ok in H as [H|(e & w1 & H & Hph & Hc & Hi)].
    + apply bind_ok_inv in H as (rc & w1 & H1 & H). apply bind_ok_inv in H as (r & w2 & H2 & H).
      injection H as <- <-. injection H2 as _ <-. injection H1 as _ <-. by apply effect_none.
    + apply bind_throw_inv in H as [H|(rc & w2 & H1 & H)].
      * injection H as _ <-. apply effect_none; [by rewrite Hc|by rewrite Hi|done].
      * apply bind_throw_inv in H as [H|(r & w3 & _ & H)]; [|done].
        injection H as _ <-. injection H1 as _ <-. apply effect_none; [by rewrite Hc|by rewrite Hi|done].
  - injection H as <- <-. by apply effect_none.
Qed.

(** The invariant of the server. *)
Record server_ok (phs : list Phase) (w : OracleWorld) : Prop := {
  so_signed_once : NoDup (signed_ids w);
  so_signed_issued id : id ∈ signed_ids w → id ∈ issuedRequestIds w;
  so_submitted_once : NoDup (submitted_ids w);
  so_submission relayer adapter p s : SubmitVerification relayer adapter p s ∈ calls w →
    sign_call p ∈ calls w ∧ signature_of p s;
  so_pending i ph p s : phs !! i = Some ph → pending ph = Some (p, s) →
    sign_call p ∈ calls w ∧ signature_of p s ∧ requestId p ∉ submitted_ids w;
  so_distinct i j ph ph' p q s s' : phs !! i = Some ph → phs !! j = Some ph' →
    pending ph = Some (p, s) → pending ph' = Some (q, s') → requestId p = requestId q → i = j;
}.

(** The handlers after the [i]-th has moved to [ph']. *)
Lemma insert_lookup_cases (phs : list Phase) i j ph ph' :
  <[i := ph']> phs !! j = Some ph → (j = i ∧ ph = ph') ∨ (j ≠ i ∧ phs !! j = Some ph).
Proof. intros [(<- & -> & _)|[? ?]]%list_lookup_insert_Some; auto. Qed.

Lemma signed_id_call p w : sign_call p ∈ calls w → requestId p ∈ signed_ids w.
Proof. intros H. apply list_elem_of_fmap. exists p. split; [done|]. apply list_elem_of_omap. by exists (sign_call p). Qed.
Lemma submitted_id_inv id w : id ∈ submitted_ids w → ∃ r a p s, SubmitVerification r a p s ∈ calls w ∧ id = requestId p.
Proof.
  intros (p & -> & ([] & Hin & Hs)%list_elem_of_omap)%list_elem_of_fmap; [done|].
  injection Hs as ->. eauto 10.
Qed.

Lemma ids_app w w' c : calls w' = calls w ++ [c] →
  signed_ids w' = signed_ids w ++ (requestId <$> omap signed_of [c]) ∧
  submitted_ids w' = submitted_ids w ++ (requestId <$> omap submitted_of [c]).
Proof. intros Hc. unfold signed_ids, submitted_ids. by rewrite Hc, !omap_app, !fmap_app. Qed.

Lemma none_ok phs w w' i ph' : server_ok phs w → calls w' = calls w →
  issuedRequestIds w ⊆ issuedRequestIds w' → pending ph' = None → server_ok (<[i := ph']> phs) w'.
Proof.
  intros [S1 S2 S3 S4 S5 S6] Hc Hs Hn.
  assert (signed_ids w' = signed_ids w ∧ submitted_ids w' = submitted_ids w) as [H1 H2]
    by (unfold signed_ids, submitted_ids; by rewrite Hc).
  split; rewrite ?H1, ?H2, ?Hc; try done.
  - intros id Hid. by apply Hs, S2.
  - intros j x p s [[-> ->]|[_ Hj]]%insert_lookup_cases Hx; [congruence|by eapply S5].
  - intros j k x y p q s s' [[-> ->]|[_ Hj]]%insert_lookup_cases [[-> ->]|[_ Hk]]%insert_lookup_cases Hx Hy; try congruence.
    by eapply S6.
Qed.

Lemma sign_ok phs w w' i ph' p : server_ok phs w → requestId p ∉ issuedRequestIds w →
  issuedRequestIds w' = {[requestId p]} ∪ issuedRequestIds w → calls w' = calls w ++ [sign_call p] →
  (∀ q s, pending ph' = Some (q, s) → q = p ∧ signature_of p s) → server_ok (<[i := ph']> phs) w'.
Proof.
  intros [S1 S2 S3 S4 S5 S6] Hf His Hc Hp.
  destruct (ids_app _ _ _ Hc) as [H1 H2]. cbn in H1, H2. rewrite app_nil_r in H2.
  assert (requestId p ∉ signed_ids w) as Hnew by (intros H; by apply S2 in H).
  assert (requestId p ∉ submitted_ids w) as Hnews.
  { intros (r & a & q & s & Hin & Hq)%submitted_id_inv. apply S4 in Hin as [Hin%signed_id_call _]. congruence. }
  assert (∀ c, c ∈ calls w → c ∈ calls w') as Hin by (intros c H; rewrite Hc, elem_of_app; by left).
  split; rewrite ?H1, ?H2, ?His.
  - apply NoDup_app. split_and!; [done| |apply NoDup_singleton].
    intros id Hid. by intros ->%list_elem_of_singleton.
  - intros id. rewrite elem_of_app, elem_of_union, elem_of_singleton. intros [Hid| ->%list_elem_of_singleton]; auto.
  - done.
  - intros r a q s. rewrite Hc, elem_of_app. intros [H|H%list_elem_of_singleton]; [|done].
    apply S4 in H as [Hx Hy]. split; [by apply elem_of_app; left|done].
  - intros j x q s [[-> ->]|[_ Hj]]%insert_lookup_cases Hx.
    + apply Hp in Hx as [-> Hsig]. split_and!; [|done|done]. rewrite Hc, elem_of_app. right. left.
    + destruct (S5 j x q s Hj Hx) as (? & ? & ?). eauto.
  - intros j k x y q1 q2 s1 s2 [[-> ->]|[Hj' Hj]]%insert_lookup_cases [[-> ->]|[Hk' Hk]]%insert_lookup_cases Hx Hy Heq;
      [done| | |by eapply S6].
    + apply Hp in Hx as [-> _]. destruct (S5 k y q2 s2 Hk Hy) as (Hq%signed_id_call & _). congruence.
    + apply Hp in Hy as [-> _]. destruct (S5 j x q1 s1 Hj Hx) as (Hq%signed_id_call & _). congruence.
Qed.

Lemma submit_ok phs w w' i ph ph' p s : server_ok phs w → phs !! i = Some ph → pending ph = Some (p, s) →
  issuedRequestIds w' = issuedRequestIds w → calls w' = calls w ++ [submit_call p s] → pending ph' = None →
  server_ok (<[i := ph']> phs) w'.
Proof.
  intros [S1 S2 S3 S4 S5 S6] Hi Hph His Hc Hn.
  destruct (ids_app _ _ _ Hc) as [H1 H2]. cbn in H1, H2. rewrite app_nil_r in H1.
  destruct (S5 i ph p s Hi Hph) as (Hsc & Hsig & Hns).
  assert (∀ c, c ∈ calls w → c ∈ calls w') as Hin by (intros c H; rewrite Hc, elem_of_app; by left).
  split; rewrite ?H1, ?H2, ?His.
  - done.
  - done.
  - apply NoDup_app. split_and!; [done| |apply NoDup_singleton].
    intros id Hid. by intros ->%list_elem_of_singleton.
  - intros r a q s'. rewrite Hc, elem_of_app. intros [H|H%list_elem_of_singleton].
    + apply S4 in H as [Hx Hy]. split; [by apply elem_of_app; left|done].
    + injection H as -> -> -> ->. split; [by apply elem_of_app; left|done].
  - intros j x q s' [[-> ->]|[Hne Hj]]%insert_lookup_cases Hx; [congruence|].
    destruct (S5 j x q s' Hj Hx) as (? & ? & Hq). split_and!; [auto|done|].
    rewrite elem_of_app. intros [?|Hid%list_elem_of_singleton]; [done|]. apply Hne. by eapply S6.
  - intros j k x y q1 q2 s1 s2 [[-> ->]|[_ Hj]]%insert_lookup_cases [[-> ->]|[_ Hk]]%insert_lookup_cases Hx Hy; try congruence.
    by eapply S6.
Qed.

Lemma server_ok_step phs w i ph ph' w' :
  server_ok phs w → phs !! i = Some ph → effect w w' ph ph' → server_ok (<[i := ph']> phs) w'.
Proof. intros Hok Hi He. destruct He; [by apply (none_ok _ w)|by eapply (sign_ok _ w _ _ _ p)|by apply (submit_ok _ w _ _ ph _ p s)]. Qed.

Lemma server_ok_reachable phs w phs' w' :
  rtc (server_step E config) (phs, w) (phs', w') → server_ok phs w → server_ok phs' w'.
Proof.
  intros H. remember (phs, w) as c eqn:Hc. remember (phs', w') as c' eqn:Hc'. revert phs w phs' w' Hc Hc'.
  induction H as [c|c1 c2 c3 Hstep _ IH]; intros phs w phs' w' -> Hc'; [by injection Hc' as -> ->|].
  intros Hok. inversion Hstep as [? ? req|? ? i ph ph' w1 Hi Ha]; subst.
  - eapply IH; [done|done|]. destruct Hok as [S1 S2 S3 S4 S5 S6].
    assert (∀ i ph p s, (phs ++ [Received req]) !! i = Some ph → pending ph = Some (p, s) → phs !! i = Some ph) as Hl.
    { intros i ph p s [H|[_ H]]%lookup_app_Some Hp; [done|]. apply list_lookup_singleton_Some in H as [_ <-]. done. }
    split; try done; [by eauto|]. intros i j ph ph' p q s s' Hi Hj Hp Hq. eapply S6; eauto.
  - eapply IH; [done|done|]. eapply server_ok_step; [done|done|by eapply advance_effect].
Qed.
End interleaving.

(** The server before its first request. *)
Definition fresh_world : OracleWorld := mkOracleWorld 0 0 ∅ false [] 0.

Lemma server_ok_start {Zd : Zod} (E : OracleEnv) config phs w :
  rtc (server_step E config) ([], fresh_world) (phs, w) → server_ok E config phs w.
Proof.
  intros H. apply (server_ok_reachable E config _ _ _ _ H).
  split; try apply NoDup_nil_2; try done; intros *; try by intros ?%elem_of_nil.
Qed.

(** C5: Whatever requests arrive and however their handlers interleave at the
    awaits, no request identifier is ever signed twice or submitted twice,
    and every submission is of a payload the service signed, with the very
    signature made for it. *)
Theorem interleaved_requests_safe {Zd : Zod} (E : OracleEnv) (config : OracleConfig) (phs : list Phase) (w : OracleWorld) :
  rtc (server_step E config) ([], fresh_world) (phs, w) →
  NoDup (signed_ids w) ∧ NoDup (submitted_ids w) ∧
  ∀ relayer adapter p s, SubmitVerification relayer adapter p s ∈ calls w →
    sign_call config p ∈ calls w ∧ signature_of E config p s.
Proof.
  intros [S1 S2 S3 S4 _ _]%server_ok_start. done.
Qed.

(** What [recoverSigner] would say of every submission, when ethers recovers
    the key that signed: the signer's address, the one the adapter checks. *)
Lemma submissions_recover {Zd : Zod} (E : OracleEnv) (config : OracleConfig) addressOf verifyTypedData phs w :
  (∀ t key domain types p s, answer_sign E t (SignTypedData key domain types p) = Ok s →
     verifyTypedData domain types p s = Ok (addressOf key : string)) →
  rtc (server_step E config) ([], fresh_world) (phs, w) →
  ∀ relayer adapter p s, SubmitVerification relayer adapter p s ∈ calls w →
    recoverSigner config verifyTypedData p s = Ok (addressOf (signerPrivateKey config)).
Proof.
  intros Hlaw [_ _ _ Hsub _ _]%server_ok_start relayer adapter p s Hin.
  destruct (Hsub _ _ _ _ Hin) as [_ [t Ht]]. by eapply Hlaw.
Qed.

(** Two requests: the second overtakes the first between signing and
    submitting; the phase and the world after each segment. *)
Definition phase_of (m : outcome Phase * OracleWorld) : Phase :=
  match m.1 with Ok ph => ph | Throw _ => Received demo_request end.
Definition step1 := advance demo_oracle sample_config (Received demo_request) fresh_world.
Definition step2 := advance demo_oracle sample_config (phase_of step1) step1.2.
Definition step3 := advance demo_oracle sample_config (phase_of step1) step2.2.
Definition step4 := advance demo_oracle sample_config (phase_of step3) step3.2.
Definition step5 := advance demo_oracle sample_config (phase_of step2) step4.2.

Lemma overtaking_reached :
  rtc (server_step demo_oracle sample_config) ([], fresh_world) ([phase_of step5; phase_of step4], step5.2).
Proof.
  eapply rtc_l; [exact (step_request demo_oracle sample_config [] fresh_world demo_request)|].
  eapply rtc_l; [exact (step_request demo_oracle sample_config [Received demo_request] fresh_world demo_request)|].
  eapply rtc_l; [apply (step_advance _ _ _ _ 0%nat (Received demo_request) (phase_of step1) step1.2); vm_compute; reflexivity|].
  eapply rtc_l; [apply (step_advance _ _ _ _ 0%nat (phase_of step1) (phase_of step2) step2.2); vm_compute; reflexivity|].
  eapply rtc_l; [apply (step_advance _ _ _ _ 1%nat (Received demo_request) (phase_of step1) step2.2); vm_compute; reflexivity|].
  eapply rtc_l; [apply (step_advance _ _ _ _ 1%nat (phase_of step1) (phase_of step3) step3.2); vm_compute; reflexivity|].
  eapply rtc_l; [apply (step_advance _ _ _ _ 1%nat (phase_of step3) (phase_of step4) step4.2); vm_compute; reflexivity|].
  eapply rtc_l; [apply (step_advance _ _ _ _ 0%nat (phase_of step2) (phase_of step5) step5.2); vm_compute; reflexivity|].
  apply rtc_refl.
Qed.

Lemma interleaved_requests_safe_witness :
  length (calls step5.2) = 4%nat ∧ NoDup (signed_ids step5.2) ∧ NoDup (submitted_ids step5.2).
Proof.
  split; [vm_compute; reflexivity|].
  destruct (interleaved_requests_safe demo_oracle sample_config [phase_of step5; phase_of step4] step5.2) as (H1 & H2 & _);
    [exact overtaking_reached|by split].
Defined.
