(* ===== verification/OracleLedger.v ===== *)
(** * The oracle service as a ledger of attestations

    What the service promises, without its code: a ledger of the requests
    that arrived, which attests a decision at most once for a request, under
    an identifier of its own, only if that request had the key and a valid
    body and only as the threshold says, and relays every attestation at most
    once.  The server, its handlers interleaving at their awaits, refines
    it. *)

From S2P Require Import Prelude JsValue JsText Zod Buffer OracleConfig OracleServer OracleRuns OracleInterleave.
From stdpp Require Import fin_maps fin_sets.

#[local] Open Scope Z_scope.

(** ** The specification *)

(** The request it answers, and what it says. *)
Record Attestation := mkAttestation { att_request : nat; att_claim : jsval; att_approved : bool }.
Record Ledger := mkLedger { asked : list Request; attested : gmap string Attestation; relayed : gset string }.
Definition empty_ledger : Ledger := mkLedger [] ∅ ∅.

Section ledger.
Context {Zd : Zod} (config : OracleConfig).

(** What may be attested for a request: it has the key and a positive
    declared amount, and the decision is whether that is at most the
    threshold. *)
Definition justified (req : Request) (a : Attestation) : Prop :=
  ∃ data n, admitted config req data ∧ att_claim a = member data "claimId" ∧
    member data "declaredAmount" = VNum n ∧ num_pos n = true ∧ att_approved a = negb (num_gt n MOCK_APPROVAL_THRESHOLD).
Definition unanswered (L : Ledger) (i : nat) : Prop := ∀ id a, attested L !! id = Some a → att_request a ≠ i.

Inductive ledger_step : Ledger → Ledger → Prop :=
  | ask req L : ledger_step L (mkLedger (asked L ++ [req]) (attested L) (relayed L))
  | attest id a req L : attested L !! id = None → asked L !! att_request a = Some req → unanswered L (att_request a) →
      justified req a → ledger_step L (mkLedger (asked L) (<[id := a]> (attested L)) (relayed L))
  | relay id L : is_Some (attested L !! id) → id ∉ relayed L →
      ledger_step L (mkLedger (asked L) (attested L) ({[id]} ∪ relayed L)).

(** What a history of the ledger comes to. *)
Record ledger_ok (L : Ledger) : Prop := {
  ledger_justified id a : attested L !! id = Some a → ∃ req, asked L !! att_request a = Some req ∧ justified req a;
  ledger_once id id' a a' : attested L !! id = Some a → attested L !! id' = Some a' → att_request a = att_request a' → id = id';
  ledger_relayed id : id ∈ relayed L → is_Some (attested L !! id);
}.
Lemma ledger_step_ok L L' : ledger_step L L' → ledger_ok L → ledger_ok L'.
Proof.
  intros [req L0|id a req L0 Hid Hreq Hun Hj|id L0 Hid Hr] [H1 H2 H3]; split; cbn.
  - intros id a Hid. destruct (H1 id a Hid) as (r & Hr & Hj). exists r. split; [by apply lookup_app_l_Some|done].
  - exact H2.
  - exact H3.
  - intros id' a' [(<- & <-)|[_ Ha]]%lookup_insert_Some; [by exists req|by eapply H1].
  - intros id1 id2 a1 a2 [(<- & <-)|[_ Ha1]]%lookup_insert_Some [(<- & <-)|[_ Ha2]]%lookup_insert_Some Heq;
      [done|by destruct (Hun _ _ Ha2)|by destruct (Hun _ _ Ha1)|by eapply H2].
  - intros id' Hr. apply lookup_insert_is_Some'. right. by apply H3.
  - exact H1.
  - exact H2.
  - intros id' [->%elem_of_singleton|Hin]%elem_of_union; [done|by apply H3].
Qed.
Lemma ledger_history L : rtc ledger_step empty_ledger L → ledger_ok L.
Proof.
  intros H. assert (ledger_ok empty_ledger) as H0 by (split; cbn; [by intros ? ? ?%lookup_empty_Some|by intros ? ? ? ? ?%lookup_empty_Some|by intros ? ?%elem_of_empty]).
  revert H0. induction H as [L0|L1 L2 L3 Hs _ IH]; [done|]. intros H0. by eapply IH, ledger_step_ok.
Qed.
End ledger.

(** ** Runs of the server, with the requests that arrived *)
Inductive served {Zd : Zod} (E : OracleEnv) (config : OracleConfig) : list Request → list Phase * OracleWorld → Prop :=
  | served_start : served E config [] ([], fresh_world)
  | served_request reqs phs w req : served E config reqs (phs, w) →
      served E config (reqs ++ [req]) (phs ++ [Received req], w)
  | served_advance reqs phs w i ph ph' w' : served E config reqs (phs, w) →
      phs !! i = Some ph → advance E config ph w = (Ok ph', w') → served E config reqs (<[i := ph']> phs, w').

(** They are the runs of [server_step]. *)
Lemma served_reachable {Zd : Zod} E config c :
  (∃ reqs, served E config reqs c) ↔ rtc (server_step E config) ([], fresh_world) c.
Proof.
  split.
  - intros [reqs H]. induction H as [|reqs phs w req _ IH|reqs phs w i ph ph' w' _ IH Hi Ha]; [done|..].
    + eapply rtc_r; [exact IH|apply step_request].
    + eapply rtc_r; [exact IH|by eapply step_advance].
  - intros Hr. revert c Hr. apply rtc_ind_r; [by exists []; constructor|].
    intros c c' _ [phs w req|phs w i ph ph' w' Hi Ha] [reqs IH]; [exists (reqs ++ [req])|exists reqs].
    + by apply served_request.
    + by eapply served_advance.
Qed.

(** ** What the calls of a run stand for *)

(** The payloads signed are what is attested, those submitted what is
    relayed. *)
Record represents (L : Ledger) (w : OracleWorld) : Prop := {
  rep_attested id : is_Some (attested L !! id) ↔ id ∈ signed_ids w;
  rep_relayed id : id ∈ relayed L ↔ id ∈ submitted_ids w;
  rep_payload k d t p : SignTypedData k d t p ∈ calls w →
    ∃ i, attested L !! requestId p = Some (mkAttestation i (claimId p) (p_approved p));
}.

Lemma represents_calls L w w' : represents L w → calls w' = calls w → represents L w'.
Proof. intros [H1 H2 H3] Hc. unfold signed_ids, submitted_ids in *. split; unfold signed_ids, submitted_ids; by rewrite ?Hc. Qed.

(** ** The simulation *)
Section refinement.
Context {Zd : Zod} {ZL : ZodLaws Zd} (E : OracleEnv) (config : OracleConfig).

Lemma represents_sign L w w' p i : represents L w → calls w' = calls w ++ [sign_call config p] →
  requestId p ∉ signed_ids w →
  represents (mkLedger (asked L) (<[requestId p := mkAttestation i (claimId p) (p_approved p)]> (attested L)) (relayed L)) w'.
Proof.
  intros [H1 H2 H3] Hc Hnew. destruct (ids_app _ _ _ Hc) as [Hs Hsub]. cbn in Hs, Hsub. rewrite app_nil_r in Hsub. split; cbn.
  - intros id. rewrite lookup_insert_is_Some', Hs, elem_of_app, list_elem_of_singleton, H1. split; intros [?|?]; auto.
  - intros id. by rewrite Hsub.
  - intros k d t q. rewrite Hc. intros [Hin|Heq%list_elem_of_singleton]%elem_of_app.
    + destruct (H3 _ _ _ _ Hin) as [j Hj]. exists j. rewrite lookup_insert_ne; [done|]. intros Heq.
      apply Hnew, H1. rewrite Heq. by eexists.
    + injection Heq as _ _ _ <-. exists i. by rewrite lookup_insert_eq.
Qed.
Lemma represents_submit L w w' p s : represents L w → calls w' = calls w ++ [submit_call config p s] →
  represents (mkLedger (asked L) (attested L) ({[requestId p]} ∪ relayed L)) w'.
Proof.
  intros [H1 H2 H3] Hc. destruct (ids_app _ _ _ Hc) as [Hs Hsub]. cbn in Hs, Hsub. rewrite app_nil_r in Hs. split; cbn.
  - intros id. by rewrite Hs.
  - intros id. rewrite elem_of_union, elem_of_singleton, Hsub, elem_of_app, list_elem_of_singleton, H2. split; intros [?|?]; auto.
  - intros k d t q. rewrite Hc. intros [Hin|Heq%list_elem_of_singleton]%elem_of_app; [by eapply H3|done].
Qed.

(** What the next segment of a handler leaves, but for the calls. *)
Definition next (ph : Phase) (w : OracleWorld) (ph' : Phase) (w' : OracleWorld) : Prop :=
  match ph with
  | Received req => (∃ data, ph' = Evaluated data ∧ admitted config req data) ∨ ∃ r, ph' = Answered r ∧ status r ≠ 200
  | Evaluated data => (∃ p s, ph' = Signed data p s) ∨ ∃ r, ph' = Answered r ∧ status r ≠ 200
  | Signed data p s =>
      (ph' = Submitted data p ∧ calls w' = calls w ++ [submit_call config p s]) ∨ ∃ r, ph' = Answered r ∧ status r ≠ 200
  | Submitted data p => ∃ r, ph' = Answered r ∧ (status r = 200 → ∃ rc, success data p (Some rc) = Ok r)
  | Answered r => ph' = ph
  end.
Lemma advance_next ph w ph' w' : advance E config ph w = (Ok ph', w') → next ph w ph' w'.
Proof.
  destruct ph as [req|data|data p s|data p|r]; cbn [advance]; intros H.
  - destruct (admit_cases E config req) as [(data & Ha & Hadm)|(r & Ha & Hr)]; rewrite Ha, bind_lift_ok in H;
      injection H as <- <-; [left; by exists data|right; exists r; split; [done|lia]].
  - apply caught_502 in H as [H|(r & -> & Hr)]; [|right; exists r; split; [done|lia]]. left. js_invs H. injection H as <- _. eauto.
  - pose proof (send_cases E config p s w) as Hs.
    apply caught_502 in H as [H|(r & -> & Hr)]; [|right; exists r; split; [done|lia]]. left.
    js_invs H. injection H as <- <-. rewrite Hrun in Hs. destruct Hs as [_ [[_ [e He]]|[Hc _]]]; [done|]. by split.
  - apply caught_502 in H as [H|(r & -> & Hr)]; [|exists r; split; [done|lia]]. js_invs H. injection H as <- <-.
    apply lift_ok in Hrun0 as [Hok _]. exists a0. split; [done|]. intros _. destruct a as [rc|]; [by exists rc|done].
  - by injection H as <- _.
Qed.

(** A 200 answer to the [i]-th request. *)
Definition reports (L : Ledger) (i : nat) (r : Response) : Prop := ∃ id a,
  attested L !! id = Some a ∧ att_request a = i ∧ id ∈ relayed L ∧ member (json_body r) "requestId" = VStr id ∧
  member (json_body r) "claimId" = att_claim a ∧ member (json_body r) "approved" = VBool (att_approved a).
(** What the ledger says of the [i]-th handler. *)
Definition phase_ok (L : Ledger) (i : nat) (ph : Phase) : Prop :=
  match ph with
  | Received req => asked L !! i = Some req ∧ unanswered L i
  | Evaluated data => (∃ req, asked L !! i = Some req ∧ admitted config req data) ∧ unanswered L i
  | Signed data p s => attested L !! requestId p = Some (mkAttestation i (claimId p) (p_approved p))
  | Submitted data p => attested L !! requestId p = Some (mkAttestation i (claimId p) (p_approved p)) ∧ requestId p ∈ relayed L
  | Answered r => status r = 200 → reports L i r
  end.

(** Nothing the [j]-th handler needs is lost by a step for another one. *)
Definition keeps_others (i : nat) (L L' : Ledger) : Prop :=
  asked L `prefix_of` asked L' ∧ relayed L ⊆ relayed L' ∧
  (∀ id a, attested L !! id = Some a → attested L' !! id = Some a) ∧
  (∀ id a, attested L' !! id = Some a → attested L !! id = Some a ∨ att_request a = i).
Lemma phase_ok_others i j L L' ph : keeps_others i L L' → j ≠ i → phase_ok L j ph → phase_ok L' j ph.
Proof.
  intros (Ha & Hr & Hk & Hb) Hj. assert (unanswered L j → unanswered L' j) as Hun.
  { intros H id a Hid. destruct (Hb id a Hid) as [Hid'|Heq]; [by eapply H|congruence]. }
  destruct ph as [req|data|data p s|data p|r]; cbn.
  - intros [Hi Hu]. split; [by eapply prefix_lookup_Some|by apply Hun].
  - intros [(req & Hi & Hadm) Hu]. split; [exists req; split; [by eapply prefix_lookup_Some|done]|by apply Hun].
  - apply Hk.
  - intros [Hat Hre]. split; [by apply Hk|by apply Hr].
  - intros H H200. destruct (H H200) as (id & a & Hid & Hai & Hre & Hbody). exists id, a. split_and!; auto; apply Hbody.
Qed.

Record simulated (reqs : list Request) (phs : list Phase) (w : OracleWorld) (L : Ledger) : Prop := {
  sim_history : rtc (ledger_step config) empty_ledger L;
  sim_asked : asked L = reqs;
  sim_length : length phs = length reqs;
  sim_represents : represents L w;
  sim_phases i ph : phs !! i = Some ph → phase_ok L i ph;
}.

(** A step of the [i]-th handler that leaves the ledger as [L']. *)
Lemma simulated_insert reqs phs w L L' w' i ph' : simulated reqs phs w L →
  (L' = L ∨ ledger_step config L L') → asked L' = asked L → keeps_others i L L' → represents L' w' → phase_ok L' i ph' →
  simulated reqs (<[i := ph']> phs) w' L'.
Proof.
  intros [H1 H2 H3 H4 H5] Hstep Ha Hk Hr Hph. split.
  - destruct Hstep as [->|Hs]; [done|by eapply rtc_r].
  - congruence.
  - by rewrite length_insert.
  - done.
  - intros j ph [(-> & -> & _)|[Hne Hj]]%list_lookup_insert_Some; [done|]. eapply phase_ok_others; [done|done|by apply H5].
Qed.
Lemma keeps_same i L : keeps_others i L L.
Proof. split_and!; auto. Qed.

(** A segment that makes no call. *)
Lemma simulated_quiet reqs phs w L i ph ph' w' : simulated reqs phs w L → phs !! i = Some ph →
  next ph w ph' w' → calls w' = calls w → pending ph' = None → simulated reqs (<[i := ph']> phs) w' L.
Proof.
  intros Hsim Hi Hn Hc Hp. apply (simulated_insert _ _ _ _ _ _ _ _ Hsim); [by left|done|apply keeps_same|..].
  { by eapply represents_calls; [apply Hsim|]. }
  pose proof (sim_phases _ _ _ _ Hsim i ph Hi) as Hph. destruct ph as [req|data|data p s|data p|r]; cbn in Hn, Hph.
  - destruct Hn as [(data & -> & Hadm)|(r & -> & Hr)]; [|by intros ?]. destruct Hph as [Hi' Hu]. split; [by exists req|done].
  - destruct Hn as [(p & s & ->)|(r & -> & Hr)]; [done|by intros ?].
  - destruct Hn as [[-> Hc']|(r & -> & Hr)]; [|by intros ?]. rewrite Hc in Hc'. apply (f_equal length) in Hc'.
    rewrite length_app in Hc'. cbn in Hc'. lia.
  - destruct Hn as (r & -> & Hr), Hph as [Hat Hre]. intros H200. destruct (Hr H200) as [rc Hrc]. injection Hrc as <-.
    by exists (requestId p), (mkAttestation i (claimId p) (p_approved p)).
  - by subst ph'.
Qed.

(** The segment that signs. *)
Lemma simulated_sign reqs phs w L i data ph' w' p : simulated reqs phs w L → phs !! i = Some (Evaluated data) →
  next (Evaluated data) w ph' w' → claimId p = member data "claimId" → p_approved p = approved (evaluateClaim (evidence_of data)) →
  requestId p ∉ signed_ids w → calls w' = calls w ++ [sign_call config p] →
  (∀ q s, pending ph' = Some (q, s) → q = p) → ∃ L', simulated reqs (<[i := ph']> phs) w' L'.
Proof.
  intros Hsim Hi Hn Hcl Hap Hnew Hc Hq. destruct (sim_phases _ _ _ _ Hsim i _ Hi) as [(req & Hask & Hadm) Hun].
  assert (attested L !! requestId p = None) as Hnone.
  { apply eq_None_not_Some. by rewrite (rep_attested _ _ (sim_represents _ _ _ _ Hsim)). }
  eexists. apply (simulated_insert _ _ _ _ (mkLedger (asked L)
    (<[requestId p := mkAttestation i (claimId p) (p_approved p)]> (attested L)) (relayed L)) _ _ _ Hsim); cbn.
  - right. apply (attest _ _ _ req); [done|done|done|]. destruct (decision_valid (body req) data) as (n & Hn' & Hpos & Hd); [apply Hadm|].
    exists data, n. cbn. rewrite Hcl, Hap, Hd. by split_and!.
  - done.
  - split_and!; cbn; [done|done|..].
    + intros id a Hid. rewrite lookup_insert_ne; [done|]. intros <-. congruence.
    + intros id a [(<- & <-)|[_ ?]]%lookup_insert_Some; [by right|by left].
  - eapply represents_sign; [apply Hsim|done|done].
  - destruct Hn as [(q & s & ->)|(r & -> & Hr)]; [|by intros ?]. rewrite (Hq q s eq_refl). apply lookup_insert_eq.
Qed.

(** The segment that submits. *)
Lemma simulated_submit reqs phs w L i ph ph' w' p s : simulated reqs phs w L → phs !! i = Some ph →
  pending ph = Some (p, s) → next ph w ph' w' → requestId p ∉ submitted_ids w →
  calls w' = calls w ++ [submit_call config p s] → ∃ L', simulated reqs (<[i := ph']> phs) w' L'.
Proof.
  intros Hsim Hi Hp Hn Hnew Hc. destruct ph as [|data|data q s'| |]; try done. injection Hp as -> ->.
  pose proof (sim_phases _ _ _ _ Hsim i _ Hi) as Hat. cbn in Hat.
  eexists. apply (simulated_insert _ _ _ _ (mkLedger (asked L) (attested L) ({[requestId p]} ∪ relayed L)) _ _ _ Hsim); cbn.
  - right. apply relay; [by eexists|]. by rewrite (rep_relayed _ _ (sim_represents _ _ _ _ Hsim)).
  - done.
  - split_and!; cbn; [done|apply union_subseteq_r|done|by left].
  - eapply represents_submit; [apply Hsim|done].
  - destruct Hn as [[-> _]|(r & -> & Hr)]; [|by intros ?]. split; [done|]. apply elem_of_union. left. by apply elem_of_singleton.
Qed.

Lemma served_simulated reqs c : served E config reqs c → ∃ L, simulated reqs c.1 c.2 L.
Proof.
  induction 1 as [|reqs phs w req Hs IH|reqs phs w i ph ph' w' Hs IH Hi Ha]; cbn [fst snd] in *.
  - exists empty_ledger. split; [done|done|done| |done].
    split; cbn; [|by intros id; split; [intros ?%elem_of_empty|intros ?%elem_of_nil]|by intros ? ? ? ? ?%elem_of_nil].
    intros id. rewrite lookup_empty. split; [by intros [? ?]|by intros ?%elem_of_nil].
  - destruct IH as [L [H1 H2 H3 H4 H5]]. eexists (mkLedger (asked L ++ [req]) (attested L) (relayed L)). split; cbn.
    + eapply rtc_r; [exact H1|apply ask].
    + by rewrite H2.
    + rewrite !length_app. cbn. lia.
    + by destruct H4.
    + intros i ph [Hi|[Hle Hi]]%lookup_app_Some.
      * eapply (phase_ok_others (length phs) i L); [|apply lookup_lt_Some in Hi; lia|by apply H5].
        split_and!; cbn; [by apply prefix_app_r|done|done|by left].
      * apply list_lookup_singleton_Some in Hi as [Hz <-]. cbn. split.
        { rewrite H2, lookup_app_r by lia. by replace (i - length reqs)%nat with 0%nat by lia. }
        intros id a Hid Heq. cbn in Hid. destruct (ledger_justified _ _ (ledger_history _ _ H1) id a Hid) as (r & Hr%lookup_lt_Some & _).
        rewrite H2 in Hr. lia.
  - destruct IH as [L Hsim]. assert (server_ok E config phs w) as Hok by (apply server_ok_start, served_reachable; by exists reqs).
    pose proof (advance_next _ _ _ _ Ha) as Hn. pose proof (advance_effect E config _ _ _ _ Ha) as He.
    destruct He as [ph1 ph2 Hc _ Hp|data ph2 p Hcl Hap Hf _ Hc Hq|ph1 ph2 p s Hp _ Hc Hp'].
    + exists L. by eapply simulated_quiet.
    + eapply simulated_sign; try done; [|by intros q s' H; apply Hq in H as [-> _]].
      intros Hin. by apply (so_signed_issued _ _ _ _ Hok) in Hin.
    + eapply simulated_submit; try done. by apply (so_pending _ _ _ _ Hok i ph1 p s Hi Hp).
Qed.
End refinement.

(** C4: The server refines the ledger.  However requests interleave, there is
    a history of the ledger, of exactly the requests that arrived, whose
    attestations are the payloads signed and whose relays are the
    transactions sent: each attestation is made for one of those requests,
    which had the key and a positive declared amount, is approved exactly
    when that is at most the threshold, and is the only one for that request
    and under its identifier; each is relayed at most once; and a 200 answer
    is about an attestation for its own request that was relayed, with its
    identifier, claim and decision. *)
Theorem server_refines_ledger {Zd : Zod} {ZL : ZodLaws Zd} (E : OracleEnv) (config : OracleConfig)
    (reqs : list Request) (phs : list Phase) (w : OracleWorld) :
  served E config reqs (phs, w) →
  ∃ L, rtc (ledger_step config) empty_ledger L ∧ asked L = reqs ∧ represents L w ∧
    ∀ i r, phs !! i = Some (Answered r) → status r = 200 → reports L i r.
Proof.
  intros Hs. destruct (served_simulated E config _ _ Hs) as [L [H1 H2 H3 H4 H5]]. exists L. split_and!; [done..|].
  intros i r Hi. exact (H5 i _ Hi).
Qed.

(** The first of the two overlapping requests is answered. *)
Definition step6 := advance demo_oracle sample_config (phase_of step5) step5.2.
Definition first_answer : Response := match phase_of step6 with Answered r => r | _ => mkResponse 0 VUndef end.

Lemma first_answered : served demo_oracle sample_config [demo_request; demo_request]
  ([phase_of step6; phase_of step4], step6.2).
Proof.
  assert (∀ reqs phs w i ph ph' w', served demo_oracle sample_config reqs (phs, w) → phs !! i = Some ph →
    advance demo_oracle sample_config ph w = (Ok ph', w') →
    served demo_oracle sample_config reqs (<[i := ph']> phs, w')) as Hadv by (intros *; apply served_advance).
  apply (Hadv _ [phase_of step5; phase_of step4] step5.2 0%nat (phase_of step5)); [|done|vm_compute; reflexivity].
  apply (Hadv _ [phase_of step2; phase_of step4] step4.2 0%nat (phase_of step2)); [|done|vm_compute; reflexivity].
  apply (Hadv _ [phase_of step2; phase_of step3] step3.2 1%nat (phase_of step3)); [|done|vm_compute; reflexivity].
  apply (Hadv _ [phase_of step2; phase_of step1] step2.2 1%nat (phase_of step1)); [|done|vm_compute; reflexivity].
  apply (Hadv _ [phase_of step2; Received demo_request] step2.2 1%nat (Received demo_request)); [|done|vm_compute; reflexivity].
  apply (Hadv _ [phase_of step1; Received demo_request] step1.2 0%nat (phase_of step1)); [|done|vm_compute; reflexivity].
  apply (Hadv _ [Received demo_request; Received demo_request] fresh_world 0%nat (Received demo_request)); [|done|vm_compute; reflexivity].
  apply (served_request _ _ [demo_request] [Received demo_request]). apply (served_request _ _ [] []). constructor.
Qed.

Lemma server_refines_ledger_witness :
  status first_answer = 200 ∧
  ∃ L, rtc (ledger_step sample_config) empty_ledger L ∧ asked L = [demo_request; demo_request] ∧
    represents L step6.2 ∧ reports L 0 first_answer.
Proof.
  assert (status first_answer = 200) as H200 by (vm_compute; reflexivity). split; [exact H200|].
  destruct (server_refines_ledger demo_oracle sample_config [demo_request; demo_request] [phase_of step6; phase_of step4] step6.2)
    as (L & Hl & Ha & Hr & Hans); [exact first_answered|].
  exists L. split_and!; [exact Hl|exact Ha|exact Hr|]. apply Hans; [vm_compute; reflexivity|exact H200].
Defined.
