(* ===== verification/React.v ===== *)
(** * What React renders, as an interface

    The pages put values of the backend and of errors between tags
    ([{error}], [{claim.id}]).  What React does with such a child is a
    parameter ([child]: the text pieces shown, or an exception that unmounts
    the tree) with its documented behaviour as laws ([ReactLaws]): texts and
    numbers are shown, [null], [undefined] and booleans are not, an array
    shows its elements, and an object is refused ("Objects are not valid as a
    React child").  [reference_child] is one concrete function with these
    laws, for the witnesses. *)

From S2P Require Import Prelude JsValue.

Class React := child : jsval → outcome (list string).

(** Refused as a child. *)
Definition refused `{React} (v : jsval) : Prop := ∃ e, child v = Throw e.
(** Accepted as a child. *)
Definition shows `{React} (v : jsval) : Prop := ∃ t, child v = Ok t.

Class ReactLaws (R : React) : Prop := {
  child_text s : child (VStr s) = Ok [s];
  child_number n : child (VNum n) = Ok [num_to_string n];
  child_nothing v : v = VNull ∨ v = VUndef ∨ (∃ b, v = VBool b) → child v = Ok [];
  child_object fs : refused (VObj fs);
  child_array l : Forall shows l → shows (VArr l);
  child_array_refused l v : v ∈ l → refused v → refused (VArr l);
}.

(** [{v && <p>{v}</p>}] *)
Definition when_truthy `{React} (v : jsval) : outcome (option (list string)) :=
  if truthy v then t ← child v; Ok (Some t) else Ok None.
(** An error, if there is one, can be shown. *)
Definition error_ok `{React} (v : jsval) : Prop := truthy v = true → shows v.

(** Values that can be put between tags. *)
Definition scalar (v : jsval) : Prop :=
  match v with VUndef | VNull | VBool _ | VNum _ | VStr _ => True | _ => False end.

Section laws.
Context {R : React} {RL : ReactLaws R}.

Lemma scalar_shows v : scalar v → shows v.
Proof.
  destruct v as [| |b|n| |s| |]; simpl; try done; intros _; unfold shows.
  - rewrite child_nothing by auto. by eexists.
  - rewrite child_nothing by auto. by eexists.
  - rewrite child_nothing by eauto. by eexists.
  - rewrite child_number. by eexists.
  - rewrite child_text. by eexists.
Qed.
Lemma text_shows s : shows (VStr s).
Proof. by apply scalar_shows. Qed.
Lemma text_error s : error_ok (VStr s).
Proof. intros _. apply text_shows. Qed.
Lemma null_error : error_ok VNull.
Proof. done. Qed.
Lemma error_shown v : error_ok v → ∃ t, when_truthy v = Ok t.
Proof. unfold when_truthy, error_ok. destruct (truthy v); [|by eexists]. intros [t ->]; [done|]. by eexists. Qed.
Lemma shows_not_refused v : shows v → ¬ refused v.
Proof. unfold shows, refused. intros [t H] [e H']. congruence. Qed.

(** FastAPI's validation errors are lists of objects. *)
Lemma objects_refused fs l : refused (VArr (VObj fs :: l)).
Proof. apply (child_array_refused _ (VObj fs)); [by left|apply child_object]. Qed.
End laws.

(** ** A reference *)
Fixpoint reference_child (v : jsval) : outcome (list string) :=
  match v with
  | VUndef | VNull | VBool _ | VBigInt _ => Ok []
  | VNum n => Ok [num_to_string n]
  | VStr s => Ok [s]
  | VObj _ => Throw (JsError "Objects are not valid as a React child")
  | VArr l =>
      (fix go (l : list jsval) : outcome (list string) :=
         match l with
         | [] => Ok []
         | v :: l => t ← reference_child v; ts ← go l; Ok (t ++ ts)
         end) l
  end.

Module ReactReference.
#[export] Instance react : React := reference_child.
#[export] Instance react_laws : ReactLaws react.
Proof.
  split; try done.
  - by intros v [->|[->|[b ->]]].
  - intros fs. by eexists.
  - unfold shows, child, react. intros l H. induction H as [|v l [t Ht] _ [ts IH]]; simpl; [by eexists|].
    rewrite Ht. simpl in IH |- *. rewrite IH. by eexists.
  - unfold refused, child, react. intros l v Hin [e He]. induction l as [|u l IH]; [by apply elem_of_nil in Hin|].
    apply elem_of_cons in Hin as [<-|Hin]; simpl.
    + rewrite He. by eexists.
    + destruct (reference_child u) as [t|e']; simpl; [|by eexists].
      destruct (IH Hin) as [e' He']. simpl in He'. rewrite He'. by eexists.
Qed.
End ReactReference.
