(* ===== verification/FrontendContract.v ===== *)
(** * frontend/src/api: client.js and contract.js

    The browser's calls: the backend over HTTP, the wallet, and the
    contracts through the wallet's signer or a read-only provider.  Every
    call is recorded in [actions] in order; [WebEnv] answers it ([inr]: the
    promise rejects).  [page] is the React state of the component that runs;
    a handler works on the values of the render it belongs to and calls
    setters, which change [page]. *)

From S2P Require Import Prelude JsValue JsText Buffer React.
From Stdlib Require Import Strings.Byte Strings.Ascii.

(** [import.meta.env.VITE_*] *)
Record ViteEnv := mkVite {
  VITE_CLAIM_REGISTRY_ADDRESS : option string;
  VITE_INSURANCE_POLICY_ADDRESS : option string;
  VITE_STABLECOIN_ADDRESS : option string;
  VITE_CHAIN_RPC_URL : option string;
}.

(** What the browser sends out. *)
Inductive Action :=
  | HttpGet (path : string) (params : jsval) (token : option jsval)
  | HttpPost (path : string) (body : jsval) (token : option jsval) (idempotencyKey : option jsval)
  | RequestAccounts                                    (** [eth_requestAccounts] *)
  | ImportModule (name : string)                       (** [import(name)] *)
  | GetSigner
  | SignText (message : jsval)
  | SendTx (contract method : string) (args : list jsval)
  | WaitTx
  | ViewCall (contract method : string) (args : list jsval).

Record WebEnv := mkWebEnv {
  answer : nat → Action → jsval + string;              (** [inr]: rejected, with this message *)
  getRandomValues : nat → buffer;                      (** the n-th 32 random bytes *)
  randomUUID : nat → string;
  (** ethers *)
  ZeroAddress : string;
  parseEther : string → Z + string;
  formatEther : jsval → string + string;
  toUtf8Bytes : string → buffer + string;
  getBytes : string → buffer + string;
  keccak256_concat : list buffer → string;             (** [keccak256(concat(l))] *)
  JsonRpcProvider : string → unit + string;
  (** [err?.response?.data?.detail]: FastAPI's, a text or, for a body or path
      it could not validate, a list of objects *)
  error_detail : exn → jsval;
}.

(** A call of an ethers function: [inr m] when it throws an error [m]. *)
Definition ethers {A} (r : A + string) : outcome A :=
  match r with inl a => Ok a | inr m => Throw (JsError m) end.

Record Web (P : Type) := mkWeb { page : P; web_clock : nat; randoms : nat; actions : list Action }.
Arguments mkWeb {P} _ _ _ _.
Arguments page {P} _.
Arguments web_clock {P} _.
Arguments randoms {P} _.
Arguments actions {P} _.

Section web.
Context {P : Type} (E : WebEnv).

Definition act (a : Action) : Js (Web P) jsval := λ w,
  (match answer E (web_clock w) a with inl v => Ok v | inr m => Throw (ServiceError m) end,
   mkWeb (page w) (S (web_clock w)) (randoms w) (actions w ++ [a])).

(** A React setter. *)
Definition set_page (f : P → P) : Js (Web P) unit :=
  modify (λ w, mkWeb (f (page w)) (web_clock w) (randoms w) (actions w)).

Definition draw {A} (source : nat → A) : Js (Web P) A := λ w,
  (Ok (source (randoms w)), mkWeb (page w) (web_clock w) (S (randoms w)) (actions w)).

(** [err?.message || fallback], and with the backend's detail first. *)
Definition error_message (e : exn) (fallback : string) : string :=
  match e with
  | JsError m | TypeError m | ServiceError m => if bool_decide (m = "") then fallback else m
  | ProcessExit _ | OutOfFuel => fallback
  end.
Definition error_text (e : exn) (fallback : string) : jsval :=
  if truthy (error_detail E e) then error_detail E e else VStr (error_message e fallback).
(** [err?.response?.data?.detail || fallback] *)
Definition detail_or (e : exn) (fallback : string) : jsval :=
  if truthy (error_detail E e) then error_detail E e else VStr fallback.

(** ** api/client.js *)
Definition authHeaders (token : jsval) : jsval :=
  VObj [("Authorization", VStr ("Bearer " +:+ js_to_string token))].

Definition getNonce (address : jsval) : Js (Web P) jsval :=
  act (HttpGet "/auth/nonce" (VObj [("address", address)]) None).
Definition loginWallet (address signature : jsval) : Js (Web P) jsval :=
  act (HttpPost "/auth/wallet" (VObj [("address", address); ("signature", signature)]) None None).
Definition listClaims (token : jsval) : Js (Web P) jsval :=
  act (HttpGet "/claims" VUndef (Some (authHeaders token))).
Definition getClaim (token claimId : jsval) : Js (Web P) jsval :=
  act (HttpGet ("/claims/" +:+ js_to_string claimId) VUndef (Some (authHeaders token))).
Definition createClaim (token body : jsval) : Js (Web P) jsval :=
  act (HttpPost "/claims" body (Some (authHeaders token)) None).
Definition triggerVerification (token claimId idempotencyKey : jsval) : Js (Web P) jsval :=
  act (HttpPost ("/claims/" +:+ js_to_string claimId +:+ "/trigger-verification") (VObj [])
    (Some (authHeaders token)) (Some idempotencyKey)).
Definition getPolicyCatalog : Js (Web P) jsval := act (HttpGet "/policies/catalog" VUndef None).
Definition getPolicyStatus (policyId : jsval) : Js (Web P) jsval :=
  act (HttpGet ("/policies/" +:+ js_to_string policyId +:+ "/status") VUndef None).

(** ** api/contract.js *)
Context (V : ViteEnv).

(** The hand-written ABIs the contracts are built with. *)
Definition CLAIM_REGISTRY_ABI : list string := [
  "function submitClaim(uint256 policyId, bytes32 merkleRoot, uint256 amount) external returns (uint256)"].
Definition INSURANCE_POLICY_ABI : list string := [
  "function subscribeToPolicy(uint256 templateId) external returns (uint256)";
  "function payPremium(uint256 policyId) external";
  "function policyTemplates(uint256) external view returns (uint128 coverageAmount, uint128 premiumAmountPerPeriod, uint40 periodSeconds, uint40 termSeconds, bool active, bytes32 metadataHash)";
  "function isPremiumCurrent(uint256 policyId) external view returns (bool)";
  "function premiumPaidUntil(uint256 policyId) external view returns (uint256)"].
Definition ERC20_ABI : list string := [
  "function approve(address spender, uint256 amount) external returns (bool)";
  "function allowance(address owner, address spender) external view returns (uint256)";
  "function balanceOf(address account) external view returns (uint256)"].

(** The address, once checked. *)
Definition requireAddress (address : option string) (envVarName : string) : outcome string :=
  match address with
  | None | Some "" => Throw (JsError (envVarName +:+ " is not configured."))
  | Some a => if bool_decide (a = ZeroAddress E) then Throw (JsError (envVarName +:+ " is not configured.")) else Ok a
  end.

Definition getReadProvider : outcome unit :=
  match VITE_CHAIN_RPC_URL V with
  | None | Some "" => Throw (JsError "VITE_CHAIN_RPC_URL is not configured.")
  | Some url => ethers (JsonRpcProvider E url)
  end.

(** [tx.wait()] and the receipt's hash. *)
Definition wait_hash : Js (Web P) jsval :=
  receipt ← act WaitTx; lift (js_get receipt "hash").

Definition submitClaimOnChain (policyId merkleRoot amountEther : jsval) : Js (Web P) jsval :=
  registry ← lift (requireAddress (VITE_CLAIM_REGISTRY_ADDRESS V) "VITE_CLAIM_REGISTRY_ADDRESS");
  amountWei ← lift (ethers (parseEther E (js_to_string amountEther)));
  _ ← act (SendTx registry "submitClaim" [policyId; merkleRoot; VBigInt amountWei]);
  wait_hash.

(** [Number(v)] *)
Definition Number (v : jsval) : jsval :=
  VNum (match v with
  | VNum n => n
  | VBigInt z => num_of_Z z
  | VBool b => Int (if b then 1 else 0)
  | VNull => Int 0
  | VStr s => Number_text s
  | VArr _ => Number_text (js_to_string v)
  | VUndef | VObj _ => NaN
  end).

Definition getPolicyTemplate (templateId : jsval) : Js (Web P) jsval :=
  policy ← lift (requireAddress (VITE_INSURANCE_POLICY_ADDRESS V) "VITE_INSURANCE_POLICY_ADDRESS");
  lift getReadProvider ;;
  t ← act (ViewCall policy "policyTemplates" [templateId]);
  coverage ← lift (js_get t "coverageAmount" ≫= λ v, ethers (formatEther E v));
  premium ← lift (js_get t "premiumAmountPerPeriod" ≫= λ v, ethers (formatEther E v));
  period ← lift (js_get t "periodSeconds");
  term ← lift (js_get t "termSeconds");
  active ← lift (js_get t "active");
  mret (VObj [("coverageAmountEther", VStr coverage); ("premiumAmountPerPeriodEther", VStr premium);
              ("periodSeconds", Number period); ("termSeconds", Number term); ("active", active)]).

(** Approve the policy contract for the premium and wait. *)
Definition approve_premium (policy stable premiumAmountEther : string) : Js (Web P) jsval :=
  amountWei ← lift (ethers (parseEther E premiumAmountEther));
  _ ← act (SendTx stable "approve" [VStr policy; VBigInt amountWei]);
  act WaitTx.

Definition subscribeToPolicyOnChain (templateId : jsval) (premiumAmountEther : string) : Js (Web P) (jsval * jsval) :=
  policy ← lift (requireAddress (VITE_INSURANCE_POLICY_ADDRESS V) "VITE_INSURANCE_POLICY_ADDRESS");
  stable ← lift (requireAddress (VITE_STABLECOIN_ADDRESS V) "VITE_STABLECOIN_ADDRESS");
  approveReceipt ← approve_premium policy stable premiumAmountEther;
  _ ← act (SendTx policy "subscribeToPolicy" [templateId]);
  subscribeReceipt ← act WaitTx;
  approveTxHash ← lift (js_get approveReceipt "hash");
  subscribeTxHash ← lift (js_get subscribeReceipt "hash");
  mret (approveTxHash, subscribeTxHash).

Definition payPremiumOnChain (policyId : jsval) (premiumAmountEther : string) : Js (Web P) jsval :=
  policy ← lift (requireAddress (VITE_INSURANCE_POLICY_ADDRESS V) "VITE_INSURANCE_POLICY_ADDRESS");
  stable ← lift (requireAddress (VITE_STABLECOIN_ADDRESS V) "VITE_STABLECOIN_ADDRESS");
  _ ← approve_premium policy stable premiumAmountEther;
  _ ← act (SendTx policy "payPremium" [policyId]);
  wait_hash.

(** [b.toString(16).padStart(2, '0')] of every byte, joined. *)
Definition hex_text (bytes : buffer) : string :=
  foldr (λ b s, padStart 2 "0"%char (toString16 (b2z b)) +:+ s) "" bytes.

Definition generateClaimSalt : Js (Web P) string :=
  bytes ← draw (getRandomValues E); mret ("0x" +:+ hex_text bytes).

Definition placeholderMerkleRoot (claimDescription : string) (salt : string) : outcome string :=
  if bool_decide (salt = "") then
    Throw (JsError "placeholderMerkleRoot requires a salt — call generateClaimSalt() first.")
  else
    descriptionBytes ← ethers (toUtf8Bytes E (if bool_decide (claimDescription = "") then "no-description-provided" else claimDescription));
    saltBytes ← ethers (getBytes E salt);
    Ok (keccak256_concat E [saltBytes; descriptionBytes]).
End web.

(** ** Runs *)
Section runs.
Context {P : Type} (E : WebEnv).

Lemma act_no_fuel a : no_fuel (act (P := P) E a).
Proof. intros w. unfold act. simpl. by destruct (answer E _ a). Qed.
Lemma set_page_no_fuel (f : P → P) : no_fuel (set_page f).
Proof. intros w. done. Qed.
Lemma draw_no_fuel {A} (source : nat → A) : no_fuel (draw (P := P) source).
Proof. intros w. done. Qed.
Lemma ethers_no_fuel {A} (r : A + string) : ethers r ≠ Throw OutOfFuel.
Proof. by destruct r. Qed.

Lemma act_ok a (w : Web P) v w' : act E a w = (Ok v, w') →
  answer E (web_clock w) a = inl v ∧ page w' = page w ∧ randoms w' = randoms w ∧ actions w' = actions w ++ [a].
Proof. unfold act. destruct (answer E _ a); [|done]. intros H. by injection H as <- <-. Qed.
Lemma act_ticks a (w : Web P) : web_clock (act E a w).2 = S (web_clock w).
Proof. done. Qed.
Lemma bind_set_page {B} (f : P → P) (k : unit → Js (Web P) B) (w : Web P) :
  (set_page f ≫= k) w = k tt (mkWeb (f (page w)) (web_clock w) (randoms w) (actions w)).
Proof. done. Qed.
(** What is shown as an error is never blank. *)
Lemma text_truthy s : s ≠ "" → truthy (VStr s) = true.
Proof. intros H. unfold truthy. by rewrite bool_decide_eq_false_2. Qed.
Lemma detail_or_truthy e fallback : fallback ≠ "" → truthy (detail_or E e fallback) = true.
Proof.
  intros Hf. unfold detail_or. destruct (truthy (error_detail E e)) eqn:Ht; [done|by apply text_truthy].
Qed.
Lemma error_text_truthy e fallback : fallback ≠ "" → truthy (error_text E e fallback) = true.
Proof.
  intros Hf. unfold error_text. destruct (truthy (error_detail E e)) eqn:Ht; [done|].
  apply text_truthy. destruct e; simpl; try done; by destruct (bool_decide_reflect (msg = "")) || destruct (bool_decide_reflect (who = "")).
Qed.
Lemma act_run a (w : Web P) : actions (act E a w).2 = actions w ++ [a] ∧ page (act E a w).2 = page w.
Proof. done. Qed.
End runs.
#[export] Hint Resolve act_no_fuel set_page_no_fuel draw_no_fuel ethers_no_fuel : no_fuel.

(** ** Which calls are answered

    A rejected promise ends its [await] with an exception.  The calls of a
    handler that runs alone from tick [n] are made at [n], [n + 1], ... *)
Section answered.
Context (E : WebEnv).

(** Every call of [l] is answered. *)
Definition answered (n : nat) (l : list Action) : Prop := ∀ i a, l !! i = Some a → ∃ v, answer E (n + i) a = inl v.
(** Every call of [l] that is followed by another one is. *)
Definition goes_on (n : nat) (l : list Action) : Prop :=
  ∀ i a, l !! i = Some a → (S i < length l)%nat → ∃ v, answer E (n + i) a = inl v.

Lemma answered_nil n : answered n [].
Proof. by intros i a. Qed.
Lemma answered_app n l l' : answered n (l ++ l') ↔ answered n l ∧ answered (n + length l) l'.
Proof.
  split.
  - intros H. split; intros i a Hi; [by apply H, lookup_app_l_Some|].
    rewrite <-Nat.add_assoc. apply H. rewrite lookup_app_r by lia. by replace (length l + i - length l)%nat with i by lia.
  - intros [H H'] i a [Hi|[Hle Hi]]%lookup_app_Some; [by apply H|].
    destruct (H' _ _ Hi) as [v Hv]. exists v. by replace (n + length l + (i - length l))%nat with (n + i)%nat in Hv by lia.
Qed.
Lemma answered_goes_on n l : answered n l → goes_on n l.
Proof. intros H i a Hi _. by apply H. Qed.
Lemma goes_on_nil n : goes_on n [].
Proof. by intros i a. Qed.
Lemma goes_on_one n a : goes_on n [a].
Proof. intros [|i] b Hb Hi; simpl in *; [lia|done]. Qed.
Lemma goes_on_app n l l' : answered n l → goes_on (n + length l) l' → goes_on n (l ++ l').
Proof.
  intros H H' i a [Hi|[Hle Hi]]%lookup_app_Some Hlt; [by apply H|]. rewrite length_app in Hlt.
  destruct (H' _ _ Hi) as [v Hv]; [lia|]. exists v. by replace (n + length l + (i - length l))%nat with (n + i)%nat in Hv by lia.
Qed.
Lemma goes_on_snoc n l a : answered n l → goes_on n (l ++ [a]).
Proof. intros H. apply goes_on_app; [done|apply goes_on_one]. Qed.
End answered.

(** ** Computations that perform a list of actions, or a first part of it *)
Section performs.
Context {P : Type} (E : WebEnv).

(** The calls made are a first part of [l], none after a rejected one; and all
    of it, every call answered, when the computation returns. *)
Definition performs {A} (l : list Action) (m : Js (Web P) A) : Prop := ∀ w, ∃ new,
  actions (m w).2 = actions w ++ new ∧ web_clock (m w).2 = (web_clock w + length new)%nat ∧
  goes_on E (web_clock w) new ∧ new `prefix_of` l ∧
  ∀ a, (m w).1 = Ok a → new = l ∧ answered E (web_clock w) new.

Lemma performs_quiet {A} (m : Js (Web P) A) :
  (∀ w, actions (m w).2 = actions w ∧ web_clock (m w).2 = web_clock w) → performs [] m.
Proof.
  intros H w. exists []. destruct (H w) as [-> ->]. rewrite app_nil_r, Nat.add_0_r.
  split_and!; [done|done|apply goes_on_nil|done|]. intros a _. split; [done|apply answered_nil].
Qed.
Lemma performs_ret {A} (a : A) : performs [] (mret a).
Proof. by apply performs_quiet. Qed.
Lemma performs_set (f : P → P) : performs [] (set_page f).
Proof. by apply performs_quiet. Qed.
Lemma performs_lift {A} (o : outcome A) : performs [] (lift o).
Proof. by apply performs_quiet. Qed.
Lemma performs_act a : performs [a] (act E a).
Proof.
  intros w. exists [a]. unfold act. cbn. split_and!; [done|lia|apply goes_on_one|done|]. intros v H. split; [done|].
  intros [|i] b Hb; [|done]. injection Hb as <-. rewrite Nat.add_0_r. destruct (answer E (web_clock w) a); [by eexists|done].
Qed.
Lemma performs_throw {A} l e : performs l (throw e : Js (Web P) A).
Proof.
  intros w. exists []. cbn. rewrite app_nil_r, Nat.add_0_r. split_and!; [done|done|apply goes_on_nil|apply prefix_nil|done].
Qed.
Lemma performs_bind {A B} l l' (m : Js (Web P) A) (k : A → Js (Web P) B) :
  performs l m → (∀ a, performs l' (k a)) → performs (l ++ l') (m ≫= k).
Proof.
  intros Hm Hk w. destruct (Hm w) as (new & Hn & Hc & Hg & Hp & Hl). rewrite bind_run.
  destruct (m w) as [[a|e] w1]; cbn [fst snd] in *.
  - destruct (Hl a eq_refl) as [-> Ha]. destruct (Hk a w1) as (new' & Hn' & Hc' & Hg' & Hp' & Hl'). rewrite Hc in Hg', Hl'.
    exists (l ++ new'). rewrite length_app.
    split_and!; [by rewrite Hn', Hn, app_assoc|lia|by apply goes_on_app|by apply prefix_app|].
    intros b Hb. destruct (Hl' b Hb) as [-> Ha']. split; [done|]. by apply answered_app.
  - exists new. split_and!; [done|done|done|by apply prefix_app_r|done].
Qed.
(** A step before which nothing has been sent. *)
Lemma performs_lift_bind {A B} l (o : outcome A) (k : A → Js (Web P) B) :
  (∀ a, o = Ok a → performs l (k a)) → performs l (lift o ≫= k).
Proof. intros Hk w. destruct o as [a|e]; [by apply (Hk a)|by apply (performs_throw l e)]. Qed.
Lemma performs_act_bind {B} l a (k : jsval → Js (Web P) B) :
  (∀ v, performs l (k v)) → performs (a :: l) (act E a ≫= k).
Proof. apply (performs_bind [a] l), performs_act. Qed.

(** The state of the component is left alone. *)
Definition same_page (w w' : Web P) : Prop := page w' = page w.
#[global] Instance same_page_preorder : PreOrder same_page.
Proof. split; [done|]. intros w1 w2 w3. unfold same_page. congruence. Qed.
Lemma act_same_page a : moves same_page (act E a).
Proof. intros w. done. Qed.
End performs.
#[export] Hint Resolve act_same_page : moves.

(** ** The two-step payment *)
Section payment.
Context {P : Type} (E : WebEnv) (V : ViteEnv).

(** Approving [amountWei] for the policy contract and waiting, then calling
    the contract and waiting. *)
Inductive payment (method : string) (arg : jsval) (amountWei : Z) : list Action → Prop :=
  | payment_intro policy stable :
      requireAddress E (VITE_INSURANCE_POLICY_ADDRESS V) "VITE_INSURANCE_POLICY_ADDRESS" = Ok policy →
      requireAddress E (VITE_STABLECOIN_ADDRESS V) "VITE_STABLECOIN_ADDRESS" = Ok stable →
      payment method arg amountWei
        [SendTx stable "approve" [VStr policy; VBigInt amountWei]; WaitTx; SendTx policy method [arg]; WaitTx].

(** [m] makes such a payment, or stops on the way, or sends nothing. *)
Definition pays {A} (method : string) (arg : jsval) (amountWei : Z) (m : Js (Web P) A) : Prop :=
  (∃ l, payment method arg amountWei l ∧ performs E l m) ∨ (∀ l, performs E l m).

Lemma pays_lift_bind {A B} method arg amountWei (o : outcome A) (k : A → Js (Web P) B) :
  (∀ a, o = Ok a → pays method arg amountWei (k a)) → pays method arg amountWei (lift o ≫= k).
Proof.
  destruct o as [a|e]; [intros H; destruct (H a eq_refl) as [(l & Hl & Hp)|Hp]; [left; by exists l|by right]|].
  intros _. right. intros l. apply (performs_throw E l e).
Qed.

Lemma subscribe_pays templateId ether z : parseEther E ether = inl z →
  pays "subscribeToPolicy" templateId z (subscribeToPolicyOnChain (P := P) E V templateId ether).
Proof.
  intros Hz. unfold subscribeToPolicyOnChain. apply pays_lift_bind; intros policy Hp.
  apply pays_lift_bind; intros stable Hs. left. eexists. split; [by constructor|].
  unfold approve_premium. rewrite Hz. apply (performs_bind E [_; _] [_; _]).
  - apply performs_lift_bind; intros z' Hz'. injection Hz' as <-. apply performs_act_bind; intros _. apply performs_act.
  - intros r. apply performs_act_bind; intros _. apply performs_act_bind; intros r'.
    apply performs_lift_bind; intros h _. apply performs_lift_bind; intros h' _. apply performs_ret.
Qed.
Lemma pay_pays policyId ether z : parseEther E ether = inl z →
  pays "payPremium" policyId z (payPremiumOnChain (P := P) E V policyId ether).
Proof.
  intros Hz. unfold payPremiumOnChain. apply pays_lift_bind; intros policy Hp.
  apply pays_lift_bind; intros stable Hs. left. eexists. split; [by constructor|].
  unfold approve_premium, wait_hash. rewrite Hz. apply (performs_bind E [_; _] [_; _]).
  - apply performs_lift_bind; intros z' Hz'. injection Hz' as <-. apply performs_act_bind; intros _. apply performs_act.
  - intros r. apply performs_act_bind; intros _. apply performs_act_bind; intros r'. apply performs_lift.
Qed.

Lemma subscribe_same_page templateId ether : moves same_page (subscribeToPolicyOnChain (P := P) E V templateId ether).
Proof. unfold subscribeToPolicyOnChain, approve_premium. solve_moves. Qed.
Lemma pay_same_page policyId ether : moves same_page (payPremiumOnChain (P := P) E V policyId ether).
Proof. unfold payPremiumOnChain, approve_premium, wait_hash. solve_moves. Qed.
End payment.

(** ** Calls to the contracts *)
Section calls.
Context {P : Type} (E : WebEnv) (V : ViteEnv).

(** The text between the parentheses that open after [method]. *)
Definition declaration (abi : list string) (method : string) : option string :=
  let opening := "function " +:+ method +:+ "(" in
  sig ← head (filter (λ sig, String.prefix opening sig = true) abi);
  let rest := String.substring (String.length opening) (String.length sig) sig in
  head (split ")"%char rest).
Definition arity (abi : list string) (method : string) : option nat :=
  (λ params, length (split ","%char params)) <$> declaration abi method.

(** A call of the contract at the address of this variable: configured, not
    the zero address, declared by the ABI with that many parameters. *)
Definition declared_call (address : option string) (abi : list string) (contract method : string) (args : list jsval) : Prop :=
  address = Some contract ∧ contract ≠ "" ∧ contract ≠ ZeroAddress E ∧ arity abi method = Some (length args).

Definition declared_action (a : Action) : Prop :=
  match a with
  | SendTx c m args | ViewCall c m args =>
      declared_call (VITE_CLAIM_REGISTRY_ADDRESS V) CLAIM_REGISTRY_ABI c m args ∨
      declared_call (VITE_INSURANCE_POLICY_ADDRESS V) INSURANCE_POLICY_ABI c m args ∨
      declared_call (VITE_STABLECOIN_ADDRESS V) ERC20_ABI c m args
  | _ => True
  end.

Definition calls_declared (w w' : Web P) : Prop := ∃ new, actions w' = actions w ++ new ∧ Forall declared_action new.
#[global] Instance calls_declared_preorder : PreOrder calls_declared.
Proof.
  split; [intros w; exists []; by rewrite app_nil_r|].
  intros w1 w2 w3 (n1 & H1 & F1) (n2 & H2 & F2). exists (n1 ++ n2). rewrite H2, H1, app_assoc. split; [done|by apply Forall_app].
Qed.
Lemma act_declared a : declared_action a → moves calls_declared (act (P := P) E a).
Proof. intros Ha w. exists [a]. by rewrite Forall_singleton. Qed.

Lemma requireAddress_ok address name a : requireAddress E address name = Ok a →
  address = Some a ∧ a ≠ "" ∧ a ≠ ZeroAddress E.
Proof. unfold requireAddress. destruct address as [[|c s]|]; try done. case_bool_decide; [done|]. intros [= <-]. done. Qed.

(** The checks of the addresses come first in each of these functions. *)
Ltac declared_call_of H := apply act_declared; apply requireAddress_ok in H as (? & ? & ?); unfold declared_action, declared_call; vm_compute arity; tauto.
Ltac call_step :=
  match goal with
  | |- moves _ (lift (requireAddress _ _ _) ≫= _) => apply moves_bind_lift; [apply _|intros ? ?]
  | H : requireAddress _ _ _ = Ok ?c |- moves _ (act _ (SendTx ?c _ _)) => declared_call_of H
  | H : requireAddress _ _ _ = Ok ?c |- moves _ (act _ (ViewCall ?c _ _)) => declared_call_of H
  | |- moves _ (act _ WaitTx) => by apply act_declared
  | |- _ => moves_step
  end.

Lemma submitClaim_declared id root amount : moves calls_declared (submitClaimOnChain (P := P) E V id root amount).
Proof. unfold submitClaimOnChain, wait_hash. repeat call_step. Qed.
Lemma subscribe_declared id ether : moves calls_declared (subscribeToPolicyOnChain (P := P) E V id ether).
Proof. unfold subscribeToPolicyOnChain, approve_premium. repeat call_step. Qed.
Lemma payPremium_declared id ether : moves calls_declared (payPremiumOnChain (P := P) E V id ether).
Proof. unfold payPremiumOnChain, approve_premium, wait_hash. repeat call_step. Qed.
Lemma getTemplate_declared id : moves calls_declared (getPolicyTemplate (P := P) E V id).
Proof. unfold getPolicyTemplate. repeat call_step. Qed.
End calls.

(** Calls go where they are declared.  Every transaction and every read of
    api/contract.js goes to a configured address that is not the zero
    address, and calls a function that the ABI of that contract declares,
    with as many arguments as it declares. *)
Theorem contract_calls_declared (P : Type) (E : WebEnv) (V : ViteEnv) (id root amount : jsval) (ether : string) (w : Web P) :
  calls_declared E V w (submitClaimOnChain E V id root amount w).2 ∧
  calls_declared E V w (subscribeToPolicyOnChain E V id ether w).2 ∧
  calls_declared E V w (payPremiumOnChain E V id ether w).2 ∧
  calls_declared E V w (getPolicyTemplate E V id w).2.
Proof.
  split_and!; [apply submitClaim_declared|apply subscribe_declared|apply payPremium_declared|apply getTemplate_declared].
Qed.

(** ** Errors on the page *)

(** Error details that can be shown. *)
Definition details_show (E : WebEnv) `{React} : Prop :=
  ∀ e, truthy (error_detail E e) = true → shows (error_detail E e).

Section errors.
Context (E : WebEnv) {R : React} {RL : ReactLaws R} (Hdetails : details_show E).

Lemma detail_error e fallback : error_ok (detail_or E e fallback).
Proof. unfold detail_or. destruct (truthy (error_detail E e)) eqn:H; intros Ht; [by apply Hdetails|apply text_shows]. Qed.
Lemma error_text_error e fallback : error_ok (error_text E e fallback).
Proof. unfold error_text. destruct (truthy (error_detail E e)) eqn:H; intros Ht; [by apply Hdetails|apply text_shows]. Qed.
End errors.
