(* ===== verification/FrontendTasks.v ===== *)
(** * Handlers that give way at their awaits

    [FrontendPages] and [FrontendSession] run a handler in one go.  Here an
    [async] function is a [Task]: what it does up to its next [await], and how
    it goes on with the answer.  [realizes] says that a task, left alone, is
    the function of the other files, and [pool_step] lets any number of
    handlers and effects of a component overlap: between two awaits a handler
    runs to completion, as JavaScript does. *)

From S2P Require Import Prelude JsValue FrontendContract.

(** ** Tasks *)

(** What is left of a handler in flight. *)
Inductive Thread (P : Type) :=
  | Over
  | Setting (f : P → P) (k : Thread P)
  | Awaiting (a : Action) (k : outcome jsval → Thread P).
Arguments Over {P}.
Arguments Setting {P} _ _.
Arguments Awaiting {P} _ _.

(** A function that throws to its first and returns to its second
    continuation. *)
Definition Task (P A : Type) : Type := (exn → Thread P) → (A → Thread P) → Thread P.

#[global] Instance task_ret {P} : MRet (Task P) := λ A a h k, k a.
#[global] Instance task_bind {P} : MBind (Task P) := λ A B m t h k, t h (λ a, m a h k).

Section tasks.
Context {P : Type}.

Definition awaits (a : Action) : Task P jsval := λ h k,
  Awaiting a (λ r, match r with Ok v => k v | Throw e => h e end).
Definition sets (f : P → P) : Task P unit := λ h k, Setting f (k tt).
Definition computes {A} (o : outcome A) : Task P A := λ h k, match o with Ok a => k a | Throw e => h e end.
Definition throws {A} (e : exn) : Task P A := λ h k, h e.
Definition tries {A} (t : Task P A) (handler : exn → Task P A) : Task P A := λ h k,
  t (λ e, match e with OutOfFuel => h e | _ => handler e h k end) k.
(** [finally] with a setter. *)
Definition ends_with {A} (t : Task P A) (f : P → P) : Task P A := λ h k,
  t (λ e, Setting f (h e)) (λ a, Setting f (k a)).

(** Nobody waits for a handler. *)
Definition thread (t : Task P unit) : Thread P := t (λ _, Over) (λ _, Over).
End tasks.

(** ** Running *)
Section running.
Context {P : Type} (E : WebEnv).

Definition after_set (f : P → P) (w : Web P) : Web P := mkWeb (f (page w)) (web_clock w) (randoms w) (actions w).

(** Up to the next await, which is answered now and resumed later. *)
Fixpoint segment (t : Thread P) (w : Web P) : Thread P * Web P :=
  match t with
  | Over => (Over, w)
  | Setting f k => segment k (after_set f w)
  | Awaiting a k => let '(r, w') := act E a w in (k r, w')
  end.
(** To the end, alone. *)
Fixpoint run (t : Thread P) (w : Web P) : Web P :=
  match t with
  | Over => w
  | Setting f k => run k (after_set f w)
  | Awaiting a k => let '(r, w') := act E a w in run (k r) w'
  end.

Lemma run_segment t w : run t w = run (segment t w).1 (segment t w).2.
Proof. revert w. induction t as [|f k IH|a k IH]; intros w; [done|apply IH|done]. Qed.

(** The task does what the function does. *)
Definition realizes {A} (m : Js (Web P) A) (t : Task P A) : Prop := ∀ h k w,
  run (t h k) w = match m w with (Ok a, w') => run (k a) w' | (Throw e, w') => run (h e) w' end.

Lemma realizes_ret {A} (a : A) : realizes (mret a) (mret a).
Proof. done. Qed.
Lemma realizes_throw {A} e : realizes (throw e : Js (Web P) A) (throws e).
Proof. done. Qed.
Lemma realizes_set f : realizes (set_page f) (sets f).
Proof. done. Qed.
Lemma realizes_lift {A} (o : outcome A) : realizes (lift o) (computes o).
Proof. intros h k w. by destruct o. Qed.
Lemma realizes_act a : realizes (act E a) (awaits a).
Proof. intros h k w. unfold act. cbn. by destruct (answer E (web_clock w) a). Qed.
Lemma realizes_bind {A B} (m : Js (Web P) A) (t : Task P A) (k : A → Js (Web P) B) (u : A → Task P B) :
  realizes m t → (∀ a, realizes (k a) (u a)) → realizes (m ≫= k) (t ≫= u).
Proof.
  intros Hm Hk h c w. unfold mbind at 1, task_bind. rewrite (Hm h), bind_run. destruct (m w) as [[a|e] w1]; [apply Hk|done].
Qed.
Lemma realizes_try {A} (m : Js (Web P) A) (t : Task P A) handler handler' :
  realizes m t → (∀ e, realizes (handler e) (handler' e)) → realizes (try_catch m handler) (tries t handler').
Proof.
  intros Hm Hh h k w. unfold tries. rewrite Hm. unfold try_catch. destruct (m w) as [[a|e] w1]; [done|].
  destruct e; try apply Hh. done.
Qed.
Lemma realizes_finally {A} (m : Js (Web P) A) (t : Task P A) f :
  realizes m t → realizes (finally m (set_page f)) (ends_with t f).
Proof. intros Hm h k w. unfold ends_with, finally. rewrite Hm. by destruct (m w) as [[a|e] w1]. Qed.

Lemma realizes_run (m : Js (Web P) unit) (t : Task P unit) w : realizes m t → run (thread t) w = (m w).2.
Proof. intros Hm. unfold thread. rewrite Hm. by destruct (m w) as [[a|e] w1]. Qed.
End running.

Create HintDb tasks discriminated.
#[export] Hint Resolve realizes_ret realizes_throw realizes_set realizes_lift realizes_act realizes_finally : tasks.
#[export] Hint Constants Opaque : tasks.

(** A function and its task have the same shape. *)
Ltac realizes_step :=
  match goal with
  | |- realizes _ (if ?b then _ else _) (if ?b then _ else _) => destruct b
  | |- realizes _ (_ ≫= _) (_ ≫= _) => apply realizes_bind; [|intros ?]
  | |- realizes _ (try_catch _ _) (tries _ _) => apply realizes_try; [|intros ?]
  | |- realizes _ (finally _ _) (ends_with _ _) => apply realizes_finally
  | |- realizes _ _ _ => solve [eauto with tasks]
  end.
Ltac solve_realizes := repeat realizes_step.

(** ** What every setter of a task upholds *)
Section always.
Context {P : Type} (E : WebEnv) (T : P → Prop).

(** The answer to [a] at some time, as an [await] sees it. *)
Definition reply (n : nat) (a : Action) : outcome jsval :=
  match answer E n a with inl v => Ok v | inr m => Throw (ServiceError m) end.

Fixpoint always (t : Thread P) : Prop :=
  match t with
  | Over => True
  | Setting f k => (∀ s, T s → T (f s)) ∧ always k
  | Awaiting a k => ∀ n, always (k (reply n a))
  end.

(** A task, whatever it goes on with. *)
Definition upholds {A} (t : Task P A) : Prop := ∀ h k, (∀ e, always (h e)) → (∀ a, always (k a)) → always (t h k).
(** With what is known of its result. *)
Definition gives {A} (t : Task P A) (Q : A → Prop) : Prop := ∀ h k, (∀ e, always (h e)) → (∀ a, Q a → always (k a)) → always (t h k).

Lemma gives_ret {A} (a : A) (Q : A → Prop) : Q a → gives (mret a) Q.
Proof. intros HQ h k _ Hk. by apply Hk. Qed.
Lemma gives_throw {A} e (Q : A → Prop) : gives (throws e) Q.
Proof. intros h k Hh _. apply Hh. Qed.
Lemma gives_set f : (∀ s, T s → T (f s)) → gives (sets f) (λ _, True).
Proof. intros Hf h k _ Hk. split; [exact Hf|by apply Hk]. Qed.
Lemma gives_lift {A} (o : outcome A) : gives (computes o) (λ a, o = Ok a).
Proof. intros h k Hh Hk. destruct o; [by apply Hk|apply Hh]. Qed.
Lemma gives_await a : gives (awaits a) (λ v, ∃ n, answer E n a = inl v).
Proof.
  intros h k Hh Hk n. unfold reply. destruct (answer E n a) as [v|m] eqn:Hans; [apply Hk; by exists n|apply Hh].
Qed.
Lemma gives_bind {A B} (t : Task P A) (u : A → Task P B) (Q : A → Prop) (R : B → Prop) :
  gives t Q → (∀ a, Q a → gives (u a) R) → gives (t ≫= u) R.
Proof. intros Ht Hu h k Hh Hk. apply Ht; [exact Hh|]. intros a Ha. by apply Hu. Qed.
Lemma gives_try {A} (t : Task P A) handler (Q : A → Prop) :
  gives t Q → (∀ e, gives (handler e) Q) → gives (tries t handler) Q.
Proof. intros Ht Hh h k Hh' Hk. apply Ht; [|done]. intros []; try apply Hh'; by apply Hh. Qed.
Lemma gives_finally {A} (t : Task P A) f (Q : A → Prop) : (∀ s, T s → T (f s)) → gives t Q → gives (ends_with t f) Q.
Proof. intros Hf Ht h k Hh Hk. apply Ht; [intros e; by split|intros a Ha; split; [done|by apply Hk]]. Qed.
Lemma gives_weaken {A} (t : Task P A) (Q R : A → Prop) : gives t Q → (∀ a, Q a → R a) → gives t R.
Proof. intros Ht HQ h k Hh Hk. apply Ht; [done|]. intros a Ha. by apply Hk, HQ. Qed.

Lemma always_thread (t : Task P unit) Q : gives t Q → always (thread t).
Proof. intros Ht. by apply Ht. Qed.
Lemma always_rest t w : always t → always (segment E t w).1.
Proof.
  revert w. induction t as [|f k IH|a k IH]; intros w Ht; [done|apply IH, Ht|]. exact (Ht (web_clock w)).
Qed.
Lemma always_segment t w : always t → T (page w) →
  always (segment E t w).1 ∧ T (page (segment E t w).2).
Proof.
  intros Ht Hw. split; [by apply always_rest|]. revert w Ht Hw. induction t as [|f k IH|a k IH]; intros w Ht Hw; [done| |done].
  destruct Ht as [Hf Hk]. apply IH; [done|]. by apply Hf.
Qed.
End always.

(** A task's thread, spelled out. *)
Ltac unfold_task := unfold thread, mbind, task_bind, mret, task_ret, awaits, sets, computes, throws, tries, ends_with.

(** A setter, an await, a computation: one step of a task. *)
Ltac gives_step :=
  match goal with
  | |- gives _ _ (if ?b then _ else _) _ => destruct b eqn:?
  | |- gives _ _ (_ ≫= _) _ =>
      let a := fresh "a" in let H := fresh "Hret" in eapply gives_bind; [|intros a H; cbv beta in H]
  | |- gives _ _ (sets _) _ => apply gives_set
  | |- gives _ _ (awaits _) _ => first [apply gives_await|eapply gives_weaken; [apply gives_await|done]]
  | |- gives _ _ (computes _) _ => first [apply gives_lift|eapply gives_weaken; [apply gives_lift|done]]
  | |- gives _ _ (throws _) _ => apply gives_throw
  | |- gives _ _ (mret _) _ => apply gives_ret
  | |- gives _ _ (tries _ _) _ => apply gives_try; [|intros ?]
  | |- gives _ _ (ends_with _ _) _ => apply gives_finally
  end.

(** ** A component: its handlers and effects in flight *)

(** The handler of a press of the button for [x], or ([None]) an effect. *)
Record Flight (P X : Type) := mkFlight { pressed : option X; rest : Thread P }.
Arguments mkFlight {P X} _ _.
Arguments pressed {P X} _.
Arguments rest {P X} _.
Definition is_effect {P X} (f : Flight P X) : bool := match pressed f with Some _ => false | None => true end.

(** What was pressed so far, in order. *)
Definition presses {P X} (fs : list (Flight P X)) : list X := omap pressed fs.
Lemma presses_insert {P X} (fs : list (Flight P X)) i f f' : fs !! i = Some f → pressed f' = pressed f →
  presses (<[i := f']> fs) = presses fs.
Proof.
  intros Hi Hf. revert i Hi. induction fs as [|g fs IH]; intros [|i] Hi; try done; unfold presses in *; cbn.
  - injection Hi as ->. by rewrite Hf.
  - specialize (IH i Hi). destruct (pressed g); [by f_equal|done].
Qed.
Lemma presses_snoc {P X} (fs : list (Flight P X)) f :
  presses (fs ++ [f]) = presses fs ++ match pressed f with Some x => [x] | None => [] end.
Proof. unfold presses. rewrite omap_app. cbn. by destruct (pressed f). Qed.

(** No two handlers are in flight. *)
Definition one_in_flight {P X} (fs : list (Flight P X)) : Prop := ∀ i j f g, fs !! i = Some f → fs !! j = Some g →
  is_effect f = false → is_effect g = false → rest f ≠ Over → rest g ≠ Over → i = j.

Section pool.
Context {P X : Type} (E : WebEnv).
(** [offers s x]: what is shown for [s] has an enabled button for [x];
    [task x] its handler; [effects] the loading effects. *)
Context (offers : P → X → Prop) (task : X → Thread P) (effects : Thread P → Prop).

(** A cleaned-up effect ([cancelled]) does nothing any more. *)
Inductive pool_step : list (Flight P X) * Web P → list (Flight P X) * Web P → Prop :=
  | step_press fs w x t w' : offers (page w) x → segment E (task x) w = (t, w') →
      pool_step (fs, w) (fs ++ [mkFlight (Some x) t], w')
  | step_effect fs w t0 t w' : effects t0 → segment E t0 w = (t, w') →
      pool_step (fs, w) (fs ++ [mkFlight None t], w')
  | step_resume fs w i b t t' w' : fs !! i = Some (mkFlight b t) → segment E t w = (t', w') →
      pool_step (fs, w) (<[i := mkFlight b t']> fs, w')
  | step_cleanup fs w i t : fs !! i = Some (mkFlight None t) →
      pool_step (fs, w) (<[i := mkFlight None Over]> fs, w).

(** What was pressed was offered at that time. *)
Lemma presses_offered w0 c : rtc pool_step ([], w0) c →
  Forall (λ x, ∃ d, rtc pool_step ([], w0) d ∧ rtc pool_step d c ∧ offers (page d.2) x) (presses c.1).
Proof.
  intros Hr. revert c Hr. apply rtc_ind_r; [by constructor|]. intros c c' Hr Hstep IH.
  assert (Forall (λ x, ∃ d, rtc pool_step ([], w0) d ∧ rtc pool_step d c' ∧ offers (page d.2) x) (presses c.1)) as IH'.
  { eapply Forall_impl; [exact IH|]. intros x (d & H0 & H1 & Hx). exists d. split_and!; [done|by eapply rtc_r|done]. }
  clear IH. destruct Hstep as [fs w x t w' Hx Hs|fs w t0 t w' He Hs|fs w i b t t' w' Hi Hs|fs w i t Hi]; cbn [fst] in *.
  - rewrite presses_snoc. apply Forall_app. split; [done|]. apply Forall_singleton. exists (fs, w).
    split_and!; [done|by eapply rtc_once, step_press|done].
  - rewrite presses_snoc. apply Forall_app. by split; [|constructor].
  - by rewrite (presses_insert fs i _ (mkFlight b t') Hi).
  - by rewrite (presses_insert fs i _ (mkFlight None Over) Hi).
Qed.

(** A typed state stays typed at every await. *)
Definition pool_typed (T : P → Prop) (c : list (Flight P X) * Web P) : Prop :=
  Forall (λ f, always E T (rest f)) c.1 ∧ T (page c.2).

Section typed.
Context (T : P → Prop).
Context (Htask : ∀ s x, T s → offers s x → always E T (task x)) (Heffects : ∀ t, effects t → always E T t).

Lemma pool_step_typed c c' : pool_step c c' → pool_typed T c → pool_typed T c'.
Proof.
  intros Hstep [Hfs Hw]. destruct Hstep as [fs w x t w' Hx Hs|fs w t0 t w' He Hs|fs w i b t t' w' Hi Hs|fs w i t Hi]; cbn in *.
  - destruct (always_segment E T (task x) w) as [Ht Hw']; [by eapply Htask|done|]. rewrite Hs in Ht, Hw'.
    split; [by apply Forall_app; split; [|apply Forall_singleton]|done].
  - destruct (always_segment E T t0 w) as [Ht Hw']; [by apply Heffects|done|]. rewrite Hs in Ht, Hw'.
    split; [by apply Forall_app; split; [|apply Forall_singleton]|done].
  - destruct (always_segment E T t w) as [Ht Hw']; [by apply (Forall_lookup_1 _ _ _ _ Hfs Hi)|done|].
    rewrite Hs in Ht, Hw'. split; [by apply Forall_insert|done].
  - split; [by apply Forall_insert|done].
Qed.
Lemma pool_rtc_typed c c' : rtc pool_step c c' → pool_typed T c → pool_typed T c'.
Proof. induction 1; [done|]. intros Hc. by apply IHrtc, (pool_step_typed x). Qed.
Lemma pool_reach_typed w fs w' : rtc pool_step ([], w) (fs, w') → T (page w) → T (page w').
Proof. intros Hr Hw. by apply (pool_rtc_typed _ _ Hr). Qed.
End typed.

(** The same for what is in flight, whatever the state. *)
Lemma pool_reach_always T w fs w' : (∀ x, always E T (task x)) → (∀ t, effects t → always E T t) →
  rtc pool_step ([], w) (fs, w') → Forall (λ f, always E T (rest f)) fs.
Proof.
  intros Htask Heffects Hr. change fs with (fs, w').1. assert (Forall (λ f, always E T (rest f)) (([] : list (Flight P X)), w).1) as H0 by done.
  revert H0. induction Hr as [c|c1 c2 c3 Hstep _ IH]; [done|]. intros Hfs. apply IH. clear IH.
  destruct Hstep as [fs1 w1 x t w2 Hx Hs|fs1 w1 t0 t w2 He Hs|fs1 w1 i b t t' w2 Hi Hs|fs1 w1 i t Hi]; cbn in *.
  - pose proof (always_rest E T (task x) w1 (Htask x)) as Ht. rewrite Hs in Ht. by apply Forall_app; split; [|apply Forall_singleton].
  - pose proof (always_rest E T t0 w1 (Heffects t0 He)) as Ht. rewrite Hs in Ht. by apply Forall_app; split; [|apply Forall_singleton].
  - pose proof (always_rest E T t w1 (Forall_lookup_1 _ _ _ _ Hfs Hi)) as Ht. rewrite Hs in Ht. by apply Forall_insert.
  - by apply Forall_insert.
Qed.

(** The moves a component can make, computed. *)
Definition launch (b : option X) (t : Thread P) (c : list (Flight P X) * Web P) : list (Flight P X) * Web P :=
  let '(t', w') := segment E t c.2 in (c.1 ++ [mkFlight b t'], w').
Definition resume (i : nat) (c : list (Flight P X) * Web P) : list (Flight P X) * Web P :=
  match c.1 !! i with
  | Some (mkFlight b t) => let '(t', w') := segment E t c.2 in (<[i := mkFlight b t']> c.1, w')
  | None => c
  end.
Lemma launch_effect t c : effects t → pool_step c (launch None t c).
Proof. intros He. destruct c as [fs w]. unfold launch. destruct (segment E t _) as [t' w'] eqn:Hs. by eapply step_effect. Qed.
Lemma launch_press x c : offers (page c.2) x → pool_step c (launch (Some x) (task x) c).
Proof. intros Hx. destruct c as [fs w]. unfold launch. destruct (segment E (task x) _) as [t' w'] eqn:Hs. by eapply step_press. Qed.
Lemma resume_reach i c : rtc pool_step c (resume i c).
Proof.
  destruct c as [fs w]. unfold resume. cbn. destruct (fs !! i) as [[b t]|] eqn:Hi; [|done].
  destruct (segment E t w) as [t' w'] eqn:Hs. apply rtc_once. by eapply step_resume.
Qed.
End pool.

(** ** One handler at a time

    A component whose button is disabled while [busy]: every handler makes it
    busy before its first await and frees it with its last setter.  Then the
    calls [mine] (those that are no loading request) of the component's whole
    life are those of one attempt after the other, one per press, each some
    [part] of what that press may send; and what is [shown] as a result is
    that of a [whole] one. *)

(** A call and its answer. *)
Definition Call : Type := Action * outcome jsval.
Definition call_ok (c : Call) : bool := match c.2 with Ok _ => true | Throw _ => false end.
Definition all_ok (l : list Call) : Prop := forallb call_ok l = true.
(** No call follows one that was rejected. *)
Definition stops_at_failure (l : list Call) : Prop := forallb call_ok (removelast l) = true.

Section one_at_a_time.
Context {P X : Type} (E : WebEnv) (offers : P → X → Prop) (task : X → Thread P) (effects : Thread P → Prop).
Context (busy : P → bool) (shown : P → jsval) (mine : Action → bool).
Context (part : X → list Call → Prop) (whole : X → list Call → jsval → Prop).
Context (Hmax : ∀ x l v c, whole x l v → ¬ part x (l ++ [c])).
(** The component's first tick. *)
Context (c0 : nat).

(** Busy until the very last setter. *)
Fixpoint guarded (t : Thread P) : Prop :=
  match t with
  | Over => False
  | Setting f k => match k with Over => ∀ s, busy (f s) = false | _ => (∀ s, busy (f s) = busy s) ∧ guarded k end
  | Awaiting a k => ∀ r, guarded (k r)
  end.
(** What is sent and shown by the rest of an attempt for [x] that made the
    calls [l]. *)
Fixpoint proceeds (x : X) (l : list Call) (t : Thread P) : Prop :=
  match t with
  | Over => True
  | Setting f k => ((∀ s, shown (f s) = shown s) ∨ (∀ s, whole x l (shown (f s)))) ∧ proceeds x l k
  | Awaiting a k => mine a = true ∧ (∀ r, part x (l ++ [(a, r)])) ∧ ∀ r, proceeds x (l ++ [(a, r)]) (k r)
  end.
(** The setters before the first await. *)
Inductive opens (x : X) : Thread P → Prop :=
  | opens_keep f k : (∀ s, shown (f s) = shown s ∨ shown (f s) = VNull) → opens x k → opens x (Setting f k)
  | opens_busy f k : (∀ s, busy (f s) = true) → (∀ s, shown (f s) = shown s) → guarded k → proceeds x [] k →
      opens x (Setting f k).
(** A loading effect leaves the button, the result and these calls alone. *)
Fixpoint stays_out (t : Thread P) : Prop :=
  match t with
  | Over => True
  | Setting f k => (∀ s, busy (f s) = busy s ∧ shown (f s) = shown s) ∧ stays_out k
  | Awaiting a k => mine a = false ∧ ∀ r, stays_out (k r)
  end.

(** The calls so far with their answers: the [i]-th is made at the [i]-th
    tick. *)
Definition transcript (l : list Action) : list Call := imap (λ i a, (a, reply E (c0 + i) a)) l.
Definition sent_calls (w : Web P) : list Call := filter (λ c, mine c.1 = true) (transcript (actions w)).
Definition clocked (w : Web P) : Prop := web_clock w = (c0 + length (actions w))%nat.
Definition result_ok (w : Web P) (past : list (X * list Call)) : Prop :=
  shown (page w) = VNull ∨ Exists (λ at_, whole at_.1 at_.2 (shown (page w))) past.

Lemma sent_calls_act a (w : Web P) : clocked w →
  sent_calls (act E a w).2 = sent_calls w ++ (if mine a then [(a, reply E (web_clock w) a)] else []).
Proof.
  intros Hw. unfold sent_calls, transcript, act. cbn. rewrite imap_app, filter_app. cbn [imap].
  rewrite filter_cons, filter_nil, Nat.add_0_r, <-Hw. cbn. by destruct (mine a).
Qed.
Lemma clocked_act a (w : Web P) : clocked w → clocked (act E a w).2.
Proof. unfold clocked, act. cbn. rewrite length_app. cbn. lia. Qed.

Lemma stays_out_segment t w : stays_out t → clocked w → let '(t', w') := segment E t w in
  stays_out t' ∧ clocked w' ∧ busy (page w') = busy (page w) ∧ shown (page w') = shown (page w) ∧
  sent_calls w' = sent_calls w.
Proof.
  revert w. induction t as [|f k IH|a k _]; intros w Ht Hw; [done| |].
  - destruct Ht as [Hf Hk]. specialize (IH (after_set f w) Hk Hw). cbn.
    destruct (segment E k (after_set f w)) as [t' w']. destruct IH as (? & ? & Hb & Hs & ?), (Hf (page w)) as [Hb' Hs'].
    cbn in Hb, Hs. split_and!; [done|done|congruence|congruence|done].
  - destruct Ht as [Hm Hk]. pose proof (sent_calls_act a w Hw) as Hc. pose proof (clocked_act a w Hw) as Hw'.
    rewrite Hm, app_nil_r in Hc. unfold segment. cbn in *. by split_and!.
Qed.

(** What a segment of an open attempt does. *)
Lemma guarded_segment x l t w past : guarded t → proceeds x l t → clocked w → busy (page w) = true →
  result_ok w (past ++ [(x, l)]) → part x l → let '(t', w') := segment E t w in
  clocked w' ∧ ∃ new, sent_calls w' = sent_calls w ++ new ∧ part x (l ++ new) ∧
  result_ok w' (past ++ [(x, l ++ new)]) ∧
  (t' = Over ∧ busy (page w') = false ∨ guarded t' ∧ proceeds x (l ++ new) t' ∧ busy (page w') = true).
Proof.
  revert w. induction t as [|f k IH|a k _]; intros w Hg Hp Hw Hb Hr Hl; [done| |].
  - destruct Hp as [Hf Hp].
    assert (result_ok (after_set f w) (past ++ [(x, l)])) as Hr'.
    { destruct Hf as [Hf|Hf]; [by unfold result_ok in *; cbn; rewrite Hf|].
      right. apply Exists_app. right. constructor. apply Hf. }
    assert (k = Over ∧ (∀ s, busy (f s) = false) ∨ (∀ s, busy (f s) = busy s) ∧ guarded k) as [[-> Hk]|[Hk Hgk]]
      by (destruct k; auto).
    + cbn. split; [done|]. exists []. rewrite !app_nil_r. split_and!; [done|done|done|left; split; [done|apply Hk]].
    + apply (IH (after_set f w)); try done. cbn. by rewrite Hk.
  - destruct Hp as (Hm & Hpart & Hk). pose proof (sent_calls_act a w Hw) as Hc. rewrite Hm in Hc.
    split; [by apply clocked_act|]. exists [(a, reply E (web_clock w) a)].
    split_and!; [exact Hc|apply Hpart| |right; split_and!; [apply Hg|apply Hk|done]].
    destruct Hr as [Hr|Hr]; [by left|right]. apply Exists_app in Hr as [Hr|Hr]; [apply Exists_app; by left|].
    apply Exists_cons in Hr as [Hr|Hr]; [by apply (Hmax _ _ _ (a, Throw OutOfFuel) Hr) in Hpart|by apply Exists_nil in Hr].
Qed.

Lemma opens_segment x t w past : opens x t → part x [] → clocked w → result_ok w past →
  let '(t', w') := segment E t w in clocked w' ∧ ∃ new, sent_calls w' = sent_calls w ++ new ∧ part x new ∧
  result_ok w' (past ++ [(x, new)]) ∧
  (t' = Over ∧ busy (page w') = false ∨ guarded t' ∧ proceeds x new t' ∧ busy (page w') = true).
Proof.
  intros Ho. revert w. induction Ho as [f k Hf _ IH|f k Hb Hf Hg Hp]; intros w Hl Hw Hr.
  - apply (IH (after_set f w)); [done|done|]. destruct (Hf (page w)) as [H|H]; [|by left].
    unfold result_ok in *. cbn. by rewrite H.
  - apply (guarded_segment x [] k (after_set f w) past); try done; [apply Hb|].
    unfold result_ok in *. cbn. rewrite Hf. destruct Hr as [Hr|Hr]; [by left|right; apply Exists_app; by left].
Qed.

(** The attempts so far, and the one in flight if there is one. *)
Definition idle (f : Flight P X) : Prop := is_effect f = false → rest f = Over.
Record line_ok (past : list (X * list Call)) (fs : list (Flight P X)) (w : Web P) : Prop := {
  line_clock : clocked w;
  line_sent : sent_calls w = concat past.*2;
  line_presses : presses fs = past.*1;
  line_parts : Forall (λ at_, part at_.1 at_.2) past;
  line_result : result_ok w past;
  line_effects : Forall (λ f, is_effect f = true → stays_out (rest f)) fs;
  line_flight : (Forall idle fs ∧ busy (page w) = false) ∨
    ∃ past0 i x l t, past = past0 ++ [(x, l)] ∧ fs !! i = Some (mkFlight (Some x) t) ∧ guarded t ∧ proceeds x l t ∧
      busy (page w) = true ∧ ∀ j f, j ≠ i → fs !! j = Some f → idle f;
}.

Lemma line_parts_app past x l : Forall (λ at_, part at_.1 at_.2) past → part x l →
  Forall (λ at_, part at_.1 at_.2) (past ++ [(x, l)]).
Proof. intros Hp Hl. apply Forall_app. split; [done|]. by apply Forall_singleton. Qed.
Lemma concat_app_one past (x : X) (l : list Call) : concat (past ++ [(x, l)]).*2 = concat past.*2 ++ l.
Proof. rewrite fmap_app, concat_app. cbn. by rewrite app_nil_r. Qed.

(** The state after a step that changes neither button, result nor calls. *)
Lemma line_same past fs fs' w w' : line_ok past fs w → clocked w' → presses fs' = presses fs →
  busy (page w') = busy (page w) → shown (page w') = shown (page w) → sent_calls w' = sent_calls w →
  Forall (λ f, is_effect f = true → stays_out (rest f)) fs' →
  (∀ i f, fs !! i = Some f → is_effect f = false → fs' !! i = Some f) →
  (∀ i f, fs' !! i = Some f → is_effect f = false → fs !! i = Some f ∨ rest f = Over) → line_ok past fs' w'.
Proof.
  intros [_ H1 H0 H2 H3 _ H5] Hw Hps Hb Hs Hc He Hkeep Hback. split; [done|by rewrite Hc|by rewrite Hps|done| |done|].
  { unfold result_ok. by rewrite Hs. }
  destruct H5 as [[Hidle Hf]|(past0 & i & x & l & t & -> & Hi & Hg & Hp & Hf & Ho)].
  - left. split; [|by rewrite Hb]. apply Forall_lookup. intros i f Hi Hh.
    destruct (Hback i f Hi Hh) as [Hi'|]; [|done]. by apply (Forall_lookup_1 _ _ _ _ Hidle Hi').
  - right. exists past0, i, x, l, t. split_and!; try done; [by apply Hkeep|by rewrite Hb|].
    intros j f Hj Hjf Hh. destruct (Hback j f Hjf Hh) as [Hj'|]; [|done]. by apply (Ho j f).
Qed.

Context (T : P → Prop) (Htask : ∀ s x, T s → offers s x → always E T (task x)) (Heffects : ∀ t, effects t → always E T t).
Context (Hopens : ∀ s x, T s → offers s x → busy s = false ∧ opens x (task x) ∧ part x []) (Hout : ∀ t, effects t → stays_out t).

Lemma line_press past fs w x t w' : line_ok past fs w → T (page w) → offers (page w) x → segment E (task x) w = (t, w') →
  ∃ new, line_ok (past ++ [(x, new)]) (fs ++ [mkFlight (Some x) t]) w'.
Proof.
  intros [Hw H1 H0 H2 H3 H4 H5] HT Hx Hs. destruct (Hopens _ _ HT Hx) as (Hb & Ho & Hl).
  destruct H5 as [[Hidle _]|(? & ? & ? & ? & ? & _ & _ & _ & _ & Hbusy & _)]; [|congruence].
  pose proof (opens_segment x (task x) w past Ho Hl Hw H3) as Hseg. rewrite Hs in Hseg.
  destruct Hseg as (Hw' & new & Hc & Hpart & Hr & Hend). exists new. split.
  - done.
  - by rewrite Hc, H1, concat_app_one.
  - by rewrite presses_snoc, H0, fmap_app.
  - by apply line_parts_app.
  - done.
  - apply Forall_app. split; [done|]. by apply Forall_singleton.
  - destruct Hend as [[-> Hbw]|(Hg & Hp & Hbw)].
    + left. split; [|done]. apply Forall_app. split; [done|]. by apply Forall_singleton.
    + right. exists past, (length fs), x, new, t. split_and!; try done; [by rewrite lookup_app_r, Nat.sub_diag|].
      intros j f Hj [Hf|[Hge Hf]]%lookup_app_Some; [by apply (Forall_lookup_1 _ _ _ _ Hidle Hf)|].
      apply list_lookup_singleton_Some in Hf as [Hz _]. lia.
Qed.

Lemma line_resume past fs w i x t t' w' : line_ok past fs w → fs !! i = Some (mkFlight (Some x) t) → segment E t w = (t', w') →
  ∃ past', line_ok past' (<[i := mkFlight (Some x) t']> fs) w'.
Proof.
  intros Hok Hi Hs. destruct (Hok) as [Hw H1 H0 H2 H3 H4 H5].
  assert (Forall (λ f, is_effect f = true → stays_out (rest f)) (<[i := mkFlight (Some x) t']> fs)) as H4' by (by apply Forall_insert).
  assert (t = Over → ∃ past', line_ok past' (<[i := mkFlight (Some x) t']> fs) w') as Hover.
  { intros ->. injection Hs as <- <-. exists past. by rewrite list_insert_id. }
  destruct H5 as [[Hidle _]|(past0 & j & x' & l & u & -> & Hj & Hg & Hp & Hb & Ho)].
  { apply Hover. by apply (Forall_lookup_1 _ _ _ _ Hidle Hi). }
  destruct (decide (i = j)) as [->|Hne]; [|apply Hover; by apply (Ho i _ Hne Hi)].
  rewrite Hi in Hj. injection Hj as <- <-.
  apply Forall_app in H2 as [H2 Hl]. rewrite Forall_singleton in Hl. pose proof (guarded_segment x l t w past0 Hg Hp Hw Hb H3 Hl) as Hseg.
  rewrite Hs in Hseg. destruct Hseg as (Hw' & new & Hc & Hpart & Hr & Hend). exists (past0 ++ [(x, l ++ new)]). split; try done.
  - by rewrite Hc, H1, !concat_app_one, app_assoc.
  - by rewrite (presses_insert fs j _ (mkFlight (Some x) t') Hi), H0, !fmap_app.
  - by apply line_parts_app.
  - destruct Hend as [[-> Hbw]|(Hg' & Hp' & Hbw)].
    + left. split; [|done]. apply Forall_lookup. intros k f [(-> & <- & _)|[Hk Hf]]%list_lookup_insert_Some; [done|by apply (Ho k f)].
    + right. exists past0, j, x, (l ++ new), t'. split_and!; try done; [|intros k f Hk Hf].
      * apply list_lookup_insert_eq. by eapply lookup_lt_Some.
      * apply list_lookup_insert_Some in Hf as [(-> & _)|[_ Hf]]; [done|by apply (Ho k f)].
Qed.

Lemma line_step past c c' : pool_step E offers task effects c c' → T (page c.2) → line_ok past c.1 c.2 → ∃ past', line_ok past' c'.1 c'.2.
Proof.
  intros [fs w x t w' Hx Hs|fs w t0 t w' He Hs|fs w i [x|] t t' w' Hi Hs|fs w i t Hi] HT Hok; cbn [fst snd] in *.
  - destruct (line_press past fs w x t w' Hok HT Hx Hs) as [new Hn]. by eexists.
  - pose proof (stays_out_segment t0 w (Hout _ He) (line_clock _ _ _ Hok)) as Ho. rewrite Hs in Ho. destruct Ho as (Ht & Hw' & Hb & Hsh & Hc).
    exists past. apply (line_same past fs _ w); try done.
    + by rewrite presses_snoc, app_nil_r.
    + apply Forall_app. split; [apply Hok|]. by apply Forall_singleton.
    + intros i f Hf _. by apply lookup_app_l_Some.
    + intros i f [Hf|[_ Hf]]%lookup_app_Some Hh; [by left|]. apply list_lookup_singleton_Some in Hf as [_ <-]. done.
  - by eapply line_resume.
  - assert (stays_out t) as Ht by (by apply (Forall_lookup_1 _ _ _ _ (line_effects _ _ _ Hok) Hi)).
    pose proof (stays_out_segment t w Ht (line_clock _ _ _ Hok)) as Ho. rewrite Hs in Ho. destruct Ho as (Ht' & Hw' & Hb & Hsh & Hc).
    exists past. apply (line_same past fs _ w); try done;
      [by rewrite (presses_insert fs i _ (mkFlight None t') Hi)|apply Forall_insert; [apply Hok|done]|intros j f Hf Hh..].
    + rewrite list_lookup_insert_ne; [done|]. intros ->. rewrite Hi in Hf. by injection Hf as <-.
    + apply list_lookup_insert_Some in Hf as [(-> & <- & _)|[_ Hf]]; [done|by left].
  - exists past. apply (line_same past fs _ w); try done;
      [apply Hok|by rewrite (presses_insert fs i _ (mkFlight None Over) Hi)|apply Forall_insert; [apply Hok|done]|intros j f Hf Hh..].
    + rewrite list_lookup_insert_ne; [done|]. intros ->. rewrite Hi in Hf. by injection Hf as <-.
    + apply list_lookup_insert_Some in Hf as [(-> & <- & _)|[_ Hf]]; [done|by left].
Qed.

(** Over the whole life of the component. *)
Lemma line_rtc c c' : rtc (pool_step E offers task effects) c c' → pool_typed E T c → (∃ past, line_ok past c.1 c.2) →
  ∃ past, line_ok past c'.1 c'.2.
Proof.
  induction 1 as [c|c1 c2 c3 Hstep _ IH]; [done|]. intros HT [past Hok].
  apply IH; [by eapply pool_step_typed|]. eapply line_step; [exact Hstep|apply HT|exact Hok].
Qed.
Lemma line_reach w0 fs w : rtc (pool_step E offers task effects) ([], w0) (fs, w) →
  T (page w0) → busy (page w0) = false → shown (page w0) = VNull → actions w0 = [] → web_clock w0 = c0 → ∃ past, line_ok past fs w.
Proof.
  intros Hr HT Hb Hs Ha Hc. apply (line_rtc _ _ Hr); [by split|]. exists []. unfold clocked, sent_calls.
  split; cbn; unfold clocked, sent_calls; rewrite ?Ha; [cbn; lia|done|done|done|by left|done|left; by split].
Qed.
Lemma line_one past fs w : line_ok past fs w → one_in_flight fs.
Proof.
  intros [_ _ _ _ _ _ [[Hidle _]|(past0 & k & x & l & t & _ & _ & _ & _ & _ & Ho)]] i j f g Hi Hj Hf Hg Hnf Hng.
  - by destruct (Forall_lookup_1 _ _ _ _ Hidle Hi Hf).
  - destruct (decide (i = k)) as [->|Hik]; [|by destruct (Ho i f Hik Hi Hf)].
    destruct (decide (j = k)) as [->|Hjk]; [done|by destruct (Ho j g Hjk Hj Hg)].
Qed.
End one_at_a_time.
