(* ===== verification/FrontendSession.v ===== *)
(** * frontend/src: useWallet.js, AuthContext.jsx and what depends on them

    The wallet connection and the login, over the state of the provider
    component.  [account] given to [login] is the one of the render whose
    button was pressed. *)

From S2P Require Import Prelude JsValue JsText Buffer FrontendContract.

Record Session := mkSession {
  account : jsval;
  walletError : jsval;
  token : jsval;
  loginError : jsval;
  loggingIn : bool;
}.

Definition set_account v s := mkSession v (walletError s) (token s) (loginError s) (loggingIn s).
Definition set_walletError v s := mkSession (account s) v (token s) (loginError s) (loggingIn s).
Definition set_token v s := mkSession (account s) (walletError s) v (loginError s) (loggingIn s).
Definition set_loginError v s := mkSession (account s) (walletError s) (token s) v (loggingIn s).
Definition set_loggingIn v s := mkSession (account s) (walletError s) (token s) (loginError s) v.

(** [v[0]] *)
Definition first_of (v : jsval) : outcome jsval :=
  match v with
  | VUndef | VNull => Throw (TypeError "Cannot read properties (reading '0')")
  | VArr l => Ok (default VUndef (head l))
  | VStr s => Ok (match s with String c _ => VStr (String c "") | _ => VUndef end)
  | VObj fs => Ok (default VUndef (assoc "0" fs))
  | _ => Ok VUndef
  end.

Section session.
Context (E : WebEnv) (ethereum : bool).   (** [window.ethereum] is there *)

(** ** hooks/useWallet.js *)
Definition connect : Js (Web Session) jsval :=
  set_page (set_walletError VNull) ;;
  if negb ethereum then
    set_page (set_walletError (VStr "No wallet extension detected (e.g. MetaMask).")) ;; mret VNull
  else try_catch (
    accounts ← act E RequestAccounts;
    a ← lift (first_of accounts);
    set_page (set_account a) ;; mret a)
  (λ err, set_page (set_walletError (VStr (error_message err "Wallet connection was rejected."))) ;; mret VNull).

Definition getSigner : Js (Web Session) jsval :=
  if negb ethereum then throw (JsError "No wallet extension detected.") else act E GetSigner.

Definition signMessage (message : jsval) : Js (Web Session) jsval :=
  _ ← getSigner;
  try_catch (act E (SignText message))
    (λ err, throw (JsError (error_message err "Signature request was rejected."))).

(** ** context/AuthContext.jsx *)

(** The [try] block of [login]. *)
Definition login_try (render_account : jsval) : Js (Web Session) unit :=
  address ← (if truthy render_account then mret render_account else connect);
  if negb (truthy address) then throw (JsError "Wallet not connected.")
  else
    nonceRes ← getNonce E address;
    data ← lift (js_get nonceRes "data");
    message ← lift (js_get data "message");
    signature ← signMessage message;
    loginRes ← loginWallet E address signature;
    loginData ← lift (js_get loginRes "data");
    access ← lift (js_get loginData "access_token");
    set_page (set_token access).

Definition login (render_account : jsval) : Js (Web Session) unit :=
  set_page (set_loginError VNull) ;;
  set_page (set_loggingIn true) ;;
  finally
    (try_catch (login_try render_account)
       (λ err, set_page (set_loginError (error_text E err "Login failed.")) ;;
               set_page (set_token VNull)))
    (set_page (set_loggingIn false)).

Definition logout : Js (Web Session) unit := set_page (set_token VNull).

Definition isAuthenticated (s : Session) : bool := truthy (token s).
End session.

(** ** The context *)

(** The [value] of [AuthContext.Provider], without its two functions. *)
Record Auth := mkAuth {
  auth_account : jsval;
  auth_token : jsval;
  auth_isAuthenticated : bool;
  auth_loginError : jsval;
  auth_loggingIn : bool;
  auth_walletError : jsval;
}.
Definition AuthProvider (s : Session) : Auth := mkAuth (account s) (token s) (isAuthenticated s) (loginError s)
  (loggingIn s) (walletError s).

(** The context where a component is used: [null] outside any provider. *)
Definition useAuth (ctx : option Auth) : outcome Auth :=
  match ctx with Some auth => Ok auth | None => Throw (JsError "useAuth must be used within AuthProvider") end.

(** ** App.jsx: [RequireAuth] *)
Definition RequireAuth {A} (ctx : option Auth) (children : A) : outcome (option A) :=
  auth ← useAuth ctx; Ok (if auth_isAuthenticated auth then Some children else None).

(** ** Logging in *)
Section login_runs.
Context (E : WebEnv) (ethereum : bool).

Lemma first_of_no_fuel v : first_of v ≠ Throw OutOfFuel.
Proof. by destruct v. Qed.
Lemma connect_no_fuel : no_fuel (connect E ethereum).
Proof. pose proof first_of_no_fuel. unfold connect. solve_no_fuel. Qed.
Lemma login_try_no_fuel a : no_fuel (login_try E ethereum a).
Proof.
  pose proof connect_no_fuel. unfold login_try, signMessage, getSigner, getNonce, loginWallet. solve_no_fuel.
Qed.

Lemma connect_ok w a w' : connect E ethereum w = (Ok a, w') → truthy a = true →
  loginError (page w') = loginError (page w) ∧ actions w' = actions w ++ [RequestAccounts] ∧ account (page w') = a.
Proof.
  unfold connect, set_page. rewrite bind_modify. destruct ethereum; cbn [negb].
  2: { rewrite bind_modify. intros H. by injection H as <- <-. }
  intros H Ht. apply try_catch_ok in H as [H|(e & w1 & _ & H)].
  - apply bind_ok_inv in H as (accounts & w1 & (_ & Hp & _ & Ha)%act_ok & H).
    apply bind_ok_inv in H as (b & w2 & [_ ->]%lift_ok & H). rewrite bind_modify in H. injection H as -> <-.
    simpl. by rewrite Hp, Ha.
  - rewrite bind_modify in H. by injection H as <- <-.
Qed.

(** The exchange that ends with a token. *)
Definition exchange (address message signature access : jsval) : Prop :=
  truthy address = true ∧ (∃ n r data, answer E n (HttpGet "/auth/nonce" (VObj [("address", address)]) None) = inl r ∧
    js_get r "data" = Ok data ∧ js_get data "message" = Ok message) ∧
  (∃ n, answer E n (SignText message) = inl signature) ∧
  ∃ n r data, answer E n (HttpPost "/auth/wallet" (VObj [("address", address); ("signature", signature)]) None None) = inl r ∧
    js_get r "data" = Ok data ∧ js_get data "access_token" = Ok access.

Definition exchange_actions (address message signature : jsval) : list Action :=
  [HttpGet "/auth/nonce" (VObj [("address", address)]) None; GetSigner; SignText message;
   HttpPost "/auth/wallet" (VObj [("address", address); ("signature", signature)]) None None].

Lemma signMessage_ok m w s w' : signMessage E ethereum m w = (Ok s, w') →
  (∃ n, answer E n (SignText m) = inl s) ∧ page w' = page w ∧ actions w' = actions w ++ [GetSigner; SignText m].
Proof.
  unfold signMessage, getSigner. intros H. destruct ethereum; cbn [negb] in H.
  2: { by apply bind_ok_inv in H as (? & ? & ? & _). }
  apply bind_ok_inv in H as (x & w1 & (_ & Hp & _ & Ha)%act_ok & H).
  apply try_catch_ok in H as [(Hs & Hp' & _ & Ha')%act_ok|(e & w2 & _ & H)]; [|done].
  split_and!; [eauto|congruence|by rewrite Ha', Ha, <-app_assoc].
Qed.

Lemma login_try_ok a w w' : login_try E ethereum a w = (Ok tt, w') →
  ∃ address message signature access pre, exchange address message signature access ∧
    actions w' = actions w ++ pre ++ exchange_actions address message signature ∧
    (if truthy a then pre = [] ∧ address = a else pre = [RequestAccounts]) ∧
    token (page w') = access ∧ loginError (page w') = loginError (page w) ∧
    account (page w') = (if truthy a then account (page w) else address).
Proof.
  unfold login_try. intros H. apply bind_ok_inv in H as (address & w1 & H1 & H).
  destruct (truthy address) eqn:Ht; cbn [negb] in H; [|done].
  assert (∃ pre, (if truthy a then pre = [] ∧ address = a else pre = [RequestAccounts]) ∧
    actions w1 = actions w ++ pre ∧ loginError (page w1) = loginError (page w) ∧
    account (page w1) = (if truthy a then account (page w) else address)) as (pre & Hpre & Hw1 & He & Hacct).
  { destruct (truthy a).
    - injection H1 as <- <-. exists []. by rewrite app_nil_r.
    - apply connect_ok in H1 as (He & Ha & Hacct); [|done]. by exists [RequestAccounts]. }
  apply bind_ok_inv in H as (r & w2 & (Hr & Hp2 & _ & Ha2)%act_ok & H).
  apply bind_ok_inv in H as (d & w3 & [Hd ->]%lift_ok & H).
  apply bind_ok_inv in H as (m & w3 & [Hm ->]%lift_ok & H).
  apply bind_ok_inv in H as (s & w3 & (Hs & Hp3 & Ha3)%signMessage_ok & H).
  apply bind_ok_inv in H as (r' & w4 & (Hr' & Hp4 & _ & Ha4)%act_ok & H).
  apply bind_ok_inv in H as (d' & w5 & [Hd' ->]%lift_ok & H).
  apply bind_ok_inv in H as (x & w5 & [Hx ->]%lift_ok & H). injection H as <-.
  exists address, m, s, x, pre. split_and!; simpl.
  - split_and!; eauto 10.
  - rewrite Ha4, Ha3, Ha2, Hw1, <-!app_assoc. done.
  - exact Hpre.
  - done.
  - by rewrite Hp4, Hp3, Hp2, He.
  - by rewrite Hp4, Hp3, Hp2, Hacct.
Qed.
End login_runs.

(** C19: Logging in.  [login] never rejects and always clears the busy flag.
    It leaves no error only after a complete exchange: the nonce of the
    address (the render's account, or the one the wallet just gave), the
    wallet's signature of exactly the message received for it, and the token
    the backend answered to that address and signature, which is the token
    kept; otherwise an error is shown and any earlier token is gone. *)
Theorem login_outcome (E : WebEnv) (ethereum : bool) (render_account : jsval) (w : Web Session) :
  let '(res, w') := login E ethereum render_account w in
  res = Ok tt ∧ loggingIn (page w') = false ∧
  ((loginError (page w') = VNull ∧ ∃ address message signature access pre,
      exchange E address message signature access ∧
      actions w' = actions w ++ pre ++ exchange_actions address message signature ∧
      (if truthy render_account then pre = [] ∧ address = render_account else pre = [RequestAccounts]) ∧
      token (page w') = access) ∨
   (token (page w') = VNull ∧ truthy (loginError (page w')) = true)).
Proof.
  unfold login, set_page. rewrite !bind_modify. unfold finally, try_catch.
  match goal with |- context [login_try _ _ _ ?s] => set (w0 := s) end.
  pose proof (login_try_no_fuel E ethereum render_account w0) as Hf.
  destruct (login_try E ethereum render_account w0) as [[[]|e] w1] eqn:H.
  - apply login_try_ok in H as (a & m & s & x & pre & Hx & Ha & Hp & Ht & He & _). simpl.
    split_and!; [done|done|]. left. split; [by rewrite He|]. exists a, m, s, x, pre. by split_and!.
  - destruct e; try done; cbn; (split_and!; [done|done|]); right; (split; [done|by apply error_text_truthy]).
Qed.
