(* ===== verification/FrontendShell.v ===== *)
(** * frontend/src/App.jsx and WalletConnectButton.jsx: the shell

    The routes and the header, over the session of [FrontendSession]: which
    page a route shows, what the wallet button shows, and which sessions can
    be reached by pressing it, at every await of a login ([session_step]).
    Matching a path with a route is react-router's and is left open. *)

From S2P Require Import Prelude JsValue JsText Buffer React FrontendContract FrontendTasks FrontendSession.
From Stdlib Require Import Strings.Ascii.

(** ** App.jsx: [Shell] *)
Inductive Page := DashboardPage | BuyPolicyPage | FileClaimPage | ClaimStatusPage.

(** The routes, with what each shows ([None]: the card that asks to connect). *)
Definition ROUTES : list (string * (option Auth → outcome (option Page))) :=
  [("/", λ ctx, RequireAuth ctx DashboardPage);
   ("/buy-policy", λ ctx, Ok (Some BuyPolicyPage));
   ("/file-claim", λ ctx, RequireAuth ctx FileClaimPage);
   ("/claim-status", λ ctx, RequireAuth ctx ClaimStatusPage)].

(** [App]: everything is inside one provider. *)
Definition App (s : Session) : option Auth := Some (AuthProvider s).

(** The links of the header, and those the pages lead to. *)
Definition NAV : list (string * string) :=
  [("/", "Dashboard"); ("/buy-policy", "Buy a Policy"); ("/file-claim", "File a Claim"); ("/claim-status", "Claim Status")].
Definition page_links : list string := ["/"; "/file-claim"].

(** No link is dead, and every route has one. *)
Lemma links_have_routes : NAV.*1 = ROUTES.*1 ∧ page_links ⊆ ROUTES.*1.
Proof. split; [reflexivity|]. eapply bool_decide_eq_true_1. vm_compute. reflexivity. Qed.

(** ** components/WalletConnectButton.jsx *)

Section wallet_button.
Context {R : React}.

(** [{v.slice(0, 6)}] and [{v.slice(-4)}] *)
Definition slice_ends (v : jsval) : outcome (list string * list string) :=
  match v with
  | VStr s =>
      a ← child (VStr (String.substring 0 6 s)); b ← child (VStr (String.substring (String.length s - 4) 4 s)); Ok (a, b)
  | VArr l => a ← child (VArr (take 6 l)); b ← child (VArr (drop (length l - 4) l)); Ok (a, b)
  | VUndef | VNull => Throw (TypeError "Cannot read properties (reading 'slice')")
  | _ => Throw (TypeError "account.slice is not a function")
  end.

Inductive WalletView :=
  | LoggedIn (first last : list string)                 (** and the log-out button *)
  | ConnectWallet (disabled : bool) (label : string) (error : option (list string)).

Definition WalletConnectButton (ctx : option Auth) : outcome WalletView :=
  auth ← useAuth ctx;
  if auth_isAuthenticated auth then
    ends ← slice_ends (auth_account auth); Ok (LoggedIn ends.1 ends.2)
  else
    error ← when_truthy (if truthy (auth_loginError auth) then auth_loginError auth else auth_walletError auth);
    Ok (ConnectWallet (auth_loggingIn auth) (if auth_loggingIn auth then "Connecting…" else "Connect Wallet") error).
End wallet_button.

(** ** The handlers as tasks *)
Section session_tasks.
Context (E : WebEnv).

Definition connect_task (ethereum : bool) : Task Session jsval :=
  sets (set_walletError VNull) ;;
  if negb ethereum then
    sets (set_walletError (VStr "No wallet extension detected (e.g. MetaMask).")) ;; mret VNull
  else tries (
    accounts ← awaits RequestAccounts;
    a ← computes (first_of accounts);
    sets (set_account a) ;; mret a)
  (λ err, sets (set_walletError (VStr (error_message err "Wallet connection was rejected."))) ;; mret VNull).

Definition getSigner_task (ethereum : bool) : Task Session jsval :=
  if negb ethereum then throws (JsError "No wallet extension detected.") else awaits GetSigner.
Definition signMessage_task (ethereum : bool) (message : jsval) : Task Session jsval :=
  _ ← getSigner_task ethereum;
  tries (awaits (SignText message))
    (λ err, throws (JsError (error_message err "Signature request was rejected."))).

Definition login_body (ethereum : bool) (render_account : jsval) : Task Session unit :=
  address ← (if truthy render_account then mret render_account else connect_task ethereum);
  if negb (truthy address) then throws (JsError "Wallet not connected.")
  else
    nonceRes ← awaits (HttpGet "/auth/nonce" (VObj [("address", address)]) None);
    data ← computes (js_get nonceRes "data");
    message ← computes (js_get data "message");
    signature ← signMessage_task ethereum message;
    loginRes ← awaits (HttpPost "/auth/wallet" (VObj [("address", address); ("signature", signature)]) None None);
    loginData ← computes (js_get loginRes "data");
    access ← computes (js_get loginData "access_token");
    sets (set_token access).
Definition login_task (ethereum : bool) (render_account : jsval) : Task Session unit :=
  sets (set_loginError VNull) ;;
  sets (set_loggingIn true) ;;
  ends_with
    (tries (login_body ethereum render_account)
       (λ err, sets (set_loginError (error_text E err "Login failed.")) ;;
               sets (set_token VNull)))
    (set_loggingIn false).
Definition logout_task : Task Session unit := sets (set_token VNull).

Lemma connect_realizes ethereum : realizes E (connect E ethereum) (connect_task ethereum).
Proof. unfold connect, connect_task. solve_realizes. Qed.
Lemma signMessage_realizes ethereum m : realizes E (signMessage E ethereum m) (signMessage_task ethereum m).
Proof. unfold signMessage, signMessage_task, getSigner, getSigner_task. solve_realizes. Qed.
Lemma login_realizes ethereum a : realizes E (login E ethereum a) (login_task ethereum a).
Proof.
  pose proof connect_realizes. pose proof signMessage_realizes.
  unfold login, login_try, login_task, login_body, getNonce, loginWallet. solve_realizes.
Qed.
End session_tasks.

Section sessions.
Context (E : WebEnv) {R : React}.

(** The button of the header pressed, as it is shown: logging in with the
    account of the render (a wallet may be installed or not), or logging
    out. *)
Inductive Press := PressLogin (ethereum : bool) (render_account : jsval) | PressLogout.
Definition offers_press (s : Session) (x : Press) : Prop :=
  match x with
  | PressLogin _ a => a = account s ∧ ∃ label error, WalletConnectButton (App s) = Ok (ConnectWallet false label error)
  | PressLogout => ∃ first last, WalletConnectButton (App s) = Ok (LoggedIn first last)
  end.
Definition press_task (x : Press) : Thread Session :=
  match x with PressLogin ethereum a => thread (login_task E ethereum a) | PressLogout => thread logout_task end.
Definition session_step := pool_step E offers_press press_task (λ _, False).

Definition session_start : Web Session := mkWeb (mkSession VNull VNull VNull VNull false) 0 0 [].

(** What a wallet answers to [eth_requestAccounts] (EIP-1102). *)
Definition accounts_are_texts : Prop :=
  ∀ n v, answer E n RequestAccounts = inl v → ∃ l, v = VArr (VStr <$> l).

(** ** The account is a text, once there is one *)
Definition account_ok (s : Session) : Prop := truthy (account s) = true → ∃ a, account s = VStr a.
Definition keeps_account_ok (w w' : Web Session) : Prop := account_ok (page w) → account_ok (page w').
#[global] Instance keeps_account_ok_preorder : PreOrder keeps_account_ok.
Proof. split; [intros w H; exact H|]. intros w1 w2 w3 H1 H2 H. apply H2, H1, H. Qed.

Lemma set_keeps_account f : (∀ s, account (f s) = account s) → moves keeps_account_ok (set_page f).
Proof. intros Hf w. unfold keeps_account_ok, account_ok. simpl. by rewrite Hf. Qed.
Lemma act_keeps_account a : moves keeps_account_ok (act E a).
Proof. intros w H. exact H. Qed.

Lemma connect_keeps_account ethereum : accounts_are_texts → moves keeps_account_ok (connect E ethereum).
Proof.
  intros Hacc. unfold connect. apply moves_bind; [apply _|by apply set_keeps_account|intros _].
  destruct ethereum; cbn [negb]; [|apply moves_bind; [apply _|by apply set_keeps_account|intros _; apply moves_ret, _]].
  apply moves_try; [apply _| |intros e; apply moves_bind; [apply _|by apply set_keeps_account|intros _; apply moves_ret, _]].
  apply moves_bind_ok; [apply _|apply act_keeps_account|]. intros v w w' (Hv & _)%act_ok.
  destruct (Hacc _ _ Hv) as [l ->]. apply moves_bind_lift; [apply _|]. intros a Ha. injection Ha as <-.
  apply moves_bind; [apply _| |intros _; apply moves_ret, _].
  intros u _. unfold account_ok. simpl. destruct l; simpl; [done|eauto].
Qed.

Lemma login_try_keeps_account ethereum a : accounts_are_texts → moves keeps_account_ok (login_try E ethereum a).
Proof.
  intros Hacc. pose proof (connect_keeps_account ethereum Hacc) as Hc. pose proof act_keeps_account as Ha.
  unfold login_try, signMessage, getSigner, getNonce, loginWallet. solve_moves; by apply set_keeps_account.
Qed.

(** ** A token belongs to the account shown *)
Definition session_ok (s : Session) : Prop :=
  account_ok s ∧ (truthy (token s) = true → truthy (account s) = true ∧
    ∃ message signature, exchange E (account s) message signature (token s)).

Lemma login_session_ok ethereum w : accounts_are_texts → session_ok (page w) →
  session_ok (page (login E ethereum (account (page w)) w).2).
Proof.
  intros Hacc [Ha Ht]. unfold login, set_page. rewrite !bind_modify. unfold finally, try_catch.
  match goal with |- context [login_try _ _ _ ?s] => set (w0 := s) end.
  pose proof (login_try_no_fuel E ethereum (account (page w)) w0) as Hf.
  pose proof (login_try_keeps_account ethereum (account (page w)) Hacc w0 Ha) as Hok.
  destruct (login_try E ethereum (account (page w)) w0) as [[[]|e] w1] eqn:H; cbn [fst snd] in *.
  - split; [exact Hok|]. intros _. change (account (page w)) with (account (page w0)) in H.
    apply login_try_ok in H as (a & m & s & x & pre & Hx & _ & Hpre & Htok & _ & Hacct). simpl. rewrite Htok.
    assert (account (page w1) = a) as ->.
    { destruct (truthy (account (page w0))); [|done]. destruct Hpre as [_ ->]. done. }
    split; [by destruct Hx|]. by exists m, s.
  - by destruct e; (split; [exact Hok|]).
Qed.


(** ** A login in flight *)

(** No more awaits. *)
Fixpoint finishing (t : Thread Session) : Prop :=
  match t with Over => True | Setting f k => finishing k | Awaiting a k => False end.
(** The token is set at the very end. *)
Fixpoint token_last (t : Thread Session) : Prop :=
  match t with
  | Over => True
  | Setting f k => ((∀ s, token (f s) = token s) ∨ finishing k) ∧ token_last k
  | Awaiting a k => ∀ r, token_last (k r)
  end.

Lemma finishing_segment t w : finishing t → segment E t w = (Over, run E t w).
Proof. revert w. induction t as [|f k IH|a k _]; intros w Ht; [done|by apply IH|done]. Qed.
Lemma guarded_finishing t w : guarded loggingIn t → finishing t → loggingIn (page (run E t w)) = false.
Proof.
  revert w. induction t as [|f k IH|a k _]; intros w Hg Hf; [done| |done].
  destruct k as [|f' k'|a k']; [apply Hg| |done]. apply (IH (after_set f w)); [apply Hg|done].
Qed.

Lemma login_segment t w : guarded loggingIn t → token_last t → loggingIn (page w) = true →
  let '(t', w') := segment E t w in
  (t' = Over ∧ loggingIn (page w') = false) ∨
  (guarded loggingIn t' ∧ token_last t' ∧ loggingIn (page w') = true ∧ token (page w') = token (page w)).
Proof.
  revert w. induction t as [|f k IH|a k _]; intros w Hg Ht Hb; [done| |].
  - destruct Ht as [[Hf|Hf] Ht].
    + destruct k as [|f' k'|a k'].
      * left. split; [done|apply Hg].
      * destruct Hg as [Hb' Hg]. specialize (IH (after_set f w) Hg Ht). cbn [after_set page] in IH.
        rewrite Hb', Hf in IH. by apply IH.
      * destruct Hg as [Hb' Hg]. right. cbn. split_and!; [apply Hg|apply Ht|by rewrite Hb'|apply Hf].
    + pose proof (finishing_segment (Setting f k) w Hf) as Hs. rewrite Hs.
      left. split; [done|]. by apply guarded_finishing.
  - right. cbn. split_and!; [apply Hg|apply Ht|done|done].
Qed.

(** Down the thread of a login. *)
Ltac login_walk := repeat (cbn [guarded token_last finishing]; try done; match goal with
  | |- ∀ _ : outcome jsval, _ => intros [?|[]]
  | |- _ ∧ _ => split
  | |- _ ∨ _ => first [left; done | right; done]
  | |- guarded _ (match ?o with _ => _ end) => destruct o as [?|[]]
  | |- token_last (match ?o with _ => _ end) => destruct o as [?|[]]
  | |- context [truthy ?v] => destruct (truthy v); cbn [negb]
  end).
Lemma login_opens ethereum a : ∃ rest, thread (login_task E ethereum a) =
    Setting (set_loginError VNull) (Setting (set_loggingIn true) rest) ∧ guarded loggingIn rest ∧ token_last rest.
Proof.
  unfold login_task, login_body, connect_task, signMessage_task, getSigner_task. unfold_task.
  eexists. split; [reflexivity|]. split.
  - destruct ethereum; login_walk.
  - destruct ethereum; login_walk.
Qed.

(** What is offered: no login while one is in flight, no log-out before. *)
Lemma offers_idle s x : offers_press s x →
  match x with PressLogin _ _ => loggingIn s = false ∧ truthy (token s) = false | PressLogout => truthy (token s) = true end.
Proof.
  unfold offers_press, WalletConnectButton. cbn. unfold isAuthenticated. destruct x as [ethereum a|].
  - intros [_ (label & error & H)]. destruct (truthy (token s)); outcome_inv H; [done|]. by injection H.
  - intros (first & last & H). destruct (truthy (token s)); [done|]. by outcome_inv H.
Qed.

Inductive shell_ok (fs : list (Flight Session Press)) (w : Web Session) : Prop :=
  | shell_idle : Forall idle fs → loggingIn (page w) = false → session_ok (page w) → shell_ok fs w
  | shell_login i x t : fs !! i = Some (mkFlight (Some x) t) → (∀ j f, j ≠ i → fs !! j = Some f → idle f) →
      guarded loggingIn t → token_last t → loggingIn (page w) = true → truthy (token (page w)) = false →
      session_ok (page (run E t w)) → shell_ok fs w.

(** A handler of an idle shell that is over at once, or a login under way. *)
Lemma shell_after fs w x t : Forall idle fs → session_ok (page (run E t w)) → truthy (token (page w)) = false →
  guarded loggingIn t → token_last t → loggingIn (page w) = true →
  shell_ok (fs ++ [mkFlight (Some x) (segment E t w).1]) (segment E t w).2.
Proof.
  intros Hidle Hrun Htok Hg Hl Hb. rewrite run_segment in Hrun. pose proof (login_segment t w Hg Hl Hb) as Hseg.
  destruct (segment E t w) as [t' w'] eqn:Hs. cbn in *. destruct Hseg as [[-> Hb']|(Hg' & Hl' & Hb' & Ht')].
  - apply shell_idle; [|done|done]. apply Forall_app. split; [done|]. by apply Forall_singleton.
  - apply (shell_login _ _ (length fs) x t'); try done; [by rewrite lookup_app_r, Nat.sub_diag| |by rewrite Ht'].
    intros j f Hj [Hf|[Hge Hf]]%lookup_app_Some; [by apply (Forall_lookup_1 _ _ _ _ Hidle Hf)|].
    apply list_lookup_singleton_Some in Hf as [Hz _]. lia.
Qed.

Lemma shell_press fs w x t w' : accounts_are_texts → shell_ok fs w → offers_press (page w) x →
  segment E (press_task x) w = (t, w') → shell_ok (fs ++ [mkFlight (Some x) t]) w'.
Proof.
  intros Hacc Hok Hx Hs. pose proof (offers_idle _ _ Hx) as Hoff.
  assert (Forall idle fs ∧ session_ok (page w)) as [Hidle Hsess].
  { destruct Hok as [? _ ?|i y u _ _ _ _ Hb Ht _]; [done|]. destruct x; [destruct Hoff|]; congruence. }
  destruct x as [ethereum a|].
  - destruct Hx as [-> _], Hoff as [_ Htok]. destruct (login_opens ethereum (account (page w))) as (rest & Hrest & Hg & Hl).
    pose proof (login_session_ok ethereum w Hacc Hsess) as Hend.
    rewrite <-(realizes_run E _ _ w (login_realizes E ethereum (account (page w)))), Hrest in Hend.
    cbn [press_task] in Hs. rewrite Hrest in Hs. cbn [segment run] in Hs, Hend.
    pose proof (shell_after fs _ (PressLogin ethereum (account (page w))) rest Hidle Hend Htok Hg Hl eq_refl) as Hok'. by rewrite Hs in Hok'.
  - injection Hs as <- <-. destruct Hsess as [Hacct _], Hok as [_ Hb _|i y u _ _ _ _ _ Ht _]; [|congruence].
    apply shell_idle; [|done|by split]. apply Forall_app. split; [done|]. by apply Forall_singleton.
Qed.

Lemma shell_resume fs w i x t t' w' : shell_ok fs w → fs !! i = Some (mkFlight (Some x) t) → segment E t w = (t', w') →
  shell_ok (<[i := mkFlight (Some x) t']> fs) w'.
Proof.
  intros Hok Hi Hs. assert (t = Over → shell_ok (<[i := mkFlight (Some x) t']> fs) w') as Hover.
  { intros ->. injection Hs as <- <-. by rewrite list_insert_id. }
  destruct Hok as [Hidle Hb Hsess|j y u Hj Ho Hg Hl Hb Ht Hrun]; [apply Hover; by apply (Forall_lookup_1 _ _ _ _ Hidle Hi)|].
  destruct (decide (i = j)) as [->|Hne]; [|apply Hover; by apply (Ho i _ Hne Hi)].
  rewrite Hi in Hj. injection Hj as <- <-. rewrite run_segment in Hrun. pose proof (login_segment t w Hg Hl Hb) as Hseg.
  rewrite Hs in Hseg, Hrun. destruct Hseg as [[-> Hb']|(Hg' & Hl' & Hb' & Ht')].
  - apply shell_idle; [|done|done]. apply Forall_lookup.
    intros k f [(-> & <- & _)|[Hk Hf]]%list_lookup_insert_Some; [done|by apply (Ho k f)].
  - apply (shell_login _ _ j x t'); try done; [|intros k f Hk Hf|by rewrite Ht'].
    + apply list_lookup_insert_eq. by eapply lookup_lt_Some.
    + apply list_lookup_insert_Some in Hf as [(-> & _)|[_ Hf]]; [done|by apply (Ho k f)].
Qed.

(** There are no effects here. *)
Definition shell_inv (c : list (Flight Session Press) * Web Session) : Prop :=
  Forall (λ f, is_effect f = false) c.1 ∧ shell_ok c.1 c.2.
Lemma shell_step c c' : accounts_are_texts → session_step c c' → shell_inv c → shell_inv c'.
Proof.
  intros Hacc [fs w x t w' Hx Hs|fs w t0 t w' [] Hs|fs w i [x|] t t' w' Hi Hs|fs w i t Hi] [Hfs Hok]; cbn [fst snd] in *.
  - split; [by apply Forall_app; split; [|apply Forall_singleton]|by eapply shell_press].
  - split; [by apply Forall_insert|by eapply shell_resume].
  - by pose proof (Forall_lookup_1 _ _ _ _ Hfs Hi).
  - by pose proof (Forall_lookup_1 _ _ _ _ Hfs Hi).
Qed.
Lemma shell_reachable fs w : accounts_are_texts → rtc session_step ([], session_start) (fs, w) → shell_ok fs w.
Proof.
  intros Hacc Hr. assert (shell_inv ([], session_start)) as H0.
  { split; [done|]. apply shell_idle; [done|done|]. by split. }
  change fs with (fs, w).1. change w with (fs, w).2 at 2. revert H0. induction Hr as [c|c1 c2 c3 Hs _ IH]; [by intros [_ H]|].
  intros H0. apply IH. by eapply shell_step.
Qed.
End sessions.

(** ** The errors shown can be shown *)
Section errors.
Context (E : WebEnv) {R : React} {RL : ReactLaws R} (Hdetails : details_show E).

Definition errors_ok (s : Session) : Prop := error_ok (loginError s) ∧ error_ok (walletError s).

Lemma connect_errors ethereum : gives E errors_ok (connect_task ethereum) (λ _, True).
Proof.
  unfold connect_task. repeat gives_step; try done; intros s [Hl Hw]; (split; try done); apply text_error.
Qed.
Lemma press_errors x : always E errors_ok (press_task E x).
Proof.
  destruct x as [ethereum a|]; eapply always_thread.
  - unfold login_task, login_body, signMessage_task, getSigner_task.
    repeat (apply connect_errors || gives_step); try done; intros s [Hl Hw]; split; try done. by apply error_text_error.
  - unfold logout_task. by apply gives_set.
Qed.
Lemma errors_reachable fs w : rtc (session_step E) ([], session_start) (fs, w) → errors_ok (page w).
Proof.
  intros Hr. eapply pool_reach_typed; [| |exact Hr|done].
  - intros s x _ _. apply press_errors.
  - done.
Qed.
Lemma button_shows s : errors_ok s → isAuthenticated s = false → ∃ view, WalletConnectButton (App s) = Ok view.
Proof.
  intros [Hl Hw] Ha. unfold WalletConnectButton. cbn. rewrite Ha.
  destruct (error_shown (if truthy (loginError s) then loginError s else walletError s)) as [t ->]; [|by eexists].
  by destruct (truthy (loginError s)).
Qed.
Lemma account_shows s a : account s = VStr a → isAuthenticated s = true → ∃ view, WalletConnectButton (App s) = Ok view.
Proof. intros Hacc Ha. unfold WalletConnectButton, slice_ends. cbn. rewrite Ha, Hacc. cbn. rewrite !child_text. by eexists. Qed.
End errors.

(** C20: Behind the login.  Whatever is pressed in the header whenever it is
    enabled, at every await of a login, the header renders, if the backend's
    error details can be shown (it never slices a missing account), and a
    route other than the catalogue shows its page only while the account in
    the header is the one that obtained the token: its own signature of the
    message the backend issued for it, answered with exactly that token. *)
Theorem sessions_are_proven (E : WebEnv) {R : React} {RL : ReactLaws R} (fs : list (Flight Session Press)) (w : Web Session) :
  accounts_are_texts E → rtc (session_step E) ([], session_start) (fs, w) →
  (details_show E → ∃ view, WalletConnectButton (App (page w)) = Ok view) ∧
  ∀ path element p, (path, element) ∈ ROUTES → element (App (page w)) = Ok (Some p) → p ≠ BuyPolicyPage →
    ∃ address message signature, account (page w) = VStr address ∧
      exchange E (VStr address) message signature (token (page w)).
Proof.
  intros Hacc Hr. assert (isAuthenticated (page w) = true → session_ok E (page w)) as Hok.
  { destruct (shell_reachable E fs w Hacc Hr) as [_ _ H|i x t _ _ _ _ _ Ht _]; [done|]. unfold isAuthenticated. congruence. }
  split.
  - intros Hdetails. destruct (isAuthenticated (page w)) eqn:Hauth; [|by apply button_shows; [by eapply errors_reachable|]].
    destruct (Hok eq_refl) as [Ha Ht]. destruct (Ht Hauth) as [Htr _]. destruct (Ha Htr) as [a Hacct]. by apply (account_shows _ a).
  - intros path element p Hin Hel Hp. assert (isAuthenticated (page w) = true) as Htok.
    { unfold ROUTES in Hin. repeat (apply elem_of_cons in Hin as [[= _ ->]|Hin]); [..|by apply elem_of_nil in Hin];
        revert Hel; unfold RequireAuth; cbn; destruct (isAuthenticated (page w)); congruence. }
    destruct (Hok Htok) as [Ha Ht]. destruct (Ht Htok) as (Htr & m & s & Hx). destruct (Ha Htr) as [a Heq]. exists a, m, s. by rewrite <-Heq.
Qed.

(** A wallet with one account and a backend that trusts its signature. *)
Definition login_web : WebEnv := {|
  answer n a := match a with
    | RequestAccounts => inl (VArr (VStr <$> ["0x52908400098527886E0F7030069857D2E4169EE7"]))
    | HttpGet _ _ _ => inl (VObj [("data", VObj [("message", VStr "nonce 7")])])
    | SignText _ => inl (VStr "0x5157")
    | HttpPost _ _ _ _ => inl (VObj [("data", VObj [("access_token", VStr "jwt")])])
    | _ => inl VUndef
    end;
  getRandomValues n := [];
  randomUUID n := dec (Z.of_nat n);
  ZeroAddress := "0x0";
  parseEther s := inr "invalid";
  formatEther v := inr "invalid";
  toUtf8Bytes _ := inl [];
  getBytes _ := inl [];
  keccak256_concat l := "";
  JsonRpcProvider _ := inl tt;
  error_detail _ := VUndef;
|}.
Section login_demo.
Import ReactReference.
Definition logged_in : list (Flight Session Press) * Web Session :=
  foldl (λ c i, resume login_web i c)
    (launch login_web (Some (PressLogin true VNull)) (press_task login_web (PressLogin true VNull)) ([], session_start)) [0; 0; 0; 0; 0]%nat.

Lemma sessions_are_proven_witness :
  RequireAuth (App (page logged_in.2)) FileClaimPage = Ok (Some FileClaimPage) ∧
  WalletConnectButton (App (page logged_in.2)) = Ok (LoggedIn ["0x5290"] ["9EE7"]) ∧
  ∃ address message signature, account (page logged_in.2) = VStr address ∧
    exchange login_web (VStr address) message signature (token (page logged_in.2)).
Proof.
  split; [vm_compute; reflexivity|]. split; [vm_compute; reflexivity|].
  destruct (sessions_are_proven login_web logged_in.1 logged_in.2) as [_ H].
  - intros n v Hv. injection Hv as <-. by exists ["0x52908400098527886E0F7030069857D2E4169EE7"].
  - rewrite <-surjective_pairing.
    eapply rtc_l; [apply (launch_press _ _ (press_task login_web) _ (PressLogin true VNull))|].
    { split; [reflexivity|]. do 2 eexists. vm_compute. reflexivity. }
    unfold logged_in. cbn [foldl]. do 5 (etrans; [apply (resume_reach _ _ (press_task login_web))|]). reflexivity.
  - apply (H "/file-claim" (λ ctx, RequireAuth ctx FileClaimPage) FileClaimPage); [|vm_compute; reflexivity|done].
    unfold ROUTES. right. right. left.
Defined.
End login_demo.
