(* ===== verification/FrontendPages.v ===== *)
(** * frontend/src/pages and components: state and handlers

    One record of React state per component, and its handlers and effects
    over [Web].  The arguments of a handler are the values of the render it
    belongs to; what a state shows is in [FrontendViews]. *)

From S2P Require Import Prelude JsValue JsText Buffer FrontendContract.

(** ** pages/FileClaim.jsx *)
Inductive Step := Idle | Creating | SubmittingOnchain | Done.

Record FileClaim := mkFileClaim { fc_step : Step; fc_error : jsval; fc_result : jsval }.
Definition setStep v s := mkFileClaim v (fc_error s) (fc_result s).
Definition setError v s := mkFileClaim (fc_step s) v (fc_result s).
Definition setResult v s := mkFileClaim (fc_step s) (fc_error s) v.

Section pages.
Context (E : WebEnv) (V : ViteEnv).

(** The body of the claim posted to the backend. *)
Definition claim_body (policyId amount merkleRoot salt : string) : jsval :=
  VObj [("policy_id", Number (VStr policyId)); ("declared_amount", Number (VStr amount));
        ("merkle_root", VStr merkleRoot); ("merkle_salt", VStr salt); ("documents", VArr [])].

(** The [try] block. *)
Definition handleSubmit_try (token : jsval) (policyId amount merkleRoot salt : string) : Js (Web FileClaim) unit :=
  set_page (setStep Creating) ;;
  createRes ← createClaim E token (claim_body policyId amount merkleRoot salt);
  backendClaim ← lift (js_get createRes "data");
  set_page (setStep SubmittingOnchain) ;;
  _ ← act E (ImportModule "ethers");
  _ ← act E GetSigner;
  txHash ← submitClaimOnChain E V (Number (VStr policyId)) (VStr merkleRoot) (VStr amount);
  set_page (setStep Done) ;;
  id ← lift (js_get backendClaim "id");
  set_page (setResult (VObj [("claimId", id); ("txHash", txHash)])).

Definition handleSubmit (token : jsval) (policyId amount description : string) : Js (Web FileClaim) unit :=
  set_page (setError VNull) ;;
  set_page (setResult VNull) ;;
  if bool_decide (policyId = "") || bool_decide (amount = "") then
    set_page (setError (VStr "Policy ID and amount are required."))
  else
    salt ← generateClaimSalt E;
    merkleRoot ← lift (placeholderMerkleRoot E description salt);
    try_catch (handleSubmit_try token policyId amount merkleRoot salt)
      (λ err, set_page (setStep Idle) ;;
              set_page (setError (error_text E err "Claim submission failed."))).

(** ** pages/BuyPolicy.jsx *)
Record BuyPolicy := mkBuyPolicy { templates : jsval; bp_error : jsval; subscribing : jsval; bp_result : jsval }.
Definition setTemplates v s := mkBuyPolicy v (bp_error s) (subscribing s) (bp_result s).
Definition setBpError v s := mkBuyPolicy (templates s) v (subscribing s) (bp_result s).
Definition setSubscribing v s := mkBuyPolicy (templates s) (bp_error s) v (bp_result s).
Definition setBpResult v s := mkBuyPolicy (templates s) (bp_error s) (subscribing s) v.

Definition formatWei (weiString : jsval) : outcome string := ethers (formatEther E weiString).

(** An effect's promise: [fetch] settles when [cancelled] has its final
    value; an unmounted component is not touched. *)
Definition load {P} (fetch : Js (Web P) jsval) (cancelled : bool) (set : jsval → P → P)
    (set_error : jsval → P → P) (fallback : string) : Js (Web P) unit :=
  try_catch (
    res ← fetch;
    if cancelled then mret tt
    else data ← lift (js_get res "data"); set_page (set data))
  (λ err, if cancelled then mret tt else set_page (set_error (detail_or E err fallback))).

Definition load_catalog (cancelled : bool) : Js (Web BuyPolicy) unit :=
  load (getPolicyCatalog E) cancelled setTemplates setBpError "Could not load the policy catalog.".

Definition handleSubscribe (template : jsval) : Js (Web BuyPolicy) unit :=
  set_page (setBpError VNull) ;;
  set_page (setBpResult VNull) ;;
  template_id ← lift (js_get template "template_id");
  set_page (setSubscribing template_id) ;;
  finally
    (try_catch (
       _ ← act E GetSigner;
       wei ← lift (js_get template "premium_amount_per_period_wei");
       premiumEther ← lift (formatWei wei);
       hashes ← subscribeToPolicyOnChain E V template_id premiumEther;
       set_page (setBpResult (VObj [("templateId", template_id); ("approveTxHash", hashes.1);
                                    ("subscribeTxHash", hashes.2)])))
     (λ err, set_page (setBpError (VStr (error_message err "Subscription failed.")))))
    (set_page (setSubscribing VNull)).

(** ** components/PremiumStatusBadge.jsx *)
Record Badge := mkBadge { status : jsval; loadError : jsval; payError : jsval; paying : bool; txHash : jsval }.
Definition setStatus v s := mkBadge v (loadError s) (payError s) (paying s) (txHash s).
Definition setLoadError v s := mkBadge (status s) v (payError s) (paying s) (txHash s).
Definition setPayError v s := mkBadge (status s) (loadError s) v (paying s) (txHash s).
Definition setPaying v s := mkBadge (status s) (loadError s) (payError s) v (txHash s).
Definition setTxHash v s := mkBadge (status s) (loadError s) (payError s) (paying s) v.

Definition badge_initial : Badge := mkBadge VNull VNull VNull false VNull.

(** The effect, run on mount and again whenever the policy id or the hash
    changes. *)
Definition load_status (policyId : jsval) (cancelled : bool) : Js (Web Badge) unit :=
  load (getPolicyStatus E policyId) cancelled setStatus setLoadError "Could not load premium status.".

(** [onPaid] is [undefined]: Dashboard, the badge's only user, passes none. *)
Definition handlePay (render_status policyId : jsval) : Js (Web Badge) unit :=
  set_page (setPayError VNull) ;;
  set_page (setPaying true) ;;
  finally
    (try_catch (
       _ ← act E GetSigner;
       wei ← lift (js_get render_status "premium_amount_per_period_wei");
       premiumEther ← lift (formatWei wei);
       hash ← payPremiumOnChain E V policyId premiumEther;
       set_page (setTxHash hash))
     (λ err, set_page (setPayError (VStr (error_message err "Payment failed.")))))
    (set_page (setPaying false)).

(** ** pages/ClaimStatus.jsx *)
Record ClaimStatus := mkClaimStatus { claim : jsval; cs_error : jsval; verifying : bool; idempotencyKey : jsval }.
Definition setClaim v s := mkClaimStatus v (cs_error s) (verifying s) (idempotencyKey s).
Definition setCsError v s := mkClaimStatus (claim s) v (verifying s) (idempotencyKey s).
Definition setVerifying v s := mkClaimStatus (claim s) (cs_error s) v (idempotencyKey s).
Definition setIdempotencyKey v s := mkClaimStatus (claim s) (cs_error s) (verifying s) v.

(** [crypto.randomUUID] is there: the page is served in a secure context. *)
Definition handleSearch (token : jsval) (claimId : string) : Js (Web ClaimStatus) unit :=
  set_page (setCsError VNull) ;;
  set_page (setClaim VNull) ;;
  try_catch (
    res ← getClaim E token (VStr claimId);
    data ← lift (js_get res "data");
    set_page (setClaim data) ;;
    uuid ← draw (randomUUID E);
    set_page (setIdempotencyKey (VStr uuid)))
  (λ err, set_page (setCsError (detail_or E err "Claim not found."))).

Definition handleTriggerVerification (token render_claim render_key : jsval) : Js (Web ClaimStatus) unit :=
  set_page (setVerifying true) ;;
  set_page (setCsError VNull) ;;
  finally
    (try_catch (
       id ← lift (js_get render_claim "id");
       _ ← triggerVerification E token id render_key;
       refreshed ← getClaim E token id;
       data ← lift (js_get refreshed "data");
       set_page (setClaim data))
     (λ err, set_page (setCsError (detail_or E err "Verification request failed."))))
    (set_page (setVerifying false)).

(** Is the trigger button there, and enabled? *)
Definition can_trigger (s : ClaimStatus) : outcome bool :=
  if truthy (claim s) then
    st ← js_get (claim s) "status"; 
    Ok (match st with VStr t => bool_decide (t = "submitted") | _ => false end && negb (verifying s))
  else Ok false.

(** ** pages/Dashboard.jsx *)
Record Dashboard := mkDashboard { claims : jsval; db_error : jsval }.
Definition load_claims (token : jsval) (cancelled : bool) : Js (Web Dashboard) unit :=
  load (listClaims E token) cancelled (λ v s, mkDashboard v (db_error s))
    (λ v s, mkDashboard (claims s) v) "Could not load claims.".
End pages.
