(* ===== verification/FrontendViews.v ===== *)
(** * frontend/src/pages and components: what a state shows

    [render_*] gives what a component returns for a state, as data: the texts
    put between tags, which buttons there are, their labels and whether they
    are disabled.  It throws where the code throws: reading a property of
    [null], [map] of something that is no array, [ethers.formatEther], or a
    child React refuses. *)

From S2P Require Import Prelude JsValue JsText Buffer React FrontendContract FrontendPages.
From Stdlib Require Import SpecFloat.
From Stdlib Require Import Ascii.

(** ** Bits of JavaScript the views use *)

(** A Number as its binary64 value. *)
Definition num_float (n : num) : spec_float :=
  match n with Int z => binary_normalize 53 1024 z 0 false | Flt f => f end.

(** [v === w] *)
Definition strict_eq (v w : jsval) : bool :=
  match v, w with
  | VUndef, VUndef | VNull, VNull => true
  | VBool a, VBool b => Bool.eqb a b
  | VNum a, VNum b => SFeqb (num_float a) (num_float b)
  | VBigInt a, VBigInt b => a =? b
  | VStr a, VStr b => bool_decide (a = b)
  | _, _ => false                     (** two objects are never the same here *)
  end.

(** [v == null] *)
Definition nullish (v : jsval) : bool := match v with VUndef | VNull => true | _ => false end.

(** [Math.round], to the nearest integer, halves upwards. *)
Definition Math_round (f : spec_float) : num :=
  match f with
  | S754_finite s m e =>
      let v := if s then Z.neg m else Z.pos m in
      let r := if 0 <=? e then v * 2 ^ e else (2 * v + 2 ^ (- e)) / (2 * 2 ^ (- e)) in
      if Z.abs r <? 2 ^ 53 then Int r else Flt f
  | S754_zero _ => Int 0
  | _ => Flt f
  end.

(** [v / n], both converted to Numbers. *)
Definition divided (v : jsval) (n : Z) : outcome spec_float :=
  match v, Number v with
  | VBigInt _, _ => Throw (TypeError "Cannot mix BigInt and other types, use explicit conversions")
  | _, VNum x => Ok (SFdiv 53 1024 (num_float x) (num_float (Int n)))
  | _, _ => Ok S754_nan
  end.

(** [v?.slice(0, 10)] and [v?.slice(-6)]: the texts shown. *)
Definition slice_hash `{React} (v : jsval) : outcome (list string * list string) :=
  match v with
  | VUndef | VNull => Ok ([], [])
  | VStr s => Ok ([String.substring 0 10 s], [String.substring (String.length s - 6) 6 s])
  | VArr l =>
      a ← child (VArr (take 10 l)); b ← child (VArr (drop (length l - 6) l)); Ok (a, b)
  | _ => Throw (TypeError "slice is not a function")
  end.

(** ** components/ClaimStatusBadge.jsx *)
Definition STATUS_LABELS : list (string * string) :=
  [("draft", "Draft"); ("submitted", "Submitted"); ("under_review", "Under Review");
   ("approved", "Approved"); ("rejected", "Rejected"); ("paid", "Paid")].
Definition ClaimStatusBadge (status : string) : string := default status (assoc status STATUS_LABELS).

Section views.
Context (E : WebEnv) {R : React}.

(** [{STATUS_LABELS[status] || status}]: the key is the value's text. *)
Definition render_status (status : jsval) : outcome (list string) :=
  match assoc (js_to_string status) STATUS_LABELS with
  | Some label => child (VStr label)
  | None => child status
  end.

(** [{v.k}] *)
Definition child_of (v : jsval) (k : string) : outcome (list string) := js_get v k ≫= child.

(** ** pages/FileClaim.jsx *)
Record FormView := mkFormView {
  fv_button : string;
  fv_disabled : bool;
  fv_error : option (list string);
  fv_result : option (list string * list string);      (** claim and transaction *)
}.

Definition render_FileClaim (s : FileClaim) : outcome FormView :=
  error ← when_truthy (fc_error s);
  result ← (if truthy (fc_result s) then
              id ← child_of (fc_result s) "claimId"; tx ← child_of (fc_result s) "txHash"; Ok (Some (id, tx))
            else Ok None);
  Ok (mkFormView
    (match fc_step s with
     | Creating => "Saving claim…" | SubmittingOnchain => "Confirm in wallet…" | Idle | Done => "Submit Claim" end)
    (match fc_step s with Idle | Done => false | _ => true end) error result).

(** ** pages/BuyPolicy.jsx *)
Record PlanView := mkPlan {
  plan_id : list string;
  plan_coverage : string;
  plan_premium : string;
  plan_days : num;
  plan_disabled : bool;
  plan_label : string;
}.
Inductive CatalogView :=
  | CatalogError (t : list string)
  | CatalogLoading
  | CatalogPlans (plans : list PlanView) (error : option (list string))
      (result : option (list string * list string * list string)).

Definition render_plan (subscribing t : jsval) : outcome PlanView :=
  coverage ← (js_get t "coverage_amount_wei" ≫= formatWei E);
  premium ← (js_get t "premium_amount_per_period_wei" ≫= formatWei E);
  days ← (js_get t "period_seconds" ≫= λ v, divided v 86400);
  id ← js_get t "template_id";
  shown ← child id;
  Ok (mkPlan shown coverage premium (Math_round days) (negb (strict_eq subscribing VNull))
        (if strict_eq subscribing id then "Confirm in wallet…" else "Subscribe")).

Definition render_BuyPolicy (s : BuyPolicy) : outcome CatalogView :=
  if truthy (bp_error s) && negb (truthy (templates s)) then t ← child (bp_error s); Ok (CatalogError t)
  else if strict_eq (templates s) VNull then Ok CatalogLoading
  else match templates s with
  | VArr l =>
      plans ← mapM (render_plan (subscribing s)) l;
      error ← when_truthy (bp_error s);
      result ← (if truthy (bp_result s) then
                  id ← child_of (bp_result s) "templateId";
                  approve ← child_of (bp_result s) "approveTxHash";
                  subscribe ← child_of (bp_result s) "subscribeTxHash";
                  Ok (Some (id, approve, subscribe))
                else Ok None);
      Ok (CatalogPlans plans error result)
  | _ => Throw (TypeError "templates.map is not a function")
  end.

(** ** pages/Dashboard.jsx *)
Record ClaimCard := mkCard {
  card_id : list string;
  card_policy : list string;
  card_amount : list string;
  card_status : list string;
  card_onchain : option (list string * (list string * list string));   (** its claim and the cut hash *)
  card_badge : jsval;                                    (** the policy of the premium badge *)
}.
Inductive DashboardView :=
  | DashboardError (t : list string)
  | DashboardLoading
  | DashboardClaims (cards : list ClaimCard).

Definition render_card (c : jsval) : outcome ClaimCard :=
  id ← child_of c "id"; policy ← child_of c "policy_id"; amount ← child_of c "declared_amount";
  status ← (js_get c "status" ≫= render_status);
  onchain_id ← js_get c "onchain_claim_id";
  onchain ← (if nullish onchain_id then Ok None
             else t ← child onchain_id; h ← (js_get c "tx_hash" ≫= slice_hash); Ok (Some (t, h)));
  badge ← js_get c "policy_id";
  Ok (mkCard id policy amount status onchain badge).

Definition render_Dashboard (s : Dashboard) : outcome DashboardView :=
  if truthy (db_error s) then t ← child (db_error s); Ok (DashboardError t)
  else if strict_eq (claims s) VNull then Ok DashboardLoading
  else match claims s with
  | VArr l => cards ← mapM render_card l; Ok (DashboardClaims cards)
  | _ => Throw (TypeError "claims.map is not a function")
  end.

(** ** pages/ClaimStatus.jsx *)
Record ClaimDetails := mkDetails {
  cd_id : list string;
  cd_status : list string;
  cd_policy : list string;
  cd_amount : list string;
  cd_onchain : option (list string);
  cd_transaction : option (list string);
  cd_trigger : option (string * bool);                   (** label, disabled *)
}.

Definition render_details (verifying : bool) (c : jsval) : outcome ClaimDetails :=
  id ← child_of c "id"; status ← (js_get c "status" ≫= render_status);
  policy ← child_of c "policy_id"; amount ← child_of c "declared_amount";
  onchain_id ← js_get c "onchain_claim_id";
  onchain ← (if nullish onchain_id then Ok None else t ← child onchain_id; Ok (Some t));
  tx ← (js_get c "tx_hash" ≫= when_truthy);
  st ← js_get c "status";
  Ok (mkDetails id status policy amount onchain tx
    (if strict_eq st (VStr "submitted")
     then Some (if verifying then "Requesting verification…" else "Trigger Verification", verifying) else None)).

(** The error and the claim. *)
Definition render_ClaimStatus (s : ClaimStatus) : outcome (option (list string) * option ClaimDetails) :=
  error ← when_truthy (cs_error s);
  details ← (if truthy (claim s) then d ← render_details (verifying s) (claim s); Ok (Some d) else Ok None);
  Ok (error, details).

(** ** components/PremiumStatusBadge.jsx *)
Inductive BadgeView :=
  | ShowLoadError (t : list string)
  | Checking
  | PremiumCurrent (paidUntil : jsval)                   (** the second its date is made from *)
  | PremiumLapsed (premiumEther : string) (disabled : bool) (payError : option (list string)).

Definition render_badge (s : Badge) : outcome BadgeView :=
  if truthy (loadError s) then t ← child (loadError s); Ok (ShowLoadError t)
  else if strict_eq (status s) VNull then Ok Checking
  else
    current ← js_get (status s) "premium_current";
    if truthy current then until ← js_get (status s) "premium_paid_until"; Ok (PremiumCurrent until)
    else
      premiumEther ← (js_get (status s) "premium_amount_per_period_wei" ≫= formatWei E);
      error ← when_truthy (payError s);
      Ok (PremiumLapsed premiumEther (paying s) error).

(** The button of [can_trigger] is the one that is shown. *)
Lemma can_trigger_shown s d : render_ClaimStatus s = Ok d → ∃ b, can_trigger s = Ok b ∧
  (b = true ↔ ∃ label details, d.2 = Some details ∧ cd_trigger details = Some (label, false)).
Proof.
  unfold render_ClaimStatus, can_trigger. intros H. outcome_inv H. injection H as <-. cbn [snd].
  destruct (truthy (claim s)).
  2: { injection Hret0 as <-. exists false. split; [done|]. split; [done|by intros (? & ? & ? & _)]. }
  outcome_inv Hret0. injection Hret0 as <-. unfold render_details in Hret1. outcome_inv Hret1.
  injection Hret1 as <-. match goal with H : js_get _ "status" = Ok ?st |- _ => rewrite H; clear H; rename st into v end.
  eexists. split; [done|]. split.
  - intros [Hv Hn]%andb_true_iff. destruct v; try done. apply bool_decide_eq_true in Hv as ->.
    apply negb_true_iff in Hn. rewrite Hn. by eexists _, _.
  - intros (label & details & [= <-] & Hc). cbn in Hc. destruct (strict_eq v (VStr "submitted")) eqn:Hv; [|done].
    injection Hc as _ ->. destruct v; try done. simpl in Hv |- *. by rewrite Hv.
Qed.
End views.
