(* ===== verification/FrontendStatus.v ===== *)
(** * pages/ClaimStatus.jsx with overlapping handlers

    A lookup and a verification request can be in flight together: the
    handlers are cut at their awaits ([search_start], [trigger_start],
    [status_advance]), [status_step] lets any of them continue next, and the
    invariant [page_ok] says what every reachable page satisfies.  The
    backend stores its answer to a verification under the idempotency key
    alone (backend/app/routes/claims_routes.py), so the page must never send
    one key for two claims. *)

From S2P Require Import Prelude JsValue JsText Buffer FrontendContract FrontendPages.

(** What an [await] will resume with. *)
Definition sent {S A} (m : Js S A) : Js S (outcome A) := λ w, (Ok (m w).1, (m w).2).

(** A handler at one of its awaits. *)
Inductive StatusPhase :=
  | SearchAnswered (res : outcome jsval)
  | TriggerAnswered (id : jsval) (res : outcome jsval)
  | RefreshAnswered (id : jsval) (res : outcome jsval)
  | Settled.

(** Runs of handlers, case by case on what is answered. *)
Ltac run_both := repeat (cbn; match goal with
  | |- context [match answer ?E ?n ?a with _ => _ end] => destruct (answer E n a)
  | |- context [match js_get ?v ?k with _ => _ end] => destruct (js_get v k) as [?|[]] eqn:?
  end).
Ltac unfold_js := unfold act, finally, try_catch, sent, set_page, modify, draw, lift, mbind, js_bind, mret, js_ret.

Section segments.
Context (E : WebEnv).

Definition search_start (token : jsval) (claimId : string) : Js (Web ClaimStatus) StatusPhase :=
  set_page (setCsError VNull) ;;
  set_page (setClaim VNull) ;;
  res ← sent (getClaim E token (VStr claimId));
  mret (SearchAnswered res).

Definition search_end (res : outcome jsval) : Js (Web ClaimStatus) unit :=
  try_catch (
    res ← lift res;
    data ← lift (js_get res "data");
    set_page (setClaim data) ;;
    uuid ← draw (randomUUID E);
    set_page (setIdempotencyKey (VStr uuid)))
  (λ err, set_page (setCsError (detail_or E err "Claim not found."))).

(** The end of a verification: [catch] and [finally]. *)
Definition trigger_end (m : Js (Web ClaimStatus) unit) : Js (Web ClaimStatus) StatusPhase :=
  finally (try_catch m
    (λ err, set_page (setCsError (detail_or E err "Verification request failed."))))
    (set_page (setVerifying false)) ;;
  mret Settled.

Definition trigger_start (token render_claim render_key : jsval) : Js (Web ClaimStatus) StatusPhase :=
  set_page (setVerifying true) ;;
  set_page (setCsError VNull) ;;
  match js_get render_claim "id" with
  | Ok id => res ← sent (triggerVerification E token id render_key); mret (TriggerAnswered id res)
  | Throw e => trigger_end (throw e)
  end.

Definition status_advance (token : jsval) (ph : StatusPhase) : Js (Web ClaimStatus) StatusPhase :=
  match ph with
  | SearchAnswered res => search_end res ;; mret Settled
  | TriggerAnswered id (Ok _) => res ← sent (getClaim E token id); mret (RefreshAnswered id res)
  | TriggerAnswered id (Throw e) => trigger_end (throw e)
  | RefreshAnswered id res => trigger_end (
      refreshed ← lift res;
      data ← lift (js_get refreshed "data");
      set_page (setClaim data))
  | Settled => mret Settled
  end.

(** The page: the handlers in flight.  The lookup button is always there;
    the other one only as [can_trigger] says, and it works on the claim and
    the key of the page it is shown on. *)
Inductive status_step : list StatusPhase * Web ClaimStatus → list StatusPhase * Web ClaimStatus → Prop :=
  | step_search phs w token claimId ph w' :
      search_start token claimId w = (Ok ph, w') → status_step (phs, w) (phs ++ [ph], w')
  | step_trigger phs w token ph w' :
      can_trigger (page w) = Ok true →
      trigger_start token (claim (page w)) (idempotencyKey (page w)) w = (Ok ph, w') →
      status_step (phs, w) (phs ++ [ph], w')
  | step_status phs w token i ph ph' w' :
      phs !! i = Some ph → status_advance token ph w = (Ok ph', w') →
      status_step (phs, w) (<[i := ph']> phs, w').

(** ** The segments run one after the other are the handlers *)
Lemma search_is_its_segments token claimId w :
  (ph ← search_start token claimId; status_advance token ph) w =
  (handleSearch E token claimId ;; mret Settled) w.
Proof.
  unfold search_start, handleSearch, getClaim, status_advance, search_end. unfold_js. run_both; done.
Qed.

Lemma trigger_is_its_segments token c key w :
  (ph ← trigger_start token c key; ph ← status_advance token ph; status_advance token ph) w =
  (handleTriggerVerification E token c key ;; mret Settled) w.
Proof.
  unfold trigger_start, handleTriggerVerification, triggerVerification, getClaim, status_advance, trigger_end.
  unfold_js. run_both; done.
Qed.
End segments.

(** ** What one segment does to the page *)

(** The requests that carry an idempotency key: path and key, in order. *)
Definition post_of (a : Action) : option (string * jsval) :=
  match a with HttpPost path _ _ (Some key) => Some (path, key) | _ => None end.
Definition posts {P} (w : Web P) : list (string * jsval) := omap post_of (actions w).

Definition trigger_path (id : jsval) : string := "/claims/" +:+ js_to_string id +:+ "/trigger-verification".

(** The claim a verification in flight is for. *)
Definition trig (ph : StatusPhase) : option jsval :=
  match ph with TriggerAnswered id _ | RefreshAnswered id _ => Some id | _ => None end.

(** An identifier as the backend numbers its claims. *)
Definition claim_number (v : jsval) : Prop := ∃ z, v = VNum (Int z).
(** A claim the page offers to verify. *)
Definition submitted (v : jsval) : Prop := truthy v = true ∧ js_get v "status" = Ok (VStr "submitted").

(** What the backend promises of [GET /claims/{id}]: a claim has a number,
    the one asked for. *)
Class ClaimsApi (E : WebEnv) := {
  claim_answered n s t r d :
    answer E n (HttpGet ("/claims/" +:+ s) VUndef t) = inl r → js_get r "data" = Ok d → submitted d →
    ∃ id, js_get d "id" = Ok id ∧ claim_number id ∧
      ∀ id', claim_number id' → s = js_to_string id' → id = id';
}.

(** An answer to a [GET] of this claim. *)
Definition answers_get (E : WebEnv) (s : string) (res : outcome jsval) : Prop :=
  ∀ r, res = Ok r → ∃ n t, answer E n (HttpGet ("/claims/" +:+ s) VUndef t) = inl r.
Definition phase_ok (E : WebEnv) (ph : StatusPhase) : Prop :=
  match ph with
  | SearchAnswered res => ∃ s, answers_get E s res
  | TriggerAnswered id _ => claim_number id
  | RefreshAnswered id res => claim_number id ∧ answers_get E (js_to_string id) res
  | Settled => True
  end.

Section effects.
Context (E : WebEnv).

(** [tr] and [tr']: the verification the segment belongs to, before and
    after. *)
Inductive effect (w w' : Web ClaimStatus) : option jsval → option jsval → Prop :=
  | effect_quiet tr :
      posts w' = posts w → (randoms w <= randoms w')%nat → verifying (page w') = verifying (page w) →
      idempotencyKey (page w') = idempotencyKey (page w) →
      (claim (page w') = claim (page w) ∨ claim (page w') = VNull) → effect w w' tr tr
  | effect_found s r :
      posts w' = posts w → randoms w' = S (randoms w) → verifying (page w') = verifying (page w) →
      idempotencyKey (page w') = VStr (randomUUID E (randoms w)) →
      answers_get E s (Ok r) → js_get r "data" = Ok (claim (page w')) → effect w w' None None
  | effect_post id :
      posts w' = posts w ++ [(trigger_path id, idempotencyKey (page w))] → randoms w' = randoms w →
      verifying (page w') = true → idempotencyKey (page w') = idempotencyKey (page w) →
      claim (page w') = claim (page w) → js_get (claim (page w)) "id" = Ok id →
      verifying (page w) = false → submitted (claim (page w)) → effect w w' None (Some id)
  | effect_settle id :
      posts w' = posts w → randoms w' = randoms w → verifying (page w') = false →
      idempotencyKey (page w') = idempotencyKey (page w) →
      (claim (page w') = claim (page w) ∨
       ∃ r, answers_get E (js_to_string id) (Ok r) ∧ js_get r "data" = Ok (claim (page w'))) →
      effect w w' (Some id) None.

Lemma sent_act a (w : Web ClaimStatus) : sent (act E a) w =
  (Ok (act E a w).1, mkWeb (page w) (S (web_clock w)) (randoms w) (actions w ++ [a])).
Proof. done. Qed.
Lemma answers_sent s t (w : Web ClaimStatus) : answers_get E s (act E (HttpGet ("/claims/" +:+ s) VUndef t) w).1.
Proof. intros r H. exists (web_clock w), t. unfold act in H. simpl in H. by destruct (answer E _ _); simplify_eq. Qed.
Lemma posts_snoc (w : Web ClaimStatus) (p : ClaimStatus) c n a : posts (mkWeb p c n (actions w ++ [a])) = posts w ++ omap post_of [a].
Proof. unfold posts. simpl. by rewrite omap_app. Qed.

Lemma search_start_effect token claimId w ph w' : search_start E token claimId w = (Ok ph, w') →
  effect w w' None (trig ph) ∧ phase_ok E ph.
Proof.
  unfold search_start, getClaim. rewrite !bind_set_page, bind_run, sent_act. cbn [page web_clock randoms actions].
  intros H. injection H as <- <-. split; [|exists claimId; apply (answers_sent (js_to_string (VStr claimId)))].
  apply effect_quiet; simpl; auto. by rewrite posts_snoc, app_nil_r.
Qed.

Lemma can_trigger_true s : can_trigger s = Ok true → verifying s = false ∧ submitted (claim s).
Proof.
  unfold can_trigger, submitted. destruct (truthy (claim s)); [|done]. intros H.
  destruct (js_get (claim s) "status") as [st|e]; simpl in H; [|done].
  injection H as [Hst Hv]%andb_true_iff. split; [by destruct (verifying s)|]. split; [done|].
  destruct st; try done. by apply bool_decide_eq_true in Hst as ->.
Qed.

Lemma trigger_start_effect token w ph w' id : can_trigger (page w) = Ok true →
  js_get (claim (page w)) "id" = Ok id →
  trigger_start E token (claim (page w)) (idempotencyKey (page w)) w = (Ok ph, w') →
  effect w w' None (trig ph) ∧ ∃ res, ph = TriggerAnswered id res.
Proof.
  intros [Hv Hs]%can_trigger_true Hid. unfold trigger_start, triggerVerification.
  rewrite !bind_set_page, Hid, bind_run, sent_act.
  cbn [page web_clock randoms actions]. intros H. injection H as <- <-. split; [|by eexists].
  apply effect_post; simpl; auto. by rewrite posts_snoc.
Qed.

Lemma search_end_effect s res w : answers_get E s res → effect w (search_end E res w).2 None None.
Proof.
  intros Hs. unfold search_end. unfold_js. destruct res as [r|e].
  - destruct (js_get r "data") as [d|e] eqn:Hd; cbn.
    + by apply (effect_found _ _ s r).
    + apply effect_quiet; destruct e; simpl; auto.
  - apply effect_quiet; destruct e; simpl; auto.
Qed.

(** [finally] in any case; the claim only if the refresh answered. *)
Lemma refresh_effect id res w ph' w' : answers_get E (js_to_string id) res →
  trigger_end E (refreshed ← lift res; data ← lift (js_get refreshed "data"); set_page (setClaim data)) w = (Ok ph', w') →
  effect w w' (Some id) (trig ph').
Proof.
  intros Hs. unfold trigger_end. unfold_js. destruct res as [r|[]]; cbn.
  1: destruct (js_get r "data") as [d|[]] eqn:Hd; cbn.
  all: intros H; simplify_eq; apply effect_settle; cbn; auto.
  right. by exists r.
Qed.

Lemma status_advance_effect token ph w ph' w' : phase_ok E ph → status_advance E token ph w = (Ok ph', w') →
  effect w w' (trig ph) (trig ph') ∧ phase_ok E ph'.
Proof.
  destruct ph as [res|id res|id res|]; intros Hok H; cbn [status_advance] in H.
  - destruct Hok as [s Hs]. apply bind_ok_inv in H as ([] & w1 & H1 & H). injection H as <- <-.
    split; [|done]. pose proof (search_end_effect s res w Hs) as He. by rewrite H1 in He.
  - destruct res as [r|e].
    + unfold getClaim in H. rewrite bind_run, sent_act in H. injection H as <- <-.
      split; [|split; [done|apply answers_sent]]. apply effect_quiet; simpl; auto. by rewrite posts_snoc, app_nil_r.
    + split; [|by apply bind_ok_inv in H as (u & w1 & _ & H); injection H as <- _].
      by apply (refresh_effect id (Throw e)).
  - destruct Hok as [Hn Hs]. split; [by apply (refresh_effect id res)|].
    by apply bind_ok_inv in H as (u & w1 & _ & H); injection H as <- _.
  - injection H as <- <-. split; [|done]. by apply effect_quiet; auto.
Qed.
End effects.

(** ** The invariant of the page *)
Section page.
Context (E : WebEnv) {Api : ClaimsApi E} {Huuid : Inj (=) (=) (randomUUID E)}.

(** The page has a key a lookup drew. *)
Definition key_drawn (w : Web ClaimStatus) (key : jsval) : Prop :=
  ∃ n, key = VStr (randomUUID E n) ∧ (n < randoms w)%nat.
Definition in_flight (phs : list StatusPhase) (id : jsval) : Prop := ∃ i ph, phs !! i = Some ph ∧ trig ph = Some id.

Record page_ok (phs : list StatusPhase) (w : Web ClaimStatus) : Prop := {
  po_phases : Forall (phase_ok E) phs;
  po_busy id : in_flight phs id → verifying (page w) = true;
  po_one i j ph ph' id id' : phs !! i = Some ph → phs !! j = Some ph' → trig ph = Some id → trig ph' = Some id' → i = j;
  po_number : submitted (claim (page w)) → ∃ id, js_get (claim (page w)) "id" = Ok id ∧ claim_number id;
  po_key : submitted (claim (page w)) ∨ (∃ id, in_flight phs id) → key_drawn w (idempotencyKey (page w));
  po_posts path key : (path, key) ∈ posts w → key_drawn w key ∧ ∃ id, claim_number id ∧ path = trigger_path id;
  po_shown path id : (path, idempotencyKey (page w)) ∈ posts w → submitted (claim (page w)) →
    js_get (claim (page w)) "id" = Ok id → path = trigger_path id;
  po_flying path id : (path, idempotencyKey (page w)) ∈ posts w → in_flight phs id → path = trigger_path id;
  po_unique path path' key : (path, key) ∈ posts w → (path', key) ∈ posts w → path = path';
}.

Lemma in_flight_insert phs i ph' id : in_flight (<[i := ph']> phs) id →
  trig ph' = Some id ∨ ∃ j ph, j ≠ i ∧ phs !! j = Some ph ∧ trig ph = Some id.
Proof. intros (j & ph & [(<- & -> & _)|[? ?]]%list_lookup_insert_Some & Ht); eauto 10. Qed.

(** No handler but the [i]-th changes: the verifications in flight. *)
Lemma in_flight_sub phs i ph ph' id : phs !! i = Some ph → (trig ph' = trig ph ∨ trig ph' = None) →
  in_flight (<[i := ph']> phs) id → in_flight phs id.
Proof.
  intros Hi Ht [H|(j & ph1 & _ & Hj & H)]%in_flight_insert; [|by exists j, ph1].
  exists i, ph. split; [done|]. destruct Ht; congruence.
Qed.
Lemma one_sub phs w i ph ph' : page_ok phs w → phs !! i = Some ph → (trig ph' = trig ph ∨ trig ph' = None) →
  ∀ j k p q a b, <[i := ph']> phs !! j = Some p → <[i := ph']> phs !! k = Some q → trig p = Some a → trig q = Some b → j = k.
Proof.
  intros Hok Hi Ht j k p q a b [(<- & -> & _)|[? Hj]]%list_lookup_insert_Some
    [(<- & -> & _)|[? Hk]]%list_lookup_insert_Some Ha Hb; try done; try (by eapply (po_one _ _ Hok)).
  - destruct Ht as [Ht|Ht]; [rewrite Ht in Ha|congruence]. by eapply (po_one _ _ Hok).
  - destruct Ht as [Ht|Ht]; [rewrite Ht in Hb|congruence]. by eapply (po_one _ _ Hok).
Qed.

Lemma key_drawn_mono w w' key : (randoms w <= randoms w')%nat → key_drawn w key → key_drawn w' key.
Proof. intros H (n & -> & Hn). exists n. split; [done|lia]. Qed.
Lemma null_not_submitted : ¬ submitted VNull.
Proof. by intros [H _]. Qed.

Lemma quiet_ok phs w w' i ph ph' : page_ok phs w → phs !! i = Some ph → trig ph' = trig ph → phase_ok E ph' →
  posts w' = posts w → (randoms w <= randoms w')%nat → verifying (page w') = verifying (page w) →
  idempotencyKey (page w') = idempotencyKey (page w) →
  (claim (page w') = claim (page w) ∨ claim (page w') = VNull) → page_ok (<[i := ph']> phs) w'.
Proof.
  intros Hok Hi Ht Hph Hp Hr Hv Hk Hc.
  assert (∀ id, in_flight (<[i := ph']> phs) id → in_flight phs id) as Hsub by (intros id; eapply in_flight_sub; eauto).
  assert (submitted (claim (page w')) → submitted (claim (page w)) ∧ claim (page w') = claim (page w)) as Hsubm.
  { destruct Hc as [-> | ->]; [auto|by intros ?%null_not_submitted]. }
  split; rewrite ?Hp, ?Hv, ?Hk.
  - by apply Forall_insert; [apply Hok|].
  - intros id Hid. by eapply (po_busy _ _ Hok), Hsub.
  - eapply one_sub; eauto.
  - intros [Hs ->]%Hsubm. by apply (po_number _ _ Hok).
  - intros H. eapply key_drawn_mono; [done|]. apply (po_key _ _ Hok). destruct H as [[Hs _]%Hsubm|[id Hid]]; eauto.
  - intros path key [Hd Hx]%(po_posts _ _ Hok). split; [by eapply key_drawn_mono|done].
  - intros path id Hin [Hs ->]%Hsubm. by apply (po_shown _ _ Hok).
  - intros path id Hin Hid%Hsub. by apply (po_flying _ _ Hok).
  - apply (po_unique _ _ Hok).
Qed.

(** A claim the backend answered to [GET /claims/s]. *)
Lemma answered_claim s r d : answers_get E s (Ok r) → js_get r "data" = Ok d → submitted d →
  ∃ id, js_get d "id" = Ok id ∧ claim_number id ∧ ∀ id', claim_number id' → s = js_to_string id' → id = id'.
Proof. intros H Hd Hs. destruct (H r eq_refl) as (n & t & Ha). by eapply claim_answered. Qed.

(** A new key: nothing was posted with it. *)
Lemma found_ok phs w w' i ph ph' s r : page_ok phs w → phs !! i = Some ph → trig ph' = trig ph → phase_ok E ph' →
  posts w' = posts w → randoms w' = S (randoms w) → verifying (page w') = verifying (page w) →
  idempotencyKey (page w') = VStr (randomUUID E (randoms w)) →
  answers_get E s (Ok r) → js_get r "data" = Ok (claim (page w')) → page_ok (<[i := ph']> phs) w'.
Proof.
  intros Hok Hi Ht Hph Hp Hr Hv Hk Ha Hd.
  assert (∀ id, in_flight (<[i := ph']> phs) id → in_flight phs id) as Hsub by (intros id; eapply in_flight_sub; eauto).
  assert (∀ path, (path, idempotencyKey (page w')) ∉ posts w) as Hfresh.
  { rewrite Hk. intros path [(n & Heq & Hn) _]%(po_posts _ _ Hok). injection Heq as Heq%Huuid. lia. }
  split; rewrite ?Hp, ?Hv.
  - by apply Forall_insert; [apply Hok|].
  - intros id Hid. by eapply (po_busy _ _ Hok), Hsub.
  - eapply one_sub; eauto.
  - intros Hs. edestruct answered_claim as (id & Hid & Hn & _); eauto.
  - intros _. exists (randoms w). split; [done|lia].
  - intros path key [Hkd Hx]%(po_posts _ _ Hok). split; [|done]. eapply key_drawn_mono; [|done]. lia.
  - by intros path id ?%Hfresh.
  - by intros path id ?%Hfresh.
  - apply (po_unique _ _ Hok).
Qed.

(** The only verification, with the key of the page. *)
Lemma post_ok phs w w' i ph ph' id : page_ok phs w → phs !! i = Some ph → trig ph' = Some id → phase_ok E ph' →
  posts w' = posts w ++ [(trigger_path id, idempotencyKey (page w))] → randoms w' = randoms w →
  verifying (page w') = true → idempotencyKey (page w') = idempotencyKey (page w) →
  claim (page w') = claim (page w) → js_get (claim (page w)) "id" = Ok id →
  verifying (page w) = false → submitted (claim (page w)) → page_ok (<[i := ph']> phs) w'.
Proof.
  intros Hok Hi Ht Hph Hp Hr Hv' Hk Hc Hid Hv Hs.
  assert (∀ j q a, phs !! j = Some q → trig q = Some a → False) as Hnone.
  { intros j q a Hj Ha. enough (verifying (page w) = true) by congruence. apply (po_busy _ _ Hok a). by exists j, q. }
  assert (∀ a, in_flight (<[i := ph']> phs) a → a = id) as Hfly.
  { intros a [H|(j & q & _ & Hj & H)]%in_flight_insert; [congruence|]. by edestruct Hnone. }
  assert (claim_number id) as Hnum by (destruct (po_number _ _ Hok Hs) as (id' & Hid' & ?); congruence).
  assert (∀ path, (path, idempotencyKey (page w)) ∈ posts w' → path = trigger_path id) as Hpath.
  { intros path. rewrite Hp, elem_of_app. intros [H|H%list_elem_of_singleton]; [by apply (po_shown _ _ Hok)|by simplify_eq]. }
  assert (key_drawn w' (idempotencyKey (page w))) as Hkey.
  { apply (key_drawn_mono w); [by rewrite Hr|]. apply (po_key _ _ Hok). by left. }
  split; rewrite ?Hk, ?Hc.
  - by apply Forall_insert; [apply Hok|].
  - done.
  - intros j k p q a b [(<- & -> & _)|[? Hj]]%list_lookup_insert_Some [(<- & -> & _)|[? Hk']]%list_lookup_insert_Some Ha Hb;
      done || by edestruct Hnone.
  - apply (po_number _ _ Hok).
  - done.
  - intros path key. rewrite Hp, elem_of_app. intros [H|H%list_elem_of_singleton]; [|simplify_eq; eauto].
    destruct (po_posts _ _ Hok _ _ H) as [? ?]. split; [|done]. apply (key_drawn_mono w); [by rewrite Hr|done].
  - intros path a Hin%Hpath _ Ha. congruence.
  - by intros path a Hin%Hpath ->%Hfly.
  - intros p q key. rewrite Hp, !elem_of_app.
    intros [H1|H1%list_elem_of_singleton] [H2|H2%list_elem_of_singleton]; simplify_eq.
    + by eapply (po_unique _ _ Hok).
    + by apply (po_shown _ _ Hok).
    + symmetry. by apply (po_shown _ _ Hok).
    + done.
Qed.

(** The last segment of the only verification. *)
Lemma settle_ok phs w w' i ph ph' id : page_ok phs w → phs !! i = Some ph → trig ph = Some id → trig ph' = None →
  phase_ok E ph' → posts w' = posts w → randoms w' = randoms w → verifying (page w') = false →
  idempotencyKey (page w') = idempotencyKey (page w) →
  (claim (page w') = claim (page w) ∨
    ∃ r, answers_get E (js_to_string id) (Ok r) ∧ js_get r "data" = Ok (claim (page w'))) →
  claim_number id → page_ok (<[i := ph']> phs) w'.
Proof.
  intros Hok Hi Hti Ht Hph Hp Hr Hv Hk Hc Hnum.
  assert (∀ a, ¬ in_flight (<[i := ph']> phs) a) as Hnone.
  { intros a [H|(j & q & Hne & Hj & H)]%in_flight_insert; [congruence|]. by eapply Hne, (po_one _ _ Hok). }
  assert (in_flight phs id) as Hfly by (by exists i, ph).
  assert (∀ d, submitted d → (∃ r, answers_get E (js_to_string id) (Ok r) ∧ js_get r "data" = Ok d) →
    js_get d "id" = Ok id) as Hrefresh.
  { intros d Hs (r & Ha & Hd). edestruct answered_claim as (a & Hid & Hn & Heq); eauto. by rewrite <-(Heq id). }
  assert (key_drawn w' (idempotencyKey (page w))) as Hkey.
  { apply (key_drawn_mono w); [by rewrite Hr|]. apply (po_key _ _ Hok). eauto. }
  split; rewrite ?Hp, ?Hk.
  - by apply Forall_insert; [apply Hok|].
  - by intros a ?%Hnone.
  - eapply one_sub; eauto.
  - intros Hs. destruct Hc as [Hc|Hc]; [rewrite Hc in *; by apply (po_number _ _ Hok)|]. eauto.
  - done.
  - intros path key [Hkd Hx]%(po_posts _ _ Hok). split; [|done]. apply (key_drawn_mono w); [by rewrite Hr|done].
  - intros path a Hin Hs Ha. destruct Hc as [Hc|Hc]; [rewrite Hc in *; by apply (po_shown _ _ Hok)|].
    rewrite (Hrefresh _ Hs Hc) in Ha. injection Ha as <-. by apply (po_flying _ _ Hok).
  - by intros path a _ ?%Hnone.
  - apply (po_unique _ _ Hok).
Qed.

Lemma page_ok_effect phs w w' i ph ph' : page_ok phs w → phs !! i = Some ph →
  effect E w w' (trig ph) (trig ph') → phase_ok E ph' → page_ok (<[i := ph']> phs) w'.
Proof.
  intros Hok Hi He Hph. assert (phase_ok E ph) as Hphi by (eapply Forall_lookup_1; [apply Hok|done]).
  assert (∀ id, trig ph = Some id → claim_number id) as Hnum.
  { intros id. destruct ph; intros; simplify_eq/=; [done|by destruct Hphi]. }
  inversion He; [eapply quiet_ok|eapply found_ok|eapply post_ok|eapply settle_ok]; eauto; congruence.
Qed.

Lemma page_ok_append phs w : page_ok phs w → page_ok (phs ++ [Settled]) w.
Proof.
  intros Hok.
  assert (∀ i ph id, (phs ++ [Settled]) !! i = Some ph → trig ph = Some id → phs !! i = Some ph) as Hl.
  { intros i ph id [H|[_ H]]%lookup_app_Some Ht; [done|]. apply list_lookup_singleton_Some in H as [_ <-]. done. }
  assert (∀ id, in_flight (phs ++ [Settled]) id → in_flight phs id) as Hf by (intros id (i & ph & Hi & Ht); exists i, ph; eauto).
  destruct Hok as [Hph Hbusy Hone Hnum Hkey Hposts Hshown Hfly Huniq]. split; try done.
  - apply Forall_app. split; [done|by repeat constructor].
  - eauto.
  - intros i j p q a b Hi Hj Ha Hb. eapply (Hone i j p q); eauto.
  - intros [?|[id ?%Hf]]; eauto.
  - eauto.
Qed.

Lemma page_ok_start phs w w' ph : page_ok phs w → effect E w w' None (trig ph) → phase_ok E ph → page_ok (phs ++ [ph]) w'.
Proof.
  intros Hok He Hph. replace (phs ++ [ph]) with (<[length phs := ph]> (phs ++ [Settled]))
    by (rewrite insert_app_r_alt, Nat.sub_diag by lia; done).
  apply (page_ok_effect _ w _ _ Settled); [by apply page_ok_append| |done|done].
  by rewrite lookup_app_r, Nat.sub_diag by lia.
Qed.

Lemma page_ok_step phs w phs' w' : page_ok phs w → status_step E (phs, w) (phs', w') → page_ok phs' w'.
Proof.
  intros Hok H. inversion H as [? ? token claimId ph ? H1|? ? token ph ? Hc H1|? ? token i ph ph' ? Hi H1]; subst.
  - apply search_start_effect in H1 as [He Hph]. by eapply page_ok_start.
  - destruct (po_number _ _ Hok) as (id & Hid & Hn); [by apply can_trigger_true|].
    eapply trigger_start_effect in H1 as [He [res Hres]]; [|done..]. eapply page_ok_start; [done|exact He|by rewrite Hres].
  - assert (phase_ok E ph) as Hph by (eapply Forall_lookup_1; [apply Hok|done]).
    apply status_advance_effect in H1 as [He Hph']; [|done]. by eapply page_ok_effect.
Qed.

Lemma page_ok_reachable c c' : rtc (status_step E) c c' → page_ok c.1 c.2 → page_ok c'.1 c'.2.
Proof. induction 1 as [|[] [] c Hs _ IH]; [done|]. intros Hok. by eapply IH, page_ok_step. Qed.

Lemma page_ok_initial clock drawn : page_ok [] (mkWeb (mkClaimStatus VNull VNull false VNull) clock drawn []).
Proof.
  split; try done; try (by intros * ?%elem_of_nil).
  - by intros id (i & ph & ? & _).
  - by intros ?%null_not_submitted.
  - by intros [?%null_not_submitted|(id & i & ph & ? & _)].
Qed.
End page.

(** The page as it is first shown. *)
Definition opened (clock drawn : nat) : Web ClaimStatus := mkWeb (mkClaimStatus VNull VNull false VNull) clock drawn [].

(** C21: One key, one claim.  However lookups and verification requests of a
    page overlap, at most one verification is in flight, every request that
    carries a key is a verification of a numbered claim with a key some
    lookup drew, and no key is ever sent for two claims, so the backend's
    answer stored under a key is never given for another claim. *)
Theorem keys_identify_claims (E : WebEnv) {Api : ClaimsApi E} (clock drawn : nat) (phs : list StatusPhase)
    (w : Web ClaimStatus) :
  (∀ n m, randomUUID E n = randomUUID E m → n = m) →
  rtc (status_step E) ([], opened clock drawn) (phs, w) →
  (∀ i j ph ph' id id', phs !! i = Some ph → phs !! j = Some ph' → trig ph = Some id → trig ph' = Some id' → i = j) ∧
  (∀ path key, (path, key) ∈ posts w → key_drawn E w key ∧ ∃ id, claim_number id ∧ path = trigger_path id) ∧
  (∀ path path' key, (path, key) ∈ posts w → (path', key) ∈ posts w → path = path').
Proof.
  intros Hinj Hr. assert (Inj (=) (=) (randomUUID E)) as Huuid by exact Hinj.
  assert (page_ok E phs w) as [_ _ Hone _ _ Hposts _ _ Huniq] by (apply (page_ok_reachable E _ _ Hr), page_ok_initial).
  by split_and!.
Qed.

(** A backend that knows every claim; verifications fail. *)
Fixpoint skip (n : nat) (s : string) : string :=
  match n, s with S n, String _ s => skip n s | _, _ => s end.
Definition known_claim (z : Z) : jsval := VObj [("id", VNum (Int z)); ("status", VStr "submitted")].
Definition status_web : WebEnv := {|
  answer n a := match a with
    | HttpGet path _ _ => match undec (skip 8 path) with Some z => inl (VObj [("data", known_claim z)]) | None => inr "404" end
    | _ => inr "Network Error"
    end;
  getRandomValues n := [];
  randomUUID n := dec (Z.of_nat n);
  ZeroAddress := "0x0";
  parseEther s := inr "invalid";
  formatEther v := inr "invalid";
  toUtf8Bytes _ := inl [];
  getBytes _ := inl [];
  keccak256_concat l := "";
  JsonRpcProvider _ := inl tt;
  error_detail _ := VUndef;
|}.
#[export] Instance status_api : ClaimsApi status_web.
Proof.
  split. intros n s t r d. change (answer status_web n _)
    with (match undec s with Some z => inl (VObj [("data", known_claim z)]) | None => inr "404" end : jsval + string).
  destruct (undec s) as [z|] eqn:Hz; [|done]. intros H Hd _. injection H as <-. injection Hd as <-.
  exists (VNum (Int z)). split_and!; [done|by exists z|]. intros id' [z' ->] ->.
  change (js_to_string (VNum (Int z'))) with (dec z') in Hz. rewrite undec_dec in Hz. by injection Hz as ->.
Qed.

(** Claim 7 is looked up and its verification requested; claim 9 is looked up
    before the request has failed, and verified after it has. *)
Definition phase_after (m : outcome StatusPhase * Web ClaimStatus) : StatusPhase :=
  match m.1 with Ok ph => ph | Throw _ => Settled end.
Definition run1 := search_start status_web VNull "7" (opened 0 0).
Definition run2 := status_advance status_web VNull (phase_after run1) run1.2.
Definition run3 := trigger_start status_web VNull (claim (page run2.2)) (idempotencyKey (page run2.2)) run2.2.
Definition run4 := search_start status_web VNull "9" run3.2.
Definition run5 := status_advance status_web VNull (phase_after run4) run4.2.
Definition run6 := status_advance status_web VNull (phase_after run3) run5.2.
Definition run7 := trigger_start status_web VNull (claim (page run6.2)) (idempotencyKey (page run6.2)) run6.2.

Lemma keys_identify_claims_witness :
  posts run7.2 = [("/claims/7/trigger-verification", VStr "0"); ("/claims/9/trigger-verification", VStr "1")] ∧
  ∀ path path' key, (path, key) ∈ posts run7.2 → (path', key) ∈ posts run7.2 → path = path'.
Proof.
  split; [vm_compute; reflexivity|].
  apply (keys_identify_claims status_web 0 0 [phase_after run2; phase_after run6; phase_after run5; phase_after run7]).
  - intros n m H. by apply Nat2Z.inj, dec_inj.
  - eapply rtc_l; [apply (step_search status_web [] (opened 0 0) VNull "7" (phase_after run1) run1.2); vm_compute; reflexivity|].
    eapply rtc_l; [apply (step_status _ _ _ VNull 0%nat (phase_after run1) (phase_after run2) run2.2); vm_compute; reflexivity|].
    eapply rtc_l; [apply (step_trigger _ _ _ VNull (phase_after run3) run3.2); vm_compute; reflexivity|].
    eapply rtc_l; [apply (step_search _ _ _ VNull "9" (phase_after run4) run4.2); vm_compute; reflexivity|].
    eapply rtc_l; [apply (step_status _ _ _ VNull 2%nat (phase_after run4) (phase_after run5) run5.2); vm_compute; reflexivity|].
    eapply rtc_l; [apply (step_status _ _ _ VNull 1%nat (phase_after run3) (phase_after run6) run6.2); vm_compute; reflexivity|].
    eapply rtc_l; [apply (step_trigger _ _ _ VNull (phase_after run7) run7.2); vm_compute; reflexivity|].
    apply rtc_refl.
Defined.
