(* ===== verification/FrontendEffects.v ===== *)
(** * The loading effects of the pages, with answers in any order

    Dashboard, BuyPolicy and PremiumStatusBadge each fetch in a [useEffect]
    whose cleanup sets [cancelled].  The effect may run again (its
    dependencies changed, the component was mounted again) or be cleaned up
    at any time, requests are answered in any order, and the component's
    other handlers may run in between ([load_step]).  [Loaded] is what the
    effect needs of a component: where it puts the data and the error. *)

From S2P Require Import Prelude JsValue JsText Buffer FrontendContract FrontendPages FrontendStatus.

Class Loaded (P : Type) := {
  shown : P → jsval;
  set_shown : jsval → P → P;
  set_failed : jsval → P → P;
  load_fallback : string;
  shown_set v p : shown (set_shown v p) = v;
  shown_failed v p : shown (set_failed v p) = shown p;
}.

#[export, refine] Instance badge_loaded : Loaded Badge := {|
  shown := status; set_shown := setStatus; set_failed := setLoadError;
  load_fallback := "Could not load premium status." |}.
Proof. all: done. Defined.
#[export, refine] Instance catalog_loaded : Loaded BuyPolicy := {|
  shown := templates; set_shown := setTemplates; set_failed := setBpError;
  load_fallback := "Could not load the policy catalog." |}.
Proof. all: done. Defined.
#[export, refine] Instance claims_loaded : Loaded Dashboard := {|
  shown := claims;
  set_shown v s := mkDashboard v (db_error s); set_failed v s := mkDashboard (claims s) v;
  load_fallback := "Could not load claims." |}.
Proof. all: done. Defined.

Section effects.
Context (E : WebEnv) {P : Type} {L : Loaded P}.

(** The promise of one run of the effect, once answered. *)
Definition load_end (res : outcome jsval) (cancelled : bool) : Js (Web P) unit :=
  load E (lift res) cancelled set_shown set_failed load_fallback.

(** [loads !! g]: the answer to the [g]-th request, and once its promise has
    settled, whether its run was still live then; [live]: the run whose
    cleanup has not been called. *)
Record Mounted := mkMounted { live : option nat; loads : list (outcome jsval * option bool); web : Web P }.

Inductive load_step : Mounted → Mounted → Prop :=
  | effect_runs m a :
      load_step m (mkMounted (Some (length (loads m)))
        (loads m ++ [((act E a (web m)).1, None)]) (act E a (web m)).2)
  | effect_cleanup m : load_step m (mkMounted None (loads m) (web m))
  | load_settles m g res :
      loads m !! g = Some (res, None) →
      load_step m (mkMounted (live m) (<[g := (res, Some (bool_decide (live m = Some g)))]> (loads m))
        (load_end res (negb (bool_decide (live m = Some g))) (web m)).2)
  | other_handler m w' :
      shown (page w') = shown (page (web m)) → load_step m (mkMounted (live m) (loads m) w').

(** The data of a request that has settled, and of one whose run was live
    when it did. *)
Definition settled_with (m : Mounted) (g : nat) (d : jsval) : Prop :=
  ∃ r b, loads m !! g = Some (Ok r, Some b) ∧ js_get r "data" = Ok d.
Definition settled_live (m : Mounted) (g : nat) (d : jsval) : Prop :=
  ∃ r, loads m !! g = Some (Ok r, Some true) ∧ js_get r "data" = Ok d.

Record mounted_ok (initial : jsval) (m : Mounted) : Prop := {
  mo_live g : live m = Some g → length (loads m) = S g;
  mo_flag g res b : live m = Some g → loads m !! g = Some (res, Some b) → b = true;
  mo_origin : (shown (page (web m)) = initial ∧ ∀ g d, ¬ settled_live m g d) ∨
    ∃ g, settled_live m g (shown (page (web m))) ∧ ∀ g' d', settled_live m g' d' → (g' <= g)%nat;
}.

Lemma load_end_cancelled res w : (load_end res true w).2 = w.
Proof. unfold load_end, load. unfold_js. by destruct res as [r|[]]. Qed.
Lemma load_end_shown res w :
  (shown (page (load_end res false w).2) = shown (page w) ∧ ∀ r d, res = Ok r → js_get r "data" ≠ Ok d) ∨
  ∃ r, res = Ok r ∧ js_get r "data" = Ok (shown (page (load_end res false w).2)).
Proof.
  unfold load_end, load. unfold_js. destruct res as [r|[]]; cbn; rewrite ?shown_failed; auto.
  destruct (js_get r "data") as [d|[]] eqn:Hd; cbn; rewrite ?shown_failed.
  1: right; exists r; by rewrite shown_set.
  all: left; split; [done|]; intros r' d [= <-]; congruence.
Qed.
(** What settling a request changes. *)
Lemma settled_insert m g res b g' d l w : loads m !! g = Some (res, None) →
  settled_live (mkMounted l (<[g := (res, Some b)]> (loads m)) w) g' d ↔
  settled_live m g' d ∨ (g' = g ∧ b = true ∧ ∃ r, res = Ok r ∧ js_get r "data" = Ok d).
Proof.
  intros Hg. unfold settled_live. cbn. split.
  - intros (r & [(<- & [= -> ->] & _)|[? Hr]]%list_lookup_insert_Some & Hd); [right|left]; eauto.
  - intros [(r & Hr & Hd)|(-> & -> & r & -> & Hd)]; exists r; (split; [|done]).
    + rewrite list_lookup_insert_ne; [done|]. intros ->. congruence.
    + apply list_lookup_insert_eq. by eapply lookup_lt_Some.
Qed.

Lemma load_settles_ok initial m g res : mounted_ok initial m → loads m !! g = Some (res, None) →
  mounted_ok initial (mkMounted (live m) (<[g := (res, Some (bool_decide (live m = Some g)))]> (loads m))
    (load_end res (negb (bool_decide (live m = Some g))) (web m)).2).
Proof.
  intros [Hlive Hflag Horigin] Hg. split; cbn.
  - intros g' Hg'. rewrite length_insert. by apply Hlive.
  - intros g' res' b Hg' [(<- & [= _ <-] & _)|[_ Hr]]%list_lookup_insert_Some; [by apply bool_decide_eq_true_2|by eapply Hflag].
  - set (l := <[g := _]> (loads m)).
    assert (∀ w, (∀ g' d, settled_live (mkMounted (live m) l w) g' d ↔ settled_live m g' d) →
      shown (page w) = shown (page (web m)) →
      (shown (page w) = initial ∧ ∀ g' d, ¬ settled_live (mkMounted (live m) l w) g' d) ∨
      ∃ g', settled_live (mkMounted (live m) l w) g' (shown (page w)) ∧
        ∀ g'' d, settled_live (mkMounted (live m) l w) g'' d → (g'' <= g')%nat) as Hsame.
    { intros w Hs ->. destruct Horigin as [[Hi Hn]|(g' & Hg' & Hm)]; [left|right].
      - split; [done|]. intros g' d H%Hs. by eapply Hn.
      - exists g'. split; [by apply Hs|]. intros g'' d H%Hs. by eapply Hm. }
    unfold l in *.
    destruct (bool_decide_reflect (live m = Some g)) as [Hl|Hl]; cbn [negb] in *.
    + destruct (load_end_shown res (web m)) as [[Hs Hno]|(r & -> & Hd)].
      * apply Hsame; [|done]. intros g' d. rewrite settled_insert by done. split; [|by left].
        intros [?|(_ & _ & r & Hr & Hd)]; [done|by destruct (Hno r d)].
      * right. exists g. rewrite settled_insert by done. split; [right; eauto|].
        intros g' d' (r' & Hr' & _). apply lookup_lt_Some in Hr'. cbn in Hr'. rewrite length_insert, (Hlive g Hl) in Hr'. lia.
    + rewrite load_end_cancelled. apply Hsame; [|done]. intros g' d. rewrite settled_insert by done.
      split; [by intros [?|(_ & ? & _)]|by left].
Qed.

Lemma mounted_ok_step initial m m' : mounted_ok initial m → load_step m m' → mounted_ok initial m'.
Proof.
  intros Hok Hstep. pose proof Hok as [Hlive Hflag Horigin].
  destruct Hstep as [m a|m|m g res Hg|m w' Hw].
  - assert (∀ g d l w, settled_live (mkMounted l (loads m ++ [((act E a (web m)).1, None)]) w) g d ↔ settled_live m g d) as Hs.
    { intros g d l w. split; intros (r & Hr & Hd); exists r; (split; [|done]); [|by apply lookup_app_l_Some].
      apply lookup_app_Some in Hr as [Hr|[_ Hr]]; [done|]. by apply list_lookup_singleton_Some in Hr as [_ ?]. }
    split; cbn.
    + intros g [= <-]. rewrite length_app. simpl. lia.
    + intros g res b [= <-]. rewrite lookup_app_r, Nat.sub_diag by done. by intros [=].
    + destruct Horigin as [[Hi Hn]|(g & Hg & Hm)]; [left; split; [done|]; intros g d H%Hs; by eapply Hn|right].
      exists g. split; [by apply Hs|]. intros g' d' H%Hs. by eapply Hm.
  - by split; cbn.
  - by apply load_settles_ok.
  - split; cbn; rewrite ?Hw; done.
Qed.

Lemma mounted_ok_reachable initial m m' : rtc load_step m m' → mounted_ok initial m → mounted_ok initial m'.
Proof. induction 1; [done|]. intros Hok. by eapply IHrtc, mounted_ok_step. Qed.

(** An effect that is not overtaken: its request, then its promise. *)
Lemma load_is_its_segments a cancelled (w : Web P) :
  load E (act E a) cancelled set_shown set_failed load_fallback w =
  (res ← sent (act E a); load_end res cancelled) w.
Proof. unfold load_end, load. unfold_js. run_both; done. Qed.
End effects.

(** The payment handlers are such other handlers. *)
Definition keeps_shown {P} `{Loaded P} (w w' : Web P) : Prop := shown (page w') = shown (page w).
#[export] Instance keeps_shown_preorder {P} `{Loaded P} : PreOrder keeps_shown.
Proof. split; [done|]. intros w1 w2 w3. unfold keeps_shown. congruence. Qed.
Lemma set_page_keeps {P} `{Loaded P} (f : P → P) : (∀ p, shown (f p) = shown p) → moves keeps_shown (set_page f).
Proof. intros Hf w. apply Hf. Qed.
Lemma same_page_keeps {P A} `{Loaded P} (m : Js (Web P) A) : moves same_page m → moves keeps_shown m.
Proof. apply moves_weaken. intros w w' Hp. unfold keeps_shown. by rewrite Hp. Qed.

Lemma handlePay_keeps E V st policyId : moves keeps_shown (handlePay E V st policyId).
Proof.
  assert (∀ e, moves keeps_shown (payPremiumOnChain (P := Badge) E V policyId e)) by (intros e; apply same_page_keeps, pay_same_page).
  assert (∀ a, moves keeps_shown (act (P := Badge) E a)) by (intros a; apply same_page_keeps, act_same_page).
  unfold handlePay, formatWei. solve_moves; by apply set_page_keeps.
Qed.
Lemma handleSubscribe_keeps E V template : moves keeps_shown (handleSubscribe E V template).
Proof.
  assert (∀ e t, moves keeps_shown (subscribeToPolicyOnChain (P := BuyPolicy) E V t e)) by (intros e t; apply same_page_keeps, subscribe_same_page).
  assert (∀ a, moves keeps_shown (act (P := BuyPolicy) E a)) by (intros a; apply same_page_keeps, act_same_page).
  unfold handleSubscribe, formatWei. solve_moves; by apply set_page_keeps.
Qed.

(** C22: The last request wins.  However often an effect runs again, is
    cleaned up, and in whatever order its requests are answered between
    other handlers: once the request of the live run has settled with data,
    the component's state holds exactly that data; and it never holds
    anything but its initial value or the data of a request whose run was
    live when it settled, the latest such request.  So the answer of a run
    cancelled before it came is never stored.  (What is shown for that state
    is another matter: a badge may go on showing an error, C32.) *)
Theorem latest_load_shown (E : WebEnv) {P : Type} {L : Loaded P} (w0 : Web P) (m : @Mounted P) :
  rtc (load_step E) (mkMounted None [] w0) m →
  (∀ g d, live m = Some g → settled_with m g d → shown (page (web m)) = d) ∧
  ((shown (page (web m)) = shown (page w0) ∧ ∀ g d, ¬ settled_live m g d) ∨
   ∃ g, settled_live m g (shown (page (web m))) ∧ ∀ g' d', settled_live m g' d' → (g' <= g)%nat).
Proof.
  intros Hr. assert (mounted_ok (shown (page w0)) m) as [Hlive Hflag Horigin].
  { apply (mounted_ok_reachable E _ _ _ Hr). split; cbn; [done|done|left]. split; [done|]. by intros g d (r & Hg & _). }
  split; [|done]. intros g d Hl (r & b & Hg & Hd). rewrite (Hflag g _ b Hl Hg) in Hg.
  assert (settled_live m g d) as Hs by (by exists r).
  destruct Horigin as [[_ Hn]|(g' & (r' & Hr' & Hd') & Hmax)]; [by destruct (Hn g d)|].
  pose proof (Hmax _ _ Hs) as Hle. pose proof (lookup_lt_Some _ _ _ Hr') as Hlt. rewrite (Hlive g Hl) in Hlt.
  assert (g' = g) as -> by lia. congruence.
Qed.

(** A badge whose first request is answered last, after a payment. *)
Definition premium_status (current : bool) : jsval := VObj [("premium_current", VBool current)].
Definition slow_web : WebEnv := {|
  answer n a := inl (VObj [("data", premium_status (negb (n =? 0)%nat))]);
  getRandomValues n := [];
  randomUUID n := dec (Z.of_nat n);
  ZeroAddress := "0x0";
  parseEther s := inr "invalid";
  formatEther v := inr "invalid";
  toUtf8Bytes _ := inl [];
  getBytes _ := inl [];
  keccak256_concat l := "";
  JsonRpcProvider _ := inl tt;
  error_detail _ := VUndef;
|}.
Definition status_request : Action := HttpGet "/policies/9/status" VUndef None.
Definition badge_start : @Mounted Badge := mkMounted None [] (mkWeb badge_initial 0 0 []).
Definition badge_requested : Web Badge := (act slow_web status_request (web badge_start)).2.
Definition badge_paid : Web Badge :=
  mkWeb (setTxHash (VStr "0xmined") (page badge_requested)) 1 0 (actions badge_requested).
Definition badge_again : Web Badge := (act slow_web status_request badge_paid).2.
Definition stale : outcome jsval := Ok (VObj [("data", premium_status false)]).
Definition current : outcome jsval := Ok (VObj [("data", premium_status true)]).
Definition badge_settled : Web Badge := (load_end slow_web current false badge_again).2.

Lemma latest_load_shown_witness : status (page badge_settled) = premium_status true ∧
  shown (page badge_settled) = premium_status true.
Proof.
  split; [vm_compute; reflexivity|].
  apply (latest_load_shown slow_web (web badge_start) (mkMounted (Some 1%nat) [(stale, Some false); (current, Some true)] badge_settled))
    with (g := 1%nat).
  - eapply rtc_l; [apply (effect_runs slow_web badge_start status_request)|].
    eapply rtc_l; [apply (other_handler _ _ badge_paid); reflexivity|].
    eapply rtc_l; [apply (effect_runs slow_web (mkMounted (Some 0%nat) [(stale, None)] badge_paid) status_request)|].
    eapply rtc_l; [apply (load_settles slow_web (mkMounted (Some 1%nat) [(stale, None); (current, None)] badge_again) 1 current); reflexivity|].
    eapply rtc_l; [apply (load_settles slow_web (mkMounted (Some 1%nat) [(stale, None); (current, Some true)] badge_settled) 0 stale); reflexivity|].
    apply rtc_refl.
  - reflexivity.
  - do 2 eexists. split; reflexivity.
Defined.
