(* ===== verification/FrontendRuns.v ===== *)
(** * What the frontend's handlers do

    Paying a premium in two steps, filing a claim whose on-chain root is the
    one the backend stored, and verifications whose retries share one key. *)

From S2P Require Import Prelude JsValue JsText Buffer React FrontendContract FrontendPages FrontendViews.
From Stdlib Require Import Strings.Byte Strings.Ascii.

(** ** Paying *)
Section pay_block.
Context {P R : Type} (E : WebEnv) (V : ViteEnv).
Context (chain : string → Js (Web P) R) (f : R → P → P) (obj : jsval) (method : string) (arg : jsval) (premium : Z).
Context (Hether : ∀ z s, formatEther E (VStr (dec z)) = inl s → parseEther E s = inl z).
Context (Hwei : js_get obj "premium_amount_per_period_wei" = Ok (VStr (dec premium))).
Context (Hpays : ∀ ether z, parseEther E ether = inl z → pays E V method arg z (chain ether)).
Context (Hpage : ∀ ether, moves same_page (chain ether)).

(** The [try] block of both payment handlers. *)
Definition pay_block : Js (Web P) unit :=
  _ ← act E GetSigner;
  wei ← lift (js_get obj "premium_amount_per_period_wei");
  premiumEther ← lift (formatWei E wei);
  r ← chain premiumEther;
  set_page (f r).

(** The actions of a payment that ended, and of one that may have stopped. *)
Definition paid (new : list Action) : Prop := ∃ l, payment E V method arg premium l ∧ new = GetSigner :: l.
Definition paying_part (new : list Action) : Prop :=
  new `prefix_of` [GetSigner] ∨ ∃ l, payment E V method arg premium l ∧ new `prefix_of` GetSigner :: l.

Lemma pay_block_performs : (∃ l, payment E V method arg premium l ∧ performs E (GetSigner :: l) pay_block) ∨
  (∀ l, performs E (GetSigner :: l) pay_block).
Proof.
  unfold pay_block. destruct (formatEther E (VStr (dec premium))) as [ether|m] eqn:Hf.
  - destruct (Hpays ether premium (Hether premium ether Hf)) as [(l & Hl & Hp)|Hp]; [left; exists l; split; [done|]|right; intros l];
      apply performs_act_bind; intros _; apply performs_lift_bind; intros wei H; rewrite Hwei in H; injection H as <-;
      apply performs_lift_bind; intros e H; unfold formatWei in H; rewrite Hf in H; injection H as <-;
      rewrite <-(app_nil_r l); apply performs_bind; (done || (intros r; apply performs_set)).
  - right. intros l. apply performs_act_bind; intros _. apply performs_lift_bind; intros wei H.
    rewrite Hwei in H. injection H as <-. apply performs_lift_bind. unfold formatWei. by rewrite Hf.
Qed.

Lemma pay_block_runs w : ∃ new, actions (pay_block w).2 = actions w ++ new ∧ paying_part new ∧
  goes_on E (web_clock w) new ∧
  match (pay_block w).1 with
  | Ok _ => paid new ∧ answered E (web_clock w) new ∧ ∃ r, page (pay_block w).2 = f r (page w)
  | Throw _ => page (pay_block w).2 = page w
  end.
Proof.
  assert (∀ a w', pay_block w = (Ok a, w') → ∃ r, page w' = f r (page w)) as Hok.
  { intros a w'. unfold pay_block. intros H. apply bind_ok_inv in H as (x & w1 & (_ & Hp & _ & _)%act_ok & H).
    apply bind_ok_inv in H as (wei & w2 & [_ ->]%lift_ok & H). apply bind_ok_inv in H as (e & w2 & [_ ->]%lift_ok & H).
    apply bind_ok_inv in H as (r & w2 & H1 & H). injection H as _ <-. pose proof (Hpage e w1) as Hs. rewrite H1 in Hs. unfold same_page in Hs. cbn [snd] in Hs.
    exists r. simpl. by rewrite Hs, Hp. }
  assert (∀ e w', pay_block w = (Throw e, w') → page w' = page w) as Hthrow.
  { intros e w'. unfold pay_block. intros H. apply bind_throw_inv in H as [H|(x & w1 & H1 & H)].
    { pose proof (act_run E GetSigner w) as [_ Hr]. by rewrite H in Hr. }
    apply act_ok in H1 as (_ & Hp & _ & _).
    apply bind_throw_inv in H as [H|(y & w2 & H1 & H)]; [injection H as _ <-; done|]. apply lift_ok in H1 as [_ ->].
    apply bind_throw_inv in H as [H|(z & w2 & H1 & H)]; [injection H as _ <-; done|]. apply lift_ok in H1 as [_ ->].
    apply bind_throw_inv in H as [H|(z' & w2 & _ & H)]; [|done].
    pose proof (Hpage z w1) as Hs. rewrite H in Hs. unfold same_page in Hs. cbn [snd] in Hs. by rewrite Hs. }
  destruct pay_block_performs as [(l & Hl & Hp)|Hp].
  - destruct (Hp w) as (new & Hn & _ & Hg & Hpre & Hall). exists new. split_and!; [done|right; by exists l|done|].
    destruct (pay_block w) as [[a|e] w'] eqn:Hw; [|by eapply Hthrow].
    destruct (Hall a eq_refl) as [-> Ha]. split_and!; [by exists l|done|by eapply Hok].
  - destruct (Hp [] w) as (new & Hn & _ & Hg & Hpre & Hall). destruct (Hp [GetSigner] w) as (new' & Hn' & _ & _ & _ & Hall').
    rewrite Hn' in Hn. apply app_inv_head in Hn as ->. exists new. split_and!; [done|by left|done|].
    destruct (pay_block w) as [[a|e] w'] eqn:Hw; [exfalso|by eapply Hthrow].
    destruct (Hall a eq_refl) as [-> _], (Hall' a eq_refl) as [[=] _].
Qed.
End pay_block.

Lemma requireAddress_no_fuel E a n : requireAddress E a n ≠ Throw OutOfFuel.
Proof. destruct a as [[|c s]|]; simpl; try done. by destruct (bool_decide _). Qed.
#[export] Hint Resolve requireAddress_no_fuel : no_fuel.

Lemma pay_block_no_fuel {P R} E (chain : string → Js (Web P) R) f obj :
  (∀ e, no_fuel (chain e)) → no_fuel (pay_block E chain f obj).
Proof. intros Hc. unfold pay_block, formatWei. solve_no_fuel. Qed.
Lemma subscribe_no_fuel {P} E V t e : no_fuel (subscribeToPolicyOnChain (P := P) E V t e).
Proof. unfold subscribeToPolicyOnChain, approve_premium. solve_no_fuel. Qed.
Lemma pay_no_fuel {P} E V t e : no_fuel (payPremiumOnChain (P := P) E V t e).
Proof. unfold payPremiumOnChain, approve_premium, wait_hash. solve_no_fuel. Qed.

(** A payment handler from its first await: never rejects, ends in [done_]
    with the result of a whole payment or with an error of a part of one. *)
Section guarded.
Context {P R : Type} (E : WebEnv) (V : ViteEnv).
Context (chain : string → Js (Web P) R) (f : R → P → P) (g : exn → P → P) (done_ : P → P).
Context (obj : jsval) (method : string) (arg : jsval) (premium : Z).

Definition guarded_pay : Js (Web P) unit :=
  finally (try_catch (pay_block E chain f obj) (λ err, set_page (g err))) (set_page done_).

Lemma guarded_pay_runs w :
  (∀ z s, formatEther E (VStr (dec z)) = inl s → parseEther E s = inl z) →
  js_get obj "premium_amount_per_period_wei" = Ok (VStr (dec premium)) →
  (∀ ether z, parseEther E ether = inl z → pays E V method arg z (chain ether)) →
  (∀ ether, moves same_page (chain ether)) → (∀ ether, no_fuel (chain ether)) →
  ∃ w' new, guarded_pay w = (Ok tt, w') ∧ actions w' = actions w ++ new ∧ paying_part E V method arg premium new ∧
    goes_on E (web_clock w) new ∧
    ((paid E V method arg premium new ∧ answered E (web_clock w) new ∧ ∃ r, page w' = done_ (f r (page w))) ∨
     ∃ e, page w' = done_ (g e (page w))).
Proof.
  intros Hether Hwei Hpays Hpage Hfuel.
  destruct (pay_block_runs E V chain f obj method arg premium Hether Hwei Hpays Hpage w) as (new & Hn & Hpart & Hg & Hres).
  pose proof (pay_block_no_fuel E chain f obj Hfuel w) as Hf. unfold guarded_pay, finally, try_catch.
  destruct (pay_block E chain f obj w) as [[[]|e] w1]; cbn [fst snd] in *.
  - destruct Hres as (Hpaid & Ha & r & Hr). eexists _, new. split_and!; [done..|]. left. split_and!; [done..|].
    exists r. simpl. by rewrite Hr.
  - exists (mkWeb (done_ (g e (page w1))) (web_clock w1) (randoms w1) (actions w1)), new.
    split_and!; [by destruct e|done|done|done|]. right. exists e. simpl. by rewrite Hres.
Qed.
End guarded.

(** C18: Paying is approving first, and exactly.  Whatever the wallet and the
    chain answer, subscribing and paying a premium never reject, always
    release their button, and send at most: an approval of exactly the
    template's premium for the policy contract, the wait for it, the call,
    and the wait for that one, in this order; no call is made after one that
    was rejected; and a result is shown only after all of them were made and
    answered. *)
Theorem payments_are_exact (E : WebEnv) (V : ViteEnv) (template policyId templateId : jsval) (premium : Z)
    (w : Web BuyPolicy) (b : Web Badge) :
  (∀ z s, formatEther E (VStr (dec z)) = inl s → parseEther E s = inl z) →
  js_get template "premium_amount_per_period_wei" = Ok (VStr (dec premium)) →
  js_get template "template_id" = Ok templateId →
  (let '(res, w') := handleSubscribe E V template w in
   res = Ok tt ∧ subscribing (page w') = VNull ∧ ∃ new, actions w' = actions w ++ new ∧
   paying_part E V "subscribeToPolicy" templateId premium new ∧ goes_on E (web_clock w) new ∧
   (bp_result (page w') ≠ VNull →
      paid E V "subscribeToPolicy" templateId premium new ∧ answered E (web_clock w) new)) ∧
  (let '(res, b') := handlePay E V template policyId b in
   res = Ok tt ∧ paying (page b') = false ∧ ∃ new, actions b' = actions b ++ new ∧
   paying_part E V "payPremium" policyId premium new ∧ goes_on E (web_clock b) new ∧
   (txHash (page b') ≠ txHash (page b) →
      paid E V "payPremium" policyId premium new ∧ answered E (web_clock b) new)).
Proof.
  intros Hether Hwei Hid. split.
  - unfold handleSubscribe. rewrite !bind_set_page, Hid, bind_lift_ok, bind_set_page.
    match goal with |- context [_ ?s] => match type of s with Web BuyPolicy => set (w0 := s) end end.
    set (f := λ hashes : jsval * jsval, setBpResult (VObj [("templateId", templateId); ("approveTxHash", hashes.1);
      ("subscribeTxHash", hashes.2)])).
    set (g := λ err, setBpError (VStr (error_message err "Subscription failed."))).
    destruct (guarded_pay_runs E V (subscribeToPolicyOnChain E V templateId) f g (setSubscribing VNull) template
      "subscribeToPolicy" templateId premium w0 Hether Hwei (λ e z, subscribe_pays E V templateId e z)
      (subscribe_same_page E V templateId) (subscribe_no_fuel E V templateId))
      as (w' & new & Hrun & Hn & Hpart & Hg & Hend);
    match goal with |- context [finally ?b ?c w0] => change (finally b c w0)
      with (guarded_pay E (subscribeToPolicyOnChain E V templateId) f g (setSubscribing VNull) template w0) end.
    rewrite Hrun. destruct Hend as [(Hpaid & Ha & r & Hp)|[e Hp]]; rewrite Hp; (split_and!; [done|done|]);
      exists new; by split_and!.
  - unfold handlePay. rewrite !bind_set_page.
    match goal with |- context [_ ?s] => match type of s with Web Badge => set (w0 := s) end end.
    set (g := λ err, setPayError (VStr (error_message err "Payment failed."))).
    destruct (guarded_pay_runs E V (payPremiumOnChain E V policyId) setTxHash g (setPaying false) template
      "payPremium" policyId premium w0 Hether Hwei (λ e z, pay_pays E V policyId e z)
      (pay_same_page E V policyId) (pay_no_fuel E V policyId))
      as (w' & new & Hrun & Hn & Hpart & Hg & Hend);
    match goal with |- context [finally ?b ?c w0] => change (finally b c w0)
      with (guarded_pay E (payPremiumOnChain E V policyId) setTxHash g (setPaying false) template w0) end.
    rewrite Hrun. destruct Hend as [(Hpaid & Ha & r & Hp)|[e Hp]]; rewrite Hp; (split_and!; [done|done|]);
      exists new; by split_and!.
Qed.

(** ** Filing a claim *)

(** The salt's text denotes the random bytes. *)
Lemma hex_text_hex_of bytes : hex_text bytes = hex_of bytes.
Proof.
  induction bytes as [|b bytes IH]; [done|]. cbn [hex_text foldr hex_of].
  change (foldr _ "" bytes) with (hex_text bytes). rewrite IH.
  assert (∀ b, padStart 2 "0"%char (toString16 (b2z b)) = String (hex_digit (b2z b / 16)) (String (hex_digit (b2z b mod 16)) ""))
    as -> by (intros []; vm_compute; reflexivity).
  done.
Qed.

Section filing.
Context (E : WebEnv) (V : ViteEnv) (token : jsval) (policyId amount description : string).

Definition claim_salt (n : nat) : string := "0x" +:+ hex_text (getRandomValues E n).
Definition claim_post (root salt : string) : Action :=
  HttpPost "/claims" (claim_body policyId amount root salt) (Some (authHeaders token)) None.
Definition claim_submission (registry root : string) (amountWei : Z) : list Action :=
  [SendTx registry "submitClaim" [Number (VStr policyId); VStr root; VBigInt amountWei]; WaitTx].

(** The actions of a filing: the record, then its root on chain. *)
Inductive filing (root salt : string) : list Action → Prop :=
  | filing_intro registry amountWei :
      requireAddress E (VITE_CLAIM_REGISTRY_ADDRESS V) "VITE_CLAIM_REGISTRY_ADDRESS" = Ok registry →
      parseEther E amount = inl amountWei →
      filing root salt (claim_post root salt :: ImportModule "ethers" :: GetSigner :: claim_submission registry root amountWei).

(** The result is made of the answers to the post, at tick [n], and to the
    wait for the transaction, four calls later. *)
Definition filing_result (n : nat) (root salt : string) (v : jsval) : Prop := ∃ posted data id mined hash,
  answer E n (claim_post root salt) = inl posted ∧ js_get posted "data" = Ok data ∧ js_get data "id" = Ok id ∧
  answer E (n + 4) WaitTx = inl mined ∧ js_get mined "hash" = Ok hash ∧ v = VObj [("claimId", id); ("txHash", hash)].

(** The [try] block up to the result. *)
Definition submit_pre (root salt : string) : Js (Web FileClaim) (jsval * jsval) :=
  set_page (setStep Creating) ;;
  createRes ← createClaim E token (claim_body policyId amount root salt);
  backendClaim ← lift (js_get createRes "data");
  set_page (setStep SubmittingOnchain) ;;
  _ ← act E (ImportModule "ethers");
  _ ← act E GetSigner;
  txHash ← submitClaimOnChain E V (Number (VStr policyId)) (VStr root) (VStr amount);
  set_page (setStep Done) ;;
  id ← lift (js_get backendClaim "id");
  mret (id, txHash).

Lemma submitClaim_performs root :
  (∃ registry z, requireAddress E (VITE_CLAIM_REGISTRY_ADDRESS V) "VITE_CLAIM_REGISTRY_ADDRESS" = Ok registry ∧
     parseEther E amount = inl z ∧
     performs (P := FileClaim) E (claim_submission registry root z)
       (submitClaimOnChain E V (Number (VStr policyId)) (VStr root) (VStr amount))) ∨
  (∀ l, performs (P := FileClaim) E l (submitClaimOnChain E V (Number (VStr policyId)) (VStr root) (VStr amount))).
Proof.
  unfold submitClaimOnChain, wait_hash.
  destruct (requireAddress E _ _) as [registry|e] eqn:Hr; [|right; intros l; by apply (performs_throw E l e)].
  change (js_to_string (VStr amount)) with amount.
  destruct (parseEther E amount) as [z|m] eqn:Hz; [|right; intros l; by apply (performs_throw E l (JsError m))].
  left. exists registry, z. split_and!; [done|done|]. apply performs_lift_bind; intros r Hr'. injection Hr' as <-.
  apply performs_lift_bind; intros z' Hz'. injection Hz' as <-.
  apply performs_act_bind; intros _. apply performs_act_bind; intros r. apply performs_lift.
Qed.

(** What is sent before the contract is called. *)
Definition filing_start (root salt : string) : list Action := [claim_post root salt; ImportModule "ethers"; GetSigner].

Lemma submit_pre_performs root salt :
  (∃ l, filing root salt l ∧ performs E l (submit_pre root salt)) ∨
  (∀ l, performs E (filing_start root salt ++ l) (submit_pre root salt)).
Proof.
  assert (∀ l, performs E l (submitClaimOnChain (P := FileClaim) E V (Number (VStr policyId)) (VStr root) (VStr amount)) →
    performs E (filing_start root salt ++ l) (submit_pre root salt)) as H.
  { intros l Hl. unfold submit_pre. apply (performs_bind E [] (_ :: _)); [apply performs_set|intros _].
    apply performs_act_bind; intros res. apply performs_lift_bind; intros data _.
    apply (performs_bind E [] (_ :: _)); [apply performs_set|intros _].
    apply performs_act_bind; intros _. apply performs_act_bind; intros _.
    rewrite <-(app_nil_r l). apply performs_bind; [done|intros h].
    apply (performs_bind E [] []); [apply performs_set|intros _]. apply performs_lift_bind; intros id _. apply performs_ret. }
  destruct (submitClaim_performs root) as [(registry & z & Hr & Hz & Hp)|Hp].
  - left. exists (filing_start root salt ++ claim_submission registry root z). split; [by constructor|by apply H].
  - right. intros l. by apply H.
Qed.

(** The result is left alone until the end. *)
Definition same_result (w w' : Web FileClaim) : Prop := fc_result (page w') = fc_result (page w).
#[global] Instance same_result_preorder : PreOrder same_result.
Proof. split; [done|]. intros w1 w2 w3. unfold same_result. congruence. Qed.

Lemma submit_pre_same_result root salt : moves same_result (submit_pre root salt).
Proof.
  assert (∀ a, moves same_result (act E a)) as Ha by (intros a w; done).
  assert (∀ v, moves same_result (set_page (setStep v))) as Hs by (intros v w; done).
  unfold submit_pre, createClaim, submitClaimOnChain, wait_hash. solve_moves.
Qed.
Lemma submit_pre_no_fuel root salt : no_fuel (submit_pre root salt).
Proof.
  unfold submit_pre, createClaim, submitClaimOnChain, wait_hash. solve_no_fuel.
Qed.

(** What the block sends, and all of it when it returns. *)
Lemma submit_pre_runs root salt w : ∃ new, actions (submit_pre root salt w).2 = actions w ++ new ∧
  (new `prefix_of` filing_start root salt ∨ ∃ l, filing root salt l ∧ new `prefix_of` l) ∧ goes_on E (web_clock w) new ∧
  (∀ a, (submit_pre root salt w).1 = Ok a → filing root salt new ∧ answered E (web_clock w) new).
Proof.
  destruct (submit_pre_performs root salt) as [(l & Hl & Hp)|Hp].
  - destruct (Hp w) as (new & Hn & _ & Hg & Hpre & Hall). exists new. split_and!; [done|right; by exists l|done|].
    intros a Ha. by destruct (Hall a Ha) as [-> ?].
  - destruct (Hp [] w) as (new & Hn & _ & Hg & Hpre & Hall). destruct (Hp [WaitTx] w) as (new' & Hn' & _ & _ & _ & Hall').
    exists new. split_and!; [done|by left|done|]. intros a Ha. rewrite Hn' in Hn. apply app_inv_head in Hn as ->.
    destruct (Hall a Ha) as [-> _], (Hall' a Ha) as [[=] _].
Qed.

(** When the block returns, the form is done (nothing after
    [setStep('done')] changes the step) and its value is made of answers. *)
Lemma submit_pre_done root salt w p w' : submit_pre root salt w = (Ok p, w') → fc_step (page w') = Done ∧
  filing_result (web_clock w) root salt (VObj [("claimId", p.1); ("txHash", p.2)]).
Proof.
  unfold submit_pre, createClaim, submitClaimOnChain, wait_hash, act, draw, set_page, modify, lift, filing_result, claim_post.
  unfold mbind, js_bind, mret, js_ret. cbn. intros H.
  destruct (answer E (web_clock w) _) as [posted|m] eqn:Hposted; cbn in H; [|done].
  destruct (js_get posted "data") as [data|] eqn:Hdata; cbn in H; [|done].
  destruct (answer E _ (ImportModule _)) as [module|]; cbn in H; [|done].
  destruct (answer E _ GetSigner) as [signer|]; cbn in H; [|done].
  destruct (requireAddress E _ _) as [registry|]; cbn in H; [|done].
  destruct (ethers _) as [wei|]; cbn in H; [|done].
  destruct (answer E _ (SendTx _ _ _)) as [tx|]; cbn in H; [|done].
  destruct (answer E _ WaitTx) as [mined|] eqn:Hmined; cbn in H; [|done].
  destruct (js_get mined "hash") as [hash|] eqn:Hhash; cbn in H; [|done].
  destruct (js_get data "id") as [id|] eqn:Hid; cbn in H; [|done]. injection H as <- <-. split; [done|].
  exists posted, data, id, mined, hash. split_and!; try done.
  by replace (web_clock w + 4)%nat with (S (S (S (S (web_clock w))))) by lia.
Qed.

Lemma handleSubmit_block root salt w :
  handleSubmit_try E V token policyId amount root salt w =
  (p ← submit_pre root salt; set_page (setResult (VObj [("claimId", p.1); ("txHash", p.2)]))) w.
Proof.
  unfold handleSubmit_try, submit_pre. rewrite bind_bind, !bind_run.
  destruct (set_page _ w) as [[u|e] w1]; [|done]. rewrite !bind_bind, !bind_run.
  destruct (createClaim _ _ _ w1) as [[r|e] w2]; [|done]. rewrite !bind_bind, !bind_run.
  destruct (lift _ w2) as [[d|e] w3]; [|done]. rewrite !bind_bind, !bind_run.
  destruct (set_page _ w3) as [[u'|e] w4]; [|done]. rewrite !bind_bind, !bind_run.
  destruct (act _ _ w4) as [[md|e] w4']; [|done]. rewrite !bind_bind, !bind_run.
  destruct (act _ _ w4') as [[s|e] w5]; [|done]. rewrite !bind_bind, !bind_run.
  destruct (submitClaimOnChain _ _ _ _ _ w5) as [[h|e] w6]; [|done]. rewrite !bind_bind, !bind_run.
  destruct (set_page _ w6) as [[u''|e] w7]; [|done]. rewrite !bind_bind, !bind_run.
  by destruct (lift _ w7) as [[id|e] w8].
Qed.
End filing.

(** What a press of the button does. *)
Lemma handleSubmit_runs (E : WebEnv) (V : ViteEnv) (token : jsval) (policyId amount description : string)
    (w : Web FileClaim) :
  let '(res, w') := handleSubmit E V token policyId amount description w in
  let salt := claim_salt E (randoms w) in
  bytes_of_hex (slice2 salt) = getRandomValues E (randoms w) ∧
  ∃ new, actions w' = actions w ++ new ∧
  (new = [] ∨ ∃ root, placeholderMerkleRoot E description salt = Ok root ∧
     (new `prefix_of` filing_start token policyId amount root salt ∨
      ∃ l, filing E V token policyId amount root salt l ∧ new `prefix_of` l)) ∧
  goes_on E (web_clock w) new ∧
  (fc_result (page w') ≠ VNull → ∃ root, placeholderMerkleRoot E description salt = Ok root ∧
     filing E V token policyId amount root salt new ∧ answered E (web_clock w) new ∧ fc_step (page w') = Done ∧
     filing_result E token policyId amount (web_clock w) root salt (fc_result (page w'))) ∧
  ((∃ e, res = Throw e) → new = [] ∧ ∃ e, placeholderMerkleRoot E description salt = Throw e).
Proof.
  destruct (handleSubmit E V token policyId amount description w) as [res w'] eqn:Hrun. intros salt.
  split; [unfold salt, claim_salt; rewrite hex_text_hex_of; apply (bytes_of_hex_of (getRandomValues E (randoms w)))|].
  revert Hrun. unfold handleSubmit. rewrite !bind_set_page.
  destruct (bool_decide (policyId = "") || bool_decide (amount = "")).
  { intros H. injection H as <- <-. exists []. rewrite app_nil_r. split_and!; [done|by left|apply goes_on_nil|done|by intros [e He]]. }
  unfold generateClaimSalt. rewrite bind_bind. unfold draw. rewrite bind_run, bind_ret. cbn [randoms].
  change ("0x" +:+ hex_text (getRandomValues E (randoms w))) with salt.
  match goal with |- context [mkWeb ?p ?c ?n ?a] => set (w0 := mkWeb p c n a) end.
  destruct (placeholderMerkleRoot E description salt) as [root|e] eqn:Hroot.
  2: { rewrite bind_lift_throw. intros H. injection H as <- <-. exists []. rewrite app_nil_r.
       split_and!; [done|by left|apply goes_on_nil|done|]. eauto. }
  rewrite bind_lift_ok. change (actions w) with (actions w0).
  set (block := submit_pre E V token policyId amount root salt).
  pose proof (submit_pre_no_fuel E V token policyId amount root salt w0) as Hf.
  pose proof (submit_pre_same_result E V token policyId amount root salt w0) as Hres. unfold same_result in Hres.
  fold block in Hf, Hres.
  destruct (submit_pre_runs E V token policyId amount root salt w0) as (new & Hn & Hpre & Hg & Hall). fold block in Hn, Hall.
  unfold try_catch. rewrite handleSubmit_block, bind_run. fold block.
  destruct (block w0) as [[p|e] w1] eqn:Hb; cbn [fst snd] in *.
  - intros H. injection H as <- <-. exists new. split_and!; [done|right; by exists root|done| |by intros [e He]].
    intros _. exists root. destruct (Hall p eq_refl) as [Hf' Ha]. destruct (submit_pre_done _ _ _ _ _ _ _ _ _ _ Hb) as [Hd Hr].
    by split_and!.
  - destruct e; try done; intros H; injection H as <- <-; exists new;
      (split_and!; [done|right; by exists root|done|simpl; by rewrite Hres|by intros [e' He]]).
Qed.

(** C15: A filed claim correlates.  Each attempt draws a fresh salt, whose text
    denotes exactly the 32 random bytes; it posts the claim with the root of
    that salt and the description, and then sends the same root, policy and
    amount on chain, once; no call follows one that was rejected, so nothing
    goes on chain unless the backend accepted the claim.  A result is shown
    only when every call was made and answered, and it is the id the backend
    answered with and the hash of the mined transaction.  The handler rejects
    only when the root itself cannot be computed, before anything is sent. *)
Theorem filed_claims_correlate (E : WebEnv) (V : ViteEnv) (token : jsval) (policyId amount description : string)
    (w : Web FileClaim) :
  let '(res, w') := handleSubmit E V token policyId amount description w in
  let salt := claim_salt E (randoms w) in
  bytes_of_hex (slice2 salt) = getRandomValues E (randoms w) ∧
  ∃ new, actions w' = actions w ++ new ∧
  (new = [] ∨ ∃ root, placeholderMerkleRoot E description salt = Ok root ∧
     (new `prefix_of` filing_start token policyId amount root salt ∨
      ∃ l, filing E V token policyId amount root salt l ∧ new `prefix_of` l)) ∧
  goes_on E (web_clock w) new ∧
  (fc_result (page w') ≠ VNull → ∃ root, placeholderMerkleRoot E description salt = Ok root ∧
     filing E V token policyId amount root salt new ∧ answered E (web_clock w) new ∧ fc_step (page w') = Done ∧
     filing_result E token policyId amount (web_clock w) root salt (fc_result (page w'))) ∧
  ((∃ e, res = Throw e) → new = [] ∧ ∃ e, placeholderMerkleRoot E description salt = Throw e).
Proof. exact (handleSubmit_runs E V token policyId amount description w). Qed.

(** ** Checking a claim *)
Section checking.
Context (E : WebEnv) (token : jsval).

(** Pressing the button [n] times, each time on the page as it is then. *)
Fixpoint press_trigger (n : nat) : Js (Web ClaimStatus) unit :=
  match n with
  | O => mret tt
  | S n =>
      w ← get;
      handleTriggerVerification E token (claim (page w)) (idempotencyKey (page w)) ;;
      press_trigger n
  end.

(** The key is kept, and every POST carries it. *)
Definition posts_with_key (w w' : Web ClaimStatus) : Prop :=
  idempotencyKey (page w') = idempotencyKey (page w) ∧
  ∃ new, actions w' = actions w ++ new ∧
    ∀ path body tok key, HttpPost path body tok key ∈ new → key = Some (idempotencyKey (page w)).
#[global] Instance posts_with_key_preorder : PreOrder posts_with_key.
Proof.
  split.
  - intros w. split; [done|]. exists []. rewrite app_nil_r. split; [done|]. by intros * ?%elem_of_nil.
  - intros w1 w2 w3 [K1 (n1 & A1 & P1)] [K2 (n2 & A2 & P2)]. split; [congruence|]. exists (n1 ++ n2).
    rewrite A2, A1, app_assoc. split; [done|]. intros path body tok key [H|H]%elem_of_app; [by eapply P1|].
    apply P2 in H. by rewrite H, K1.
Qed.

(** The same while the page's key is [key]. *)
Definition posts_key (key : jsval) (w w' : Web ClaimStatus) : Prop :=
  idempotencyKey (page w) = key → posts_with_key w w'.
#[global] Instance posts_key_preorder key : PreOrder (posts_key key).
Proof.
  split; [intros w _; reflexivity|]. intros w1 w2 w3 H1 H2 Hk. specialize (H1 Hk).
  etrans; [exact H1|]. apply H2. by rewrite (proj1 H1).
Qed.

Lemma set_posts_key key f : (∀ s, idempotencyKey (f s) = idempotencyKey s) → moves (posts_key key) (set_page f).
Proof.
  intros Hf w _. split; [apply Hf|]. exists []. rewrite app_nil_r. split; [done|]. by intros * ?%elem_of_nil.
Qed.
Lemma act_posts_key key a : (∀ path body tok k, a = HttpPost path body tok k → k = Some key) →
  moves (posts_key key) (act E a).
Proof.
  intros Ha w <-. split; [done|]. eexists. split; [done|]. intros * H%list_elem_of_singleton. by eapply Ha.
Qed.

Lemma trigger_posts c w : posts_with_key w (handleTriggerVerification E token c (idempotencyKey (page w)) w).2.
Proof.
  assert (∀ key, moves (posts_key key) (handleTriggerVerification E token c key)) as Hm; [|by apply Hm].
  intros key. unfold handleTriggerVerification, triggerVerification, getClaim.
  solve_moves; (by apply set_posts_key) || (apply act_posts_key; intros; by simplify_eq).
Qed.

Lemma press_trigger_posts n : moves posts_with_key (press_trigger n).
Proof.
  induction n as [|n IH]; cbn [press_trigger]; [apply moves_ret; apply _|].
  intros w. rewrite bind_get, bind_run. pose proof (trigger_posts (claim (page w)) w) as H.
  destruct (handleTriggerVerification _ _ _ _ w) as [[u|e] w1]; [|done]. etrans; [exact H|]. apply IH.
Qed.
End checking.

(** Retries share a key.  However often verification is triggered after a
    lookup and whatever is answered, every request carries the key the lookup
    made; a lookup never rejects, and either shows no claim or makes a new
    key from a fresh draw. *)
Theorem trigger_retries_share_key (E : WebEnv) (token : jsval) (claimId : string) (n : nat) (w : Web ClaimStatus) :
  posts_with_key w (press_trigger E token n w).2 ∧
  let '(res, w') := handleSearch E token claimId w in
  res = Ok tt ∧ (claim (page w') = VNull ∨
    idempotencyKey (page w') = VStr (randomUUID E (randoms w)) ∧ randoms w' = S (randoms w)).
Proof.
  split; [apply press_trigger_posts|]. unfold handleSearch, getClaim. rewrite !bind_set_page.
  cbn [page web_clock randoms actions]. match goal with |- context [try_catch _ _ ?u] => set (w0 := u) end.
  unfold try_catch. rewrite bind_run. destruct (act E _ w0) as [[r|e] w1] eqn:Ha.
  - apply act_ok in Ha as (_ & Hp & Hr & _). rewrite bind_run. unfold lift.
    destruct (js_get r "data") as [d|e] eqn:Hd.
    + rewrite bind_set_page, bind_run. unfold draw. cbn [page web_clock randoms actions].
      unfold set_page, modify. cbn. rewrite Hr. split; [done|]. by right.
    + pose proof (js_get_no_fuel r "data"). destruct e; try congruence; (split; [done|]); left; simpl; by rewrite Hp.
  - pose proof (act_no_fuel E (HttpGet ("/claims/" +:+ js_to_string (VStr claimId)) VUndef (Some (authHeaders token))) w0) as Hf.
    pose proof (act_run E (HttpGet ("/claims/" +:+ js_to_string (VStr claimId)) VUndef (Some (authHeaders token))) w0) as [_ Hp].
    rewrite Ha in Hf, Hp. cbn [fst snd] in Hf, Hp. destruct e; try done; (split; [done|]); left; simpl; by rewrite Hp.
Qed.

(** ** A concrete wallet, backend and chain *)
Definition demo_vite : ViteEnv := mkVite (Some "0xc1a1") (Some "0xp01") (Some "0xd05d") (Some "http://besu:8545").
(** The status is current; the backend's second answer is an error. *)
Definition demo_web : WebEnv := {|
  answer n a := match a with
    | HttpGet _ _ _ => if (n =? 6)%nat then inr "Network Error"
        else inl (VObj [("data", VObj [("premium_current", VBool true); ("premium_paid_until", VNum (Int 1700))])])
    | WaitTx => inl (VObj [("hash", VStr "0xmined")])
    | _ => inl (VObj []) end;
  getRandomValues n := be 32 (Z.of_nat n);
  randomUUID n := dec (Z.of_nat n);
  ZeroAddress := "0x0";
  parseEther s := match undec s with Some z => inl z | None => inr "invalid" end;
  formatEther v := match v with VStr s => inl s | _ => inr "invalid" end;
  toUtf8Bytes _ := inl [];
  getBytes s := inl (bytes_of_hex (slice2 s));
  keccak256_concat l := "0x" +:+ hex_of (concat l);
  JsonRpcProvider _ := inl tt;
  error_detail _ := VUndef;
|}.
Definition demo_template : jsval :=
  VObj [("template_id", VNum (Int 3)); ("premium_amount_per_period_wei", VStr (dec 25000))].
Definition demo_page {P} (p : P) : Web P := mkWeb p 0 0 [].

Lemma payments_are_exact_witness :
  let run := handleSubscribe demo_web demo_vite demo_template (demo_page (mkBuyPolicy VNull VNull VNull VNull)) in
  bp_result (page run.2) ≠ VNull ∧
  ∃ new, actions run.2 = [] ++ new ∧ paid demo_web demo_vite "subscribeToPolicy" (VNum (Int 3)) 25000 new ∧ answered demo_web 0 new.
Proof.
  destruct (payments_are_exact demo_web demo_vite demo_template (VNum (Int 9)) (VNum (Int 3)) 25000
    (demo_page (mkBuyPolicy VNull VNull VNull VNull)) (demo_page badge_initial)) as [H _].
  - intros z s H. injection H as <-. change (parseEther demo_web (dec z))
      with (match undec (dec z) with Some z => inl z | None => inr "invalid" end). by rewrite undec_dec.
  - reflexivity.
  - reflexivity.
  - intros run. assert (bp_result (page run.2) ≠ VNull) as Hr by (vm_compute; discriminate). split; [exact Hr|].
    fold run in H. clearbody run. destruct run as [res w']. destruct H as (_ & _ & new & Hn & _ & _ & Hp).
    exists new. split; [exact Hn|exact (Hp Hr)].
Defined.
