(* ===== verification/FrontendFiling.v ===== *)
(** * pages/FileClaim.jsx over the life of the page

    [handleSubmit] cut at its awaits ([file_start], [file_advance]), run by
    a form that can be submitted again whenever its button is enabled
    ([file_step]).  The invariant [form_ok] says that at most one submission
    is in flight, so the page's history is a sequence of filings, and that
    each of them goes on only after its last call was answered. *)

From S2P Require Import Prelude JsValue JsText Buffer FrontendContract FrontendPages FrontendStatus FrontendTasks FrontendRuns.

(** The values a submission works with. *)
Record Submission := mkSubmission {
  s_token : jsval; s_policyId : string; s_amount : string; s_root : string; s_salt : string }.

Inductive FilePhase :=
  | ClaimPosted (s : Submission) (res : outcome jsval)
  | ModuleAsked (s : Submission) (backendClaim : jsval) (res : outcome jsval)
  | SignerAsked (s : Submission) (backendClaim : jsval) (res : outcome jsval)
  | ClaimSent (s : Submission) (backendClaim : jsval) (res : outcome jsval)
  | ClaimMined (s : Submission) (backendClaim : jsval) (res : outcome jsval)
  | Filed.

Section segments.
Context (E : WebEnv) (V : ViteEnv).

Definition file_start (token : jsval) (policyId amount description : string) : Js (Web FileClaim) FilePhase :=
  set_page (setError VNull) ;;
  set_page (setResult VNull) ;;
  if bool_decide (policyId = "") || bool_decide (amount = "") then
    set_page (setError (VStr "Policy ID and amount are required.")) ;; mret Filed
  else
    salt ← generateClaimSalt E;
    merkleRoot ← lift (placeholderMerkleRoot E description salt);
    set_page (setStep Creating) ;;
    res ← FrontendStatus.sent (createClaim E token (claim_body policyId amount merkleRoot salt));
    mret (ClaimPosted (mkSubmission token policyId amount merkleRoot salt) res).

(** A segment inside the [try]. *)
Definition file_caught (m : Js (Web FileClaim) FilePhase) : Js (Web FileClaim) FilePhase :=
  try_catch m (λ err,
    set_page (setStep Idle) ;;
    set_page (setError (error_text E err "Claim submission failed.")) ;;
    mret Filed).

Definition file_advance (ph : FilePhase) : Js (Web FileClaim) FilePhase :=
  match ph with
  | ClaimPosted s res => file_caught (
      createRes ← lift res;
      backendClaim ← lift (js_get createRes "data");
      set_page (setStep SubmittingOnchain) ;;
      res ← FrontendStatus.sent (act E (ImportModule "ethers"));
      mret (ModuleAsked s backendClaim res))
  | ModuleAsked s backendClaim res => file_caught (
      _ ← lift res;
      res ← FrontendStatus.sent (act E GetSigner);
      mret (SignerAsked s backendClaim res))
  | SignerAsked s backendClaim res => file_caught (
      _ ← lift res;
      registry ← lift (requireAddress E (VITE_CLAIM_REGISTRY_ADDRESS V) "VITE_CLAIM_REGISTRY_ADDRESS");
      amountWei ← lift (ethers (parseEther E (s_amount s)));
      res ← FrontendStatus.sent (act E (SendTx registry "submitClaim"
                           [Number (VStr (s_policyId s)); VStr (s_root s); VBigInt amountWei]));
      mret (ClaimSent s backendClaim res))
  | ClaimSent s backendClaim res => file_caught (
      _ ← lift res;
      res ← FrontendStatus.sent (act E WaitTx);
      mret (ClaimMined s backendClaim res))
  | ClaimMined s backendClaim res => file_caught (
      receipt ← lift res;
      txHash ← lift (js_get receipt "hash");
      set_page (setStep Done) ;;
      id ← lift (js_get backendClaim "id");
      set_page (setResult (VObj [("claimId", id); ("txHash", txHash)])) ;;
      mret Filed)
  | Filed => mret Filed
  end.

(** The submit button is not disabled. *)
Definition can_submit (s : FileClaim) : bool :=
  match fc_step s with Idle | Done => true | _ => false end.

Inductive file_step : list FilePhase * Web FileClaim → list FilePhase * Web FileClaim → Prop :=
  | step_submit phs w token policyId amount description ph w' :
      can_submit (page w) = true → file_start token policyId amount description w = (Ok ph, w') →
      file_step (phs, w) (phs ++ [ph], w')
  | step_reject phs w token policyId amount description e w' :      (** the root throws: over at once *)
      can_submit (page w) = true → file_start token policyId amount description w = (Throw e, w') →
      file_step (phs, w) (phs ++ [Filed], w')
  | step_file phs w i ph ph' w' :
      phs !! i = Some ph → file_advance ph w = (Ok ph', w') → file_step (phs, w) (<[i := ph']> phs, w').

Fixpoint file_advance_n (n : nat) (ph : FilePhase) : Js (Web FileClaim) FilePhase :=
  match n with O => mret ph | S n => ph ← file_advance ph; file_advance_n n ph end.

(** Alone, the segments are the handler. *)
Lemma submit_is_its_segments token policyId amount description w :
  (ph ← file_start token policyId amount description; file_advance_n 5 ph) w =
  (handleSubmit E V token policyId amount description ;; mret Filed) w.
Proof.
  unfold file_start, handleSubmit, handleSubmit_try, submitClaimOnChain, wait_hash, createClaim, generateClaimSalt,
    file_advance_n, file_advance, file_caught. unfold_js.
  destruct (bool_decide (policyId = "") || bool_decide (amount = "")); [done|]. cbn.
  destruct (placeholderMerkleRoot E description _) as [root|e]; cbn; [|done].
  destruct (answer E (web_clock w) _) as [r|m]; cbn; [|done].
  destruct (js_get r "data") as [d|[]]; cbn; try done.
  destruct (answer E _ (ImportModule _)) as [module|m]; cbn; [|done].
  destruct (answer E _ GetSigner) as [signer|m]; cbn; [|done].
  destruct (requireAddress E _ _) as [registry|[]]; cbn; try done.
  destruct (ethers (parseEther E amount)) as [wei|[]]; cbn; try done.
  destruct (answer E _ (SendTx _ _ _)) as [tx|m]; cbn; [|done].
  destruct (answer E _ WaitTx) as [receipt|m]; cbn; [|done].
  destruct (js_get receipt "hash") as [h|[]]; cbn; try done.
  by destruct (js_get d "id") as [id|[]].
Qed.
End segments.

(** ** The history of a page *)
Section history.
Context (E : WebEnv) (V : ViteEnv).

Definition post_of_submission (s : Submission) : Action :=
  claim_post (s_token s) (s_policyId s) (s_amount s) (s_root s) (s_salt s).

(** [s] was made from the [n]-th salt. *)
Definition salted (n : nat) (s : Submission) : Prop :=
  s_salt s = claim_salt E n ∧ ∃ description, placeholderMerkleRoot E description (s_salt s) = Ok (s_root s).

(** A whole filing of [s], and one that stopped on the way. *)
Definition whole (s : Submission) (l : list Action) : Prop :=
  filing E V (s_token s) (s_policyId s) (s_amount s) (s_root s) (s_salt s) l.
Definition partly (s : Submission) (l : list Action) : Prop :=
  l `prefix_of` filing_start (s_token s) (s_policyId s) (s_amount s) (s_root s) (s_salt s) ∨
  ∃ l', whole s l' ∧ l `prefix_of` l'.
(** The result of a filing of [s] that began at tick [c]. *)
Definition result_of (s : Submission) (c : nat) (v : jsval) : Prop :=
  filing_result E (s_token s) (s_policyId s) (s_amount s) c (s_root s) (s_salt s) v.

(** [res] answers the last of the calls [l] made from tick [c] on, all those
    before it were answered. *)
Definition replied (c : nat) (l : list Action) (res : outcome jsval) : Prop := ∃ l0 a,
  l = l0 ++ [a] ∧ answered E c l0 ∧ res = reply E (c + length l0) a.

Lemma replied_goes_on c l res : replied c l res → goes_on E c l.
Proof. intros (l0 & a & -> & H & _). by apply goes_on_snoc. Qed.
Lemma replied_answered c l v : replied c l (Ok v) → answered E c l.
Proof.
  intros (l0 & a & -> & H & Hr). apply answered_app. split; [done|]. intros [|i] b Hb; [|done]. injection Hb as <-.
  rewrite Nat.add_0_r. unfold reply in Hr. destruct (answer E _ a) as [x|m]; [by exists x|done].
Qed.
Lemma replied_last c l a v : replied c (l ++ [a]) (Ok v) → answer E (c + length l) a = inl v.
Proof.
  intros (l0 & b & [-> [= ->]]%app_inj_2 & _ & Hr); [|done]. unfold reply in Hr.
  destruct (answer E _ b) as [x|m]; [by injection Hr as ->|done].
Qed.
Lemma replied_next c l v a n : replied c l (Ok v) → n = (c + length l)%nat → replied c (l ++ [a]) (reply E n a).
Proof. intros H ->. exists l, a. split_and!; [done|by eapply replied_answered|done]. Qed.
Lemma replied_first c a : replied c [a] (reply E c a).
Proof. exists [], a. split_and!; [done|apply answered_nil|by rewrite Nat.add_0_r]. Qed.

(** What the backend answered to the claim. *)
Definition recorded_as (c : nat) (s : Submission) (d : jsval) : Prop := ∃ posted,
  answer E c (post_of_submission s) = inl posted ∧ js_get posted "data" = Ok d.

(** What an open handler that began at tick [c] has sent. *)
Inductive sent_by (c : nat) : FilePhase → Submission → list Action → Prop :=
  | sent_posted s res : replied c [post_of_submission s] res → sent_by c (ClaimPosted s res) s [post_of_submission s]
  | sent_import s d res : recorded_as c s d → replied c [post_of_submission s; ImportModule "ethers"] res →
      sent_by c (ModuleAsked s d res) s [post_of_submission s; ImportModule "ethers"]
  | sent_asked s d res : recorded_as c s d → replied c [post_of_submission s; ImportModule "ethers"; GetSigner] res →
      sent_by c (SignerAsked s d res) s [post_of_submission s; ImportModule "ethers"; GetSigner]
  | sent_sent s d res l : recorded_as c s d → whole s (l ++ [WaitTx]) → replied c l res → sent_by c (ClaimSent s d res) s l
  | sent_mined s d res l : recorded_as c s d → whole s l → replied c l res → sent_by c (ClaimMined s d res) s l.

Lemma sent_partly c ph s l : sent_by c ph s l → partly s l.
Proof.
  destruct 1 as [s res|s d res|s d res|s d res l _ H|s d res l _ H]; [left; by eexists [_; _]|left; by eexists [_]|by left|..];
    right; eexists; split; try done. by eexists.
Qed.
Lemma sent_goes_on c ph s l : sent_by c ph s l → goes_on E c l.
Proof. destruct 1; by eapply replied_goes_on. Qed.
Lemma sent_open c s l : ¬ sent_by c Filed s l.
Proof. inversion 1. Qed.

(** What a segment of an open handler does. *)
Inductive advanced (c : nat) (s : Submission) (l : list Action) (w w' : Web FileClaim) : FilePhase → Prop :=
  | advanced_on ph' a : actions w' = actions w ++ [a] → web_clock w' = S (web_clock w) →
      sent_by c ph' s (l ++ [a]) → randoms w' = randoms w →
      (can_submit (page w) = false → can_submit (page w') = false) → fc_result (page w') = fc_result (page w) →
      advanced c s l w w' ph'
  | advanced_end : actions w' = actions w → web_clock w' = web_clock w → randoms w' = randoms w →
      (fc_result (page w') = fc_result (page w) ∨
       whole s l ∧ answered E c l ∧ fc_step (page w') = Done ∧ result_of s c (fc_result (page w'))) →
      advanced c s l w w' Filed.

Ltac ends_here := try done; (intros [= <- <-]; apply advanced_end; auto).
Lemma file_advance_advanced c ph s l w ph' w' : web_clock w = (c + length l)%nat → sent_by c ph s l →
  file_advance E V ph w = (Ok ph', w') → advanced c s l w w' ph'.
Proof.
  intros Hw Hs. destruct Hs as [s res Hr|s d res Hd Hr|s d res Hd Hr|s d res l Hd Hl Hr|s d res l Hd Hl Hr];
    unfold file_advance, file_caught; unfold_js; (destruct res as [r|[]]; cbn; last done); try by ends_here.
  - destruct (js_get r "data") as [d|[]] eqn:Hd; cbn; try by ends_here. intros [= <- <-].
    apply (advanced_on _ _ _ _ _ _ (ImportModule "ethers")); auto. apply sent_import; [|by apply (replied_next _ [_] r)].
    exists r. split; [|done]. rewrite <-(Nat.add_0_r c). by apply (replied_last c [] _ r).
  - intros [= <- <-]. apply (advanced_on _ _ _ _ _ _ GetSigner); auto. apply sent_asked; [done|by apply (replied_next _ [_; _] r)].
  - destruct (requireAddress E _ _) as [registry|[]] eqn:Hreg; cbn; try by ends_here.
    destruct (parseEther E (s_amount s)) as [z|m] eqn:Hz; cbn; [|by ends_here]. intros [= <- <-].
    eapply advanced_on; auto. apply sent_sent; [done|exact (filing_intro E V _ _ _ _ _ registry z Hreg Hz)|by apply (replied_next _ [_; _; _] r)].
  - intros [= <- <-]. apply (advanced_on _ _ _ _ _ _ WaitTx); auto. apply sent_mined; [done..|by apply (replied_next _ _ r)].
  - destruct (js_get r "hash") as [h|[]] eqn:Hh; cbn; try by ends_here.
    destruct (js_get d "id") as [id|[]] eqn:Hid; cbn; try by ends_here. intros [= <- <-]. apply advanced_end; auto. right.
    pose proof (replied_answered _ _ _ Hr) as Ha. split_and!; [done|done|done|]. destruct Hd as (posted & Hp & Hd).
    exists posted, d, id, r, h. split_and!; try done. inversion Hl as [registry z Hreg Hz Heq]; subst l.
    exact (replied_last c [post_of_submission s; _; _; _] WaitTx r Hr).
Qed.

(** What pressing the button does. *)
Inductive started (w w' : Web FileClaim) : FilePhase → Prop :=
  | started_nothing : actions w' = actions w → web_clock w' = web_clock w → (randoms w <= randoms w')%nat →
      fc_result (page w') = VNull → started w w' Filed
  | started_filing ph s : salted (randoms w) s → sent_by (web_clock w) ph s [post_of_submission s] →
      actions w' = actions w ++ [post_of_submission s] → web_clock w' = S (web_clock w) → randoms w' = S (randoms w) →
      can_submit (page w') = false → fc_result (page w') = VNull → started w w' ph.

Lemma file_start_started token policyId amount description w :
  let '(r, w') := file_start E token policyId amount description w in
  match r with Ok ph => started w w' ph | Throw _ => started w w' Filed end.
Proof.
  unfold file_start, createClaim, generateClaimSalt. unfold_js.
  destruct (bool_decide (policyId = "") || bool_decide (amount = "")); [by apply started_nothing|]. cbn.
  destruct (placeholderMerkleRoot E description _) as [root|e] eqn:Hroot; cbn; [|by apply started_nothing; simpl; auto].
  apply (started_filing _ _ _ (mkSubmission token policyId amount root (claim_salt E (randoms w)))); try done.
  - split; [done|by exists description].
  - constructor. apply replied_first.
Qed.

(** One attempt: which salt, which values, from which tick, what it sent. *)
Record Attempt := mkAttempt { number : nat; submission : Submission; began : nat; sends : list Action }.
Definition attempt_ok (a : Attempt) : Prop :=
  salted (number a) (submission a) ∧ partly (submission a) (sends a) ∧ goes_on E (began a) (sends a).
(** It ended well, and this is its result. *)
Definition went_through (a : Attempt) (v : jsval) : Prop :=
  whole (submission a) (sends a) ∧ answered E (began a) (sends a) ∧ result_of (submission a) (began a) v.
Definition past_ok (k : nat) (past : list Attempt) : Prop :=
  NoDup (number <$> past) ∧ Forall (λ a, (number a < k)%nat ∧ attempt_ok a) past.
Definition sent_in (past : list Attempt) : list Action := concat (sends <$> past).
(** One begins where the one before ended. *)
Fixpoint consecutive (c : nat) (past : list Attempt) : Prop :=
  match past with [] => True | a :: past => began a = c ∧ consecutive (c + length (sends a)) past end.

Inductive form_ok (c0 : nat) (phs : list FilePhase) (w : Web FileClaim) : list Attempt → Prop :=
  | form_idle past : past_ok (randoms w) past → consecutive c0 past → actions w = sent_in past →
      web_clock w = (c0 + length (sent_in past))%nat → (∀ i ph, phs !! i = Some ph → ph = Filed) →
      (fc_result (page w) ≠ VNull → fc_step (page w) = Done ∧
         ∃ a, last past = Some a ∧ went_through a (fc_result (page w))) →
      form_ok c0 phs w past
  | form_busy past i ph a : past_ok (number a) past → (number a < randoms w)%nat → salted (number a) (submission a) →
      consecutive c0 past → began a = (c0 + length (sent_in past))%nat → web_clock w = (began a + length (sends a))%nat →
      actions w = sent_in past ++ sends a → phs !! i = Some ph → sent_by (began a) ph (submission a) (sends a) →
      (∀ j ph', j ≠ i → phs !! j = Some ph' → ph' = Filed) →
      can_submit (page w) = false → fc_result (page w) = VNull → form_ok c0 phs w (past ++ [a]).

Lemma past_ok_weaken k k' past : (k <= k')%nat → past_ok k past → past_ok k' past.
Proof. intros Hk [Hn Hf]. split; [done|]. eapply Forall_impl; [exact Hf|]. intros a [H Ha]. split; [lia|done]. Qed.
Lemma past_ok_snoc k past a : past_ok (number a) past → (number a < k)%nat → attempt_ok a → past_ok k (past ++ [a]).
Proof.
  intros Hp Hk Ha. pose proof (past_ok_weaken _ k _ (Nat.lt_le_incl _ _ Hk) Hp) as [Hn Hf]. split.
  - rewrite fmap_app. apply NoDup_app. split_and!; [done| |apply NoDup_singleton].
    intros n (b & -> & Hb)%list_elem_of_fmap Hin. apply list_elem_of_singleton in Hin.
    destruct Hp as [_ Hlt]. rewrite Forall_forall in Hlt. destruct (Hlt b Hb). lia.
  - apply Forall_app. split; [done|]. by apply Forall_singleton.
Qed.
Lemma sent_in_snoc past a : sent_in (past ++ [a]) = sent_in past ++ sends a.
Proof. unfold sent_in. rewrite fmap_app, concat_app. simpl. by rewrite app_nil_r. Qed.
Lemma consecutive_snoc c past a : consecutive c past → began a = (c + length (sent_in past))%nat →
  consecutive c (past ++ [a]).
Proof.
  revert c. induction past as [|b past IH]; intros c; cbn; [rewrite Nat.add_0_r; by intros _ ->|].
  intros [Hb Hp] Ha. split; [done|]. apply IH; [done|]. rewrite Ha, length_app. unfold sent_in. lia.
Qed.

Lemma form_ok_start c0 phs w w' ph past : form_ok c0 phs w past → can_submit (page w) = true → started w w' ph →
  ∃ past', form_ok c0 (phs ++ [ph]) w' past'.
Proof.
  intros [p Hp Hcs Ha Hcl Hf _|p i ph0 a _ _ _ _ _ _ _ _ _ _ Hc _] Hcan Hs; [|congruence].
  destruct Hs as [Ha' Hcl' Hr Hres|ph s Hsalt Hsent Ha' Hcl' Hr Hcan' Hres].
  - exists p. apply form_idle; [by eapply past_ok_weaken|done|by rewrite Ha'|by rewrite Hcl'| |done].
    intros i ph [H|[_ H]]%lookup_app_Some; [by eapply Hf|]. by apply list_lookup_singleton_Some in H as [_ <-].
  - exists (p ++ [mkAttempt (randoms w) s (web_clock w) [post_of_submission s]]).
    apply (form_busy _ _ _ _ (length phs) ph); cbn;
      [done|lia|done|done|done|lia|by rewrite Ha', Ha|by apply list_lookup_middle|done| |done|done].
    intros j ph' Hj [H|[Hle H]]%lookup_app_Some; [by eapply Hf|].
    apply list_lookup_singleton_Some in H as [H <-]. lia.
Qed.

Lemma form_ok_advance c0 phs w w' i ph ph' past : form_ok c0 phs w past → phs !! i = Some ph →
  file_advance E V ph w = (Ok ph', w') → ∃ past', form_ok c0 (<[i := ph']> phs) w' past'.
Proof.
  intros Hok Hi Hadv. destruct Hok as [p Hp Hcs Ha Hcl Hf Hres|p k ph0 a Hp Hn Hsalt Hcs Hbe Hcl Ha Hk Hsent Hf Hc Hres].
  { rewrite (Hf i ph Hi) in Hadv. injection Hadv as <- <-. exists p. apply form_idle; try done.
    intros j q [(<- & <- & _)|[_ Hj]]%list_lookup_insert_Some; [done|by eapply Hf]. }
  destruct (decide (i = k)) as [->|Hne].
  2: { rewrite (Hf i ph Hne Hi) in Hadv. injection Hadv as <- <-. exists (p ++ [a]).
       apply (form_busy _ _ _ _ k ph0); try done; [by rewrite list_lookup_insert_ne|].
       intros j q Hj [(<- & <- & _)|[_ Hj']]%list_lookup_insert_Some; [done|by eapply Hf]. }
  assert (ph0 = ph) as -> by congruence. apply (file_advance_advanced _ _ _ _ _ _ _ Hcl Hsent) in Hadv as
    [ph1 b Ha' Hcl' Hs' Hr' Hc' Hres'|Ha' Hcl' Hr' Hend].
  - exists (p ++ [mkAttempt (number a) (submission a) (began a) (sends a ++ [b])]).
    apply (form_busy _ _ _ _ k ph1); cbn; try done;
      [by rewrite Hr'|rewrite length_app; cbn; lia|by rewrite Ha', Ha, app_assoc| | |by apply Hc'|congruence].
    + apply list_lookup_insert_eq. by eapply lookup_lt_Some.
    + intros j q Hj [(<- & _)|[_ Hj']]%list_lookup_insert_Some; [done|by eapply Hf].
  - exists (p ++ [a]). apply form_idle.
    + rewrite Hr'. apply past_ok_snoc; [done..|]. split_and!; [done|by eapply sent_partly|by eapply sent_goes_on].
    + by apply consecutive_snoc.
    + by rewrite Ha', Ha, sent_in_snoc.
    + rewrite Hcl', Hcl, Hbe, sent_in_snoc, length_app. lia.
    + intros j q [(<- & <- & _)|[Hj Hj']]%list_lookup_insert_Some; [done|by apply (Hf j)].
    + intros Hnn. destruct Hend as [He|(Hw & Hans & Hd & Hr)]; [congruence|]. split; [done|]. exists a. by rewrite last_snoc.
Qed.

Lemma form_ok_step c0 c c' past : file_step E V c c' → form_ok c0 c.1 c.2 past → ∃ past', form_ok c0 c'.1 c'.2 past'.
Proof.
  intros [phs w token policyId amount description ph w' Hc Hrun|phs w token policyId amount description e w' Hc Hrun|
    phs w i ph ph' w' Hi Hrun] Hok; cbn in *.
  1,2: eapply form_ok_start; [done|done|]; pose proof (file_start_started token policyId amount description w) as H;
    by rewrite Hrun in H.
  by eapply form_ok_advance.
Qed.

Lemma form_ok_reachable c0 c c' past : rtc (file_step E V) c c' → form_ok c0 c.1 c.2 past →
  ∃ past', form_ok c0 c'.1 c'.2 past'.
Proof.
  intros Hr. revert past. induction Hr as [c|c1 c2 c3 Hs _ IH]; intros past Hok; [by exists past|].
  destruct (form_ok_step _ _ _ _ Hs Hok) as [past' Hok']. by eapply IH.
Qed.

(** What the invariant says of the page. *)
Lemma form_ok_page c0 phs w past : form_ok c0 phs w past →
  past_ok (randoms w) past ∧ consecutive c0 past ∧ actions w = sent_in past ∧
  (∀ i j ph ph', phs !! i = Some ph → phs !! j = Some ph' → ph ≠ Filed → ph' ≠ Filed → i = j) ∧
  (∀ i ph, phs !! i = Some ph → ph ≠ Filed → can_submit (page w) = false) ∧
  (fc_result (page w) ≠ VNull → fc_step (page w) = Done ∧
     ∃ a, last past = Some a ∧ went_through a (fc_result (page w))).
Proof.
  intros [p Hp Hcs Ha Hcl Hf Hres|p k ph0 a Hp Hn Hsalt Hcs Hbe Hcl Ha Hk Hsent Hf Hc Hres].
  - split_and!; try done; [intros i j ph ph' Hi%Hf _ ?; congruence|intros i ph Hi%Hf ?; congruence].
  - split_and!; [|by apply consecutive_snoc|by rewrite sent_in_snoc| |done|done].
    + apply past_ok_snoc; [done..|]. split_and!; [done|by eapply sent_partly|by eapply sent_goes_on].
    + assert (∀ i ph, phs !! i = Some ph → ph ≠ Filed → i = k) as H.
      { intros i ph Hi Hne. destruct (decide (i = k)) as [|Hik]; [done|]. by destruct Hne; eapply Hf. }
      intros i j ph ph' Hi Hj Hne Hne'. by rewrite (H i ph), (H j ph').
Qed.
End history.

(** The form as it is first shown. *)
Definition form_opened (clock drawn : nat) : Web FileClaim := mkWeb (mkFileClaim Idle VNull VNull) clock drawn [].

(** C16: One filing after the other.  However often the form is submitted, at
    most one submission is in flight and the button is disabled meanwhile;
    everything the page ever sent is a sequence of filings, one per attempt,
    each with the root of a salt of its own, posted to the backend before it
    is sent on chain, and none going on after a call that was rejected; and a
    result is shown only when the last of them made every call and had every
    one answered, the transaction's receipt included: it is the id the
    backend answered with and the hash of that receipt. *)
Theorem filings_never_mix (E : WebEnv) (V : ViteEnv) (clock drawn : nat) (phs : list FilePhase) (w : Web FileClaim) :
  rtc (file_step E V) ([], form_opened clock drawn) (phs, w) →
  (∀ i j ph ph', phs !! i = Some ph → phs !! j = Some ph' → ph ≠ Filed → ph' ≠ Filed → i = j) ∧
  (∀ i ph, phs !! i = Some ph → ph ≠ Filed → can_submit (page w) = false) ∧
  ∃ past, actions w = sent_in past ∧ consecutive clock past ∧ NoDup (number <$> past) ∧ Forall (attempt_ok E V) past ∧
    (fc_result (page w) ≠ VNull → fc_step (page w) = Done ∧
       ∃ a, last past = Some a ∧ went_through E V a (fc_result (page w))).
Proof.
  intros Hr. destruct (form_ok_reachable E V clock _ _ [] Hr) as [past Hok].
  { apply form_idle; cbn; try done. split; [apply NoDup_nil_2|constructor]. }
  apply form_ok_page in Hok as ([Hn Hf] & Hcs & Ha & Hone & Hbusy & Hres). split_and!; [done..|].
  exists past. split_and!; [done..| |done]. eapply Forall_impl; [exact Hf|]. by intros a [_ ?].
Qed.

(** The first attempt is refused by the backend, the second goes through. *)
Definition filing_web : WebEnv := {|
  answer n a := match a with
    | HttpPost _ _ _ _ => if (n =? 0)%nat then inr "Network Error" else inl (VObj [("data", VObj [("id", VNum (Int 5))])])
    | WaitTx => inl (VObj [("hash", VStr "0xmined")])
    | _ => inl VUndef
    end;
  getRandomValues := getRandomValues demo_web;
  randomUUID := randomUUID demo_web;
  ZeroAddress := ZeroAddress demo_web;
  parseEther := parseEther demo_web;
  formatEther := formatEther demo_web;
  toUtf8Bytes := toUtf8Bytes demo_web;
  getBytes := getBytes demo_web;
  keccak256_concat := keccak256_concat demo_web;
  JsonRpcProvider := JsonRpcProvider demo_web;
  error_detail := error_detail demo_web;
|}.
Definition filing_phase (m : outcome FilePhase * Web FileClaim) : FilePhase :=
  match m.1 with Ok ph => ph | Throw _ => Filed end.
Definition press (w : Web FileClaim) := file_start filing_web VNull "9" "250" "storm" w.
Definition go_on (m : outcome FilePhase * Web FileClaim) := file_advance filing_web demo_vite (filing_phase m) m.2.
Definition try1 := press (form_opened 0 0).
Definition try2 := press (go_on try1).2.
Definition try3 := go_on try2.
Definition try4 := go_on try3.
Definition try5 := go_on try4.
Definition try6 := go_on try5.
Definition try7 := go_on try6.

Lemma filings_never_mix_witness :
  length (actions try7.2) = 6%nat ∧ fc_step (page try7.2) = Done ∧
  ∃ past, actions try7.2 = sent_in past ∧ NoDup (number <$> past) ∧
    ∃ a, last past = Some a ∧ went_through filing_web demo_vite a (fc_result (page try7.2)).
Proof.
  split; [vm_compute; reflexivity|]. split; [vm_compute; reflexivity|].
  destruct (filings_never_mix filing_web demo_vite 0 0 [filing_phase (go_on try1); filing_phase try7] try7.2)
    as (_ & _ & past & Ha & _ & Hn & _ & Hres).
  - eapply rtc_l; [apply (step_submit _ _ [] (form_opened 0 0) VNull "9" "250" "storm" (filing_phase try1) try1.2); vm_compute; reflexivity|].
    eapply rtc_l; [apply (step_file _ _ _ _ 0%nat (filing_phase try1) (filing_phase (go_on try1)) (go_on try1).2); vm_compute; reflexivity|].
    eapply rtc_l; [apply (step_submit _ _ _ _ VNull "9" "250" "storm" (filing_phase try2) try2.2); vm_compute; reflexivity|].
    eapply rtc_l; [apply (step_file _ _ _ _ 1%nat (filing_phase try2) (filing_phase try3) try3.2); vm_compute; reflexivity|].
    eapply rtc_l; [apply (step_file _ _ _ _ 1%nat (filing_phase try3) (filing_phase try4) try4.2); vm_compute; reflexivity|].
    eapply rtc_l; [apply (step_file _ _ _ _ 1%nat (filing_phase try4) (filing_phase try5) try5.2); vm_compute; reflexivity|].
    eapply rtc_l; [apply (step_file _ _ _ _ 1%nat (filing_phase try5) (filing_phase try6) try6.2); vm_compute; reflexivity|].
    eapply rtc_l; [apply (step_file _ _ _ _ 1%nat (filing_phase try6) (filing_phase try7) try7.2); vm_compute; reflexivity|].
    apply rtc_refl.
  - exists past. split_and!; [done|done|]. apply Hres. vm_compute. discriminate.
Defined.
