(* ===== verification/FrontendTypes.v ===== *)
(** * The pages render

    Type safety of the views: as long as the backend answers with the shapes
    of its response models ([BackendTypes], backend/app/schemas.py) and its
    error details can be shown, every handler leaves a state that renders
    ([FrontendOverlap] draws the conclusion for whole pages).  The condition
    on error details is needed: FastAPI's details of a rejected body are lists
    of objects, and storing one makes the page throw. *)

From S2P Require Import Prelude JsValue JsText Buffer React FrontendContract FrontendPages FrontendViews FrontendRuns.

(** ** Shapes *)
Definition scalar_field (v : jsval) (k : string) : Prop := ∃ x, js_get v k = Ok x ∧ scalar x.
Definition wei_field (v : jsval) (k : string) : Prop := ∃ z, js_get v k = Ok (VStr (dec z)).

(** A transaction hash, or none yet. *)
Definition hash_shape (h : jsval) : Prop := nullish h = true ∨ ∃ s, h = VStr s.

(** [ClaimOut], as far as the pages read it. *)
Definition claim_fields : list string := ["id"; "policy_id"; "declared_amount"; "status"; "onchain_claim_id"].
Definition claim_shape (c : jsval) : Prop :=
  Forall (scalar_field c) claim_fields ∧
  ∃ h, js_get c "tx_hash" = Ok h ∧ hash_shape h.

(** [PolicyTemplateOut] *)
Definition template_shape (t : jsval) : Prop :=
  (∃ n, js_get t "template_id" = Ok (VNum n)) ∧ wei_field t "coverage_amount_wei" ∧ wei_field t "premium_amount_per_period_wei" ∧
  ∃ n, js_get t "period_seconds" = Ok (VNum n).

(** [PolicyStatusOut] *)
Definition policy_shape (t : jsval) : Prop :=
  scalar_field t "premium_current" ∧ scalar_field t "premium_paid_until" ∧ wei_field t "premium_amount_per_period_wei".

(** The response models, by route; a mined transaction has a hash, and ethers
    formats every integer text. *)
Class BackendTypes (E : WebEnv) : Prop := {
  claims_typed n t r d : answer E n (HttpGet "/claims" VUndef t) = inl r → js_get r "data" = Ok d →
    ∃ l, d = VArr l ∧ Forall claim_shape l;
  claim_typed n s t r d : answer E n (HttpGet ("/claims/" +:+ s) VUndef t) = inl r → js_get r "data" = Ok d →
    claim_shape d;
  created_typed n b t k r d : answer E n (HttpPost "/claims" b t k) = inl r → js_get r "data" = Ok d →
    scalar_field d "id";
  catalog_typed n r d : answer E n (HttpGet "/policies/catalog" VUndef None) = inl r → js_get r "data" = Ok d →
    ∃ l, d = VArr l ∧ Forall template_shape l;
  status_typed n s r d : answer E n (HttpGet ("/policies/" +:+ s +:+ "/status") VUndef None) = inl r →
    js_get r "data" = Ok d → policy_shape d;
  receipt_typed n r h : answer E n WaitTx = inl r → js_get r "hash" = Ok h → scalar h;
  wei_formats z : ∃ s, formatEther E (VStr (dec z)) = inl s;
}.

(** ** What a state must hold to render *)
Section states.
Context `{React}.

(** [VNull] until something was loaded. *)
Definition loaded_with (P : jsval → Prop) (v : jsval) : Prop := v = VNull ∨ P v.
Definition list_of (P : jsval → Prop) (v : jsval) : Prop := ∃ l, v = VArr l ∧ Forall P l.
Definition result_of (keys : list string) (v : jsval) : Prop := Forall (scalar_field v) keys.

Definition form_typed (s : FileClaim) : Prop :=
  error_ok (fc_error s) ∧ loaded_with (result_of ["claimId"; "txHash"]) (fc_result s).
Definition catalog_typed_state (s : BuyPolicy) : Prop :=
  error_ok (bp_error s) ∧ loaded_with (list_of template_shape) (templates s) ∧
  loaded_with (result_of ["templateId"; "approveTxHash"; "subscribeTxHash"]) (bp_result s).
Definition dashboard_typed (s : Dashboard) : Prop :=
  error_ok (db_error s) ∧ loaded_with (list_of claim_shape) (claims s).
Definition lookup_typed (s : ClaimStatus) : Prop :=
  error_ok (cs_error s) ∧ loaded_with claim_shape (claim s).
Definition badge_typed (s : Badge) : Prop :=
  error_ok (loadError s) ∧ error_ok (payError s) ∧ loaded_with policy_shape (status s).
End states.

(** ** Typed states render *)
Section rendering.
Context (E : WebEnv) {BT : BackendTypes E} {R : React} {RL : ReactLaws R}.

(** A computation that returns. *)
Definition returns {A} (o : outcome A) : Prop := ∃ a, o = Ok a.
Lemma returns_bind {A B} (o : outcome A) (k : A → outcome B) : returns o → (∀ a, o = Ok a → returns (k a)) → returns (o ≫= k).
Proof. intros [a Ha] Hk. destruct (Hk a Ha) as [b Hb]. exists b. by rewrite Ha. Qed.
Lemma returns_ok {A} (a : A) : returns (Ok a).
Proof. by eexists. Qed.
Lemma returns_mapM {A B} (f : A → outcome B) l : Forall (λ a, returns (f a)) l → returns (mapM f l).
Proof.
  induction 1 as [|a l Ha _ IH]; simpl; [by eexists|].
  apply returns_bind; [done|intros b _]. apply returns_bind; [done|intros bs _]. by eexists.
Qed.

Lemma error_returns v : error_ok v → returns (when_truthy v).
Proof. apply error_shown. Qed.
Lemma field_child v k : scalar_field v k → returns (child_of v k).
Proof. intros (x & Hx & Hs). unfold child_of. rewrite Hx. by apply scalar_shows. Qed.
Lemma field_status v : scalar_field v "status" → returns (js_get v "status" ≫= render_status).
Proof.
  intros (x & -> & Hs). simpl. unfold render_status. destruct (assoc _ _); [apply text_shows|by apply scalar_shows].
Qed.
Lemma wei_returns v k : wei_field v k → returns (js_get v k ≫= formatWei E).
Proof.
  intros [z ->]. simpl. unfold formatWei. destruct (wei_formats z) as [s Hs]. rewrite Hs. by eexists.
Qed.
Lemma field_get v k : scalar_field v k → returns (js_get v k).
Proof. intros (x & -> & _). by eexists. Qed.
Lemma scalar_get v k x : scalar_field v k → js_get v k = Ok x → returns (child x).
Proof. intros (y & Hy & Hs) Hx. rewrite Hx in Hy. injection Hy as ->. by apply scalar_shows. Qed.
Lemma wei_get v k : wei_field v k → returns (js_get v k).
Proof. intros [z ->]. by eexists. Qed.

(** One step of a rendering: the next thing it reads or shows. *)
Ltac render_step :=
  match goal with
  | |- returns (Ok _) => apply returns_ok
  | |- returns (if ?b then _ else _) => destruct b eqn:?
  | |- returns (when_truthy _) => apply error_returns
  | |- returns (child_of _ _) => apply field_child
  | |- returns (_ ≫= render_status) => apply field_status
  | |- returns (_ ≫= formatWei _) => apply wei_returns
  | |- returns (_ ≫= _) => apply returns_bind; [|intros ? ?]
  | H : js_get ?v ?k = Ok ?x |- returns (child ?x) => apply (scalar_get v k); [|exact H]
  | H : js_get ?v ?k = Ok ?x |- returns (js_get ?v ?k) => by exists x
  | |- returns (js_get _ _) => apply field_get
  end.

(** The fields of a claim, one by one. *)
Lemma claim_shape_fields c : claim_shape c → ∃ h, js_get c "tx_hash" = Ok h ∧ hash_shape h ∧
  scalar_field c "id" ∧ scalar_field c "policy_id" ∧ scalar_field c "declared_amount" ∧
  scalar_field c "status" ∧ scalar_field c "onchain_claim_id".
Proof.
  intros [Hf (h & Hh & Hk)]. unfold claim_fields in Hf. rewrite !Forall_cons in Hf.
  exists h. repeat (split; [tauto|]). tauto.
Qed.

Lemma hash_slices h : hash_shape h → returns (slice_hash h).
Proof. intros [Hn|[s ->]]; [|by eexists]. by destruct h; try done; eexists. Qed.
Lemma hash_shows h : hash_shape h → error_ok h.
Proof. intros [Hn|[s ->]] Ht; [by destruct h|apply text_shows]. Qed.
Lemma hash_get c h x : js_get c "tx_hash" = Ok h → hash_shape h → js_get c "tx_hash" = Ok x → hash_shape x.
Proof. intros Hh Hs Hx. rewrite Hh in Hx. by injection Hx as <-. Qed.

Lemma card_renders c : claim_shape c → returns (render_card c).
Proof.
  intros (h & Hh & Hkind & Hid & Hpol & Ham & Hst & Hon)%claim_shape_fields.
  unfold render_card. repeat (render_step; try assumption).
  eapply hash_slices, hash_get; [exact Hh|exact Hkind|done].
Qed.
Lemma details_render b c : claim_shape c → returns (render_details b c).
Proof.
  intros (h & Hh & Hkind & Hid & Hpol & Ham & Hst & Hon)%claim_shape_fields.
  unfold render_details. repeat (render_step; try assumption).
  eapply hash_shows, hash_get; [exact Hh|exact Hkind|done].
Qed.
Lemma plan_renders subscribing t : template_shape t → returns (render_plan E subscribing t).
Proof.
  intros ([id Hid] & Hcov & Hprem & n & Hn). assert (scalar_field t "template_id") by (eexists; by split). unfold render_plan. repeat (render_step; try assumption).
  match goal with H : js_get t "period_seconds" = Ok ?v |- _ => rewrite Hn in H; injection H as <- end. by eexists.
Qed.

(** A result, once there is one. *)
Lemma result_fields keys v k : loaded_with (result_of keys) v → truthy v = true → k ∈ keys → scalar_field v k.
Proof. intros [->|H] Ht Hk; [done|]. by eapply Forall_forall in H. Qed.

Lemma form_renders s : form_typed s → returns (render_FileClaim s).
Proof.
  intros [He Hr]. unfold render_FileClaim. repeat (render_step; try assumption);
    (eapply result_fields; [exact Hr|done|]); [left|right; left].
Qed.
Lemma catalog_renders s : catalog_typed_state s → returns (render_BuyPolicy E s).
Proof.
  intros (He & Ht & Hr). unfold render_BuyPolicy.
  destruct (truthy (bp_error s) && _) eqn:Hb; [apply andb_true_iff in Hb as [Hb _]|].
  { apply returns_bind; [by apply He|intros; apply returns_ok]. }
  destruct Ht as [->|(l & -> & Hl)]; [by eexists|]. cbn [strict_eq].
  apply returns_bind; [apply returns_mapM; eapply Forall_impl; [exact Hl|intros t; apply plan_renders]|intros plans _].
  repeat (render_step; try assumption);
    (eapply result_fields; [exact Hr|done|]); [left|right; left|right; right; left].
Qed.
Lemma dashboard_renders s : dashboard_typed s → returns (render_Dashboard s).
Proof.
  intros [He Hc]. unfold render_Dashboard. destruct (truthy (db_error s)) eqn:Hb.
  { apply returns_bind; [by apply He|intros; apply returns_ok]. }
  destruct Hc as [->|(l & -> & Hl)]; [by eexists|]. cbn [strict_eq].
  apply returns_bind; [|intros; apply returns_ok]. apply returns_mapM. eapply Forall_impl; [exact Hl|intros c; apply card_renders].
Qed.
Lemma lookup_renders s : lookup_typed s → returns (render_ClaimStatus s).
Proof.
  intros [He Hc]. unfold render_ClaimStatus. repeat (render_step; try assumption).
  apply details_render. by destruct Hc as [Hc|Hc]; [rewrite Hc in *|].
Qed.
Lemma badge_renders s : badge_typed s → returns (render_badge E s).
Proof.
  intros (Hl & Hp & Hs). unfold render_badge. destruct (truthy (loadError s)) eqn:Hb.
  { apply returns_bind; [by apply Hl|intros; apply returns_ok]. }
  destruct (strict_eq (status s) VNull) eqn:Hn; [apply returns_ok|].
  destruct Hs as [Hs|(Hcur & Huntil & Hwei)]; [by rewrite Hs in Hn|].
  repeat (render_step; try assumption).
Qed.
End rendering.

(** ** Handlers keep states typed *)
Definition keeps {P} (T : P → Prop) (w w' : Web P) : Prop := T (page w) → T (page w').
#[export] Instance keeps_preorder {P} (T : P → Prop) : PreOrder (keeps T).
Proof. split; [intros w H; exact H|]. intros w1 w2 w3 H1 H2 H. apply H2, H1, H. Qed.

(** A result made of values that can be shown. *)
Ltac solve_result := repeat constructor; eexists; (split; [reflexivity|assumption]).

Section keeping.
Context (E : WebEnv) (V : ViteEnv) {BT : BackendTypes E} {R : React} {RL : ReactLaws R} (Hdetails : details_show E).

Lemma set_typed {P} (T : P → Prop) f : (∀ s, T s → T (f s)) → moves (keeps T) (set_page f).
Proof. intros Hf w H. by apply Hf. Qed.
Lemma quiet_keeps {P A} (T : P → Prop) (m : Js (Web P) A) : moves same_page m → moves (keeps T) m.
Proof. apply moves_weaken. intros w w' Hp H. by rewrite Hp. Qed.
Lemma act_keeps {P} (T : P → Prop) a : moves (keeps T) (act E a).
Proof. apply quiet_keeps, act_same_page. Qed.
Lemma draw_keeps {P A} (T : P → Prop) (source : nat → A) : moves (keeps T) (draw source).
Proof. intros w H. exact H. Qed.
End keeping.

(** ** A backend with these shapes *)
Definition typed_claim : jsval := VObj
  [("id", VNum (Int 7)); ("policy_id", VNum (Int 9)); ("declared_amount", VNum (Int 250)); ("status", VStr "submitted");
   ("onchain_claim_id", VNum (Int 1)); ("tx_hash", VStr "0x1234567890abcdef")].
Definition typed_template : jsval := VObj
  [("template_id", VNum (Int 3)); ("coverage_amount_wei", VStr (dec 2000)); ("period_seconds", VNum (Int 2592000));
   ("premium_amount_per_period_wei", VStr (dec 25))].
Definition typed_status : jsval := VObj
  [("premium_current", VBool false); ("premium_paid_until", VNum (Int 1700)); ("premium_amount_per_period_wei", VStr (dec 25))].

(** The second answer of the backend is an error. *)
Definition typed_web : WebEnv := {|
  answer n a := match a with
    | HttpGet path _ _ =>
        if (n =? 1)%nat then inr "Not Found"
        else if bool_decide (path = "/claims") then inl (VObj [("data", VArr [typed_claim])])
        else if bool_decide (path = "/policies/catalog") then inl (VObj [("data", VArr [typed_template])])
        else if String.prefix "/claims/" path then inl (VObj [("data", typed_claim)])
        else inl (VObj [("data", typed_status)])
    | HttpPost _ _ _ _ => inl (VObj [("data", typed_claim)])
    | WaitTx => inl (VObj [("hash", VStr "0xmined")])
    | _ => inl (VObj []) end;
  getRandomValues n := be 32 (Z.of_nat n);
  randomUUID n := dec (Z.of_nat n);
  ZeroAddress := "0x0";
  parseEther s := match undec s with Some z => inl z | None => inr "invalid" end;
  formatEther v := match v with VStr s => inl s | _ => inr "invalid" end;
  toUtf8Bytes _ := inl [];
  getBytes s := inl (bytes_of_hex (slice2 s));
  keccak256_concat l := "0x" +:+ hex_of (concat l);
  JsonRpcProvider _ := inl tt;
  error_detail e := match e with ServiceError m => VStr m | _ => VUndef end;
|}.

Lemma status_path_not_catalog s : "/policies/" +:+ s +:+ "/status" ≠ "/policies/catalog".
Proof. intros H. injection H as H. do 8 (destruct s as [|? s]; [discriminate|]; simpl in H; first [discriminate|injection H as _ H]). Qed.

Lemma typed_claim_shape : claim_shape typed_claim.
Proof. split; [repeat constructor; by eexists|]. eexists. split; [reflexivity|]. right. by eexists. Qed.
Lemma typed_template_shape : template_shape typed_template.
Proof. split_and!; by eexists. Qed.
Lemma typed_status_shape : policy_shape typed_status.
Proof. split_and!; by eexists. Qed.

#[export] Instance typed_web_types : BackendTypes typed_web.
Proof.
  split; cbn [answer typed_web]; intros n; try (destruct (n =? 1)%nat; [intros; discriminate|]).
  - rewrite bool_decide_eq_true_2 by done. intros _ r d [= <-] [= <-]. eexists. split; [done|].
    apply Forall_singleton, typed_claim_shape.
  - intros s _ r d. rewrite !bool_decide_eq_false_2 by (intros H; discriminate H).
    change (String.prefix "/claims/" ("/claims/" +:+ s)) with (String.prefix "" s). destruct s; intros [= <-] [= <-]; apply typed_claim_shape.
  - intros _ _ _ r d [= <-] [= <-]. by eexists.
  - rewrite bool_decide_eq_false_2, bool_decide_eq_true_2 by done. intros r d [= <-] [= <-]. eexists. split; [done|].
    apply Forall_singleton, typed_template_shape.
  - intros s r d. rewrite !bool_decide_eq_false_2; [|apply status_path_not_catalog|intros H; discriminate H].
    intros [= <-] [= <-]. apply typed_status_shape.
  - intros r h [= <-] [= <-]. done.
  - by eexists.
Qed.

(** ** Refused requests *)
Section refused_requests.
Context (E : WebEnv) (V : ViteEnv) (token : jsval).

(** The state the form is in once its request was refused. *)
Lemma refused_post policyId amount description root m (w : Web FileClaim) :
  policyId ≠ "" → amount ≠ "" →
  placeholderMerkleRoot E description (claim_salt E (randoms w)) = Ok root →
  answer E (web_clock w) (HttpPost "/claims" (claim_body policyId amount root (claim_salt E (randoms w)))
    (Some (authHeaders token)) None) = inr m →
  page (handleSubmit E V token policyId amount description w).2 =
    mkFileClaim Idle (error_text E (ServiceError m) "Claim submission failed.") VNull.
Proof.
  intros Hp Ha Hroot Hans. unfold handleSubmit. rewrite !bind_set_page, !bool_decide_eq_false_2 by done.
  cbn [orb]. unfold generateClaimSalt. rewrite bind_bind, bind_run. unfold draw. cbn [page web_clock randoms actions].
  rewrite bind_ret. fold (claim_salt E (randoms w)). rewrite Hroot, bind_lift_ok. unfold handleSubmit_try, try_catch, createClaim.
  rewrite bind_set_page, bind_run. unfold act at 1. cbn [page web_clock randoms actions]. rewrite Hans. done.
Qed.
Lemma refused_search claimId m (w : Web ClaimStatus) :
  answer E (web_clock w) (HttpGet ("/claims/" +:+ claimId) VUndef (Some (authHeaders token))) = inr m →
  let w' := (handleSearch E token claimId w).2 in
  claim (page w') = VNull ∧ cs_error (page w') = detail_or E (ServiceError m) "Claim not found.".
Proof.
  intros Hans. unfold handleSearch, try_catch, getClaim. rewrite !bind_set_page, bind_run.
  unfold act at 1 2. cbn [page web_clock randoms actions js_to_string]. by rewrite Hans.
Qed.
End refused_requests.

(** C32: A validation error takes the page down.  FastAPI answers a body or
    path it cannot validate (a negative or unreadable amount, a claim id that
    is no number) with a detail that is a list of objects; the form and the
    claim page store that list as their error and throw when they render it
    instead of showing why the request was refused. *)
Theorem validation_error_breaks_pages (E : WebEnv) (V : ViteEnv) {R : React} {RL : ReactLaws R}
    (token : jsval) (policyId amount description root claimId m : string) (fs : list (string * jsval)) (l : list jsval)
    (w : Web FileClaim) (v : Web ClaimStatus) :
  error_detail E (ServiceError m) = VArr (VObj fs :: l) →
  (policyId ≠ "" → amount ≠ "" →
   placeholderMerkleRoot E description (claim_salt E (randoms w)) = Ok root →
   answer E (web_clock w) (HttpPost "/claims" (claim_body policyId amount root (claim_salt E (randoms w)))
     (Some (authHeaders token)) None) = inr m →
   ∃ e, render_FileClaim (page (handleSubmit E V token policyId amount description w).2) = Throw e) ∧
  (answer E (web_clock v) (HttpGet ("/claims/" +:+ claimId) VUndef (Some (authHeaders token))) = inr m →
   ∃ e, render_ClaimStatus (page (handleSearch E token claimId v).2) = Throw e).
Proof.
  intros Hd. destruct (objects_refused fs l) as [e He]. split.
  - intros Hp Ha Hroot Hans. rewrite (refused_post E V token policyId amount description root m) by done. exists e.
    unfold render_FileClaim, when_truthy, error_text. cbn [fc_error]. rewrite Hd. cbn [truthy]. by rewrite He.
  - intros Hans. destruct (refused_search E token claimId m v Hans) as [_ Her]. exists e.
    unfold render_ClaimStatus, when_truthy. rewrite Her. unfold detail_or. rewrite Hd. cbn [truthy]. by rewrite He.
Qed.

(** FastAPI's answer to a negative amount and to an id that is no number. *)
Definition validating_web : WebEnv := {|
  answer n a := match a with
    | HttpPost "/claims" _ _ _ | HttpGet _ _ _ => inr "Unprocessable Entity"
    | _ => inl (VObj []) end;
  getRandomValues n := be 32 (Z.of_nat n);
  randomUUID n := dec (Z.of_nat n);
  ZeroAddress := "0x0";
  parseEther s := inr "invalid";
  formatEther v := inr "invalid";
  toUtf8Bytes _ := inl [];
  getBytes s := inl (bytes_of_hex (slice2 s));
  keccak256_concat l := "0x" +:+ hex_of (concat l);
  JsonRpcProvider _ := inl tt;
  error_detail e := match e with
    | ServiceError _ => VArr [VObj [("loc", VArr [VStr "body"; VStr "declared_amount"]); ("msg", VStr "Input should be greater than 0")]]
    | _ => VUndef end;
|}.
Section validation_demo.
Import ReactReference.
Lemma validation_error_breaks_pages_witness :
  (∃ e, render_FileClaim (page (handleSubmit validating_web demo_vite VNull "9" "-5" "storm" (demo_page (mkFileClaim Idle VNull VNull))).2) = Throw e) ∧
  (∃ e, render_ClaimStatus (page (handleSearch validating_web VNull "seven" (demo_page (mkClaimStatus VNull VNull false VNull))).2) = Throw e).
Proof.
  destruct (validation_error_breaks_pages validating_web demo_vite VNull "9" "-5" "storm"
    (match placeholderMerkleRoot validating_web "storm" (claim_salt validating_web 0) with Ok r => r | _ => "" end)
    "seven" "Unprocessable Entity" _ _ (demo_page (mkFileClaim Idle VNull VNull))
    (demo_page (mkClaimStatus VNull VNull false VNull)) eq_refl) as [Hf Hs].
  split; [by apply Hf|by apply Hs].
Defined.
End validation_demo.
