(* ===== verification/FrontendPayments.v ===== *)
(** * Subscribing and paying over the life of a page

    The handlers and loading effects of pages/BuyPolicy.jsx,
    pages/Dashboard.jsx and components/PremiumStatusBadge.jsx as tasks, each
    proved to be the function of [FrontendPages]; and the wallet's view of a
    catalog page or a badge on which they overlap: one payment after the
    other ([payments_never_mix]). *)

From S2P Require Import Prelude JsValue JsText Buffer React FrontendContract FrontendTasks FrontendPages FrontendViews FrontendRuns FrontendTypes.

(** ** The tasks *)
Section payment_tasks.
Context {P : Type} (E : WebEnv) (V : ViteEnv).

Definition wait_hash_task : Task P jsval :=
  receipt ← awaits WaitTx; computes (js_get receipt "hash").

Definition approve_task (policy stable premiumAmountEther : string) : Task P jsval :=
  amountWei ← computes (ethers (parseEther E premiumAmountEther));
  _ ← awaits (SendTx stable "approve" [VStr policy; VBigInt amountWei]);
  awaits WaitTx.

Definition subscribeToPolicyOnChain_task (templateId : jsval) (premiumAmountEther : string) : Task P (jsval * jsval) :=
  policy ← computes (requireAddress E (VITE_INSURANCE_POLICY_ADDRESS V) "VITE_INSURANCE_POLICY_ADDRESS");
  stable ← computes (requireAddress E (VITE_STABLECOIN_ADDRESS V) "VITE_STABLECOIN_ADDRESS");
  approveReceipt ← approve_task policy stable premiumAmountEther;
  _ ← awaits (SendTx policy "subscribeToPolicy" [templateId]);
  subscribeReceipt ← awaits WaitTx;
  approveTxHash ← computes (js_get approveReceipt "hash");
  subscribeTxHash ← computes (js_get subscribeReceipt "hash");
  mret (approveTxHash, subscribeTxHash).

Definition payPremiumOnChain_task (policyId : jsval) (premiumAmountEther : string) : Task P jsval :=
  policy ← computes (requireAddress E (VITE_INSURANCE_POLICY_ADDRESS V) "VITE_INSURANCE_POLICY_ADDRESS");
  stable ← computes (requireAddress E (VITE_STABLECOIN_ADDRESS V) "VITE_STABLECOIN_ADDRESS");
  _ ← approve_task policy stable premiumAmountEther;
  _ ← awaits (SendTx policy "payPremium" [policyId]);
  wait_hash_task.

(** An effect that is not cleaned up before it settles. *)
Definition load_task (request : Action) (set set_error : jsval → P → P) (fallback : string) : Task P unit :=
  tries (
    res ← awaits request;
    data ← computes (js_get res "data"); sets (set data))
  (λ err, sets (set_error (detail_or E err fallback))).

Lemma approve_realizes policy stable ether :
  realizes E (approve_premium E policy stable ether) (approve_task policy stable ether).
Proof. unfold approve_premium, approve_task. solve_realizes. Qed.
Lemma subscribeToPolicy_realizes id ether :
  realizes E (subscribeToPolicyOnChain E V id ether) (subscribeToPolicyOnChain_task id ether).
Proof. pose proof approve_realizes. unfold subscribeToPolicyOnChain, subscribeToPolicyOnChain_task. solve_realizes. Qed.
Lemma payPremium_realizes id ether : realizes E (payPremiumOnChain E V id ether) (payPremiumOnChain_task id ether).
Proof.
  pose proof approve_realizes. unfold payPremiumOnChain, payPremiumOnChain_task, wait_hash, wait_hash_task. solve_realizes.
Qed.
Lemma load_realizes request set set_error fallback :
  realizes E (load E (act E request) false set set_error fallback) (load_task request set set_error fallback).
Proof. unfold load, load_task. solve_realizes. Qed.
End payment_tasks.

Section tasks.
Context (E : WebEnv) (V : ViteEnv).

Definition catalog_effect : Task BuyPolicy unit :=
  load_task E (HttpGet "/policies/catalog" VUndef None) setTemplates setBpError "Could not load the policy catalog.".
Definition status_effect (policyId : jsval) : Task Badge unit :=
  load_task E (HttpGet ("/policies/" +:+ js_to_string policyId +:+ "/status") VUndef None) setStatus setLoadError
    "Could not load premium status.".
Definition claims_effect (token : jsval) : Task Dashboard unit :=
  load_task E (HttpGet "/claims" VUndef (Some (authHeaders token))) (λ v s, mkDashboard v (db_error s))
    (λ v s, mkDashboard (claims s) v) "Could not load claims.".

Definition subscribe_task (template : jsval) : Task BuyPolicy unit :=
  sets (setBpError VNull) ;;
  sets (setBpResult VNull) ;;
  template_id ← computes (js_get template "template_id");
  sets (setSubscribing template_id) ;;
  ends_with
    (tries (
       _ ← awaits GetSigner;
       wei ← computes (js_get template "premium_amount_per_period_wei");
       premiumEther ← computes (formatWei E wei);
       hashes ← subscribeToPolicyOnChain_task E V template_id premiumEther;
       sets (setBpResult (VObj [("templateId", template_id); ("approveTxHash", hashes.1);
                                ("subscribeTxHash", hashes.2)])))
     (λ err, sets (setBpError (VStr (error_message err "Subscription failed.")))))
    (setSubscribing VNull).

Definition pay_task (policyId render_status : jsval) : Task Badge unit :=
  sets (setPayError VNull) ;;
  sets (setPaying true) ;;
  ends_with
    (tries (
       _ ← awaits GetSigner;
       wei ← computes (js_get render_status "premium_amount_per_period_wei");
       premiumEther ← computes (formatWei E wei);
       hash ← payPremiumOnChain_task E V policyId premiumEther;
       sets (setTxHash hash))
     (λ err, sets (setPayError (VStr (error_message err "Payment failed.")))))
    (setPaying false).

Lemma subscribe_realizes template : realizes E (handleSubscribe E V template) (subscribe_task template).
Proof. pose proof (@subscribeToPolicy_realizes BuyPolicy E V). unfold handleSubscribe, subscribe_task. solve_realizes. Qed.
Lemma pay_realizes policyId st : realizes E (handlePay E V st policyId) (pay_task policyId st).
Proof. pose proof (@payPremium_realizes Badge E V). unfold handlePay, pay_task. solve_realizes. Qed.

(** The effects, as long as the component that started them is mounted. *)
Lemma effects_realize policyId token :
  realizes E (load_catalog E false) catalog_effect ∧ realizes E (load_status E policyId false) (status_effect policyId) ∧
  realizes E (load_claims E token false) (claims_effect token).
Proof. split_and!; apply load_realizes. Qed.
End tasks.

(** ** The buttons, and what pressing one may send *)
Section pages.
Context (E : WebEnv) (V : ViteEnv) {R : React}.

(** The catalog shows an enabled button for this plan. *)
Definition offers_plan (s : BuyPolicy) (template : jsval) : Prop :=
  ∃ plans error result l i plan, render_BuyPolicy E s = Ok (CatalogPlans plans error result) ∧
    templates s = VArr l ∧ l !! i = Some template ∧ plans !! i = Some plan ∧ plan_disabled plan = false.
(** The badge shows its button enabled; the handler reads the status shown. *)
Definition offers_payment (s : Badge) (st : jsval) : Prop :=
  st = status s ∧ ∃ ether error, render_badge E s = Ok (PremiumLapsed ether false error).

Definition catalog_step :=
  pool_step E offers_plan (λ t, thread (subscribe_task E V t)) (λ t, t = thread (catalog_effect E)).
Definition badge_step (policyId : jsval) :=
  pool_step E offers_payment (λ st, thread (pay_task E V policyId st)) (λ t, t = thread (status_effect E policyId)).

Definition catalog_busy (s : BuyPolicy) : bool := negb (strict_eq (subscribing s) VNull).
(** Everything a page sends but its loading requests. *)
Definition wallet_call (a : Action) : bool := match a with HttpGet _ _ _ => false | _ => true end.

(** A plan of the catalog, with the types of [PolicyTemplateOut]. *)
Definition plan_known (t : jsval) : Prop :=
  ∃ n p, js_get t "template_id" = Ok (VNum n) ∧ js_get t "premium_amount_per_period_wei" = Ok (VStr (dec p)).
Definition premium_known (st : jsval) : Prop := ∃ p, js_get st "premium_amount_per_period_wei" = Ok (VStr (dec p)).
Definition catalog_known (s : BuyPolicy) : Prop := templates s = VNull ∨ ∃ l, templates s = VArr l ∧ Forall plan_known l.
Definition status_known (s : Badge) : Prop := status s = VNull ∨ premium_known (status s).

(** The calls of a press of this plan's button: a subscription to it or a
    first part of one, up to the first call that was rejected. *)
Definition subscription_part (t : jsval) (l : list Call) : Prop :=
  ∃ n p, js_get t "template_id" = Ok (VNum n) ∧ js_get t "premium_amount_per_period_wei" = Ok (VStr (dec p)) ∧
    paying_part E V "subscribeToPolicy" (VNum n) p l.*1 ∧ stops_at_failure l.
(** A whole one, every call answered, with the receipts' hashes. *)
Definition subscription (t : jsval) (l : list Call) (result : jsval) : Prop :=
  ∃ n p approval receipt h h', js_get t "template_id" = Ok (VNum n) ∧
    js_get t "premium_amount_per_period_wei" = Ok (VStr (dec p)) ∧
    paid E V "subscribeToPolicy" (VNum n) p l.*1 ∧ all_ok l ∧
    l !! 2%nat = Some (WaitTx, Ok approval) ∧ js_get approval "hash" = Ok h ∧
    l !! 4%nat = Some (WaitTx, Ok receipt) ∧ js_get receipt "hash" = Ok h' ∧
    result = VObj [("templateId", VNum n); ("approveTxHash", h); ("subscribeTxHash", h')].
(** The same for the premium of the status shown. *)
Definition premium_part (policyId st : jsval) (l : list Call) : Prop :=
  ∃ p, js_get st "premium_amount_per_period_wei" = Ok (VStr (dec p)) ∧
    paying_part E V "payPremium" policyId p l.*1 ∧ stops_at_failure l.
Definition premium_payment (policyId st : jsval) (l : list Call) (result : jsval) : Prop :=
  ∃ p receipt, js_get st "premium_amount_per_period_wei" = Ok (VStr (dec p)) ∧
    paid E V "payPremium" policyId p l.*1 ∧ all_ok l ∧
    l !! 4%nat = Some (WaitTx, Ok receipt) ∧ js_get receipt "hash" = Ok result.

Lemma mapM_lookup {A B} (f : A → outcome B) l k i y : mapM f l = Ok k → k !! i = Some y → ∃ x, l !! i = Some x ∧ f x = Ok y.
Proof.
  revert k i. induction l as [|x l IH]; intros k i H Hy; cbn in H; [by injection H as <-|].
  outcome_inv H. injection H as <-. destruct i as [|i]; [injection Hy as <-; by exists x|by eapply IH].
Qed.
Lemma plan_enabled s t : offers_plan s t → catalog_busy s = false.
Proof.
  intros (plans & error & result & l & i & plan & Hr & Ht & Hl & Hp & Hd). unfold render_BuyPolicy in Hr. rewrite Ht in Hr.
  destruct (truthy (bp_error s) && _); [by outcome_inv Hr|]. cbn [strict_eq] in Hr. outcome_inv Hr.
  injection Hr as <- _ _. destruct (mapM_lookup _ _ _ _ _ Hret Hp) as (t' & _ & H). unfold render_plan in H.
  outcome_inv H. injection H as <-. exact Hd.
Qed.
Lemma payment_enabled s st : offers_payment s st → paying s = false.
Proof.
  intros [_ (ether & error & Hr)]. unfold render_badge in Hr.
  destruct (truthy (loadError s)); [by outcome_inv Hr|]. destruct (strict_eq (status s) VNull); [done|].
  outcome_inv Hr. destruct (truthy _); outcome_inv Hr; [done|]. by injection Hr.
Qed.
Lemma offered_status s st : offers_payment s st → status_known s → premium_known st.
Proof.
  intros [-> (ether & error & Hr)] [Hn|Hk]; [|done]. unfold render_badge in Hr. rewrite Hn in Hr.
  destruct (truthy (loadError s)); [by outcome_inv Hr|done].
Qed.
Lemma offered_known s t : offers_plan s t → catalog_known s → plan_known t.
Proof.
  intros (plans & error & result & l & i & plan & _ & Ht & Hl & _) [Hn|(l' & Hl' & Hk)]; [by rewrite Ht in Hn|].
  rewrite Ht in Hl'. injection Hl' as <-. by apply (Forall_lookup_1 _ _ _ _ Hk Hl).
Qed.

(** A payment has five calls, so that none can be continued. *)
Lemma paid_length method arg p l : paid E V method arg p l → length l = 5%nat.
Proof. intros (l' & [policy stable _ _] & ->). done. Qed.
Lemma paying_length method arg p l : paying_part E V method arg p l → (length l <= 5)%nat.
Proof.
  intros [H|(l' & [policy stable _ _] & H)]; apply prefix_length in H; simpl in H; lia.
Qed.
Lemma paid_not_paying method arg arg' p p' (l : list Call) c : paid E V method arg p l.*1 →
  ¬ paying_part E V method arg' p' (l ++ [c]).*1.
Proof. intros H%paid_length H'%paying_length. rewrite fmap_app, length_app in H'. cbn in H'. lia. Qed.
Lemma subscription_max t l v c : subscription t l v → ¬ subscription_part t (l ++ [c]).
Proof.
  intros (n & p & a & r & h & h' & _ & _ & H & _) (n' & p' & _ & _ & H' & _). by eapply paid_not_paying.
Qed.
Lemma premium_max policyId st l v c : premium_payment policyId st l v → ¬ premium_part policyId st (l ++ [c]).
Proof. intros (p & r & _ & H & _) (p' & _ & H' & _). by eapply paid_not_paying. Qed.

(** The loading effects leave the button, the result and the wallet alone. *)
Lemma catalog_effect_out : stays_out catalog_busy bp_result wallet_call (thread (catalog_effect E)).
Proof.
  unfold catalog_effect, load_task. unfold_task. split; [done|]. intros [r|[]]; cbn; try done.
  by destruct (js_get r "data") as [d|[]].
Qed.
Lemma status_effect_out policyId : stays_out paying txHash wallet_call (thread (status_effect E policyId)).
Proof.
  unfold status_effect, load_task. unfold_task. split; [done|]. intros [r|[]]; cbn; try done.
  by destruct (js_get r "data") as [d|[]].
Qed.

Context (Hether : ∀ z s, formatEther E (VStr (dec z)) = inl s → parseEther E s = inl z).

(** Down a thread, case by case on the answers and on what is computed. *)
Ltac walk_step :=
  match goal with
  | |- ∀ _ : outcome jsval, guarded _ _ => intros [?|[]]
  | |- ∀ _ : outcome jsval, proceeds _ _ _ _ _ _ _ => intros [?|[]]
  | |- _ ∧ _ => split
  | |- True => exact I
  | |- _ ∨ _ => by left
  | |- guarded _ (match ?o with _ => _ end) => destruct o as [?|[]] eqn:?
  | |- proceeds _ _ _ _ _ _ (match ?o with _ => _ end) => destruct o as [?|[]] eqn:?
  end.
Ltac walk := repeat (cbn [guarded proceeds app]; try done; walk_step).

(** A payment under way: its calls so far are a part of it. *)
Definition payment_calls (policy stable method : string) (arg : jsval) (z : Z) : list Action :=
  [GetSigner; SendTx stable "approve" [VStr policy; VBigInt z]; WaitTx; SendTx policy method [arg]; WaitTx].
Lemma paying_calls k method arg p ether policy stable z :
  formatEther E (VStr (dec p)) = inl ether → ethers (parseEther E ether) = Ok z →
  requireAddress E (VITE_INSURANCE_POLICY_ADDRESS V) "VITE_INSURANCE_POLICY_ADDRESS" = Ok policy →
  requireAddress E (VITE_STABLECOIN_ADDRESS V) "VITE_STABLECOIN_ADDRESS" = Ok stable →
  paying_part E V method arg p (take k (payment_calls policy stable method arg z)).
Proof.
  intros Hp Hz Hpol Hst. rewrite (Hether _ _ Hp) in Hz. injection Hz as <-. right. eexists. split; [by constructor|].
  apply prefix_take.
Qed.
Lemma paid_calls method arg p ether policy stable z :
  formatEther E (VStr (dec p)) = inl ether → ethers (parseEther E ether) = Ok z →
  requireAddress E (VITE_INSURANCE_POLICY_ADDRESS V) "VITE_INSURANCE_POLICY_ADDRESS" = Ok policy →
  requireAddress E (VITE_STABLECOIN_ADDRESS V) "VITE_STABLECOIN_ADDRESS" = Ok stable →
  paid E V method arg p (payment_calls policy stable method arg z).
Proof.
  intros Hp Hz Hpol Hst. rewrite (Hether _ _ Hp) in Hz. injection Hz as <-. eexists. split; [by constructor|done].
Qed.
Lemma paying_first method arg p : paying_part E V method arg p [GetSigner].
Proof. by left. Qed.

Lemma subscribe_opens t : plan_known t →
  opens catalog_busy bp_result wallet_call subscription_part subscription t (thread (subscribe_task E V t)).
Proof.
  intros (n & p & Hid & Hwei). unfold subscribe_task, subscribeToPolicyOnChain_task, approve_task. unfold_task. rewrite Hid, Hwei.
  apply opens_keep; [auto|]. apply opens_keep; [auto|]. apply opens_busy; [done|done|walk|].
  unfold formatWei. destruct (formatEther E _) as [s|m] eqn:Hf; cbn [ethers]; walk.
  6: { right. intros s'. exists n, p. do 4 eexists.
       split_and!; [done|done|by eapply paid_calls|done|reflexivity|eassumption|reflexivity|eassumption|done]. }
  all: intros r; exists n, p; (split_and!; [done|done| |done]).
  - apply paying_first.
  - by eapply (paying_calls 2).
  - by eapply (paying_calls 3).
  - by eapply (paying_calls 4).
  - by eapply (paying_calls 5).
  - apply paying_first.
Qed.
Lemma pay_opens policyId st : premium_known st →
  opens paying txHash wallet_call (premium_part policyId) (premium_payment policyId) st
    (thread (pay_task E V policyId st)).
Proof.
  intros (p & Hwei). unfold pay_task, payPremiumOnChain_task, wait_hash_task, approve_task. unfold_task. rewrite Hwei.
  apply opens_keep; [auto|]. apply opens_busy; [done|done|walk|].
  unfold formatWei. destruct (formatEther E _) as [s|m] eqn:Hf; cbn [ethers]; walk.
  6: { right. intros s'. exists p. eexists. split_and!; [done|by eapply paid_calls|done|reflexivity|eassumption]. }
  all: intros r; exists p; (split_and!; [done| |done]).
  - apply paying_first.
  - by eapply (paying_calls 2).
  - by eapply (paying_calls 3).
  - by eapply (paying_calls 4).
  - by eapply (paying_calls 5).
  - apply paying_first.
Qed.

(** ** What the tasks keep typed *)
Context {BT : BackendTypes E}.

Lemma load_gives {P} (T : P → Prop) request set set_error fallback :
  (∀ e s, T s → T (set_error (detail_or E e fallback) s)) →
  (∀ n r d s, answer E n request = inl r → js_get r "data" = Ok d → T s → T (set d s)) →
  gives E T (load_task E request set set_error fallback) (λ _, True).
Proof. intros He Hs. unfold load_task. repeat gives_step; [|by apply He]. destruct Hret as [n Hn]. intros s. by eapply Hs. Qed.

Lemma approve_gives {P} (T : P → Prop) policy stable ether :
  gives E T (approve_task E policy stable ether) (λ v, ∃ n, answer E n WaitTx = inl v).
Proof. unfold approve_task. repeat gives_step. Qed.
Lemma subscribe_chain_gives {P} (T : P → Prop) id ether :
  gives E T (subscribeToPolicyOnChain_task E V id ether) (λ hs, scalar hs.1 ∧ scalar hs.2).
Proof.
  unfold subscribeToPolicyOnChain_task. repeat (apply approve_gives || gives_step).
  destruct Hret1 as [n Hn], Hret3 as [m Hm]. split; [exact (receipt_typed n _ _ Hn Hret4)|exact (receipt_typed m _ _ Hm Hret5)].
Qed.
Lemma pay_chain_gives {P} (T : P → Prop) id ether : gives E T (payPremiumOnChain_task E V id ether) (λ _, True).
Proof.
  unfold payPremiumOnChain_task, wait_hash_task. repeat (apply approve_gives || gives_step).
Qed.

(** ** One payment after the other *)
Lemma catalog_effect_known t : t = thread (catalog_effect E) → always E catalog_known t.
Proof.
  intros ->. eapply always_thread, load_gives; [done|]. intros n r d s Hr Hd _. right.
  destruct (catalog_typed n r d Hr Hd) as (l & -> & Hl). eexists. split; [done|]. eapply Forall_impl; [exact Hl|].
  intros t ((k & Hk) & _ & (p & Hp) & _). by exists k, p.
Qed.
Lemma status_effect_known policyId t : t = thread (status_effect E policyId) → always E status_known t.
Proof.
  intros ->. eapply always_thread, load_gives; [done|]. intros n r d s Hr Hd _. right.
  destruct (status_typed n _ r d Hr Hd) as (_ & _ & p & Hp). by exists p.
Qed.
Lemma subscribe_task_known t : always E catalog_known (thread (subscribe_task E V t)).
Proof.
  eapply always_thread. unfold subscribe_task. repeat (apply subscribe_chain_gives || gives_step); done.
Qed.
Lemma pay_task_known policyId st : always E status_known (thread (pay_task E V policyId st)).
Proof. eapply always_thread. unfold pay_task. repeat (apply pay_chain_gives || gives_step); done. Qed.

(** The calls of a page that began at tick [c0]: those of one press after the
    other, and a result is that of a whole one among them. *)
Definition attempts (part : jsval → list Call → Prop) (whole : jsval → list Call → jsval → Prop) {P}
    (presses : list jsval) (c0 : nat) (result : jsval) (w : Web P) : Prop :=
  ∃ ls, sent_calls E wallet_call c0 w = concat ls ∧ Forall2 part presses ls ∧
    (result = VNull ∨ ∃ x l, (x, l) ∈ zip presses ls ∧ whole x l result).

Lemma line_attempts {P} part whole (shown : P → jsval) busy c0 past fs (w : Web P) :
  line_ok E busy shown wallet_call part whole c0 past fs w → attempts part whole (presses fs) c0 (shown (page w)) w.
Proof.
  intros [_ H1 H0 H2 H3 _ _]. exists past.*2. rewrite H0. split_and!; [done| |].
  - clear -H2. induction H2; by constructor.
  - destruct H3 as [H3|([x l] & Hin & Hw)%Exists_exists]; [by left|right]. exists x, l. split; [|done].
    by rewrite zip_fst_snd.
Qed.

Lemma catalog_line w0 fs w : rtc catalog_step ([], w0) (fs, w) → page w0 = mkBuyPolicy VNull VNull VNull VNull →
  actions w0 = [] → one_in_flight fs ∧
  attempts subscription_part subscription (presses fs) (web_clock w0) (bp_result (page w)) w.
Proof.
  intros Hr Hp Ha.
  destruct (line_reach E offers_plan (λ t, thread (subscribe_task E V t)) (λ t, t = thread (catalog_effect E)) catalog_busy
    bp_result wallet_call subscription_part subscription subscription_max (web_clock w0) catalog_known) with (5 := Hr) as [past Hok].
  - intros s t _ _. apply subscribe_task_known.
  - apply catalog_effect_known.
  - intros s t Hs Ht. pose proof (offered_known s t Ht Hs) as Hk. split; [by eapply plan_enabled|]. split; [by apply subscribe_opens|].
    destruct Hk as (n & p & ? & ?). exists n, p. split_and!; [done|done| |done]. left. apply prefix_nil.
  - intros t ->. apply catalog_effect_out.
  - rewrite Hp. by left.
  - by rewrite Hp.
  - by rewrite Hp.
  - done.
  - done.
  - split; [by eapply line_one|by eapply line_attempts].
Qed.
Lemma badge_line policyId w0 fs w : rtc (badge_step policyId) ([], w0) (fs, w) → page w0 = badge_initial →
  actions w0 = [] → one_in_flight fs ∧
  attempts (premium_part policyId) (premium_payment policyId) (presses fs) (web_clock w0) (txHash (page w)) w.
Proof.
  intros Hr Hp Ha.
  destruct (line_reach E offers_payment (λ st, thread (pay_task E V policyId st)) (λ t, t = thread (status_effect E policyId)) paying
    txHash wallet_call (premium_part policyId) (premium_payment policyId) (premium_max policyId) (web_clock w0) status_known)
    with (5 := Hr) as [past Hok].
  - intros s t _ _. apply pay_task_known.
  - apply status_effect_known.
  - intros s t Hs Ht. pose proof (offered_status s t Ht Hs) as Hk. split; [by eapply payment_enabled|]. split; [by apply pay_opens|].
    destruct Hk as (p & ?). exists p. split_and!; [done| |done]. left. apply prefix_nil.
  - intros t ->. apply status_effect_out.
  - rewrite Hp. by left.
  - by rewrite Hp.
  - by rewrite Hp.
  - done.
  - done.
  - split; [by eapply line_one|by eapply line_attempts].
Qed.

(** Every press was of a button that was shown, enabled, at that time. *)
Definition shown_when_pressed {P} (step : relation (list (Flight P jsval) * Web P)) (offers : P → jsval → Prop)
    (w0 : Web P) (c : list (Flight P jsval) * Web P) : Prop :=
  Forall (λ x, ∃ d, rtc step ([], w0) d ∧ rtc step d c ∧ offers (page d.2) x) (presses c.1).
End pages.

(** C17: Payments never mix.  Over the whole life of a catalog page or of a
    premium badge, whatever is pressed whenever a button is enabled, however
    often the data is loaded again and in whatever order everything is
    answered: at most one payment is in flight; the calls to the wallet and
    the contracts, with their answers, are those of one press after the
    other.  Each press is of a plan that was shown with its button enabled
    (of the status shown), and its calls are an approval of exactly that
    plan's premium (that status's), the subscription to that plan (the premium
    of that policy) and the waits, or a first part of it, no call following
    one that was rejected.  A result is shown only when it is made of the
    answers to the calls of such a press, all made and all answered. *)
Theorem payments_never_mix (E : WebEnv) (V : ViteEnv) {R : React} {BT : BackendTypes E} (policyId : jsval)
    (w0 w : Web BuyPolicy) (b0 b : Web Badge) (fs : list (Flight BuyPolicy jsval)) (gs : list (Flight Badge jsval)) :
  (∀ z s, formatEther E (VStr (dec z)) = inl s → parseEther E s = inl z) →
  page w0 = mkBuyPolicy VNull VNull VNull VNull → actions w0 = [] → rtc (catalog_step E V) ([], w0) (fs, w) →
  page b0 = badge_initial → actions b0 = [] → rtc (badge_step E V policyId) ([], b0) (gs, b) →
  (one_in_flight fs ∧ shown_when_pressed (catalog_step E V) (offers_plan E) w0 (fs, w) ∧
   attempts E (subscription_part E V) (subscription E V) (presses fs) (web_clock w0) (bp_result (page w)) w) ∧
  (one_in_flight gs ∧ shown_when_pressed (badge_step E V policyId) (offers_payment E) b0 (gs, b) ∧
   attempts E (premium_part E V policyId) (premium_payment E V policyId) (presses gs) (web_clock b0) (txHash (page b)) b).
Proof.
  intros Hether Hp Ha Hr Hp' Ha' Hr'. pose proof (presses_offered _ _ _ _ _ _ Hr). pose proof (presses_offered _ _ _ _ _ _ Hr').
  destruct (catalog_line E V Hether w0 fs w Hr Hp Ha), (badge_line E V Hether policyId b0 gs b Hr' Hp' Ha'). by split_and!.
Qed.

(** ** A load error *)
Definition load_failed (s : Badge) : Prop := truthy (loadError s) = true.
Lemma status_effect_fails E policyId t : t = thread (status_effect E policyId) → always E load_failed t.
Proof.
  intros ->. eapply always_thread. unfold status_effect, load_task. repeat gives_step; [done|].
  intros s _. by apply (detail_or_truthy _ _ "Could not load premium status.").
Qed.
Lemma pay_task_fails E V policyId st : always E load_failed (thread (pay_task E V policyId st)).
Proof. eapply always_thread. unfold pay_task. repeat (apply pay_chain_gives || gives_step); done. Qed.

(** C31: A load error is for ever.  Once one load of the badge has failed, it
    shows an error at every later await of whatever loads and payments
    overlap, successful ones included: the status is stored but never shown
    again, nor the pay button. *)
Theorem badge_error_sticks (E : WebEnv) {R : React} (V : ViteEnv) (policyId : jsval) (w0 w w' : Web Badge)
    (fs gs : list (Flight Badge jsval)) :
  rtc (badge_step E V policyId) ([], w0) (fs, w) → truthy (loadError (page w)) = true →
  rtc (badge_step E V policyId) (fs, w) (gs, w') →
  ∃ error, truthy error = true ∧ render_badge E (page w') = (t ← child error; Ok (ShowLoadError t)).
Proof.
  intros Hr He Hr'. assert (Forall (λ f, always E load_failed (rest f)) fs) as Hfs.
  { eapply pool_reach_always; [|apply status_effect_fails|exact Hr]. intros st. apply pay_task_fails. }
  destruct (pool_rtc_typed E (offers_payment E) (λ st, thread (pay_task E V policyId st)) (λ t, t = thread (status_effect E policyId))
    load_failed) with (3 := Hr') as [_ H]; [intros s st _ _; apply pay_task_fails|apply status_effect_fails|by split|].
  unfold render_badge. cbn in H. rewrite H. by eexists.
Qed.

(** The catalog is loaded, a plan is bought while it is loaded again. *)
Section payments_demo.
Import ReactReference.
Definition load_plans : Thread BuyPolicy := thread (catalog_effect typed_web).
Definition plans_shown : list (Flight BuyPolicy jsval) * Web BuyPolicy :=
  resume typed_web 0 (launch typed_web None load_plans ([], demo_page (mkBuyPolicy VNull VNull VNull VNull))).
Definition plan_pressed : list (Flight BuyPolicy jsval) * Web BuyPolicy :=
  launch typed_web (Some typed_template) (thread (subscribe_task typed_web demo_vite typed_template)) plans_shown.
Definition plan_bought : list (Flight BuyPolicy jsval) * Web BuyPolicy :=
  foldl (λ c i, resume typed_web i c) (launch typed_web None load_plans plan_pressed) [1; 1; 2; 1; 1; 1]%nat.

Lemma plan_bought_reached :
  rtc (catalog_step typed_web demo_vite) ([], demo_page (mkBuyPolicy VNull VNull VNull VNull)) plan_bought.
Proof.
  eapply rtc_l; [by apply (launch_effect _ _ _ _ load_plans)|].
  etrans; [apply (resume_reach _ _ (λ t, thread (subscribe_task typed_web demo_vite t)) _ 0)|].
  eapply rtc_l; [apply (launch_press _ _ (λ t, thread (subscribe_task typed_web demo_vite t)) _ typed_template)|].
  { eexists _, None, None, _, 0%nat, _. split_and!; [vm_compute; reflexivity..|reflexivity]. }
  eapply rtc_l; [by apply (launch_effect _ _ _ _ load_plans)|].
  unfold plan_bought. cbn [foldl]. do 6 (etrans; [apply (resume_reach _ _ (λ t, thread (subscribe_task typed_web demo_vite t)))|]).
  reflexivity.
Qed.

Lemma payments_never_mix_witness :
  bp_result (page plan_bought.2) ≠ VNull ∧ length (sent_calls typed_web wallet_call 0 plan_bought.2) = 5%nat ∧
  presses plan_bought.1 = [typed_template] ∧
  attempts typed_web (subscription_part typed_web demo_vite) (subscription typed_web demo_vite) (presses plan_bought.1) 0
    (bp_result (page plan_bought.2)) plan_bought.2.
Proof.
  split; [vm_compute; discriminate|]. split; [vm_compute; reflexivity|]. split; [vm_compute; reflexivity|].
  destruct (payments_never_mix typed_web demo_vite VNull (demo_page (mkBuyPolicy VNull VNull VNull VNull)) plan_bought.2
    (demo_page badge_initial) (demo_page badge_initial) plan_bought.1 []) as [(_ & _ & H) _]; try done.
  - intros z s H. injection H as <-. change (parseEther typed_web (dec z))
      with (match undec (dec z) with Some z => inl z | None => inr "invalid" end : Z + string). by rewrite undec_dec.
  - exact plan_bought_reached.
Defined.

(** Two loads, the second refused; the payment pressed in between goes
    through, and so does the load after it. *)
Definition load_badge : Thread Badge := thread (status_effect typed_web (VNum (Int 9))).
Definition press_pay : jsval → Thread Badge := λ st, thread (pay_task typed_web demo_vite (VNum (Int 9)) st).
Definition lapsed_shown : list (Flight Badge jsval) * Web Badge :=
  resume typed_web 0 (launch typed_web None load_badge (launch typed_web None load_badge ([], demo_page badge_initial))).
Definition load_refused : list (Flight Badge jsval) * Web Badge :=
  resume typed_web 1 (launch typed_web (Some typed_status) (press_pay typed_status) lapsed_shown).
Definition badge_paid_again : list (Flight Badge jsval) * Web Badge :=
  resume typed_web 3 (launch typed_web None load_badge (foldl (λ c i, resume typed_web i c) load_refused [2; 2; 2; 2; 2]%nat)).

Lemma load_refused_reached : rtc (badge_step typed_web demo_vite (VNum (Int 9))) ([], demo_page badge_initial) load_refused.
Proof.
  do 2 (eapply rtc_l; [by apply (launch_effect _ _ _ _ load_badge)|]).
  etrans; [apply (resume_reach _ _ press_pay _ 0)|].
  eapply rtc_l; [apply (launch_press _ _ press_pay _ typed_status)|].
  { split; [reflexivity|]. do 2 eexists. vm_compute. reflexivity. }
  apply resume_reach.
Qed.
Lemma badge_error_sticks_witness :
  txHash (page badge_paid_again.2) = VStr "0xmined" ∧ status (page badge_paid_again.2) = typed_status ∧
  ∃ error, truthy error = true ∧
    render_badge typed_web (page badge_paid_again.2) = (t ← child error; Ok (ShowLoadError t)).
Proof.
  split; [vm_compute; reflexivity|]. split; [vm_compute; reflexivity|].
  apply (badge_error_sticks typed_web demo_vite (VNum (Int 9)) (demo_page badge_initial) load_refused.2 badge_paid_again.2
    load_refused.1 badge_paid_again.1).
  - rewrite <-surjective_pairing. exact load_refused_reached.
  - vm_compute. reflexivity.
  - rewrite <-!surjective_pairing. unfold badge_paid_again. cbn [foldl].
    do 5 (etrans; [apply (resume_reach _ _ press_pay _ 2)|]).
    eapply rtc_l; [by apply (launch_effect _ _ _ _ load_badge)|]. apply resume_reach.
Defined.
End payments_demo.
