(* ===== verification/FrontendOverlap.v ===== *)
(** * Overlapping handlers keep the pages typed

    The handlers and effects of every page overlap here: those of the claim
    form and of the claim page cut at their awaits as in [FrontendFiling] and
    [FrontendStatus], the others as the tasks of [FrontendPayments].  A handler
    in flight carries answers, so the invariant types them too
    ([phase_typed]). *)

From S2P Require Import Prelude JsValue JsText Buffer React FrontendContract FrontendPages FrontendViews FrontendStatus FrontendTasks FrontendRuns FrontendFiling FrontendTypes FrontendPayments.

(** An answer whose data, if it has any, is typed. *)
Definition carries (P : jsval → Prop) (field : string) (res : outcome jsval) : Prop :=
  ∀ r d, res = Ok r → js_get r field = Ok d → P d.

Definition phase_typed (ph : StatusPhase) : Prop :=
  match ph with
  | SearchAnswered res | RefreshAnswered _ res => carries claim_shape "data" res
  | _ => True
  end.
Definition filing_typed (ph : FilePhase) : Prop :=
  match ph with
  | ClaimPosted _ res => carries (λ d, scalar_field d "id") "data" res
  | ModuleAsked _ backendClaim _ | SignerAsked _ backendClaim _ | ClaimSent _ backendClaim _ => scalar_field backendClaim "id"
  | ClaimMined _ backendClaim res => scalar_field backendClaim "id" ∧ carries scalar "hash" res
  | Filed => True
  end.

Section overlap.
Context (E : WebEnv) (V : ViteEnv) {BT : BackendTypes E} {R : React} {RL : ReactLaws R} (Hdetails : details_show E).

Lemma sent_act_keeps {P} (T : P → Prop) a : moves (keeps T) (FrontendStatus.sent (act E a)).
Proof. intros w H. exact H. Qed.
Lemma answered_act {P} a (w : Web P) res w' : FrontendStatus.sent (act E a) w = (Ok res, w') →
  ∀ r, res = Ok r → answer E (web_clock w) a = inl r.
Proof. unfold FrontendStatus.sent, act. cbn. intros [= <- _] r. by destruct (answer E (web_clock w) a) as [v|m]; intros [= <-]. Qed.

(** ** The claim page *)
Lemma failed_keeps fallback e : moves (keeps lookup_typed) (set_page (setCsError (detail_or E e fallback))).
Proof. apply set_typed. intros s [_ Hc]. by split; [apply detail_error|]. Qed.
Lemma found_keeps res (k : Js (Web ClaimStatus) unit) : carries claim_shape "data" res → moves (keeps lookup_typed) k →
  moves (keeps lookup_typed) (r ← lift res; data ← lift (js_get r "data"); set_page (setClaim data) ;; k).
Proof.
  intros Hres Hk. apply moves_bind_lift; [apply _|intros r Hr]. apply moves_bind_lift; [apply _|intros d Hd].
  apply moves_bind; [apply _| |by intros _]. apply set_typed. intros s [He _]. split; [done|]. right. by eapply Hres.
Qed.
Lemma trigger_end_keeps m : moves (keeps lookup_typed) m → moves (keeps lookup_typed) (trigger_end E m).
Proof.
  intros Hm. unfold trigger_end. apply moves_bind; [apply _| |intros _; apply moves_ret, _].
  apply moves_finally; [apply _| |by apply set_typed]. apply moves_try; [apply _|done|intros e; apply failed_keeps].
Qed.
Lemma search_start_keeps token claimId : moves (keeps lookup_typed) (search_start E token claimId).
Proof.
  unfold search_start, getClaim. apply moves_bind; [apply _|apply set_typed; by intros s [_ Hc]|intros _].
  apply moves_bind; [apply _|apply set_typed; intros s [He _]; by split; [|left]|intros _].
  apply moves_bind; [apply _|apply sent_act_keeps|intros r; apply moves_ret, _].
Qed.
Lemma trigger_start_keeps token c key : moves (keeps lookup_typed) (trigger_start E token c key).
Proof.
  unfold trigger_start, triggerVerification. apply moves_bind; [apply _|by apply set_typed|intros _].
  apply moves_bind; [apply _|apply set_typed; by intros s [_ Hc]|intros _].
  destruct (js_get c "id"); [|apply trigger_end_keeps, moves_throw, _].
  apply moves_bind; [apply _|apply sent_act_keeps|intros r; apply moves_ret, _].
Qed.
Lemma status_advance_keeps token ph : phase_typed ph → moves (keeps lookup_typed) (status_advance E token ph).
Proof.
  destruct ph as [res|id [r|e]|id res|]; intros Hph; cbn [status_advance].
  - apply moves_bind; [apply _| |intros _; apply moves_ret, _]. unfold search_end.
    apply moves_try; [apply _| |intros e; apply failed_keeps]. apply found_keeps; [done|].
    apply moves_bind; [apply _|apply draw_keeps|intros u; by apply set_typed].
  - apply moves_bind; [apply _|apply sent_act_keeps|intros r'; apply moves_ret, _].
  - apply trigger_end_keeps, moves_throw, _.
  - apply trigger_end_keeps. intros w Hw. apply (found_keeps res (mret tt) Hph) in Hw; [|apply moves_ret, _].
    unfold lift, set_page, modify, mbind, js_bind, mret, js_ret in *. destruct res as [r|e]; [|done]. by destruct (js_get r "data").
  - apply moves_ret, _.
Qed.

(** What a handler in flight carries. *)
Lemma get_claim_carries token id (w : Web ClaimStatus) res w' :
  FrontendStatus.sent (getClaim E token id) w = (Ok res, w') → carries claim_shape "data" res.
Proof. unfold getClaim. intros H r d Hr Hd. eapply claim_typed; [by eapply answered_act|exact Hd]. Qed.
Lemma trigger_end_settles m w ph w' : trigger_end E m w = (Ok ph, w') → ph = Settled.
Proof. unfold trigger_end. intros H. js_invs H. by injection H as <- _. Qed.
Lemma search_start_typed token claimId w ph w' : search_start E token claimId w = (Ok ph, w') → phase_typed ph.
Proof.
  unfold search_start. rewrite !bind_set_page. intros H. js_invs H. injection H as <- _. by eapply get_claim_carries.
Qed.
Lemma trigger_start_typed token c key w ph w' : trigger_start E token c key w = (Ok ph, w') → phase_typed ph.
Proof.
  unfold trigger_start. rewrite !bind_set_page. destruct (js_get c "id").
  - intros H. js_invs H. by injection H as <- _.
  - by intros ->%trigger_end_settles.
Qed.
Lemma status_advance_typed token ph w ph' w' : status_advance E token ph w = (Ok ph', w') → phase_typed ph'.
Proof.
  destruct ph as [res|id [r|e]|id res|]; cbn [status_advance].
  - intros H. js_invs H. by injection H as <- _.
  - intros H. js_invs H. injection H as <- _. by eapply get_claim_carries.
  - by intros ->%trigger_end_settles.
  - by intros ->%trigger_end_settles.
  - intros H. by injection H as <- _.
Qed.

Definition lookup_page_typed (c : list StatusPhase * Web ClaimStatus) : Prop :=
  Forall phase_typed c.1 ∧ lookup_typed (page c.2).
Lemma moved {P A} (T : P → Prop) (m : Js (Web P) A) w r w' : moves (keeps T) m → m w = (r, w') → T (page w) → T (page w').
Proof. intros Hm Hrun Hw. specialize (Hm w Hw). by rewrite Hrun in Hm. Qed.
Lemma status_step_typed c c' : status_step E c c' → lookup_page_typed c → lookup_page_typed c'.
Proof.
  intros [phs w token claimId ph w' Hrun|phs w token ph w' _ Hrun|phs w token i ph ph' w' Hi Hrun] [Hphs Hw]; cbn [fst snd] in *.
  - split; cbn [fst snd]; [apply Forall_app; split; [done|]; apply Forall_singleton; by eapply search_start_typed|].
    eapply moved; [apply search_start_keeps|exact Hrun|done].
  - split; cbn [fst snd]; [apply Forall_app; split; [done|]; apply Forall_singleton; by eapply trigger_start_typed|].
    eapply moved; [apply trigger_start_keeps|exact Hrun|done].
  - split; cbn [fst snd]; [apply Forall_insert; [done|by eapply status_advance_typed]|].
    eapply moved; [apply status_advance_keeps|exact Hrun|done]. by eapply Forall_lookup_1.
Qed.

(** ** The claim form *)
Lemma file_caught_keeps m : moves (keeps form_typed) m → moves (keeps form_typed) (file_caught E m).
Proof.
  intros Hm. unfold file_caught. apply moves_try; [apply _|done|intros e].
  apply moves_bind; [apply _|by apply set_typed|intros _]. apply moves_bind; [apply _| |intros _; apply moves_ret, _].
  apply set_typed. intros s [_ Hr]. by split; [apply error_text_error|].
Qed.
Lemma file_start_keeps token policyId amount description :
  moves (keeps form_typed) (file_start E token policyId amount description).
Proof.
  unfold file_start, generateClaimSalt, createClaim.
  apply moves_bind; [apply _|apply set_typed; by intros s [_ Hr]|intros _].
  apply moves_bind; [apply _|apply set_typed; intros s [He _]; by split; [|left]|intros _].
  destruct (_ || _).
  - apply moves_bind; [apply _|apply set_typed; intros s [_ Hr]; by split; [apply text_error|]|intros _; apply moves_ret, _].
  - apply moves_bind; [apply _|apply quiet_keeps; by solve_moves|intros salt].
    apply moves_bind; [apply _|apply moves_lift, _|intros root]. apply moves_bind; [apply _|by apply set_typed|intros _].
    apply moves_bind; [apply _|apply sent_act_keeps|intros r; apply moves_ret, _].
Qed.
Lemma file_advance_keeps ph : filing_typed ph → moves (keeps form_typed) (file_advance E V ph).
Proof.
  destruct ph as [s res|s bc res|s bc res|s bc res|s bc res|]; intros Hph; cbn [file_advance]; [..|apply moves_ret, _].
  all: apply file_caught_keeps.
  - do 2 (apply moves_bind; [apply _|apply moves_lift, _|intros ?]).
    apply moves_bind; [apply _|by apply set_typed|intros _]. apply moves_bind; [apply _|apply sent_act_keeps|intros r; apply moves_ret, _].
  - apply moves_bind; [apply _|apply moves_lift, _|intros _].
    apply moves_bind; [apply _|apply sent_act_keeps|intros r; apply moves_ret, _].
  - do 3 (apply moves_bind; [apply _|apply moves_lift, _|intros ?]).
    apply moves_bind; [apply _|apply sent_act_keeps|intros r; apply moves_ret, _].
  - apply moves_bind; [apply _|apply moves_lift, _|intros _].
    apply moves_bind; [apply _|apply sent_act_keeps|intros r; apply moves_ret, _].
  - destruct Hph as [(id & Hid & Hs) Hres]. apply moves_bind_lift; [apply _|intros receipt Hr].
    apply moves_bind_lift; [apply _|intros h Hh]. apply moves_bind; [apply _|by apply set_typed|intros _].
    rewrite Hid. apply moves_bind_lift; [apply _|intros ? [= <-]].
    apply moves_bind; [apply _| |intros _; apply moves_ret, _]. apply set_typed. intros f [He _]. split; [done|]. right.
    pose proof (Hres _ _ Hr Hh). solve_result.
Qed.
Lemma file_caught_ok m w ph w' : file_caught E m w = (Ok ph, w') → m w = (Ok ph, w') ∨ ph = Filed.
Proof.
  unfold file_caught. intros [H|(e & w1 & _ & H)]%try_catch_ok; [by left|right]. js_invs H. by injection H as <- _.
Qed.
Lemma file_start_typed token policyId amount description w ph w' :
  file_start E token policyId amount description w = (Ok ph, w') → filing_typed ph.
Proof.
  unfold file_start, createClaim. rewrite !bind_set_page. destruct (_ || _); intros H; js_invs H; injection H as <- _; [done|].
  intros r d Hr Hd. eapply created_typed; [by eapply answered_act|exact Hd].
Qed.
Lemma file_advance_typed ph w ph' w' : filing_typed ph → file_advance E V ph w = (Ok ph', w') → filing_typed ph'.
Proof.
  destruct ph as [s res|s bc res|s bc res|s bc res|s bc res|]; intros Hph; cbn [file_advance]; [..|intros H; by injection H as <- _].
  all: intros [H| ->]%file_caught_ok; [|done]; js_invs H; injection H as <- _; cbn; try done.
  - apply lift_ok in Hrun as [Hr _], Hrun0 as [Hd _]. by eapply Hph.
  - split; [done|]. intros r d Hr Hd. eapply receipt_typed; [by eapply answered_act|exact Hd].
Qed.

Definition form_page_typed (c : list FilePhase * Web FileClaim) : Prop := Forall filing_typed c.1 ∧ form_typed (page c.2).
Lemma file_step_typed c c' : file_step E V c c' → form_page_typed c → form_page_typed c'.
Proof.
  intros [phs w token p a d ph w' _ Hrun|phs w token p a d e w' _ Hrun|phs w i ph ph' w' Hi Hrun] [Hphs Hw]; cbn [fst snd] in *.
  - split; cbn [fst snd]; [apply Forall_app; split; [done|]; apply Forall_singleton; by eapply file_start_typed|].
    eapply moved; [apply file_start_keeps|exact Hrun|done].
  - split; cbn [fst snd]; [apply Forall_app; split; [done|]; by apply Forall_singleton|].
    eapply moved; [apply file_start_keeps|exact Hrun|done].
  - assert (filing_typed ph) as Hph by (by eapply Forall_lookup_1).
    split; cbn [fst snd]; [apply Forall_insert; [done|by eapply file_advance_typed]|].
    eapply moved; [by apply file_advance_keeps|exact Hrun|done].
Qed.

(** Any number of steps. *)
Lemma rtc_lookup_typed c c' : rtc (status_step E) c c' → lookup_page_typed c → lookup_page_typed c'.
Proof. induction 1; [done|]. intros Hc. by apply IHrtc, (status_step_typed x). Qed.
Lemma rtc_form_typed c c' : rtc (file_step E V) c c' → form_page_typed c → form_page_typed c'.
Proof. induction 1; [done|]. intros Hc. by apply IHrtc, (file_step_typed x). Qed.

(** ** The catalog, the dashboard and the badge *)
Lemma catalog_effect_typed t : t = thread (catalog_effect E) → always E catalog_typed_state t.
Proof.
  intros ->. eapply always_thread, load_gives.
  - intros e s (_ & Ht & Hr). by split; [apply detail_error|].
  - intros n r d s Hr Hd (He & _ & Hres). split_and!; [done| |done]. right. by eapply catalog_typed.
Qed.
Lemma subscribe_task_typed t : template_shape t → always E catalog_typed_state (thread (subscribe_task E V t)).
Proof.
  intros ([k Hid] & _). eapply always_thread. unfold subscribe_task.
  repeat (apply subscribe_chain_gives || gives_step).
  - by intros s (_ & Ht & Hr).
  - intros s (He & Ht & _). by split_and!; [| |left].
  - done.
  - done.
  - exact BT.
  - destruct Hret6 as [Ha Hb]. rewrite Hid in Hret1. injection Hret1 as <-. intros s (He & Ht & _). split_and!; [done|done|]. right. solve_result.
  - intros s (_ & Ht & Hr). by split; [apply text_error|].
Qed.
Lemma offered_shape s t : catalog_typed_state s → offers_plan E s t → template_shape t.
Proof.
  intros (_ & [Hn|(l' & Hl' & Hk)] & _) (plans & error & result & l & i & plan & _ & Ht & Hl & _); [by rewrite Ht in Hn|].
  rewrite Ht in Hl'. injection Hl' as <-. by apply (Forall_lookup_1 _ _ _ _ Hk Hl).
Qed.
Lemma status_effect_typed policyId t : t = thread (status_effect E policyId) → always E badge_typed t.
Proof.
  intros ->. eapply always_thread, load_gives.
  - intros e s (_ & Hp & Hs). by split; [apply detail_error|].
  - intros n r d s Hr Hd (Hl & Hp & _). split_and!; [done|done|]. right. by eapply status_typed.
Qed.
Lemma pay_task_typed policyId st : always E badge_typed (thread (pay_task E V policyId st)).
Proof.
  eapply always_thread. unfold pay_task. repeat (apply pay_chain_gives || gives_step); try done.
  - by intros s (Hl & _ & Hs).
  - intros s (Hl & _ & Hs). by split_and!; [|apply text_error|].
Qed.
Lemma claims_effect_typed t : (∃ token, t = thread (claims_effect E token)) → always E dashboard_typed t.
Proof.
  intros [token ->]. eapply always_thread, load_gives.
  - intros e s [_ Hc]. by split; [apply detail_error|].
  - intros n r d s Hr Hd [He _]. split; [done|]. right. by eapply claims_typed.
Qed.
End overlap.

(** The dashboard has no button of its own; its effect runs for each token. *)
Definition dashboard_step (E : WebEnv) :=
  pool_step E (λ _ (_ : Empty_set), False) (λ _, Over) (λ t, ∃ token, t = thread (claims_effect E token)).

(** C13: The pages render.  If the backend answers with the shapes of its
    response models, and its error details are texts or anything else React
    accepts, then rendering a page never throws, at any await of any number
    of overlapping handlers and loading effects: not the form, the claim
    page, the catalog, the dashboard or a badge. *)
Theorem pages_render (E : WebEnv) (V : ViteEnv) {BT : BackendTypes E} {R : React} {RL : ReactLaws R}
    (policyId : jsval) (Hdetails : details_show E) :
  (∀ (w : Web FileClaim) phs w', page w = mkFileClaim Idle VNull VNull → rtc (file_step E V) ([], w) (phs, w') →
    ∃ view, render_FileClaim (page w') = Ok view) ∧
  (∀ (w : Web ClaimStatus) phs w', page w = mkClaimStatus VNull VNull false VNull → rtc (status_step E) ([], w) (phs, w') →
    ∃ view, render_ClaimStatus (page w') = Ok view) ∧
  (∀ (w : Web BuyPolicy) fs w', page w = mkBuyPolicy VNull VNull VNull VNull → rtc (catalog_step E V) ([], w) (fs, w') →
    ∃ view, render_BuyPolicy E (page w') = Ok view) ∧
  (∀ (w : Web Dashboard) fs w', page w = mkDashboard VNull VNull → rtc (dashboard_step E) ([], w) (fs, w') →
    ∃ view, render_Dashboard (page w') = Ok view) ∧
  (∀ (w : Web Badge) fs w', page w = badge_initial → rtc (badge_step E V policyId) ([], w) (fs, w') →
    ∃ view, render_badge E (page w') = Ok view).
Proof.
  split_and!.
  - intros w phs w' Hw Hr. apply form_renders.
    apply (rtc_form_typed E V Hdetails _ _ Hr). split; [done|]. cbn. rewrite Hw. by split; [|left].
  - intros w phs w' Hw Hr. apply lookup_renders.
    apply (rtc_lookup_typed E Hdetails _ _ Hr). split; [done|]. cbn. rewrite Hw. by split; [|left].
  - intros w fs w' Hw Hr. apply catalog_renders; try exact _. eapply pool_reach_typed; [| |exact Hr|].
    + intros s t Hs Ht. by eapply subscribe_task_typed, offered_shape.
    + by apply catalog_effect_typed.
    + rewrite Hw. by split_and!; [|left..].
  - intros w fs w' Hw Hr. apply dashboard_renders. eapply pool_reach_typed; [| |exact Hr|].
    + by intros s [].
    + by apply claims_effect_typed.
    + rewrite Hw. by split; [|left].
  - intros w fs w' Hw Hr. apply badge_renders; try exact _. eapply pool_reach_typed; [| |exact Hr|].
    + intros s st _ _. by apply pay_task_typed.
    + by apply status_effect_typed.
    + rewrite Hw. by split_and!; [| |left].
Qed.

(** A plan is loaded and bought, while the catalog is loaded again. *)
Section typed_demo.
Import ReactReference.
Lemma pages_render_witness :
  (∃ view, render_BuyPolicy typed_web (page plan_bought.2) = Ok view) ∧
  render_BuyPolicy typed_web (page plan_bought.2) = Ok (CatalogPlans
    [mkPlan ["3"] "2000" "25" (Int 30) false "Subscribe"] None (Some (["3"], ["0xmined"], ["0xmined"]))) ∧
  details_show typed_web.
Proof.
  assert (details_show typed_web) as Hd by (intros [] Ht; by apply text_shows || done).
  destruct (pages_render typed_web demo_vite VNull Hd) as (_ & _ & H & _).
  split_and!; [|vm_compute; reflexivity|exact Hd].
  apply (H (demo_page (mkBuyPolicy VNull VNull VNull VNull)) plan_bought.1); [reflexivity|].
  rewrite <-surjective_pairing. exact plan_bought_reached.
Defined.
End typed_demo.
