(* ===== verification/EndToEnd.v ===== *)
(** * From the claim form to the index

    The frontend and the indexer meet only on chain and in the backend, by
    the merkle root.  This file composes their theorems: what a filing sent
    ([FrontendRuns]) and what a recovered index holds ([IndexerRecovery]),
    joined by the one thing the contract does in between, which is a
    hypothesis ([registry_logs]: a mined submission is logged as
    [ClaimSubmitted] with the values it was sent). *)

From S2P Require Import Prelude JsValue JsText Buffer FrontendContract FrontendPages FrontendRuns.
From S2P Require Import Zod IndexerConfig IndexerStore IndexerWorld BackendClient EventHandlers Listener IndexerMirror Scenario IndexerHistory IndexerRecovery.

(** ** Claims and notifications of a list of logs *)
Section views.
Context (config : Config) (event_of : Log → option ChainEvent).

(** The log emitted the submission of claim [id]. *)
Definition submits (log : Log) (id policy : Z) (root : string) (amount : Z) : Prop :=
  ∃ claimant ts, event_of log = Some (EvClaimSubmitted id policy claimant root amount ts).

Lemma claim_view_snoc l e : claim_view config event_of (l ++ [e]) =
  match event_of e.1 with
  | Some ev => (if is_projected e.2 then claims_step e.1 ev (claim_view config event_of l).1 else (claim_view config event_of l).1,
                (claim_view config event_of l).2 ++
                if is_processed e.2 then notifications config e.1 ev (claim_view config event_of l).1 else [])
  | None => claim_view config event_of l
  end.
Proof. unfold claim_view. by rewrite foldl_snoc. Qed.

(** No projected submission, no row. *)
Lemma unsubmitted_absent l id : (∀ e p r a, e ∈ l → submits e.1 id p r a → is_projected e.2 = false) →
  (claim_view config event_of l).1 !! id = None.
Proof.
  induction l as [|[log f] l IH] using rev_ind; intros H; [done|]. rewrite claim_view_snoc. cbn [fst snd].
  specialize (IH ltac:(intros e p r a Hin; apply H; set_solver)).
  destruct (event_of log) as [ev|] eqn:Hev; [|done]. cbn [fst]. destruct (is_projected f) eqn:Hf; [|done].
  destruct ev as [id' p c r a ts|id' s|id' to a t| |]; cbn [claims_step]; try done.
  - destruct (decide (id' = id)) as [->|Hne].
    + specialize (H (log, f) p r a). simpl in H. rewrite Hf in H. exfalso. by discriminate H; [set_solver|exists c, ts].
    + by rewrite lookup_union_r, lookup_singleton_ne.
  - rewrite lookup_alter. case_decide; [subst; by rewrite IH|done].
  - rewrite lookup_alter. case_decide; [subst; by rewrite IH|done].
Qed.

(** What a row keeps of its submission, whatever follows. *)
Definition row_of (log : Log) (policy : Z) (root : string) (amount : Z) (r : ClaimRow) : Prop :=
  cl_policy r = policy ∧ cl_merkle_root r = root ∧ cl_amount r = amount ∧
  cl_submitted_tx r = transactionHash log ∧ cl_submitted_block r = blockNumber log.

Lemma claims_step_keeps_row log0 policy root amount log ev id cs r : cs !! id = Some r → row_of log0 policy root amount r →
  ∃ r', claims_step log ev cs !! id = Some r' ∧ row_of log0 policy root amount r'.
Proof.
  intros Hr Hrow. destruct ev; cbn [claims_step]; try (by exists r).
  - exists r. split; [by apply lookup_union_Some_l|done].
  - rewrite lookup_alter. case_decide; subst; rewrite Hr; by eexists.
  - rewrite lookup_alter. case_decide; subst; rewrite Hr; by eexists.
Qed.

Lemma submitted_row l e id policy root amount :
  e ∈ l → submits e.1 id policy root amount → is_projected e.2 = true →
  (∀ e' p r a, e' ∈ l → submits e'.1 id p r a → e' = e) →
  ∃ r, (claim_view config event_of l).1 !! id = Some r ∧ row_of e.1 policy root amount r.
Proof.
  intros Hin Hs Hf. induction l as [|e' l IH] using rev_ind; intros Hu; [by apply elem_of_nil in Hin|].
  rewrite claim_view_snoc. destruct (decide (e ∈ l)) as [Hl|Hl].
  - destruct (IH Hl) as (r & Hr & Hrow); [intros e'' p r' a Hl'; apply Hu, elem_of_app; by left|].
    destruct (event_of e'.1) as [ev|]; [|by exists r]. cbn [fst].
    destruct (is_projected e'.2); [by apply claims_step_keeps_row with r|by exists r].
  - apply elem_of_app in Hin as [?|Hin]; [done|]. apply list_elem_of_singleton in Hin as ->.
    assert ((claim_view config event_of l).1 !! id = None) as Hnone.
    { apply unsubmitted_absent. intros e'' p r a Hl' Hs'. rewrite (Hu e'' p r a) in Hl'; [done|by apply elem_of_app; left|done]. }
    destruct Hs as (claimant & ts & ->). rewrite Hf. cbn [fst claims_step]. eexists.
    split; [by rewrite lookup_union_r, lookup_singleton_eq|done].
Qed.

(** Its notification was sent. *)
Lemma submitted_notified l e id policy root amount u : e ∈ l → submits e.1 id policy root amount →
  is_processed e.2 = true → backend_url config = Some u →
  webhook_request config u (Some (webhook_body e.1 "ClaimSubmitted" id root "submitted")) ∈ (claim_view config event_of l).2.
Proof.
  intros Hin (claimant & ts & Hev) Hf Hu. induction l as [|e' l IH] using rev_ind; [by apply elem_of_nil in Hin|].
  rewrite claim_view_snoc. apply elem_of_app in Hin as [Hin|Hin].
  - destruct (event_of e'.1); [cbn [snd]; apply elem_of_app; left|]; by apply IH.
  - apply list_elem_of_singleton in Hin as <-. rewrite Hev, Hf. cbn. unfold webhook. rewrite Hu. set_solver.
Qed.
End views.

(** ** The contract in between *)

(** A claim was submitted on the indexed contract with these values, at or
    below block [safe]. *)
Definition submission_logged (config : Config) (chain : string → list Log) (event_of : Log → option ChainEvent)
    (safe : Z) (policyId : jsval) (root : string) (amountWei : Z) : Prop :=
  ∃ log id policy, policyId = VNum (Int policy) ∧ log ∈ onchain config chain ClaimRegistry ∧
    blockNumber log <= safe ∧ submits event_of log id policy root amountWei.

(** The registry logs what was mined: a submission to the indexed address
    that is the last thing the form sent, waited for, and whose result the
    form shows. *)
Definition registry_logs (config : Config) (chain : string → list Log) (event_of : Log → option ChainEvent)
    (safe : Z) (w : Web FileClaim) : Prop := ∀ policyId root amountWei,
  [SendTx (claimRegistryAddress config) "submitClaim" [policyId; VStr root; VBigInt amountWei]; WaitTx]
    `suffix_of` actions w →
  fc_result (page w) ≠ VNull → submission_logged config chain event_of safe policyId root amountWei.

(** Claim ids are given out once. *)
Definition ids_unique (config : Config) (chain : string → list Log) (event_of : Log → option ChainEvent) : Prop :=
  ∀ log log' id p r a p' r' a', log ∈ onchain config chain ClaimRegistry → log' ∈ onchain config chain ClaimRegistry →
  submits event_of log id p r a → submits event_of log' id p' r' a' → log' = log.

Lemma requireAddress_same WE a name a' : requireAddress WE (Some a) name = Ok a' → a' = a.
Proof. unfold requireAddress. destruct a as [|c s]; [done|]. case_bool_decide; [done|]. congruence. Qed.

(** ** Filing, end to end *)

(** What the index has of a submission in its history. *)
Definition indexed_submission (config : Config) (wi : World) (e : Entry) (id policy : Z) (root : string) (amountWei : Z) : Prop :=
  (if is_projected e.2 then ∃ r, IndexerStore.claims (db wi) !! id = Some r ∧ row_of e.1 policy root amountWei r
   else IndexerStore.claims (db wi) !! id = None) ∧
  (is_processed e.2 = true → ∀ u, backend_url config = Some u →
    webhook_request config u (Some (webhook_body e.1 "ClaimSubmitted" id root "submitted")) ∈ IndexerWorld.sent wi).

Lemma accounted_submission E config chain event_of ps p wi e id policy root amountWei :
  accounts E config chain event_of ps p wi → chain_ok config chain event_of E → ids_unique config chain event_of →
  e ∈ p ClaimRegistry → submits event_of e.1 id policy root amountWei →
  indexed_submission config wi e id policy root amountWei.
Proof.
  intros [[Hv _] Hp _ _] Hc Hu Hin Hs. specialize (Hp ClaimRegistry).
  assert (∀ e', e' ∈ p ClaimRegistry → ∃ i, p ClaimRegistry !! i = Some e' ∧ onchain config chain ClaimRegistry !! i = Some e'.1) as Hon.
  { intros e' [i Hi]%list_elem_of_lookup_1. exists i. split; [done|]. eapply prefix_lookup_Some; [|exact Hp].
    by rewrite list_lookup_fmap, Hi. }
  assert (∀ e' p' r a, e' ∈ p ClaimRegistry → submits event_of e'.1 id p' r a → e' = e) as Huniq.
  { intros e' p' r a Hin' Hs'. destruct (Hon _ Hin) as (i & Hi & Hoi), (Hon _ Hin') as (j & Hj & Hoj).
    assert (e'.1 = e.1) as Hlog by (eapply Hu; eauto using list_elem_of_lookup_2).
    destruct (ch_unique _ _ _ _ Hc _ _ _ _ _ _ Hoi Hoj) as [_ <-]; [by rewrite Hlog|]. congruence. }
  pose proof (f_equal fst Hv) as Hcl. pose proof (f_equal snd Hv) as Hn. cbn [fst snd] in Hcl, Hn.
  unfold indexed_submission. rewrite Hcl, Hn. split; [|intros Hf u; by apply submitted_notified with policy amountWei].
  destruct (is_projected e.2) eqn:Hf; [by apply submitted_row|]. apply unsubmitted_absent.
  intros e' p' r a Hin' Hs'. by rewrite (Huniq _ _ _ _ Hin' Hs').
Qed.

(** What a filing whose result is shown has sent. *)
Lemma filed_sent WE V token policyId amount description w : let w' := (handleSubmit WE V token policyId amount description w).2 in
  fc_result (page w') ≠ VNull →
  ∃ root salt registry amountWei, placeholderMerkleRoot WE description salt = Ok root ∧
    claim_post token policyId amount root salt ∈ actions w' ∧
    requireAddress WE (VITE_CLAIM_REGISTRY_ADDRESS V) "VITE_CLAIM_REGISTRY_ADDRESS" = Ok registry ∧
    parseEther WE amount = inl amountWei ∧
    claim_submission policyId registry root amountWei `suffix_of` actions w'.
Proof.
  intros w' Hres. pose proof (handleSubmit_runs WE V token policyId amount description w) as H. subst w'.
  destruct (handleSubmit _ _ _ _ _ _ _) as [res w']. cbn [snd] in *. destruct H as (_ & new & Hn & _ & _ & Hdone & _).
  destruct (Hdone Hres) as (root & Hroot & Hf & _).
  inversion Hf as [registry amountWei Hreg Hz Hnew]. subst new.
  exists root, (claim_salt WE (randoms w)), registry, amountWei. rewrite Hn. split_and!; try done.
  - apply elem_of_app. right. apply list_elem_of_here.
  - exists (actions w ++ [claim_post token policyId amount root (claim_salt WE (randoms w)); ImportModule "ethers"; GetSigner]).
    by rewrite <-app_assoc.
Qed.

(** C11: Filing, end to end.  The form shows the result of a filing; the
    registry it was sent to is the one the indexer reads, and logs what is
    mined.  After any history of failures and kills, once every call is
    answered, one pass of the indexer accounts for the submission, provided
    no log that listener.js cannot process stands before it ([reached]).  If
    its raw event was not yet recorded when the calls were answered again, it
    is processed whole; if it was, it may have been cut short before, by a
    failure or a kill of its own, and stays so.  Unless it was cut short
    before its projection the claim's row has the merkle root that the form
    computed and posted to the backend, with the policy and the amount in wei
    of the form (and otherwise there is no row); and if it was processed
    whole the backend has been sent a webhook with that very root. *)
Theorem filed_claim_is_indexed (WE : WebEnv) (V : ViteEnv) (token : jsval) (policyId amount description : string)
    (w : Web FileClaim) (E : Env) {PL : PgLaws E} (config : Config)
    (chain : string → list Log) (event_of : Log → option ChainEvent) (ps : list Process) (n from : nat) (head block : Z) :
  VITE_CLAIM_REGISTRY_ADDRESS V = Some (claimRegistryAddress config) →
  ConfigOk config → lower (claimRegistryAddress config) ≠ lower (insurancePolicyAddress config) →
  logs_exact chain E → chain_ok config chain event_of E → ids_unique config chain event_of →
  let w0 := lives E config ps (boot empty_db) in
  all_well E from head → (from <= IndexerWorld.clock w0)%nat → reached E config chain head ClaimRegistry block →
  let w' := (handleSubmit WE V token policyId amount description w).2 in
  registry_logs config chain event_of block w' →
  fc_result (page w') ≠ VNull →
  let wi := (mainLoop E config (S n) w0).2 in
  ∃ root salt log f id policy amountWei,
    placeholderMerkleRoot WE description salt = Ok root ∧
    claim_post token policyId amount root salt ∈ actions w' ∧
    Number (VStr policyId) = VNum (Int policy) ∧ parseEther WE amount = inl amountWei ∧
    submits event_of log id policy root amountWei ∧
    explained event_of E ps (log, f) ∧
    (events (db w0) !! log_key log = None → f = Processed) ∧
    indexed_submission config wi (log, f) id policy root amountWei.
Proof.
  intros Haddr Hcfg Hne Hl Hc Hu w0 Hwell Hfrom Hblk w' Hreg Hres wi.
  destruct (filed_sent WE V token policyId amount description w Hres)
    as (root & salt & registry & amountWei & Hroot & Hpost & Haddr' & Hz & Hsuf).
  rewrite Haddr in Haddr'. apply requireAddress_same in Haddr' as ->.
  destruct (Hreg _ _ _ Hsuf Hres) as (log & id & policy & Hpol & Hin & Hblock & Hs).
  destruct (recovered E config chain event_of Hcfg Hne Hl Hc ps n from head Hwell Hfrom)
    as (p0 & p1 & H0 & H1 & Hproc & Hcov).
  specialize (Hcov ClaimRegistry block Hblk).
  assert (log ∈ (p0 ClaimRegistry ++ p1 ClaimRegistry).*1) as [[log' f] [Heq He]]%list_elem_of_fmap
    by (destruct Hcov as [rest ->]; apply elem_of_app; left; by apply elem_of_upto).
  simpl in Heq. subst log'.
  exists root, salt, log, f, id, policy, amountWei. split_and!; try done.
  - pose proof (ac_explained _ _ _ _ _ _ _ H1 ClaimRegistry) as Hex. rewrite Forall_forall in Hex. by apply Hex.
  - intros Hnone. apply elem_of_app in He as [He|He].
    + exfalso. destruct (ac_mirrors _ _ _ _ _ _ _ H0) as (_ & _ & Hev). destruct Hs as (claimant & ts & Hs).
      assert (events (db w0) !! log_key log = Some (event_row config ClaimRegistry log (EvClaimSubmitted id policy claimant root amountWei ts)))
        as Hrow; [|congruence].
      apply Hev. eexists ClaimRegistry, log, _. split_and!; [|done..]. apply list_elem_of_fmap. by exists (log, f).
    + specialize (Hproc ClaimRegistry). rewrite Forall_forall in Hproc. by apply (Hproc (log, f)).
  - by eapply accounted_submission.
Qed.

(** ** A filing of the demonstration chain's claim *)
Definition filing_vite : ViteEnv := mkVite (Some claims_addr) None None None.
Definition end_to_end_web : WebEnv := {|
  answer n a := match a with
    | HttpPost _ _ _ _ => inl (VObj [("data", VObj [("id", VNum (Int 41))])])
    | WaitTx => inl (VObj [("hash", VStr "0xt1")])
    | _ => inl (VObj []) end;
  getRandomValues n := be 32 (Z.of_nat n);
  randomUUID n := dec (Z.of_nat n);
  ZeroAddress := "0x0";
  parseEther s := match undec s with Some z => inl z | None => inr "invalid" end;
  formatEther v := inr "invalid";
  toUtf8Bytes _ := inl [];
  getBytes s := inl (bytes_of_hex (slice2 s));
  keccak256_concat _ := "0x99";
  JsonRpcProvider _ := inl tt;
  error_detail _ := VUndef;
|}.
Definition filed : Web FileClaim :=
  (handleSubmit end_to_end_web filing_vite VNull "7" "250" "storm" (demo_page (mkFileClaim Idle VNull VNull))).2.

Lemma demo_submits log id p r a : log ∈ demo_claim_logs → submits demo_event_of log id p r a →
  log = demo_log 1 claims_addr "0xt1" 5.
Proof.
  unfold demo_claim_logs. intros Hin (c & ts & He).
  repeat (apply elem_of_cons in Hin as [->|Hin]; [by vm_compute in He|]). by apply elem_of_nil in Hin.
Qed.
Lemma demo_ids_unique : ids_unique demo_config demo_chain demo_event_of.
Proof.
  intros log log' id p r a p' r' a'. rewrite demo_onchain. intros Hl Hl' Hs%demo_submits Hs'%demo_submits; [|done..]. congruence.
Qed.

Lemma demo_registry_logs : registry_logs demo_config demo_chain demo_event_of 5 filed.
Proof.
  intros policyId root amountWei [before Hb] _.
  assert (actions filed = take 3 (actions filed) ++
    [SendTx claims_addr "submitClaim" [VNum (Int 7); VStr "0x99"; VBigInt 250]; WaitTx]) as Ha by (vm_compute; reflexivity).
  rewrite Ha in Hb. apply app_inj_2 in Hb as [_ Hb]; [|done]. injection Hb as <- <- <-.
  exists (demo_log 1 claims_addr "0xt1" 5), 1, 7. split_and!; [done| |vm_compute; discriminate|].
  - rewrite demo_onchain. apply list_elem_of_here.
  - by exists "0xDeF", 1000.
Qed.

(** The services of [ethers_v6], and the two killed processes. *)
Lemma filed_claim_is_indexed_witness :
  let ps := [crashed 9 14; crashed 20 60] in
  let w0 := lives ethers_v6 demo_config ps (boot empty_db) in
  let wi := (mainLoop ethers_v6 demo_config 1 w0).2 in
  fc_result (page filed) = VObj [("claimId", VNum (Int 41)); ("txHash", VStr "0xt1")] ∧
  events (db w0) !! ("0xt1", 0) = None ∧ cl_status <$> IndexerStore.claims (db wi) !! 1 = Some "submitted" ∧
  ∃ root salt log f id policy amountWei,
    placeholderMerkleRoot end_to_end_web "storm" salt = Ok root ∧
    claim_post VNull "7" "250" root salt ∈ actions filed ∧
    Number (VStr "7") = VNum (Int policy) ∧ parseEther end_to_end_web "250" = inl amountWei ∧
    submits demo_event_of log id policy root amountWei ∧ explained demo_event_of ethers_v6 ps (log, f) ∧
    (events (db w0) !! log_key log = None → f = Processed) ∧
    indexed_submission demo_config wi (log, f) id policy root amountWei.
Proof.
  split; [vm_compute; reflexivity|]. split; [vm_compute; reflexivity|]. split; [vm_compute; reflexivity|].
  apply (filed_claim_is_indexed end_to_end_web filing_vite VNull "7" "250" "storm" (demo_page (mkFileClaim Idle VNull VNull))
    ethers_v6 demo_config demo_chain demo_event_of [crashed 9 14; crashed 20 60] 0 60 11 5);
    [reflexivity|exact demo_config_ok|exact demo_distinct|exact (demo_logs_exact _ _)|exact (demo_chain_ok _ _ parse_bigint_decodes)
    |exact demo_ids_unique|exact ethers_v6_well|vm_compute; lia|by apply demo_reached|exact demo_registry_logs|vm_compute; discriminate].
Defined.
