(* ===== verification/Agreement.v ===== *)
(** * Tables that must agree across the services

    The claim statuses are numbered in the scripts, named by the indexer and
    labelled by the frontend, each from its own copy of the contract's enum;
    the oracle's typed data repeats the adapter's struct. *)

From S2P Require Import Prelude JsValue EventHandlers SafeScripts OracleServer FrontendViews.

(** What an owner sees once the indexer has reported the event a script's
    action emits: the badge of the name of the code the script encodes. *)
Definition shown_after (action_status : string) : option string :=
  match claim_status action_status with
  | VNum n => Some (ClaimStatusBadge (status_name (VNum n)))
  | _ => None
  end.

(** [encodeType] of EIP-712 for a struct of atomic members. *)
Definition encodeType (t : string * list (string * string)) : string :=
  t.1 +:+ "(" +:+
    (fix go (l : list (string * string)) : string :=
       match l with
       | [] => ""
       | [(n, ty)] => ty +:+ " " +:+ n
       | (n, ty) :: l => ty +:+ " " +:+ n +:+ "," +:+ go l
       end) t.2 +:+ ")".

(** One enum, four tables.  Every status of the scripts' table is named by
    the indexer with its own name in lower case, and that name has a label on
    the frontend's badge (not the fallback); so approving or rejecting a claim
    through the Safe ends up shown as Approved or Rejected.  The oracle signs
    the struct type the adapter hashes, member for member as its ABI has it. *)
Theorem status_tables_agree :
  Forall (λ '(name, code), status_name (VNum (Int code)) = lower name ∧
    is_Some (assoc (lower name) STATUS_LABELS)) CLAIM_STATUS ∧
  shown_after "APPROVED" = Some "Approved" ∧ shown_after "REJECTED" = Some "Rejected" ∧
  encodeType <$> ORACLE_RESPONSE_TYPES =
    ["OracleResponse(uint256 claimId,bytes32 requestId,bool approved,uint256 timestamp)"].
Proof.
  split; [|by vm_compute]. unfold CLAIM_STATUS.
  repeat (constructor; [split; [vm_compute; reflexivity|eexists; vm_compute; reflexivity]|]). constructor.
Qed.
